(* ===== verification/_CoqProject ===== *)
-Q . S2P
Prelude.v
CxxString.v
FlatSet.v
TraceProto.v
ProcFs.v
StatusParse.v
ProcessStats.v
PacketCursor.v
StatsCache.v
Handlers.v
TreeView.v
StatsView.v
Polling.v
TraceShape.v
Describes.v
Timestamps.v
Typing.v
Expiry.v
Lifetime.v
SetIdStorage.v
Timeline.v
Examples.v
