(* ===== verification/Prelude.v ===== *)
(** * Verification of perfetto's process-stats probe and SetId column storage

    This library models the [linux.process_stats] data source of
    [traced_probes] and the grouping-id column storage of the trace
    processor, and proves the properties that make them correct.

    ** The program

    - [src/traced/probes/ps/process_stats_data_source.cc] scans [/proc],
      parses [/proc/<pid>/status], and writes two kinds of trace
      packets: process trees (one entry per process or thread, written
      once per incremental-state generation) and process stats (memory
      counters, [oom_score_adj] and open file descriptors, written only
      when they differ from a per-process cache).  It is driven by
      [Start], a periodic [Tick], the on-demand handlers [OnPids],
      [OnRenamePids], [OnFds], and by [Flush] and
      [ClearIncrementalState].  All handlers run on one task runner,
      each to completion.
    - [src/trace_processor/db/storage/set_id_storage.h] declares
      [SetIdStorage], the column storage whose values satisfy
      [value[i] <= i] and are non-decreasing.  Only the class declaration
      is in the tree; its operations are in [set_id_storage.cc], which is
      not, and are modelled from their specification.  The second half
      of the header is a unit test of [ProcessThreadTimeline], whose
      implementation is not in the tree either.

    ** Files, in dependency order

    - [Prelude] (this file): machine integers as [Z] with explicit
      wrap-around ([wrap_u32], [wrap_i32], [wrap_u64]); the state-and-fault
      monad [M] in which the handlers are written, with its notation in
      [m_scope]; the predicate transformer [wpf F], in which a fault [f]
      is accepted when [F f] holds, with its two instances [wp] (total
      correctness: no fault is accepted) and [wlp] (partial correctness:
      every fault is); [preserves F I m], the preservation of an
      invariant; the loop rules, among them [wp_foldM_fold] and
      [wp_foreach_fold] for loops that compute a fold; [wp_conj] and
      [wp_also], which join two specifications of one call; the rewrite
      database [wp], the hint database [pres] and the tactics
      [wp_simpl], [wp_step], [wp_case] and [pres]; shared lemmas on
      integers and lists.
    - [CxxString]: the C and C++ string routines the probe calls:
      [std::string::find], [find_first_not_of], [substr], C-string
      truncation at NUL, [strtol]/[atoi], [isspace], and perfetto's
      [CStringToInt32], [CStringToUInt64] and [StringSplitter].
    - [FlatSet]: [base::FlatSet] as a strictly sorted list with [insert],
      [erase] and [count], its well-formedness invariant, and the class
      [IntSet], the interface the data source is verified against.
    - [TraceProto]: the protozero messages the probe writes
      ([TracePacket], [ProcessTree], [ProcessStats] and their
      sub-messages) as records with append-only setters addressed by
      index, and the process entries of a packet and of a trace.
    - [ProcFs]: the environment.  A [ProcFs] record is one snapshot of
      [/proc] (directory listings, file contents, link targets); the
      boot clock is an oracle [nat -> Z] indexed by the number of
      readings.  [ReadNextNumericDir], [ReadProcPidFile], [OpenProcDir]
      and the scanning loop [scan_dir] with its fuel.
    - [StatusParse]: the pure parsers: [ReadProcStatusEntry], [ToInt],
      [ToU32], [ReadNamespacedTids], the command-line splitter, and the
      character-level state machine of [WriteMemCounters] ([mem_step])
      with its line-based reference [status_lines]; then the theorems
      on them: the state machine agrees with the line-based reference,
      a printed status line is read back, the shape of what
      [ReadProcStatusEntry] returns, the bounds check of
      [ReadNamespacedTids], the [strcmp] chain as a lookup, and the
      types of what the tree writers read.
    - [ProcessStats]: the data source itself.  [State] holds the members
      of [ProcessStatsDataSource] and what the object produces (released
      packets, posted tasks, flushes); every method of the [.cc] file is
      one definition in the monad [M State], named as in the source and
      composed as the code composes them; loop bodies are definitions of
      their own.
    - [PacketCursor]: the packet under construction and the three
      message pointers.  [cursor_wf] says when the pointers are well
      formed, [quiescent] when no packet is open; [emitted] is the list
      of process entries written so far.  Specifications of
      [StartNewPacketIfNeeded], [GetOrCreatePsTree], [GetOrCreateStats],
      [GetOrCreateStatsProcess] and [FinalizeCurPacket], with the frame
      each of them leaves untouched.
    - [StatsCache]: the per-process cache of counters: a counter is
      written when it differs from the cached value, and only then.
    - [Handlers]: the handlers as a transition system.  [Event] names
      the public methods, [handle] dispatches, [run] executes a sequence
      of events, each in the snapshot it finds, and [step]/[reachable]
      is the same as a relation.  The class [TreeInv] abstracts the
      properties of the entries written and of [seen_pids_] that the
      writers maintain; its instances are [fresh_since] (the entries
      written since a given state describe pids not seen then, each
      once), [process_typed] of every entry, and the trivial property.
      [Knobs] are the fields only the handlers themselves change, and
      [run_knobs] computes them from the events alone.  Every handler is
      proved to lead from an idle state to an idle state, for any
      [TreeInv] and any set of accepted faults; the theorems on runs
      and on reachable states ([reachable_idle]) follow by induction.
    - [TreeView]: the process tree as a function of [/proc].  A
      [TreeView] is the part of the state that decides which entries
      are written: the entries so far, [seen_pids_] and
      [skip_stats_for_pids_].  [view_delta], [view_tree],
      [view_all_processes] and [view_all_stats] are pure functions that
      compute what [WriteProcessOrThread], [WriteProcessTree],
      [WriteAllProcesses] and [WriteAllProcessStats] do to it;
      [abs_handle] and [abs_run] are the abstract machine of the
      handlers.  Every method is proved to take a state with view [v]
      to one with the view the function computes ([viewing] inside a
      handler, [resting] between two), the loops by the fold rules of
      the prelude.
    - [StatsView]: the rest of what a run produces as a function of
      [/proc].  A [StatsView] holds the thread entries, [tids_to_pids_],
      the entries of the stats messages, whether the last of them is
      open for writing ([cur_ps_stats_process_] is set), the cache and
      its tick counter.  The packet and its pointers become a list:
      [sv_touch] appends an entry unless one is open, [sv_write] alters
      the last entry, [sv_close] resets the pointer.  [sv_counter],
      [sv_mem], [sv_oom], [sv_single_fd] and [sv_fds] are the stats
      writers on that list, [sv_delta] and [sv_stats_step] the tree
      writers and one pid of the scan of [Tick], [sv_handle] and
      [sv_run] the abstract machine, which reads the tree view where
      the code reads [seen_pids_] and [skip_stats_for_pids_].  The
      lemmas join each specification of [TreeView] with its counterpart
      on the stats view ([tracing] inside a handler, [at_rest] between
      two).
    - [Polling]: the arithmetic of the constructor and of [Tick]:
      ranges of the settings, alignment of the tick delay, the cache
      clock.
    - [TraceShape]: the shape of the packets and the incremental
      state.  [packet_typed] says that a packet has a timestamp and
      exactly one message, closed with its end timestamp, and that the
      values of its stats entries fit their fields.  The handlers
      write in phases, only trees or only stats between two calls of
      [FinalizeCurPacket]; [shaped T ph] is the invariant of a phase
      and [rest T] the invariant between handlers, for a property [T]
      of the trace and of [announce], the flag the next packet will
      carry, proved of every writer by the tactic [pres];
      [extends ph T T'] is what a release of the phase needs of [T]
      and gives as [T'].  Two families of properties are carried
      through the handlers: that every packet is typed
      ([shaped_rest]), and [released tr0 b0 ks], that the trace is
      [tr0] followed by the packets the marks [ks] allow.  A mark is
      the kind of a packet a handler can release, or the request of
      [ClearIncrementalState] to announce the clearing
      ([handler_marks], [run_marks]); [emits b ks new b'] relates the
      marks to the packets: each is typed and of the kind of its mark,
      some may be missing, and a packet carries
      [incremental_state_cleared] exactly when it is the first after a
      clearing.  Both invariants also hold [covered]: every id of
      [seen_pids_] is described in the [epoch], the packets from the
      last one that announces a clearing.
    - [Describes]: what the tree handlers promise.  [asked e ev s pid]
      says that the handler [ev], called in the state [s], is asked to
      describe [pid] ([OnPids] the pids of the request, [Start] the
      processes of /proc and the threads of their task directories,
      [Tick] the processes it polls), [describable] what the status
      file must hold.  The theorem composes the abstract machine of
      [TreeView] with the invariant of [TraceShape].
    - [Timestamps]: the timestamps of the packets under a boot clock
      that never goes back.  [on_clock e] says that a handler call
      reads the clock, [timed] is the invariant: the packets released
      are [timely] (no message ends before the timestamp of its
      packet), their timestamps are sorted and bounded by
      [next_stamp], the least timestamp the next packet can carry.
      It is proved of every writer by [walk], the tactic [pres] with
      the scans of directories.
    - [Typing]: [state_typed], the types of what a state holds (typed
      packets, 32-bit fields, positive pids, strings without NUL, the
      tick counter below the time to live), and the proof that every
      reachable state is well typed.
    - [Expiry]: the expiry of the stats cache as a liveness property:
      [leads_to P evs s] says that the run of [evs] from [s] gets to a
      state satisfying [P], each handler before it returning; every run
      with enough [Tick]s gets to an empty cache.
    - [Lifetime]: the data source among its tasks.  A [World] is the
      object, whether its weak pointers are still valid, and the tasks
      bound to [Tick] that are pending; [destroy] is the destructor,
      [GetWeakPtr] what a weak pointer gives, [TickTask] the static
      [Tick] with its test of [weak_this], [on_object] a handler run on
      the object, whose posts go to the task runner.  A [Move] is what
      can happen next: a public method is called, a pending task runs
      (any of them: delays are recorded, time is not modelled), the
      object is destroyed.  [wexec] executes a move, [wrun] a sequence
      of them, [wreachable] are the worlds the moves lead to from the
      constructor.
    - [SetIdStorage]: the column of grouping ids.  [SetIdStorage] is
      the class with its one member [values_], [size] its inline method;
      [Search], [IndexSearch], [Sort], [StableSort] and [Serialize] are
      modelled from the specification: boundary binary searches
      ([partition_point], with [search_fuel] rounds), the narrowing of
      [Eq] ([BinarySearchIntrinsic]), the bit vector of [Ne], the
      validation of operands outside the 32-bit domain, an insertion
      sort that is stable and a merge sort, and an abstract sink.  A
      result denotes a list of positions ([positions]); [scan] is the
      linear scan it is measured against.  The class [Storage] is the
      capability contract; [SetIdStorage_Storage] discharges it and the
      partition law is proved from the contract alone.
    - [Timeline]: the unit test in the second half of
      [set_id_storage.h], translated test by test against the class
      [Timeline] (the operations the test calls: [Append], [Sort],
      [Search]), with its constants and parameter lists, and a model of
      [ProcessThreadTimeline] on which all its instances pass.
    - [Examples]: a concrete [/proc] with two processes and a thread and
      the column of the specification's worked example, on which the
      theorems are applied and on which the behaviours the model brought
      to light are evaluated; the timeline of the unit test.

    ** Modelling decisions

    - Integers keep their width: [uint32_t] values are [Z] in
      [0, 2^32) and every arithmetic result is wrapped where the C++
      wraps; [int32_t] casts use [wrap_i32].
    - [std::string] is [list ascii], so embedded NUL bytes (as in
      [/proc/<pid>/cmdline]) are ordinary elements.
    - Pointers into the packet under construction ([cur_ps_tree_],
      [cur_ps_stats_], [cur_ps_stats_process_]) are indices into the
      packet's list of sub-messages.  A write through an index that does
      not address a message of the expected kind leaves the packet
      unchanged; [cursor_wf] is the invariant under which this never
      happens.
    - [PERFETTO_DCHECK] is a no-op in release builds and is modelled as
      one.  [PERFETTO_CHECK] aborts the process and is the fault
      [FailedCheck] of the monad.  Dereferencing an empty
      [std::optional], a division by zero and a write out of the bounds
      of a vector are the fault [UndefinedBehaviour].
    - One handler call sees one [/proc] snapshot.  Races with process
      exit appear as snapshots in which a listed pid has no status file.
    - Directory scans use fuel [S (length entries)]; [scan_dir_terminates]
      proves that this fuel always suffices, so the fuel never changes a
      result.  The binary search uses [S (log2 (hi - lo))] rounds, one
      per halving of the span; [partition_point_linear] proves that
      these, or more, always suffice.  [Search] of the timeline follows
      parents for at most [kMaxSearchDepth] = 10 steps, the bound of the
      model, so a cycle of parents ends the search without a uid.  No
      other definition needs fuel: all other loops run over a list or a
      set.
    - Row positions of a column are [nat], its values and the operands
      of predicates are [Z]; the invariant bounds the values by their
      position and the number of rows by 2^32, so nothing wraps.
    - The map argument of [OnFds] is the list of its entries in
      iteration order; [seen_pids_] and [seen_fds] are iterated in the
      order [set_elements] gives.

    ** What the theorems show

    - Safety of runs: no process is described twice within one
      incremental-state generation ([run_no_duplicate_process]); between
      handlers no packet is open and no pointer is left dangling
      ([reachable_quiescent], [FinalizeCurPacket_quiescent]); every
      reachable state is well typed ([reachable_typed]): each packet
      of the trace has a timestamp and one closed message, a tree or
      stats, and every value written fits the type of its field; a
      run only appends to the trace, packets of the kinds of its
      handlers in their order, of which the first after a
      [ClearIncrementalState] and no other announces the clearing
      ([run_emits]); every process or thread the data source will not
      describe again is described in a packet that a reader who
      starts at the last announcement has ([seen_described]).
    - Completeness of the tree handlers: what [OnPids], [Start] and
      [Tick] are asked to describe is described in the epoch when
      they return ([handle_describes]).
    - Order of the timestamps: under one boot clock that never goes
      back, every packet has a timestamp that is not after the
      collection end timestamp of its message, and the timestamps
      never decrease along the trace ([run_timestamps]).
    - Refinement: every run implements the abstract machine of the
      process tree: the entries of the trace, [seen_pids_] and
      [skip_stats_for_pids_] after a run are those [abs_run] computes
      from the events and their snapshots ([run_refines]);
      the thread entries, the stats entries, [tids_to_pids_], the
      cache and its tick counter are those [sv_run] computes
      ([run_refines_stats]), so the trace of a run, up to packet
      boundaries and timestamps, and every table of the data source
      are functions of the events and of [/proc]; [OnRenamePids] erases
      exactly the ids given ([OnRenamePids_erases]).
    - Liveness: with polling on, every run with enough [Tick]s reaches
      a state with an empty cache ([cache_expires]); the handlers in
      between return because the run is total under the conditions on
      [/proc].
    - The data source among its tasks: every reachable world holds an
      object in a state the handlers reach, so that what is proved of
      those states holds however the task runner schedules; every call
      of [Start] keeps exactly one task pending while the object lives
      ([polling_chain]); nothing that can happen next faults, [Tick]
      running only with a period that is not 0 ([world_safe]); after
      the destructor the pending tasks run without effect and polling
      ends ([dead_world_halts]).
    - Total correctness: under explicit conditions on [/proc] every
      handler returns without fault ([run_returns]); directory scans
      terminate ([scan_dir_terminates]).
    - Functional behaviour of the writers and of the packet management
      ([WriteProcess_appends], [WriteProcessTree_skips_seen],
      [GetOrCreatePsTree_usable], [GetOrCreateStatsProcess_usable],
      [StartNewPacketIfNeeded_packet], [write_counter_idempotent]).
    - The parsers against their references
      ([mem_lines_status_lines], [ReadProcStatusEntry_render],
      [ReadNamespacedTids_spec], [counter_of_key_spec]) and the bounds of
      the arithmetic ([tick_delay_aligned], [make_settings_wf]).
    - The column storage: every search is the linear scan of its span
      ([Search_correct], [Search_Eq_block], [Storage_partition_law]);
      the binary search agrees with the linear
      one and terminates within its rounds ([partition_point_linear],
      [BinarySearchIntrinsic_narrowing]); subset search does not depend
      on order or on the [sorted] hint ([IndexSearch_order_independent],
      [IndexSearch_sorted_equiv]); sorts permute and order, the stable
      one stably ([Sort_StableSort_correct]); [Serialize] round trips
      and fails only with its sink ([Serialize_complete]); [size] and
      the values fit 32 bits ([size_value_bounds]).
    - The timeline: all 28 instances of the unit test pass on the model
      ([unit_test_passes]), and the answer of a search does not depend
      on the order in which events were appended, as long as no two
      events share pid and time ([Timeline_Search_order_independent]).
    - Behaviours found while modelling, each a theorem on every input of
      its kind and evaluated on a concrete run in [Examples]: on start
      at most one stats entry receives the descriptors of every process
      ([Start_stats_one_entry]); a line without a value reports the
      value of the line before ([mem_lines_stale_value]); a key is
      matched inside the name of a process
      ([ReadProcStatusEntry_spoofed]); a scan that cannot open [/proc]
      leaves its timestamp to the next packet
      ([failed_scan_keeps_timestamp]); a directory named -1 makes
      [pid_u + 1] wrap and [Tick] fault ([Tick_minus_one]); with a zero
      period [Tick] divides by zero and is never posted
      ([polling_off]).  A process entry written from the unreadable
      status file of a group leader, and the stats of a process that
      reports memory counters without [VmSize] and is never described
      (the hypothesis [handle_describes] needs of [Tick]), are shown
      on examples only.

    ** Not modelled

    - [TraceWriter] buffering, protozero wire encoding, metatrace,
      logging.  Of [base::TaskRunner] only the set of pending tasks is
      modelled: the order in which they run and their delays are left
      open, so that every theorem on worlds holds for any scheduling.
    - The two abstract machines leave out how the entries are split
      into packets and the timestamps of the packets and of the
      messages; [run_emits] gives the kinds of the packets, their
      order and their flags, [run_timestamps] the order of their
      timestamps, [StartNewPacketIfNeeded_packet] and
      [FinalizeCurPacket_quiescent] the timestamps of one packet.
      The clock is a function of the number of readings; the theorem
      on timestamps assumes readings that fit [uint64], so that the
      cast of [GetBootTimeNs] does not wrap.
    - The code of [SetIdStorage]'s operations ([set_id_storage.cc] is
      not in the tree; the model follows the specification), operands
      that are doubles or strings, and the wire format of [Serialize].
    - The code of [ProcessThreadTimeline] ([process_thread_timeline.cc]
      is not in the tree; the model is the one its unit test passes
      on), its read/write mode and events of type [kInvalid].
    - The registration of the data source: of
      [ProbesDataSource::Descriptor] only the value [descriptor] is
      modelled; that the service calls [ClearIncrementalState] on the
      data sources that set [kHandlesIncrementalState] is not in the
      sources.  What the flag promises is [run_emits] and
      [seen_described].
*)

From Stdlib Require Import ZArith List Ascii String Lia.
From stdpp Require Import base option list.

#[local] Open Scope Z_scope.

(** ** Machine integers *)

Definition wrap_u32 (z : Z) : Z := z mod 2 ^ 32.
Definition wrap_u64 (z : Z) : Z := z mod 2 ^ 64.
Definition wrap_i32 (z : Z) : Z := (z + 2 ^ 31) mod 2 ^ 32 - 2 ^ 31.
Definition wrap_i64 (z : Z) : Z := (z + 2 ^ 63) mod 2 ^ 64 - 2 ^ 63.

Definition is_u32 (z : Z) : Prop := 0 <= z < 2 ^ 32.
Definition is_i32 (z : Z) : Prop := - 2 ^ 31 <= z < 2 ^ 31.
Definition is_u64 (z : Z) : Prop := 0 <= z < 2 ^ 64.

Definition UINT32_MAX : Z := 2 ^ 32 - 1.
Definition INT32_MAX : Z := 2 ^ 31 - 1.
Definition LONG_MAX : Z := 2 ^ 63 - 1.
Definition LONG_MIN : Z := - 2 ^ 63.
Definition ULONG_MAX : Z := 2 ^ 64 - 1.

(** ** The state-and-fault monad *)

Inductive fault : Type :=
| FailedCheck
| UndefinedBehaviour.

Inductive result (S A : Type) : Type :=
| Ok (a : A) (s : S)
| Fault (f : fault).
Arguments Ok {S A} a s.
Arguments Fault {S A} f.

Definition M (S A : Type) : Type := S -> result S A.

Definition ret {S A} (a : A) : M S A := fun s => Ok a s.

Definition bind {S A B} (m : M S A) (k : A -> M S B) : M S B :=
  fun s => match m s with
           | Ok a s' => k a s'
           | Fault f => Fault f
           end.

Definition get {S} : M S S := fun s => Ok s s.
Definition put {S} (s : S) : M S unit := fun _ => Ok tt s.
Definition gets {S A} (f : S -> A) : M S A := fun s => Ok (f s) s.
Definition modify {S} (f : S -> S) : M S unit := fun s => Ok tt (f s).
Definition raise {S A} (f : fault) : M S A := fun _ => Fault f.

Declare Scope m_scope.
Delimit Scope m_scope with M.
Notation "x <- c1 ;; c2" := (bind c1 (fun x => c2))
  (at level 100, c1 at next level, right associativity) : m_scope.
Notation "c1 ;; c2" := (bind c1 (fun _ => c2))
  (at level 100, right associativity) : m_scope.
#[local] Open Scope m_scope.

Definition when_ {S} (b : bool) (m : M S unit) : M S unit :=
  if b then m else ret tt.

(** [foreach l body] is [for (x : l) body(x);]. *)
Fixpoint foreach {S X} (l : list X) (body : X -> M S unit) : M S unit :=
  match l with
  | [] => ret tt
  | x :: l' => body x ;; foreach l' body
  end.

(** [foldM f l a] is a loop over [l] that carries the local variables
    [a] from one iteration to the next. *)
Fixpoint foldM {S X A} (f : A -> X -> M S A) (l : list X) (a : A) : M S A :=
  match l with
  | [] => ret a
  | x :: l' => a' <- f a x ;; foldM f l' a'
  end.

(** The outcome of a pure computation that can fault, run in [M]. *)
Definition lift {S A} (r : fault + A) : M S A :=
  fun s => match r with inr a => Ok a s | inl f => Fault f end.

(** The final state of a run, when there is one. *)
Definition exec {S A} (m : M S A) (s : S) : option S :=
  match m s with Ok _ s' => Some s' | Fault _ => None end.

(** ** Weakest preconditions

    The predicate transformer of a computation, parametric in what is
    accepted of a fault: a run that returns must satisfy the
    postcondition, a run that faults with [f] must satisfy [F f].  With
    [F] nowhere true this is total correctness ([wp]: the run returns and
    its result is right); with [F] everywhere true it is partial
    correctness ([wlp]: if the run returns, its result is right). *)

Definition wpf {S A} (F : fault -> Prop) (m : M S A) (Q : A -> S -> Prop)
    (s : S) : Prop :=
  match m s with
  | Ok a s' => Q a s'
  | Fault f => F f
  end.

Definition no_fault : fault -> Prop := fun _ => False.
Definition any_fault : fault -> Prop := fun _ => True.

Abbreviation wp := (wpf no_fault).
Abbreviation wlp := (wpf any_fault).

(** [preserves F I m]: the computation [m] maintains the state
    predicate [I], whatever it returns. *)
Definition preserves {S A} (F : fault -> Prop) (I : S -> Prop) (m : M S A) : Prop :=
  forall s, I s -> wpf F m (fun _ s' => I s') s.

Create HintDb mach discriminated.
Create HintDb pres discriminated.
Create Rewrite HintDb wp.
Create Rewrite HintDb mach.

Section Wp.
Context {S : Type} (F : fault -> Prop).
Implicit Types (s : S).

Lemma wp_ret {A} (a : A) (Q : A -> S -> Prop) s : wpf F (ret a) Q s <-> Q a s.
Proof. reflexivity. Qed.

Lemma wp_bind {A B} (m : M S A) (k : A -> M S B) (Q : B -> S -> Prop) s :
  wpf F (bind m k) Q s <-> wpf F m (fun a s' => wpf F (k a) Q s') s.
Proof. unfold wpf, bind. destruct (m s); reflexivity. Qed.

Lemma wp_get (Q : S -> S -> Prop) s : wpf F get Q s <-> Q s s.
Proof. reflexivity. Qed.

Lemma wp_put (Q : unit -> S -> Prop) s s' : wpf F (put s') Q s <-> Q tt s'.
Proof. reflexivity. Qed.

Lemma wp_gets {A} (f : S -> A) (Q : A -> S -> Prop) s : wpf F (gets f) Q s <-> Q (f s) s.
Proof. reflexivity. Qed.

Lemma wp_modify (f : S -> S) (Q : unit -> S -> Prop) s :
  wpf F (modify f) Q s <-> Q tt (f s).
Proof. reflexivity. Qed.

Lemma wp_raise {A} (f : fault) (Q : A -> S -> Prop) s : wpf F (raise f) Q s <-> F f.
Proof. reflexivity. Qed.

Lemma wp_when (b : bool) (m : M S unit) (Q : unit -> S -> Prop) s :
  wpf F (when_ b m) Q s <-> if b then wpf F m Q s else Q tt s.
Proof. destruct b; reflexivity. Qed.

Lemma wp_if {A} (b : bool) (m1 m2 : M S A) (Q : A -> S -> Prop) s :
  wpf F (if b then m1 else m2) Q s <-> if b then wpf F m1 Q s else wpf F m2 Q s.
Proof. destruct b; reflexivity. Qed.

Lemma wp_mono {A} (m : M S A) (Q Q' : A -> S -> Prop) s :
  wpf F m Q s -> (forall a s', Q a s' -> Q' a s') -> wpf F m Q' s.
Proof. unfold wpf. destruct (m s); auto. Qed.

Lemma wp_conj {A} (m : M S A) (Q Q' : A -> S -> Prop) s :
  wpf F m Q s -> wpf F m Q' s -> wpf F m (fun a s' => Q a s' /\ Q' a s') s.
Proof. unfold wpf. destruct (m s); auto. Qed.

(** With the faults accounted for by one specification, another need
    only hold of the runs that return. *)
Lemma wp_also {A} (m : M S A) (Q Q' : A -> S -> Prop) s :
  wpf F m Q s -> wlp m Q' s -> wpf F m (fun a s' => Q a s' /\ Q' a s') s.
Proof. unfold wpf. destruct (m s); auto. Qed.

Lemma wp_of_eq {A} (m : M S A) (Q : A -> S -> Prop) s a s' :
  m s = Ok a s' -> Q a s' -> wpf F m Q s.
Proof. unfold wpf. intros ->. auto. Qed.

(** What a proved triple says of a run that returned. *)
Lemma wp_Ok {A} (m : M S A) (Q : A -> S -> Prop) s a s' :
  wpf F m Q s -> m s = Ok a s' -> Q a s'.
Proof. unfold wpf. intros H E. rewrite E in H. exact H. Qed.

(** Fewer accepted faults is a stronger statement. *)
Lemma wp_faults {A} (F' : fault -> Prop) (m : M S A) (Q : A -> S -> Prop) s :
  (forall f, F f -> F' f) -> wpf F m Q s -> wpf F' m Q s.
Proof. unfold wpf. destruct (m s); auto. Qed.

Lemma wp_foreach_nil {X} (body : X -> M S unit) (Q : unit -> S -> Prop) s :
  wpf F (foreach [] body) Q s <-> Q tt s.
Proof. reflexivity. Qed.

Lemma wp_foreach_cons {X} (x : X) l (body : X -> M S unit) (Q : unit -> S -> Prop) s :
  wpf F (foreach (x :: l) body) Q s <->
  wpf F (body x) (fun _ s' => wpf F (foreach l body) Q s') s.
Proof. cbn [foreach]. apply wp_bind. Qed.

(** The loop-invariant rule: an invariant indexed by the elements still
    to be visited. *)
Lemma wp_foreach {X} (I : list X -> S -> Prop) (l : list X)
    (body : X -> M S unit) s :
  I l s ->
  (forall x rest s0, I (x :: rest) s0 -> wpf F (body x) (fun _ s1 => I rest s1) s0) ->
  wpf F (foreach l body) (fun _ s' => I [] s') s.
Proof.
  intros HI Hbody. revert s HI.
  induction l as [|x l IH]; intros s HI.
  - exact HI.
  - apply wp_foreach_cons. eapply wp_mono; [apply Hbody, HI|].
    intros [] s1 H1. apply IH, H1.
Qed.

(** The same rule for an invariant that does not mention the list. *)
Lemma wp_foreach_inv {X} (I : S -> Prop) (l : list X) (body : X -> M S unit) s :
  I s ->
  (forall x s0, In x l -> I s0 -> wpf F (body x) (fun _ s1 => I s1) s0) ->
  wpf F (foreach l body) (fun _ s' => I s') s.
Proof.
  intros HI Hbody. revert s HI.
  induction l as [|x l IH]; intros s HI.
  - exact HI.
  - apply wp_foreach_cons. eapply wp_mono; [apply Hbody; [left; reflexivity|exact HI]|].
    intros [] s1 H1. apply IH; [|exact H1].
    intros y s0 Hy. apply Hbody. right. exact Hy.
Qed.

Lemma foreach_app {X} (l1 l2 : list X) (body : X -> M S unit) s :
  (foreach (l1 ++ l2) body) s = (foreach l1 body ;; foreach l2 body) s.
Proof.
  revert s. induction l1 as [|x l1 IH]; intros s; cbn [foreach app].
  - reflexivity.
  - unfold bind. destruct (body x s) as [[] s'|f]; [|reflexivity].
    rewrite IH. reflexivity.
Qed.

Lemma wp_lift {A} (r : fault + A) (Q : A -> S -> Prop) s :
  wpf F (lift r) Q s <-> match r with inr a => Q a s | inl f => F f end.
Proof. destruct r; reflexivity. Qed.

Lemma wp_foldM_nil {X A} (f : A -> X -> M S A) a (Q : A -> S -> Prop) s :
  wpf F (foldM f [] a) Q s <-> Q a s.
Proof. reflexivity. Qed.

Lemma wp_foldM_cons {X A} (f : A -> X -> M S A) x l a (Q : A -> S -> Prop) s :
  wpf F (foldM f (x :: l) a) Q s <->
  wpf F (f a x) (fun a' s' => wpf F (foldM f l a') Q s') s.
Proof. cbn [foldM]. apply wp_bind. Qed.

(** The loop-invariant rule for [foldM]: the invariant relates the
    carried variables, the elements still to be visited and the state. *)
Lemma wp_foldM {X A} (I : A -> list X -> S -> Prop) (f : A -> X -> M S A) l a s :
  I a l s ->
  (forall a0 x rest s0, I a0 (x :: rest) s0 ->
     wpf F (f a0 x) (fun a1 s1 => I a1 rest s1) s0) ->
  wpf F (foldM f l a) (fun a' s' => I a' [] s') s.
Proof.
  intros HI Hbody. revert a s HI.
  induction l as [|x l IH]; intros a s HI.
  - exact HI.
  - apply wp_foldM_cons. eapply wp_mono; [apply Hbody, HI|].
    intros a1 s1 H1. apply IH, H1.
Qed.

(** A loop whose body does not touch the state is a pure fold. *)
Lemma foldM_pure {X A} (f : A -> X -> M S A) (g : A -> X -> A) l a s :
  (forall a0 x s0, f a0 x s0 = Ok (g a0 x) s0) ->
  foldM f l a s = Ok (fold_left g l a) s.
Proof.
  intros Hf. revert a. induction l as [|x l IH]; intros a; [reflexivity|].
  cbn [foldM fold_left]. unfold bind. rewrite Hf. apply IH.
Qed.

(** *** Invariant preservation, by the structure of the program *)

Lemma preserves_ret {A} (I : S -> Prop) (a : A) : preserves F I (ret a).
Proof. intros s Hs. exact Hs. Qed.

Lemma preserves_bind {A B} (I : S -> Prop) (m : M S A) (k : A -> M S B) :
  preserves F I m -> (forall a, preserves F I (k a)) -> preserves F I (bind m k).
Proof.
  intros Hm Hk s Hs. apply wp_bind. eapply wp_mono; [apply Hm, Hs|].
  intros a s' Hs'. apply Hk, Hs'.
Qed.

Lemma preserves_get (I : S -> Prop) : preserves F I get.
Proof. intros s Hs. exact Hs. Qed.

Lemma preserves_gets {A} (I : S -> Prop) (f : S -> A) : preserves F I (gets f).
Proof. intros s Hs. exact Hs. Qed.

Lemma preserves_modify (I : S -> Prop) (f : S -> S) :
  (forall s, I s -> I (f s)) -> preserves F I (modify f).
Proof. intros Hf s Hs. apply Hf, Hs. Qed.

Lemma preserves_raise {A} (I : S -> Prop) (f : fault) :
  F f -> preserves F I (raise f : M S A).
Proof. intros Hf s _. exact Hf. Qed.

(** Loops: the body need only maintain the invariant on the elements
    it is run on. *)
Lemma preserves_foreach_elem {X} (I : S -> Prop) (l : list X) (body : X -> M S unit) :
  (forall x, x ∈ l -> preserves F I (body x)) -> preserves F I (foreach l body).
Proof.
  induction l as [|x l IH]; intros Hbody; [apply preserves_ret|].
  cbn [foreach]. apply preserves_bind; [apply Hbody; left|intros _; apply IH].
  intros y Hy. apply Hbody. right. exact Hy.
Qed.

Lemma preserves_foldM_elem {X A} (I : S -> Prop) (f : A -> X -> M S A) l a :
  (forall a0 x, x ∈ l -> preserves F I (f a0 x)) -> preserves F I (foldM f l a).
Proof.
  revert a. induction l as [|x l IH]; intros a Hf; [apply preserves_ret|].
  cbn [foldM]. apply preserves_bind; [apply Hf; left|intros a'; apply IH].
  intros a0 y Hy. apply Hf. right. exact Hy.
Qed.

Lemma preserves_foreach {X} (I : S -> Prop) (l : list X) (body : X -> M S unit) :
  (forall x, preserves F I (body x)) -> preserves F I (foreach l body).
Proof. intros Hbody. apply preserves_foreach_elem. intros x _. apply Hbody. Qed.

Lemma preserves_foldM {X A} (I : S -> Prop) (f : A -> X -> M S A) l a :
  (forall a0 x, preserves F I (f a0 x)) -> preserves F I (foldM f l a).
Proof. intros Hf. apply preserves_foldM_elem. intros a0 x _. apply Hf. Qed.

(** A triple whose postcondition implies the invariant. *)
Lemma preserves_wp {A} (I : S -> Prop) (m : M S A) (Q : S -> A -> S -> Prop) :
  (forall s, I s -> wpf F m (Q s) s) ->
  (forall s a s', I s -> Q s a s' -> I s') ->
  preserves F I m.
Proof. intros Hm HQ s Hs. eapply wp_mono; [apply Hm, Hs|]. intros a s'. apply HQ, Hs. Qed.

(** What a maintained invariant says of a run that returned. *)
Lemma preserves_Ok {A} (I : S -> Prop) (m : M S A) s a s' :
  preserves F I m -> I s -> m s = Ok a s' -> I s'.
Proof. intros Hm Hs. apply (wp_Ok m (fun _ s' => I s')), Hm, Hs. Qed.

Lemma preserves_conj {A} (I J : S -> Prop) (m : M S A) :
  preserves F I m -> preserves F J m -> preserves F (fun s => I s /\ J s) m.
Proof. intros HI HJ s [Hi Hj]. apply wp_conj; [apply HI, Hi|apply HJ, Hj]. Qed.

(** Loops that compute a fold: when each round of the body takes a
    state described by [v] to one described by [g v x], the loop takes
    it to one described by the fold of [g] over the list. *)
Lemma wp_foldM_fold {X A V} (J : A -> V -> S -> Prop) (g : V -> X -> V)
    (f : A -> X -> M S A) l :
  (forall a x v s, x ∈ l -> J a v s -> wpf F (f a x) (fun a' s' => J a' (g v x) s') s) ->
  forall a v s, J a v s -> wpf F (foldM f l a) (fun a' s' => J a' (fold_left g l v) s') s.
Proof.
  induction l as [|x l IH]; intros Hf a v s HJ; [exact HJ|].
  apply wp_foldM_cons. eapply wp_mono; [apply Hf; [left|exact HJ]|].
  cbn beta. intros a1 s1 H1. apply IH; [|exact H1].
  intros a0 y v0 s0 Hy. apply Hf. right. exact Hy.
Qed.

Lemma wp_foreach_fold {X V} (J : V -> S -> Prop) (g : V -> X -> V)
    (body : X -> M S unit) l :
  (forall x v s, x ∈ l -> J v s -> wpf F (body x) (fun _ s' => J (g v x) s') s) ->
  forall v s, J v s -> wpf F (foreach l body) (fun _ s' => J (fold_left g l v) s') s.
Proof.
  induction l as [|x l IH]; intros Hf v s HJ; [exact HJ|].
  apply wp_foreach_cons. eapply wp_mono; [apply Hf; [left|exact HJ]|].
  cbn beta. intros _ s1 H1. apply IH; [|exact H1].
  intros y v0 s0 Hy. apply Hf. right. exact Hy.
Qed.

(** A loop cannot return when one of its rounds cannot: the body
    maintains [I] on the elements before [x], and does not return at
    [x]. *)
Lemma wp_foldM_stuck {X A} (I : S -> Prop) (f : A -> X -> M S A) l1 x l2 a s :
  (forall a y s, y ∈ l1 -> I s -> wpf F (f a y) (fun _ s' => I s') s) ->
  (forall a s, I s -> wpf F (f a x) (fun _ _ => False) s) ->
  I s -> wpf F (foldM f (l1 ++ x :: l2) a) (fun _ _ => False) s.
Proof.
  intros Hpre Hx. revert a s. induction l1 as [|y l1 IH]; intros a s HI.
  - apply wp_foldM_cons. eapply wp_mono; [apply Hx, HI|]. intros ? ? [].
  - apply wp_foldM_cons. eapply wp_mono; [apply Hpre; [left|exact HI]|]. cbn beta.
    intros a' s' HI'. apply IH; [|exact HI']. intros; apply Hpre; [right|]; assumption.
Qed.

End Wp.

(** Partial correctness of any computation with a trivial postcondition. *)
Lemma wlp_True {S A} (m : M S A) (s : S) : wlp m (fun _ _ => True) s.
Proof. unfold wpf, any_fault. destruct (m s); exact Logic.I. Qed.

(** Total correctness: the run returns. *)
Lemma wp_exec {S A} (m : M S A) (Q : A -> S -> Prop) (s : S) :
  wp m Q s -> exists a s', m s = Ok a s' /\ Q a s'.
Proof. unfold wpf, no_fault. destruct (m s); [eauto | tauto]. Qed.

Lemma wp_wlp {S A} (m : M S A) (Q : A -> S -> Prop) (s : S) :
  wp m Q s -> wlp m Q s.
Proof. apply wp_faults. intros _ []. Qed.

(** A computation that can neither return nor raise another fault
    raises [f]. *)
Lemma wp_fault {S A} (m : M S A) (f : fault) (s : S) :
  wpf (eq f) m (fun _ _ => False) s -> m s = Fault f.
Proof. unfold wpf. destruct (m s); [tauto|congruence]. Qed.

#[export] Hint Rewrite @wp_ret @wp_bind @wp_get @wp_put @wp_gets @wp_modify
  @wp_raise @wp_lift : wp.

Arguments ret : simpl never.
Arguments bind : simpl never.
Arguments wpf : simpl never.

(** [wp_simpl] pushes [wp] through the monad's combinators; [wp_step]
    additionally applies a proved specification [H] of the next call and
    continues with its postcondition. *)
Ltac wp_simpl := autorewrite with wp; cbn beta iota.

(** [wp_case] splits on the scrutinee of the program at the head of a
    [wp] goal. *)
Ltac wp_case :=
  lazymatch goal with
  | |- wpf _ (match ?x with Some _ => _ | None => _ end) _ _ => destruct x eqn:?
  | |- wpf _ (if ?b then _ else _) _ _ => destruct b eqn:?
  | |- wpf _ (match ?x with [] => _ | _ :: _ => _ end) _ _ => destruct x eqn:?
  | |- wpf _ (match ?x with inl _ => _ | inr _ => _ end) _ _ => destruct x eqn:?
  end.

Tactic Notation "wp_step" uconstr(H) :=
  wp_simpl; eapply wp_mono; [eapply H | cbn beta; intros].

(** A lifted result keeps every invariant when faults are allowed. *)
Lemma preserves_lift_any {S A} (I : S -> Prop) (r : fault + A) :
  preserves any_fault I (lift r).
Proof. intros s Hs. apply wp_lift. destruct r; [exact Logic.I|exact Hs]. Qed.

#[export] Hint Resolve preserves_lift_any : pres.

(** [pres] proves [preserves F I m] by the structure of [m]: the monad's
    combinators are taken apart, branches are split, and the leaves are
    closed by the hints of the database [pres]. *)
Ltac pres_step :=
  lazymatch goal with
  | |- preserves _ _ (ret _) => apply preserves_ret
  | |- preserves _ _ get => apply preserves_get
  | |- preserves _ _ (gets _) => apply preserves_gets
  | |- preserves _ _ (bind _ _) => apply preserves_bind; [|intros ?]
  | |- preserves _ _ (modify _) => apply preserves_modify; intros ? ?
  | |- preserves _ _ (foreach _ _) => apply preserves_foreach; intros ?
  | |- preserves _ _ (foldM _ _ _) => apply preserves_foldM; intros ? ?
  | |- preserves _ _ (if ?b then _ else _) => destruct b
  | |- preserves _ _ (match ?x with Some _ => _ | None => _ end) => destruct x
  | |- preserves _ _ (match ?x with [] => _ | _ :: _ => _ end) => destruct x
  | |- preserves _ _ (match ?x with inl _ => _ | inr _ => _ end) => destruct x
  end.

Ltac pres := repeat pres_step; eauto with pres.

(** ** Machine-integer lemmas *)

Lemma wrap_u32_range z : is_u32 (wrap_u32 z).
Proof. unfold is_u32, wrap_u32. apply Z.mod_pos_bound. lia. Qed.

Lemma wrap_u64_range z : is_u64 (wrap_u64 z).
Proof. unfold is_u64, wrap_u64. apply Z.mod_pos_bound. lia. Qed.

Lemma wrap_i32_range z : is_i32 (wrap_i32 z).
Proof.
  unfold is_i32, wrap_i32.
  pose proof (Z.mod_pos_bound (z + 2 ^ 31) (2 ^ 32) ltac:(lia)). lia.
Qed.

Lemma wrap_u32_small z : is_u32 z -> wrap_u32 z = z.
Proof. unfold is_u32, wrap_u32. intros. apply Z.mod_small. lia. Qed.

Lemma wrap_u64_small z : is_u64 z -> wrap_u64 z = z.
Proof. unfold is_u64, wrap_u64. intros. apply Z.mod_small. lia. Qed.

Lemma wrap_i32_small z : is_i32 z -> wrap_i32 z = z.
Proof.
  unfold is_i32, wrap_i32. intros.
  rewrite Z.mod_small by lia. lia.
Qed.

Lemma wrap_u32_idem z : wrap_u32 (wrap_u32 z) = wrap_u32 z.
Proof. apply wrap_u32_small, wrap_u32_range. Qed.

Lemma wrap_i32_idem z : wrap_i32 (wrap_i32 z) = wrap_i32 z.
Proof. apply wrap_i32_small, wrap_i32_range. Qed.

Lemma wrap_u32_of_i32_nonneg z : 0 <= z -> is_i32 z -> wrap_u32 z = z.
Proof. unfold is_i32. intros. apply wrap_u32_small. unfold is_u32. lia. Qed.

#[export] Hint Resolve wrap_u32_range wrap_u64_range wrap_i32_range : mach.
#[export] Hint Rewrite wrap_u32_idem wrap_i32_idem : mach.

(** ** Lists *)

Lemma Forall_app_iff {A} (P : A -> Prop) (l1 l2 : list A) :
  Forall P (l1 ++ l2) <-> Forall P l1 /\ Forall P l2.
Proof. apply Forall_app. Qed.

Lemma last_snoc {A} (l : list A) (x : A) : last (l ++ [x]) = Some x.
Proof. induction l as [|y [|z l] IH]; cbn in *; auto. Qed.

Lemma lookup_snoc_length {A} (l : list A) (x : A) : (l ++ [x]) !! length l = Some x.
Proof. rewrite lookup_app_r by lia. rewrite Nat.sub_diag. reflexivity. Qed.

Lemma concat_map_snoc {A B} (g : A -> list B) (l : list A) x :
  concat (map g (l ++ [x])) = concat (map g l) ++ g x.
Proof. rewrite map_app, concat_app. cbn. rewrite app_nil_r. reflexivity. Qed.

(** Altering an element in a way [g] does not see. *)
Lemma concat_map_alter {A B} (g : A -> list B) (f : A -> A) i (l : list A) :
  (forall x, g (f x) = g x) -> concat (map g (alter f i l)) = concat (map g l).
Proof.
  intros Hf. f_equal. revert i. induction l as [|x l IH]; intros i; [reflexivity|].
  destruct i; cbn; f_equal; auto.
Qed.

(** The first component of a fold over pairs that is itself a fold. *)
(** A fold keeps what each of its steps keeps. *)
Lemma fold_left_preserves {A X} (P : A -> Prop) (f : A -> X -> A) (l : list X) a :
  (forall a x, P a -> P (f a x)) -> P a -> P (fold_left f l a).
Proof.
  intros Hf. revert a. induction l as [|x l IH]; intros a Ha; [exact Ha|]. apply IH, Hf, Ha.
Qed.

Lemma fst_fold_left {V W X} (g : V -> X -> V) (k : V * W -> X -> V * W) (l : list X) vw :
  (forall vw x, fst (k vw x) = g (fst vw) x) ->
  fst (fold_left k l vw) = fold_left g l (fst vw).
Proof.
  intros Hk. revert vw. induction l as [|x l IH]; intros vw; [reflexivity|].
  cbn [fold_left]. rewrite IH, Hk. reflexivity.
Qed.
