(* ===== verification/CxxString.v ===== *)
(** * C and C++ string routines called by the process-stats probe

    [std::string] is [list ascii]; positions are [nat]; [std::string::npos]
    is [None].  The routines are those of libstdc++ and the C library as
    the probe uses them, and perfetto's [base::CStringToInt32],
    [base::CStringToUInt64] and [base::StringSplitter]. *)

From Stdlib Require Import ZArith List Ascii String Lia.
From stdpp Require Import base option list strings.
From S2P Require Import Prelude.

#[local] Open Scope Z_scope.

Abbreviation bytes := (list ascii).

(** A string literal as a [std::string]. *)
Definition lit (s : string) : bytes := list_ascii_of_string s.

Definition NUL : ascii := "000"%char.
Definition TAB : ascii := "009"%char.
Definition LF : ascii := "010"%char.
Definition SPACE : ascii := " "%char.
Definition COLON : ascii := ":"%char.

(** ** C strings *)

(** The C string stored at the start of a buffer: the bytes before the
    first NUL. *)
Fixpoint c_str (s : bytes) : bytes :=
  match s with
  | [] => []
  | c :: s' => if Ascii.eqb c NUL then [] else c :: c_str s'
  end.

(** [strcmp(a, b) == 0]. *)
Definition strcmp_eq (a b : bytes) : bool :=
  bool_decide (c_str a = c_str b).

(** The code of a character, as an [unsigned char]. *)
Definition code (c : ascii) : Z := Z.of_N (N_of_ascii c).

(** [isspace] in the C locale: the space and the codes 9 to 13. *)
Definition isspace (c : ascii) : bool :=
  (code c =? 32) || ((9 <=? code c) && (code c <=? 13)).

(** The value of a decimal digit: the codes 48 to 57. *)
Definition digit_val (c : ascii) : option Z :=
  if (48 <=? code c) && (code c <=? 57) then Some (code c - 48) else None.

Definition is_digit (c : ascii) : bool :=
  match digit_val c with Some _ => true | None => false end.

(** ** std::string searching *)

Fixpoint is_prefix (p s : bytes) : bool :=
  match p, s with
  | [], _ => true
  | _ :: _, [] => false
  | a :: p', b :: s' => Ascii.eqb a b && is_prefix p' s'
  end.

(** First position [>= i] (counted from [i] at the head of [s]) at which
    [key] occurs. *)
Fixpoint find_at (key s : bytes) (i : nat) : option nat :=
  if is_prefix key s then Some i
  else match s with
       | [] => None
       | _ :: s' => find_at key s' (S i)
       end.

(** [s.find(key, pos)]. *)
Definition str_find (s key : bytes) (pos : nat) : option nat :=
  if (pos <=? length s)%nat then find_at key (drop pos s) pos else None.

Fixpoint find_char_at (c : ascii) (s : bytes) (i : nat) : option nat :=
  match s with
  | [] => None
  | b :: s' => if Ascii.eqb b c then Some i else find_char_at c s' (S i)
  end.

(** [s.find(c, pos)]. *)
Definition find_char (s : bytes) (c : ascii) (pos : nat) : option nat :=
  find_char_at c (drop pos s) pos.

Definition mem_char (c : ascii) (set : bytes) : bool :=
  existsb (Ascii.eqb c) set.

Fixpoint find_first_not_of_at (set s : bytes) (i : nat) : option nat :=
  match s with
  | [] => None
  | b :: s' => if mem_char b set then find_first_not_of_at set s' (S i) else Some i
  end.

(** [s.find_first_not_of(set, pos)]. *)
Definition find_first_not_of (s set : bytes) (pos : nat) : option nat :=
  find_first_not_of_at set (drop pos s) pos.

(** [s.substr(pos, n)] for [pos <= s.size()]. *)
Definition substr (s : bytes) (pos n : nat) : bytes := take n (drop pos s).

(** ** strtol and friends *)

Fixpoint skip_space (s : bytes) : bytes :=
  match s with
  | c :: s' => if isspace c then skip_space s' else s
  | [] => []
  end.

(** The digits at the head of [s], accumulated onto [acc], and the rest. *)
Fixpoint read_digits (s : bytes) (acc : Z) (n : nat) : Z * nat * bytes :=
  match s with
  | c :: s' =>
      match digit_val c with
      | Some d => read_digits s' (10 * acc + d) (S n)
      | None => (acc, n, s)
      end
  | [] => (acc, n, [])
  end.

(** The parse shared by [strtol] and [strtoull], base 10: leading white
    space, an optional sign, then digits.  Returns the sign, the
    magnitude, and the unconsumed rest; with no digits nothing is
    consumed. *)
Definition parse_int (s : bytes) : option (bool * Z * bytes) :=
  let s1 := skip_space s in
  let '(neg, s2) :=
    match s1 with
    | "-"%char :: r => (true, r)
    | "+"%char :: r => (false, r)
    | _ => (false, s1)
    end in
  let '(v, n, rest) := read_digits s2 0 0 in
  match n with
  | O => None
  | _ => Some (neg, v, rest)
  end.

(** [strtol(s, &endptr, 10)] on an LP64 target: the value, clamped to
    [LONG_MIN, LONG_MAX], and the text at [endptr]. *)
Definition strtol (s : bytes) : Z * bytes :=
  match parse_int s with
  | None => (0, s)
  | Some (neg, v, rest) =>
      ((if neg then Z.max LONG_MIN (- v) else Z.min LONG_MAX v), rest)
  end.

(** [strtoull(s, &endptr, 10)]: clamps to [ULLONG_MAX]; a minus sign
    negates the value modulo [2^64]. *)
Definition strtoull (s : bytes) : Z * bytes :=
  match parse_int s with
  | None => (0, s)
  | Some (neg, v, rest) =>
      ((if ULONG_MAX <? v then ULONG_MAX
        else if neg then wrap_u64 (- v) else v), rest)
  end.

(** [atoi(s)], as glibc defines it: [(int) strtol(s, NULL, 10)]. *)
Definition atoi (s : bytes) : Z := wrap_i32 (fst (strtol s)).

(** [base::CStringToInt32(s)]: the whole of a non-empty C string must be
    consumed. *)
Definition CStringToInt32 (s : bytes) : option Z :=
  let cs := c_str s in
  let '(v, rest) := strtol cs in
  match cs, rest with
  | _ :: _, [] => Some (wrap_i32 v)
  | _, _ => None
  end.

(** [base::CStringToUInt64(s)]. *)
Definition CStringToUInt64 (s : bytes) : option Z :=
  let cs := c_str s in
  let '(v, rest) := strtoull cs in
  match cs, rest with
  | _ :: _, [] => Some v
  | _, _ => None
  end.

(** ** base::StringSplitter *)

(** The pieces of [s] between occurrences of [d]; always at least one
    piece. *)
Fixpoint split (d : ascii) (s : bytes) : list bytes :=
  match s with
  | [] => [[]]
  | c :: s' =>
      if Ascii.eqb c d then [] :: split d s'
      else match split d s' with
           | p :: ps => (c :: p) :: ps
           | [] => [[c]]
           end
  end.

Definition nonempty (p : bytes) : bool :=
  match p with [] => false | _ => true end.

(** The successive values of [cur_token()] over the calls of [Next()]
    that return true, for a splitter initialised on the buffer [buf]
    (whose last byte the constructor overwrites with NUL).  Empty tokens
    are skipped; unless the delimiter is NUL itself, the first NUL ends
    the input. *)
Definition splitter_tokens (d : ascii) (buf : bytes) : list bytes :=
  let buf' := match buf with [] => [] | _ => removelast buf ++ [NUL] end in
  let input := if Ascii.eqb d NUL then buf' else c_str buf' in
  filter (fun p => nonempty p = true) (split d input).

(** [StringSplitter(std::string, delim)]: the buffer is the string and
    its terminator. *)
Definition StringSplitter_str (s : bytes) (d : ascii) : list bytes :=
  splitter_tokens d (s ++ [NUL]).

(** [StringSplitter(char*, size, delim)]. *)
Definition StringSplitter_buf (s : bytes) (d : ascii) : list bytes :=
  splitter_tokens d s.

(** * Lemmas *)

Lemma c_str_no_nul s : NUL ∉ c_str s.
Proof.
  induction s as [|c s IH]; cbn; [apply not_elem_of_nil|].
  destruct (Ascii.eqb_spec c NUL) as [->|Hne]; [apply not_elem_of_nil|].
  rewrite not_elem_of_cons. split; [congruence | exact IH].
Qed.

Lemma c_str_id s : NUL ∉ s -> c_str s = s.
Proof.
  induction s as [|c s IH]; cbn; [reflexivity|].
  rewrite not_elem_of_cons. intros [Hc Hs].
  destruct (Ascii.eqb_spec c NUL); [congruence|]. f_equal. auto.
Qed.

Lemma c_str_idem s : c_str (c_str s) = c_str s.
Proof. apply c_str_id, c_str_no_nul. Qed.

Lemma c_str_app_nul s t : NUL ∉ s -> c_str (s ++ NUL :: t) = s.
Proof.
  induction s as [|c s IH]; cbn; [reflexivity|].
  rewrite not_elem_of_cons. intros [Hc Hs].
  destruct (Ascii.eqb_spec c NUL); [congruence|]. f_equal. auto.
Qed.

Lemma strcmp_eq_true a b : strcmp_eq a b = true <-> c_str a = c_str b.
Proof. unfold strcmp_eq. apply bool_decide_eq_true. Qed.

Lemma is_prefix_spec p s : is_prefix p s = true <-> exists t, s = p ++ t.
Proof.
  revert s. induction p as [|a p IH]; intros s; cbn.
  - split; eauto.
  - destruct s as [|b s]; [split; [discriminate|intros [t Ht]; discriminate]|].
    rewrite andb_true_iff, IH.
    split.
    + intros [Hab [t ->]]. apply Ascii.eqb_eq in Hab. subst. eauto.
    + intros [t Ht]. injection Ht as -> ->. split; [apply Ascii.eqb_refl|eauto].
Qed.

Lemma is_prefix_app p t : is_prefix p (p ++ t) = true.
Proof. apply is_prefix_spec. eauto. Qed.

Lemma is_prefix_take p s : is_prefix p s = true <-> take (length p) s = p.
Proof.
  rewrite is_prefix_spec. split.
  - intros [t ->]. rewrite take_app_length. reflexivity.
  - intros H. exists (drop (length p) s). rewrite <- H at 1. symmetry. apply take_drop.
Qed.

(** [find_at] returns the first occurrence. *)
Lemma find_at_Some key s i j :
  find_at key s i = Some j ->
  (i <= j)%nat /\ is_prefix key (drop (j - i) s) = true /\
  forall k, (k < j - i)%nat -> is_prefix key (drop k s) = false.
Proof.
  revert i. induction s as [|c s IH]; intros i; cbn [find_at].
  - destruct (is_prefix key []) eqn:E; [|discriminate].
    intros [= <-]. rewrite Nat.sub_diag. cbn. repeat split; [lia|exact E|lia].
  - destruct (is_prefix key (c :: s)) eqn:E.
    + intros [= <-]. rewrite Nat.sub_diag. cbn. repeat split; [lia|exact E|lia].
    + intros H. apply IH in H as (Hle & Hp & Hmin).
      replace (j - i)%nat with (S (j - S i)) by lia. cbn [drop].
      repeat split; [lia|exact Hp|].
      intros [|k] Hk; [exact E|]. cbn. apply Hmin. lia.
Qed.

Lemma find_at_None key s i :
  find_at key s i = None -> forall k, is_prefix key (drop k s) = false.
Proof.
  revert i. induction s as [|c s IH]; intros i; cbn [find_at].
  - destruct (is_prefix key []) eqn:E; [discriminate|].
    intros _ k. rewrite drop_nil. exact E.
  - destruct (is_prefix key (c :: s)) eqn:E; [discriminate|].
    intros H [|k]; [exact E|]. cbn. eapply IH, H.
Qed.

Lemma find_at_shift key s i : find_at key s i = (fun j => (j + i)%nat) <$> find_at key s 0.
Proof.
  revert i. induction s as [|c s IH]; intros i; cbn [find_at].
  - destruct (is_prefix key []); reflexivity.
  - destruct (is_prefix key (c :: s)); [reflexivity|].
    rewrite (IH (S i)), (IH 1%nat).
    destruct (find_at key s 0); cbn; [f_equal; lia|reflexivity].
Qed.

(** Searching a string that starts with [pre], which does not contain
    the first character of a non-empty key, finds the key behind [pre]. *)
Lemma find_at_skip key pre s i :
  (forall k, (k < length pre)%nat -> is_prefix key (drop k (pre ++ s)) = false) ->
  find_at key (pre ++ s) i = find_at key s (length pre + i).
Proof.
  revert i. induction pre as [|c pre IH]; intros i H; [reflexivity|].
  pose proof (H 0%nat ltac:(cbn; lia)) as H0. cbn [drop app] in H0.
  cbn [app find_at length]. rewrite H0.
  rewrite IH; [f_equal; lia|].
  intros k Hk. apply (H (S k)). cbn. lia.
Qed.

Lemma find_char_at_Some c s i j :
  find_char_at c s i = Some j ->
  (i <= j)%nat /\ s !! (j - i)%nat = Some c /\ c ∉ take (j - i) s.
Proof.
  revert i. induction s as [|b s IH]; intros i; cbn [find_char_at]; [discriminate|].
  destruct (Ascii.eqb_spec b c) as [->|Hne].
  - intros [= <-]. rewrite Nat.sub_diag. cbn. repeat split; [lia|apply not_elem_of_nil].
  - intros H. apply IH in H as (Hle & Hl & Hn).
    replace (j - i)%nat with (S (j - S i)) by lia. cbn.
    repeat split; [lia|exact Hl|].
    rewrite not_elem_of_cons. split; [congruence|exact Hn].
Qed.

Lemma find_char_at_None c s i : find_char_at c s i = None <-> c ∉ s.
Proof.
  revert i. induction s as [|b s IH]; intros i; cbn [find_char_at].
  - split; [intros _; apply not_elem_of_nil|reflexivity].
  - rewrite not_elem_of_cons. destruct (Ascii.eqb_spec b c) as [->|Hne].
    + split; [discriminate|intros [? _]; congruence].
    + rewrite IH. split; [intros ?; split; congruence|tauto].
Qed.

Lemma find_char_at_app c pre s i :
  c ∉ pre -> find_char_at c (pre ++ s) i = find_char_at c s (length pre + i).
Proof.
  revert i. induction pre as [|b pre IH]; intros i; [reflexivity|].
  rewrite not_elem_of_cons. intros [Hb Hpre]. cbn [app find_char_at length].
  destruct (Ascii.eqb_spec b c); [congruence|].
  rewrite IH by exact Hpre. f_equal. lia.
Qed.

Lemma find_first_not_of_at_app set pre s i :
  Forall (fun b => mem_char b set = true) pre ->
  find_first_not_of_at set (pre ++ s) i = find_first_not_of_at set s (length pre + i).
Proof.
  revert i. induction pre as [|b pre IH]; intros i H; [reflexivity|].
  inversion H as [|? ? Hb Hpre]; subst. cbn [app find_first_not_of_at length].
  rewrite Hb, IH by exact Hpre. f_equal. lia.
Qed.

Lemma find_first_not_of_at_hd set b s i :
  mem_char b set = false -> find_first_not_of_at set (b :: s) i = Some i.
Proof. intros H. cbn. rewrite H. reflexivity. Qed.

Lemma substr_length s pos n : length (substr s pos n) = Nat.min n (length s - pos).
Proof. unfold substr. rewrite length_take, length_drop. reflexivity. Qed.

Lemma substr_app s1 s2 s3 : substr (s1 ++ s2 ++ s3) (length s1) (length s2) = s2.
Proof. unfold substr. rewrite drop_app_length, take_app_length. reflexivity. Qed.

(** [read_digits] consumes exactly a prefix of digits. *)
Lemma read_digits_rest s acc n :
  exists ds, s = ds ++ snd (read_digits s acc n) /\
             Forall (fun c => is_digit c = true) ds /\
             snd (fst (read_digits s acc n)) = (n + length ds)%nat.
Proof.
  revert acc n. induction s as [|c s IH]; intros acc n; cbn [read_digits].
  - exists []. cbn. repeat split; [constructor|lia].
  - destruct (digit_val c) as [d|] eqn:E.
    + destruct (IH (10 * acc + d) (S n)) as (ds & Hs & Hds & Hn).
      exists (c :: ds). cbn. repeat split.
      * f_equal. exact Hs.
      * constructor; [unfold is_digit; rewrite E; reflexivity|exact Hds].
      * rewrite Hn. lia.
    + exists []. cbn. repeat split; [constructor|lia].
Qed.

Lemma digit_val_range c d : digit_val c = Some d -> 0 <= d <= 9.
Proof.
  unfold digit_val.
  destruct (Z.leb_spec 48 (code c)), (Z.leb_spec (code c) 57); cbn;
    intros [= <-] || discriminate; lia.
Qed.

Lemma read_digits_nonneg s acc n : 0 <= acc -> 0 <= fst (fst (read_digits s acc n)).
Proof.
  revert acc n. induction s as [|c s IH]; intros acc n Hacc; cbn [read_digits]; [exact Hacc|].
  destruct (digit_val c) as [d|] eqn:E; [|exact Hacc].
  apply IH. apply digit_val_range in E. lia.
Qed.

Lemma parse_int_nonneg s neg v rest : parse_int s = Some (neg, v, rest) -> 0 <= v.
Proof.
  unfold parse_int.
  destruct (match skip_space s with
            | "-"%char :: r => (true, r)
            | "+"%char :: r => (false, r)
            | _ => (false, skip_space s)
            end) as [b s2].
  pose proof (read_digits_nonneg s2 0 0 ltac:(lia)) as H.
  destruct (read_digits s2 0 0) as [[v' n] rest']. cbn in H.
  destruct n; [discriminate|]. intros [= _ <- _]. exact H.
Qed.

Lemma strtol_range s : LONG_MIN <= fst (strtol s) <= LONG_MAX.
Proof.
  unfold strtol, LONG_MIN, LONG_MAX.
  destruct (parse_int s) as [[[neg v] rest]|] eqn:E; cbn; [|lia].
  apply parse_int_nonneg in E. destruct neg; lia.
Qed.

Lemma atoi_range s : is_i32 (atoi s).
Proof. apply wrap_i32_range. Qed.

Lemma CStringToInt32_range s v : CStringToInt32 s = Some v -> is_i32 v.
Proof.
  unfold CStringToInt32. destruct (strtol (c_str s)) as [z rest].
  destruct (c_str s); [discriminate|].
  destruct rest; [|discriminate]. intros [= <-]. apply wrap_i32_range.
Qed.

Lemma split_nonnil d s : split d s <> [].
Proof.
  induction s as [|c s IH]; cbn; [discriminate|].
  destruct (Ascii.eqb c d); [discriminate|].
  destruct (split d s); discriminate.
Qed.

Lemma split_no_delim d s : Forall (fun p => d ∉ p) (split d s).
Proof.
  induction s as [|c s IH]; cbn.
  - constructor; [apply not_elem_of_nil|constructor].
  - destruct (Ascii.eqb_spec c d) as [->|Hne].
    + constructor; [apply not_elem_of_nil|exact IH].
    + destruct (split d s) as [|p ps]; inversion IH; subst;
        constructor; try assumption; try constructor;
        rewrite not_elem_of_cons; (split; [congruence|]);
        first [assumption | apply not_elem_of_nil].
Qed.

Lemma split_id d s : d ∉ s -> split d s = [s].
Proof.
  induction s as [|c s IH]; cbn; [reflexivity|].
  rewrite not_elem_of_cons. intros [Hc Hs].
  destruct (Ascii.eqb_spec c d); [congruence|]. rewrite IH by exact Hs. reflexivity.
Qed.

Lemma split_app_delim d s t : d ∉ s -> split d (s ++ d :: t) = s :: split d t.
Proof.
  induction s as [|c s IH]; cbn.
  - intros _. rewrite Ascii.eqb_refl. reflexivity.
  - rewrite not_elem_of_cons. intros [Hc Hs].
    destruct (Ascii.eqb_spec c d); [congruence|]. rewrite IH by exact Hs. reflexivity.
Qed.

Lemma splitter_tokens_nonempty d buf :
  Forall (fun p => p <> []) (splitter_tokens d buf).
Proof.
  unfold splitter_tokens. apply Forall_forall. intros p Hp.
  apply list_elem_of_filter in Hp as [Hp _].
  destruct p; [discriminate|congruence].
Qed.
