(* ===== verification/FlatSet.v ===== *)
(** * base::FlatSet and the integer-set interface

    [base::FlatSet<T>] is a sorted vector without duplicates.  The data
    source uses it for [seen_pids_], for the pid sets passed to [OnPids]
    and [OnRenamePids], and for [seen_fds].  It calls [insert], [erase],
    [count], [clear], and iterates in ascending order.

    [IntSet] is the interface the data source is verified against;
    [FlatSet] is the sorted-list implementation and discharges it. *)

From Stdlib Require Import ZArith List Lia Bool Sorted.
From stdpp Require Import base option list.
From S2P Require Import Prelude.

#[local] Open Scope Z_scope.

(** ** The interface *)

Class IntSet (T : Type) : Type := {
  set_empty : T;
  set_insert : Z -> T -> T;
  set_erase : Z -> T -> T;
  set_count : Z -> T -> bool;
  set_elements : T -> list Z;
  count_empty : forall x, set_count x set_empty = false;
  count_insert : forall x y s,
    set_count y (set_insert x s) = (y =? x) || set_count y s;
  count_erase : forall x y s,
    set_count y (set_erase x s) = negb (y =? x) && set_count y s;
  elements_sorted : forall s, StronglySorted Z.lt (set_elements s);
  elements_count : forall x s, In x (set_elements s) <-> set_count x s = true
}.

(** ** Sorted lists *)

Definition all_gt (x : Z) (l : list Z) : bool := forallb (Z.ltb x) l.

Fixpoint sortedb (l : list Z) : bool :=
  match l with
  | [] => true
  | x :: t => all_gt x t && sortedb t
  end.

(** [insert]: the position is the lower bound of [x]; an element that is
    already present is not inserted again. *)
Fixpoint fs_insert (x : Z) (l : list Z) : list Z :=
  match l with
  | [] => [x]
  | y :: t =>
      if x <? y then x :: l
      else if x =? y then l
      else y :: fs_insert x t
  end.

(** [erase]: removes the element at the lower bound of [x] when it
    equals [x]. *)
Fixpoint fs_erase (x : Z) (l : list Z) : list Z :=
  match l with
  | [] => []
  | y :: t =>
      if x <? y then l
      else if x =? y then t
      else y :: fs_erase x t
  end.

(** [count]: 1 when the element at the lower bound of [x] equals [x]. *)
Fixpoint fs_count (x : Z) (l : list Z) : bool :=
  match l with
  | [] => false
  | y :: t =>
      if x <? y then false
      else if x =? y then true
      else fs_count x t
  end.

(** ** The set type *)

Record FlatSet : Type := mkFlatSet {
  fs_items : list Z;
  fs_sorted : sortedb fs_items = true
}.

(** * Lemmas on sorted lists *)

Lemma all_gt_spec x l : all_gt x l = true <-> Forall (Z.lt x) l.
Proof.
  unfold all_gt. rewrite forallb_forall, Forall_forall.
  split; intros H y Hy.
  - apply Z.ltb_lt, H, list_elem_of_In, Hy.
  - apply Z.ltb_lt, H, list_elem_of_In, Hy.
Qed.

Lemma sortedb_spec l : sortedb l = true <-> StronglySorted Z.lt l.
Proof.
  induction l as [|x t IH]; cbn.
  - split; [constructor|reflexivity].
  - rewrite andb_true_iff, IH, all_gt_spec. split.
    + intros [? ?]. constructor; assumption.
    + intros H. inversion H; subst. split; assumption.
Qed.

Lemma all_gt_insert x y l :
  y < x -> all_gt y l = true -> all_gt y (fs_insert x l) = true.
Proof.
  rewrite !all_gt_spec. intros Hxy H.
  induction l as [|z t IH]; cbn.
  - constructor; [exact Hxy|constructor].
  - inversion H; subst.
    destruct (x <? z); [constructor; [exact Hxy|exact H]|].
    destruct (x =? z); [exact H|]. constructor; auto.
Qed.

Lemma all_gt_erase x y l : all_gt y l = true -> all_gt y (fs_erase x l) = true.
Proof.
  rewrite !all_gt_spec. intros H.
  induction l as [|z t IH]; cbn; [constructor|].
  inversion H; subst.
  destruct (x <? z); [exact H|].
  destruct (x =? z); [assumption|]. constructor; auto.
Qed.

Lemma all_gt_trans x y l : x < y -> all_gt y l = true -> all_gt x l = true.
Proof.
  rewrite !all_gt_spec. intros Hxy H.
  eapply Forall_impl; [exact H|]. cbn. intros. lia.
Qed.

Lemma sortedb_cons x t : sortedb (x :: t) = true <-> all_gt x t = true /\ sortedb t = true.
Proof. cbn [sortedb]. apply andb_true_iff. Qed.

Lemma all_gt_cons x y t : all_gt x (y :: t) = true <-> x < y /\ all_gt x t = true.
Proof. unfold all_gt. cbn [forallb]. rewrite andb_true_iff, Z.ltb_lt. reflexivity. Qed.

Lemma fs_insert_sorted x l : sortedb l = true -> sortedb (fs_insert x l) = true.
Proof.
  induction l as [|y t IH]; [reflexivity|].
  rewrite sortedb_cons. intros [Hy Ht]. cbn [fs_insert].
  destruct (Z.ltb_spec x y) as [Hlt|Hge].
  - rewrite !sortedb_cons, all_gt_cons. eauto using all_gt_trans.
  - destruct (Z.eqb_spec x y) as [->|Hne]; rewrite sortedb_cons; [auto|].
    split; [apply all_gt_insert; [lia|exact Hy]|auto].
Qed.

Lemma fs_erase_sorted x l : sortedb l = true -> sortedb (fs_erase x l) = true.
Proof.
  induction l as [|y t IH]; [reflexivity|].
  rewrite sortedb_cons. intros [Hy Ht]. cbn [fs_erase].
  destruct (x <? y); [rewrite sortedb_cons; auto|].
  destruct (x =? y); [exact Ht|]. rewrite sortedb_cons.
  split; [apply all_gt_erase, Hy|auto].
Qed.

Lemma fs_count_In x l : sortedb l = true -> fs_count x l = true <-> In x l.
Proof.
  induction l as [|y t IH]; cbn; [intros _; split; [discriminate|tauto]|].
  rewrite andb_true_iff. intros [Hy Ht].
  apply all_gt_spec in Hy. rewrite Forall_forall in Hy.
  destruct (Z.ltb_spec x y) as [Hlt|Hge].
  - split; [discriminate|]. intros [->|Hin]; [lia|].
    apply list_elem_of_In, Hy in Hin. lia.
  - destruct (Z.eqb_spec x y) as [->|Hne]; [tauto|].
    rewrite IH by exact Ht. split; [tauto|]. intros [->|?]; [congruence|assumption].
Qed.

Lemma fs_count_all_gt x y l : all_gt y l = true -> x <= y -> fs_count x l = false.
Proof.
  rewrite all_gt_spec. intros H Hxy.
  destruct l as [|z t]; cbn; [reflexivity|].
  inversion H; subst.
  rewrite (proj2 (Z.ltb_lt x z)) by lia. reflexivity.
Qed.

Lemma fs_count_insert x y l :
  sortedb l = true -> fs_count y (fs_insert x l) = (y =? x) || fs_count y l.
Proof.
  induction l as [|z t IH]; cbn.
  - intros _. destruct (Z.ltb_spec y x), (Z.eqb_spec y x); cbn; lia || reflexivity.
  - rewrite andb_true_iff. intros [Hz Ht].
    destruct (Z.ltb_spec x z) as [Hxz|Hxz]; cbn.
    + destruct (Z.ltb_spec y x), (Z.eqb_spec y x), (Z.ltb_spec y z); cbn; lia || reflexivity.
    + destruct (Z.eqb_spec x z) as [->|Hne]; cbn.
      * destruct (Z.ltb_spec y z), (Z.eqb_spec y z); cbn; lia || reflexivity.
      * rewrite IH by exact Ht.
        destruct (Z.ltb_spec y z), (Z.eqb_spec y z), (Z.eqb_spec y x); cbn; lia || reflexivity.
Qed.

Lemma fs_count_erase x y l :
  sortedb l = true -> fs_count y (fs_erase x l) = negb (y =? x) && fs_count y l.
Proof.
  induction l as [|z t IH]; cbn.
  - intros _. rewrite andb_false_r. reflexivity.
  - rewrite andb_true_iff. intros [Hz Ht].
    destruct (Z.ltb_spec x z) as [Hxz|Hxz]; cbn.
    + destruct (Z.ltb_spec y z), (Z.eqb_spec y z), (Z.eqb_spec y x); cbn;
        lia || reflexivity.
    + destruct (Z.eqb_spec x z) as [->|Hne]; cbn.
      * destruct (Z.ltb_spec y z), (Z.eqb_spec y z); cbn;
          first [lia | reflexivity | apply (fs_count_all_gt y z t Hz); lia].
      * rewrite IH by exact Ht.
        destruct (Z.ltb_spec y z), (Z.eqb_spec y z), (Z.eqb_spec y x); cbn; lia || reflexivity.
Qed.

(** Equality of sets is equality of their element lists. *)
Lemma FlatSet_eq (a b : FlatSet) : fs_items a = fs_items b -> a = b.
Proof.
  destruct a as [la Ha], b as [lb Hb]. cbn. intros ->.
  f_equal. apply (Eqdep_dec.UIP_dec Bool.bool_dec).
Qed.

(** ** The implementation of the interface *)

Definition FlatSet_empty : FlatSet := mkFlatSet [] eq_refl.

Definition FlatSet_insert (x : Z) (s : FlatSet) : FlatSet :=
  mkFlatSet (fs_insert x (fs_items s)) (fs_insert_sorted x _ (fs_sorted s)).

Definition FlatSet_erase (x : Z) (s : FlatSet) : FlatSet :=
  mkFlatSet (fs_erase x (fs_items s)) (fs_erase_sorted x _ (fs_sorted s)).

Definition FlatSet_count (x : Z) (s : FlatSet) : bool := fs_count x (fs_items s).

(** Builds a set by successive insertion. *)
Definition FlatSet_of_list (l : list Z) : FlatSet :=
  fold_right FlatSet_insert FlatSet_empty l.

#[export, refine] Instance FlatSet_IntSet : IntSet FlatSet := {
  set_empty := FlatSet_empty;
  set_insert := FlatSet_insert;
  set_erase := FlatSet_erase;
  set_count := FlatSet_count;
  set_elements := fs_items
}.
Proof.
  - reflexivity.
  - intros x y s. apply fs_count_insert, fs_sorted.
  - intros x y s. apply fs_count_erase, fs_sorted.
  - intros s. apply sortedb_spec, fs_sorted.
  - intros x s. symmetry. apply fs_count_In, fs_sorted.
Defined.

(** * Consequences of the interface *)

Section IntSetFacts.
Context {T : Type} `{IntSet T}.
Implicit Types (s : T) (x y : Z).

Lemma count_insert_same x s : set_count x (set_insert x s) = true.
Proof. rewrite count_insert, Z.eqb_refl. reflexivity. Qed.

Lemma count_insert_other x y s : y <> x -> set_count y (set_insert x s) = set_count y s.
Proof. intros Hne. rewrite count_insert. destruct (Z.eqb_spec y x); [congruence|reflexivity]. Qed.

Lemma count_insert_mono x y s : set_count y s = true -> set_count y (set_insert x s) = true.
Proof. intros Hy. rewrite count_insert, Hy. apply orb_true_r. Qed.

Lemma count_erase_same x s : set_count x (set_erase x s) = false.
Proof. rewrite count_erase, Z.eqb_refl. reflexivity. Qed.

Lemma count_erase_other x y s : y <> x -> set_count y (set_erase x s) = set_count y s.
Proof. intros Hne. rewrite count_erase. destruct (Z.eqb_spec y x); [congruence|reflexivity]. Qed.

Lemma elements_empty : set_elements (set_empty (T:=T)) = [].
Proof.
  destruct (set_elements set_empty) as [|x l] eqn:E; [reflexivity|].
  assert (In x (set_elements (set_empty (T:=T)))) as Hin by (rewrite E; left; reflexivity).
  apply elements_count in Hin. rewrite count_empty in Hin. discriminate.
Qed.

Lemma StronglySorted_lt_NoDup (l : list Z) : StronglySorted Z.lt l -> NoDup l.
Proof.
  induction 1 as [|x l Hs IH Hx]; constructor; [|exact IH].
  intros Hin. rewrite Forall_forall in Hx. apply Hx in Hin. lia.
Qed.

Lemma elements_NoDup s : NoDup (set_elements s).
Proof. apply StronglySorted_lt_NoDup, elements_sorted. Qed.

End IntSetFacts.

Create Rewrite HintDb sets.
#[export] Hint Rewrite @count_empty @count_insert @count_erase : sets.
