(* ===== verification/TraceProto.v ===== *)
(** * The trace messages written by the process-stats probe

    The probe writes protozero messages: a [TracePacket] with a
    timestamp, the [incremental_state_cleared] flag, and [process_tree]
    and [process_stats] sub-messages.  A message is modelled by its
    decoded content: repeated fields are lists in write order, a scalar
    field set twice keeps the last value, a scalar field never set is
    [None].

    The probe keeps raw pointers to the sub-message it is writing.  They
    are modelled as indices: [alter_tree i], [alter_stats i] and
    [alter_stats_process i j] write through an index and leave the packet
    unchanged when the index does not address a message of that kind. *)

From Stdlib Require Import ZArith List Ascii String Lia.
From stdpp Require Import base option list.
From S2P Require Import Prelude CxxString.

#[local] Open Scope Z_scope.

(** ** Memory counters *)

(** The keys of [/proc/<pid>/status] that [WriteMemCounters] reports. *)
Inductive Counter : Type :=
| VmSize | VmLck | VmHWM | VmRSS | RssAnon | RssFile | RssShmem | VmSwap.

#[export] Instance Counter_eq_dec : EqDecision Counter.
Proof. solve_decision. Defined.

Definition all_counters : list Counter :=
  [VmSize; VmLck; VmHWM; VmRSS; RssAnon; RssFile; RssShmem; VmSwap].

(** One slot per counter: [vm_size_kb], [vm_locked_kb], [vm_hwm_kb],
    [vm_rss_kb], [rss_anon_kb], [rss_file_kb], [rss_shmem_kb],
    [vm_swap_kb]. *)
Record Counters (V : Type) : Type := mkCounters {
  vm_size_kb : V;
  vm_locked_kb : V;
  vm_hwm_kb : V;
  vm_rss_kb : V;
  rss_anon_kb : V;
  rss_file_kb : V;
  rss_shmem_kb : V;
  vm_swap_kb : V
}.
Arguments mkCounters {V}.
Arguments vm_size_kb {V}.
Arguments vm_locked_kb {V}.
Arguments vm_hwm_kb {V}.
Arguments vm_rss_kb {V}.
Arguments rss_anon_kb {V}.
Arguments rss_file_kb {V}.
Arguments rss_shmem_kb {V}.
Arguments vm_swap_kb {V}.

Definition counters_all {V} (v : V) : Counters V := mkCounters v v v v v v v v.

Definition get_counter {V} (c : Counter) (r : Counters V) : V :=
  match c with
  | VmSize => vm_size_kb r
  | VmLck => vm_locked_kb r
  | VmHWM => vm_hwm_kb r
  | VmRSS => vm_rss_kb r
  | RssAnon => rss_anon_kb r
  | RssFile => rss_file_kb r
  | RssShmem => rss_shmem_kb r
  | VmSwap => vm_swap_kb r
  end.

Definition set_counter {V} (c : Counter) (v : V) (r : Counters V) : Counters V :=
  let 'mkCounters a b d e f g h i := r in
  match c with
  | VmSize => mkCounters v b d e f g h i
  | VmLck => mkCounters a v d e f g h i
  | VmHWM => mkCounters a b v e f g h i
  | VmRSS => mkCounters a b d v f g h i
  | RssAnon => mkCounters a b d e v g h i
  | RssFile => mkCounters a b d e f v h i
  | RssShmem => mkCounters a b d e f g v i
  | VmSwap => mkCounters a b d e f g h v
  end.

(** ** ProcessTree *)

Record TreeProcess : Type := mkTreeProcess {
  p_pid : Z;
  p_ppid : Z;
  p_uid : Z;
  p_nspid : list Z;
  p_cmdline : list bytes
}.

Record TreeThread : Type := mkTreeThread {
  t_tid : Z;
  t_tgid : Z;
  t_name : option bytes;
  t_nstid : list Z
}.

Record ProcessTree : Type := mkProcessTree {
  processes : list TreeProcess;
  threads : list TreeThread;
  tree_collection_end_timestamp : option Z
}.

Definition empty_tree : ProcessTree := mkProcessTree [] [] None.

Definition add_tree_process (p : TreeProcess) (t : ProcessTree) : ProcessTree :=
  mkProcessTree (processes t ++ [p]) (threads t) (tree_collection_end_timestamp t).

Definition add_tree_thread (th : TreeThread) (t : ProcessTree) : ProcessTree :=
  mkProcessTree (processes t) (threads t ++ [th]) (tree_collection_end_timestamp t).

Definition set_tree_end (ts : Z) (t : ProcessTree) : ProcessTree :=
  mkProcessTree (processes t) (threads t) (Some ts).

(** ** ProcessStats *)

Record FdInfo : Type := mkFdInfo {
  fd_fd : Z;
  fd_path : bytes
}.

Record StatsProcess : Type := mkStatsProcess {
  sp_pid : Z;
  sp_counters : Counters (option Z);
  sp_oom_score_adj : option Z;
  sp_fds : list FdInfo
}.

Record ProcessStats : Type := mkProcessStats {
  stats_processes : list StatsProcess;
  stats_collection_end_timestamp : option Z
}.

Definition empty_stats : ProcessStats := mkProcessStats [] None.

(** [add_processes()] followed by [set_pid(pid)]. *)
Definition new_stats_process (pid : Z) : StatsProcess :=
  mkStatsProcess pid (counters_all None) None [].

Definition sp_set_counter (c : Counter) (v : Z) (p : StatsProcess) : StatsProcess :=
  mkStatsProcess (sp_pid p) (set_counter c (Some v) (sp_counters p))
                 (sp_oom_score_adj p) (sp_fds p).

Definition sp_set_oom_score_adj (v : Z) (p : StatsProcess) : StatsProcess :=
  mkStatsProcess (sp_pid p) (sp_counters p) (Some v) (sp_fds p).

Definition sp_add_fd (f : FdInfo) (p : StatsProcess) : StatsProcess :=
  mkStatsProcess (sp_pid p) (sp_counters p) (sp_oom_score_adj p) (sp_fds p ++ [f]).

Definition add_stats_process (p : StatsProcess) (s : ProcessStats) : ProcessStats :=
  mkProcessStats (stats_processes s ++ [p]) (stats_collection_end_timestamp s).

Definition set_stats_end (ts : Z) (s : ProcessStats) : ProcessStats :=
  mkProcessStats (stats_processes s) (Some ts).

Definition alter_process (f : StatsProcess -> StatsProcess) (j : nat)
    (s : ProcessStats) : ProcessStats :=
  mkProcessStats (alter f j (stats_processes s)) (stats_collection_end_timestamp s).

(** ** TracePacket *)

Inductive PacketField : Type :=
| ProcessTreeField (t : ProcessTree)
| ProcessStatsField (s : ProcessStats).

Record TracePacket : Type := mkTracePacket {
  timestamp : option Z;
  incremental_state_cleared : bool;
  fields : list PacketField
}.

Definition new_packet : TracePacket := mkTracePacket None false [].

Definition set_timestamp (ts : Z) (p : TracePacket) : TracePacket :=
  mkTracePacket (Some ts) (incremental_state_cleared p) (fields p).

Definition set_incremental_state_cleared (b : bool) (p : TracePacket) : TracePacket :=
  mkTracePacket (timestamp p) b (fields p).

Definition add_field (f : PacketField) (p : TracePacket) : TracePacket :=
  mkTracePacket (timestamp p) (incremental_state_cleared p) (fields p ++ [f]).

Definition on_tree (f : ProcessTree -> ProcessTree) (x : PacketField) : PacketField :=
  match x with
  | ProcessTreeField t => ProcessTreeField (f t)
  | ProcessStatsField _ => x
  end.

Definition on_stats (f : ProcessStats -> ProcessStats) (x : PacketField) : PacketField :=
  match x with
  | ProcessStatsField s => ProcessStatsField (f s)
  | ProcessTreeField _ => x
  end.

Definition alter_field (f : PacketField -> PacketField) (i : nat)
    (p : TracePacket) : TracePacket :=
  mkTracePacket (timestamp p) (incremental_state_cleared p) (alter f i (fields p)).

Definition alter_tree (f : ProcessTree -> ProcessTree) (i : nat) : TracePacket -> TracePacket :=
  alter_field (on_tree f) i.

Definition alter_stats (f : ProcessStats -> ProcessStats) (i : nat) : TracePacket -> TracePacket :=
  alter_field (on_stats f) i.

Definition alter_stats_process (f : StatsProcess -> StatsProcess) (i j : nat) :
    TracePacket -> TracePacket :=
  alter_stats (alter_process f j) i.

(** ** Reading a trace *)

Definition is_tree (x : PacketField) : bool :=
  match x with ProcessTreeField _ => true | _ => false end.

Definition is_stats (x : PacketField) : bool :=
  match x with ProcessStatsField _ => true | _ => false end.

Definition field_tree_processes (x : PacketField) : list TreeProcess :=
  match x with ProcessTreeField t => processes t | _ => [] end.

Definition field_tree_threads (x : PacketField) : list TreeThread :=
  match x with ProcessTreeField t => threads t | _ => [] end.

Definition field_stats_processes (x : PacketField) : list StatsProcess :=
  match x with ProcessStatsField s => stats_processes s | _ => [] end.

(** The process entries of the trees among a list of fields, in write
    order; likewise the threads and the stats entries. *)
Definition fields_processes (l : list PacketField) : list TreeProcess :=
  concat (map field_tree_processes l).

Definition fields_threads (l : list PacketField) : list TreeThread :=
  concat (map field_tree_threads l).

Definition fields_stats (l : list PacketField) : list StatsProcess :=
  concat (map field_stats_processes l).

Definition packet_tree_processes (p : TracePacket) : list TreeProcess :=
  fields_processes (fields p).

Definition packet_tree_threads (p : TracePacket) : list TreeThread :=
  fields_threads (fields p).

Definition packet_stats_processes (p : TracePacket) : list StatsProcess :=
  fields_stats (fields p).

(** The process entries of a whole trace. *)
Definition trace_processes (tr : list TracePacket) : list TreeProcess :=
  concat (map packet_tree_processes tr).

Definition trace_tree_pids (tr : list TracePacket) : list Z :=
  map p_pid (trace_processes tr).

(** * Lemmas *)

Lemma get_set_counter_same {V} c (v : V) r : get_counter c (set_counter c v r) = v.
Proof. destruct r, c; reflexivity. Qed.

Lemma get_set_counter_other {V} c c' (v : V) r :
  c <> c' -> get_counter c' (set_counter c v r) = get_counter c' r.
Proof. destruct r, c, c'; congruence || reflexivity. Qed.

Lemma get_counters_all {V} c (v : V) : get_counter c (counters_all v) = v.
Proof. destruct c; reflexivity. Qed.

Lemma set_counter_get {V} c (r : Counters V) : set_counter c (get_counter c r) r = r.
Proof. destruct r, c; reflexivity. Qed.

Lemma fields_add_field f p : fields (add_field f p) = fields p ++ [f].
Proof. reflexivity. Qed.

Lemma fields_alter_field f i p : fields (alter_field f i p) = alter f i (fields p).
Proof. reflexivity. Qed.

Lemma length_fields_alter_field f i p :
  length (fields (alter_field f i p)) = length (fields p).
Proof. cbn. apply length_alter. Qed.

Lemma timestamp_alter_field f i p : timestamp (alter_field f i p) = timestamp p.
Proof. reflexivity. Qed.

(** Altering the element a list ends with. *)
Lemma alter_last {A} (f : A -> A) (l : list A) x :
  alter f (length l) (l ++ [x]) = l ++ [f x].
Proof.
  replace (length l) with (length l + 0)%nat at 1 by lia.
  rewrite alter_app_r. reflexivity.
Qed.

Lemma fields_processes_app l1 l2 :
  fields_processes (l1 ++ l2) = fields_processes l1 ++ fields_processes l2.
Proof. unfold fields_processes. rewrite map_app, concat_app. reflexivity. Qed.

Lemma fields_processes_one x : fields_processes [x] = field_tree_processes x.
Proof. unfold fields_processes. cbn. apply app_nil_r. Qed.

Lemma fields_processes_snoc l x :
  fields_processes (l ++ [x]) = fields_processes l ++ field_tree_processes x.
Proof. apply concat_map_snoc. Qed.

(** A write that keeps the processes of the addressed field keeps the
    processes of the packet, whatever the index. *)
Lemma fields_processes_alter f i l :
  (forall x, field_tree_processes (f x) = field_tree_processes x) ->
  fields_processes (alter f i l) = fields_processes l.
Proof. apply concat_map_alter. Qed.

Lemma fields_processes_on_stats f i l :
  fields_processes (alter (on_stats f) i l) = fields_processes l.
Proof. apply fields_processes_alter. intros []; reflexivity. Qed.

(** Writing a process through an index that addresses the last field,
    a tree, appends the process to the packet's processes. *)
Lemma fields_processes_add_process l t pr :
  fields_processes (alter (on_tree (add_tree_process pr)) (length l)
                          (l ++ [ProcessTreeField t])) =
  fields_processes (l ++ [ProcessTreeField t]) ++ [pr].
Proof.
  rewrite alter_last, !fields_processes_snoc. cbn. apply app_assoc.
Qed.

Lemma trace_processes_app tr1 tr2 :
  trace_processes (tr1 ++ tr2) = trace_processes tr1 ++ trace_processes tr2.
Proof. unfold trace_processes. rewrite map_app, concat_app. reflexivity. Qed.

Lemma trace_processes_one p : trace_processes [p] = packet_tree_processes p.
Proof. unfold trace_processes. cbn. apply app_nil_r. Qed.
