(* ===== verification/ProcFs.v ===== *)
(** * The environment of the probe: /proc and the clocks

    A [ProcFs] is one snapshot of the parts of [/proc] the probe reads.
    Directory streams ([DIR*]) are the lists of entries still to be
    returned by [readdir].  Paths are not built as strings: a file is
    addressed by its pid and name, a link by its pid and descriptor. *)

From Stdlib Require Import ZArith List Ascii String Lia.
From stdpp Require Import base option list.
From S2P Require Import Prelude CxxString.

#[local] Open Scope Z_scope.
#[local] Open Scope m_scope.

(** ** Directory entries *)

Inductive file_type : Type := DT_DIR | DT_LNK | DT_REG.

#[export] Instance file_type_eq_dec : EqDecision file_type.
Proof. solve_decision. Defined.

Record dirent : Type := mkDirent {
  d_type : file_type;
  d_name : bytes
}.

Record ProcFs : Type := mkProcFs {
  (** [opendir("/proc")] *)
  proc_dir : option (list dirent);
  (** [opendir("/proc/<pid>/task")] *)
  task_dir : Z -> option (list dirent);
  (** [opendir("/proc/<pid>/fd")] *)
  fd_dir : Z -> option (list dirent);
  (** [base::ReadFile("/proc/<pid>/<file>")] *)
  proc_file : Z -> bytes -> option bytes;
  (** [readlink("/proc/<pid>/fd/<fd>")] *)
  fd_link : Z -> Z -> option bytes
}.

(** What one handler call sees: a snapshot of [/proc], the boot clock
    (its n-th reading) and the wall clock in milliseconds. *)
Record Env : Type := mkEnv {
  fs : ProcFs;
  boot_time_ns : nat -> Z;
  wall_time_ms : Z
}.

(** ** Reading directories *)

(** Skips entries that are not directories with a numeric name; returns
    the number and the rest of the stream, or 0 at the end. *)
Fixpoint ReadNextNumericDir (dirp : list dirent) : Z * list dirent :=
  match dirp with
  | [] => (0, [])
  | dir_ent :: rest =>
      if bool_decide (d_type dir_ent <> DT_DIR) then ReadNextNumericDir rest
      else match CStringToInt32 (d_name dir_ent) with
           | Some int_value => (int_value, rest)
           | None => ReadNextNumericDir rest
           end
  end.

(** [while (int32_t pid = ReadNextNumericDir(dirp)) body(pid);] where
    the body may update local variables [a] of the enclosing function. *)
Fixpoint scan_dir {S A} (fuel : nat) (dirp : list dirent) (body : A -> Z -> M S A)
    (a : A) : M S A :=
  match fuel with
  | O => ret a
  | Datatypes.S fuel' =>
      let '(pid, rest) := ReadNextNumericDir dirp in
      if pid =? 0 then ret a
      else a' <- body a pid ;; scan_dir fuel' rest body a'
  end.

(** The pids such a loop visits. *)
Fixpoint numeric_dirs (dirp : list dirent) : list Z :=
  match dirp with
  | [] => []
  | dir_ent :: rest =>
      if bool_decide (d_type dir_ent <> DT_DIR) then numeric_dirs rest
      else match CStringToInt32 (d_name dir_ent) with
           | Some v => if v =? 0 then [] else v :: numeric_dirs rest
           | None => numeric_dirs rest
           end
  end.

(** The descriptors [WriteFds] visits: entries that are links with a
    numeric name. *)
Definition fd_entry (dir_ent : dirent) : option Z :=
  if bool_decide (d_type dir_ent <> DT_LNK) then None
  else CStringToUInt64 (d_name dir_ent).

Definition GetProcMountpoint : bytes := lit "/proc".

Definition OpenProcDir (e : Env) : option (list dirent) := proc_dir (fs e).

Definition ReadProcPidFile (e : Env) (pid : Z) (file : bytes) : bytes :=
  match proc_file (fs e) pid file with
  | Some contents => contents
  | None => []
  end.

(** [readlink] into a buffer of [n] bytes. *)
Definition readlink (e : Env) (pid fd : Z) (n : nat) : option bytes :=
  take n <$> fd_link (fs e) pid fd.

(** * Lemmas *)

Lemma ReadNextNumericDir_length dirp :
  (length (snd (ReadNextNumericDir dirp)) <= length dirp)%nat.
Proof.
  induction dirp as [|d rest IH]; cbn; [lia|].
  destruct (bool_decide _); [lia|].
  destruct (CStringToInt32 _); cbn; lia.
Qed.

Lemma ReadNextNumericDir_shrinks dirp :
  fst (ReadNextNumericDir dirp) <> 0 ->
  (length (snd (ReadNextNumericDir dirp)) < length dirp)%nat.
Proof.
  induction dirp as [|d rest IH]; cbn; [congruence|].
  destruct (bool_decide _); [intros H; apply IH in H; lia|].
  destruct (CStringToInt32 _); cbn; [lia|intros H; apply IH in H; lia].
Qed.

Lemma numeric_dirs_unfold dirp :
  numeric_dirs dirp =
  let '(pid, rest) := ReadNextNumericDir dirp in
  if pid =? 0 then [] else pid :: numeric_dirs rest.
Proof.
  induction dirp as [|d rest IH]; cbn; [reflexivity|].
  destruct (bool_decide _); [exact IH|].
  destruct (CStringToInt32 _); [reflexivity|exact IH].
Qed.

Lemma numeric_dirs_nonzero dirp : Forall (fun pid => pid <> 0) (numeric_dirs dirp).
Proof.
  induction dirp as [|d rest IH]; cbn; [constructor|].
  destruct (bool_decide _); [exact IH|].
  destruct (CStringToInt32 _) as [v|]; [|exact IH].
  destruct (Z.eqb_spec v 0); [constructor|]. constructor; assumption.
Qed.

Lemma numeric_dirs_i32 dirp : Forall is_i32 (numeric_dirs dirp).
Proof.
  induction dirp as [|d rest IH]; cbn; [constructor|].
  destruct (bool_decide _); [exact IH|].
  destruct (CStringToInt32 _) as [v|] eqn:E; [|exact IH].
  destruct (v =? 0); [constructor|].
  constructor; [eapply CStringToInt32_range, E|exact IH].
Qed.

(** With enough fuel the scanning loop is the iteration over
    [numeric_dirs]. *)
Lemma scan_dir_foldM {S A} fuel dirp (body : A -> Z -> M S A) a s :
  (length dirp < fuel)%nat ->
  scan_dir fuel dirp body a s = foldM body (numeric_dirs dirp) a s.
Proof.
  revert dirp a s. induction fuel as [|fuel IH]; intros dirp a s Hlen; [lia|].
  cbn [scan_dir]. rewrite numeric_dirs_unfold.
  pose proof (ReadNextNumericDir_shrinks dirp) as Hlt.
  destruct (ReadNextNumericDir dirp) as [pid rest]. cbn [fst snd] in Hlt.
  destruct (Z.eqb_spec pid 0) as [|Hne]; [reflexivity|].
  cbn [foldM]. unfold bind. destruct (body a pid s) as [a' s'|f]; [|reflexivity].
  apply IH. specialize (Hlt Hne). lia.
Qed.

(** Fuel beyond the length of the stream does not change the result. *)
Lemma scan_dir_fuel {S A} fuel1 fuel2 dirp (body : A -> Z -> M S A) a s :
  (length dirp < fuel1)%nat -> (length dirp < fuel2)%nat ->
  scan_dir fuel1 dirp body a s = scan_dir fuel2 dirp body a s.
Proof. intros H1 H2. rewrite !scan_dir_foldM by assumption. reflexivity. Qed.

Lemma wp_scan_dir {S A} F dirp (body : A -> Z -> M S A) a (Q : A -> S -> Prop) s :
  wpf F (scan_dir (Datatypes.S (length dirp)) dirp body a) Q s <->
  wpf F (foldM body (numeric_dirs dirp) a) Q s.
Proof. unfold wpf. rewrite scan_dir_foldM by lia. reflexivity. Qed.

(** A scan maintains what its body maintains on the names it visits. *)
Lemma preserves_scan_dir {S A} F (I : S -> Prop) dirp (body : A -> Z -> M S A) a :
  (forall a0 pid, pid ∈ numeric_dirs dirp -> preserves F I (body a0 pid)) ->
  preserves F I (scan_dir (Datatypes.S (length dirp)) dirp body a).
Proof.
  intros Hbody s Hs. apply wp_scan_dir.
  apply (preserves_foldM_elem F I); assumption.
Qed.

Lemma readlink_length e pid fd n p : readlink e pid fd n = Some p -> (length p <= n)%nat.
Proof.
  unfold readlink. destruct (fd_link _ _ _); [|discriminate].
  intros [= <-]. rewrite length_take. lia.
Qed.

Lemma numeric_dirs_length dirp : (length (numeric_dirs dirp) <= length dirp)%nat.
Proof.
  induction dirp as [|d rest IH]; cbn; [lia|].
  destruct (bool_decide _); [lia|].
  destruct (CStringToInt32 _) as [v|]; [|lia]. destruct (v =? 0); cbn; lia.
Qed.

(** * Theorems *)

(** Termination of the directory scans: with fuel above the number
    of entries still in the stream, the loop
    [while (pid = ReadNextNumericDir(dirp))] runs its body exactly on the
    names of the directories that are numbers, in order and up to the
    first that converts to 0; the fuel is never exhausted, so more fuel
    changes nothing; and every pid visited is a non-zero 32-bit
    integer. *)
Theorem scan_dir_terminates {S A} fuel fuel' dirp (body : A -> Z -> M S A) a s :
  (length dirp < fuel)%nat -> (length dirp < fuel')%nat ->
  scan_dir fuel dirp body a s = foldM body (numeric_dirs dirp) a s /\
  scan_dir fuel' dirp body a s = scan_dir fuel dirp body a s /\
  Forall (fun pid => pid <> 0 /\ is_i32 pid) (numeric_dirs dirp) /\
  (length (numeric_dirs dirp) <= length dirp)%nat.
Proof.
  intros Hf Hf'. split; [apply scan_dir_foldM, Hf|]. split; [apply scan_dir_fuel; assumption|].
  split; [|apply numeric_dirs_length].
  apply Forall_and. split; [apply numeric_dirs_nonzero|apply numeric_dirs_i32].
Qed.

(** A directory with a file, two numeric directories and a directory
    named 0 behind them: the scan visits 7 and 12 and stops. *)
Lemma scan_dir_terminates_witness :
  let dirp := [mkDirent DT_REG (lit "stat"); mkDirent DT_DIR (lit "7");
               mkDirent DT_DIR (lit "12"); mkDirent DT_DIR (lit "0")] in
  let body := fun (acc : list Z) pid => ret (S:=unit) (acc ++ [pid]) in
  scan_dir 5 dirp body [] tt = foldM body (numeric_dirs dirp) [] tt /\
  scan_dir 9 dirp body [] tt = scan_dir 5 dirp body [] tt /\
  Forall (fun pid => pid <> 0 /\ is_i32 pid) (numeric_dirs dirp) /\
  (length (numeric_dirs dirp) <= length dirp)%nat.
Proof. cbn zeta. apply scan_dir_terminates; cbn; lia. Defined.
