(* ===== verification/StatusParse.v ===== *)
(** * Parsing /proc/<pid>/status

    The pure parsers of [process_stats_data_source.cc]: the numeric
    conversions [ToInt] and [ToU32], the key lookup
    [ReadProcStatusEntry], the namespace-pid reader
    [ReadNamespacedTids], the command-line splitter of [WriteProcess],
    and the character-level state machine with which [WriteMemCounters]
    walks the file ([mem_step]).  [status_lines] is the line-based
    reference the state machine is proved equivalent to, and
    [render_entry] prints one line of the file for the round-trip
    theorem.  The lemmas and theorems show that

    - [ReadProcStatusEntry] reads the value of a key back from the
      first line that holds the key, and what it returns never spans
      lines;
    - the state machine of [WriteMemCounters] agrees with the
      line-based reference, by the three phases of a line (key,
      separator, value);
    - [ReadNamespacedTids] checks the bounds of the namespace array,
      and what the tree writers read is typed (32-bit ids, command
      lines without NUL);
    - the chain of comparisons [counter_of_key] is a lookup. *)

From Stdlib Require Import ZArith List Ascii String Lia.
From stdpp Require Import base option list.
From S2P Require Import Prelude CxxString TraceProto.

#[local] Open Scope Z_scope.

(** ** Numeric conversions *)

(** [atoi(str.c_str())] *)
Definition ToInt (str : bytes) : Z := atoi (c_str str).

(** [static_cast<uint32_t>(strtol(str, nullptr, 10))] *)
Definition ToU32 (str : bytes) : Z := wrap_u32 (fst (strtol (c_str str))).

(** ** ReadProcStatusEntry *)

Definition strlen (s : bytes) : nat := length (c_str s).

Definition ReadProcStatusEntry (buf key : bytes) : bytes :=
  match str_find buf (c_str key) 0 with
  | None => []
  | Some begin =>
      match find_first_not_of buf [SPACE; TAB] (begin + strlen key) with
      | None => []
      | Some begin' =>
          match find_char buf LF begin' with
          | None => []
          | Some end_ =>
              if (end_ <=? begin')%nat then []
              else substr buf begin' (end_ - begin')
          end
      end
  end.

(** ** ReadNamespacedTids *)

(** The length of [TidArray]. *)
Definition kTidArraySize : nat := 8.

Definition TidArray_zero : list Z := replicate kTidArraySize 0.

(** The loop [while (ss.Next()) { CHECK(it < out.end()); *it++ = ...; }]
    over the remaining tokens, with [it] the index of the next slot. *)
Fixpoint write_tids (toks : list bytes) (it : nat) (out : list Z) : fault + list Z :=
  match toks with
  | [] => inr out
  | tok :: rest =>
      if (it <? length out)%nat then
        match CStringToInt32 tok with
        | Some v => write_tids rest (S it) (<[it := v]> out)
        | None => inl UndefinedBehaviour
        end
      else inl FailedCheck
  end.

Definition ReadNamespacedTids (tid : Z) (proc_status : bytes) (out : list Z) :
    fault + list Z :=
  match proc_status with
  | [] => inr out
  | _ =>
      let nspid := ReadProcStatusEntry proc_status (lit "NSpid:") in
      match nspid with
      | [] => inr out
      | _ =>
          let out0 := map (fun _ => 0) out in
          let ss := StringSplitter_str nspid TAB in
          write_tids (tail ss) 0 out0
      end
  end.

(** [for (auto x : arr) { if (x == 0) break; add(x); }] *)
Fixpoint until_zero (arr : list Z) : list Z :=
  match arr with
  | [] => []
  | x :: rest => if x =? 0 then [] else x :: until_zero rest
  end.

(** ** The command line of a process *)

(** The [cmdline] entries [WriteProcess] adds: the NUL-separated tokens
    of [/proc/<pid>/cmdline], or the process name when the file is
    empty. *)
Definition cmdline_tokens (cmdline name : bytes) : list bytes :=
  match cmdline with
  | [] => [c_str name]
  | _ =>
      let cmdline' :=
        if bool_decide (last cmdline <> Some NUL) then cmdline ++ [NUL] else cmdline in
      StringSplitter_buf cmdline' NUL
  end.

(** ** The state machine of WriteMemCounters *)

Inductive MemState : Type := kKey | kSeparator | kValue.

Record MemParser : Type := mkMemParser {
  mp_key : bytes;
  mp_value : bytes;
  mp_state : MemState
}.

Definition mem_init : MemParser := mkMemParser [] [] kKey.

(** The key and the value as [strcmp] and [ToU32] see them at a newline:
    both vectors have been terminated with NUL. *)
Definition mem_line (st : MemParser) : bytes * bytes :=
  (c_str (mp_key st ++ [NUL]), c_str (mp_value st ++ [NUL])).

(** One character.  At a newline both vectors get a NUL, then the key is
    cleared; the value is not. *)
Definition mem_step (st : MemParser) (c : ascii) : MemParser :=
  if Ascii.eqb c LF then mkMemParser [] (mp_value st ++ [NUL]) kKey
  else match mp_state st with
       | kKey =>
           if Ascii.eqb c COLON then mkMemParser (mp_key st) (mp_value st) kSeparator
           else mkMemParser (mp_key st ++ [c]) (mp_value st) kKey
       | kSeparator =>
           if isspace c then st
           else mkMemParser (mp_key st) [c] kValue
       | kValue => mkMemParser (mp_key st) (mp_value st ++ [c]) kValue
       end.

(** The key of each counter, as compared with [strcmp]. *)
Definition counter_key (c : Counter) : bytes :=
  match c with
  | VmSize => lit "VmSize"
  | VmLck => lit "VmLck"
  | VmHWM => lit "VmHWM"
  | VmRSS => lit "VmRSS"
  | RssAnon => lit "RssAnon"
  | RssFile => lit "RssFile"
  | RssShmem => lit "RssShmem"
  | VmSwap => lit "VmSwap"
  end.

(** The chain of [strcmp] tests: the first counter whose key matches. *)
Definition counter_of_key (key : bytes) : option Counter :=
  List.find (fun c => strcmp_eq key (counter_key c)) all_counters.

(** ** The line-based reference *)

(** The (key, value) pairs at the newlines of [text], as [mem_line]
    reports them, computed by running the state machine. *)
Fixpoint mem_lines_from (st : MemParser) (text : bytes) : list (bytes * bytes) :=
  match text with
  | [] => []
  | c :: rest =>
      if Ascii.eqb c LF then mem_line st :: mem_lines_from (mem_step st c) rest
      else mem_lines_from (mem_step st c) rest
  end.

Definition mem_lines (text : bytes) : list (bytes * bytes) := mem_lines_from mem_init text.

(** The same pairs computed line by line.  A line is split at its first
    colon; the value is what follows the white space after the colon; a
    line without a value reports the value of the line before
    ([stale]). *)
Fixpoint skip_isspace (s : bytes) : bytes :=
  match s with
  | c :: s' => if isspace c then skip_isspace s' else s
  | [] => []
  end.

Definition line_key (line : bytes) : bytes :=
  match find_char line COLON 0 with
  | Some i => take i line
  | None => line
  end.

Definition line_value (line : bytes) : bytes :=
  match find_char line COLON 0 with
  | Some i => skip_isspace (drop (S i) line)
  | None => []
  end.

Fixpoint status_lines_from (stale : bytes) (lines : list bytes) : list (bytes * bytes) :=
  match lines with
  | [] => []
  | line :: rest =>
      let v := match line_value line with [] => stale | v => v end in
      (c_str (line_key line), c_str v) :: status_lines_from (c_str v) rest
  end.

(** The complete lines of a text: what precedes each newline. *)
Definition complete_lines (text : bytes) : list bytes := removelast (split LF text).

Definition status_lines (text : bytes) : list (bytes * bytes) :=
  status_lines_from [] (complete_lines text).

(** ** Printing *)

(** One line of a status file as the kernel prints it. *)
Definition render_entry (key value : bytes) : bytes := key ++ [TAB] ++ value ++ [LF].

(** * Lemmas *)

(** ** ReadProcStatusEntry *)

Lemma find_at_prefix key t i : find_at key (key ++ t) i = Some i.
Proof.
  pose proof (is_prefix_app key t) as Hp.
  destruct (key ++ t); cbn [find_at]; rewrite Hp; reflexivity.
Qed.

Lemma find_first_not_of_app s1 s2 set :
  find_first_not_of (s1 ++ s2) set (length s1) =
  find_first_not_of_at set s2 (length s1).
Proof.
  unfold find_first_not_of. rewrite drop_app_length. reflexivity.
Qed.

Lemma find_char_app s1 s2 c :
  find_char (s1 ++ s2) c (length s1) = find_char_at c s2 (length s1).
Proof. unfold find_char. rewrite drop_app_length. reflexivity. Qed.

Lemma find_first_not_of_at_Some set s i j :
  find_first_not_of_at set s i = Some j ->
  (i <= j)%nat /\ exists c, s !! (j - i)%nat = Some c /\ mem_char c set = false.
Proof.
  revert i. induction s as [|b s IH]; intros i; cbn [find_first_not_of_at]; [discriminate|].
  destruct (mem_char b set) eqn:E.
  - intros H. apply IH in H as (Hle & c & Hc & Hm). split; [lia|].
    exists c. replace (j - i)%nat with (S (j - S i)) by lia. auto.
  - intros [= <-]. split; [lia|]. exists b. rewrite Nat.sub_diag. auto.
Qed.

Lemma find_first_not_of_Some s set pos j :
  find_first_not_of s set pos = Some j ->
  exists c, s !! j = Some c /\ mem_char c set = false.
Proof.
  unfold find_first_not_of. intros H.
  apply find_first_not_of_at_Some in H as (Hle & c & Hc & Hm).
  exists c. split; [|exact Hm]. rewrite lookup_drop in Hc.
  replace (pos + (j - pos))%nat with j in Hc by lia. exact Hc.
Qed.

(** The entry of a key is read back from the first line that holds the
    key. *)
Lemma ReadProcStatusEntry_line pre key ws b value post :
  NUL ∉ key ->
  (forall k, (k < length pre)%nat ->
     is_prefix key (drop k (pre ++ key ++ ws ++ (b :: value) ++ LF :: post)) = false) ->
  Forall (fun c => mem_char c [SPACE; TAB] = true) ws ->
  mem_char b [SPACE; TAB] = false -> LF ∉ b :: value ->
  ReadProcStatusEntry (pre ++ key ++ ws ++ (b :: value) ++ LF :: post) key = b :: value.
Proof.
  intros Hnul Hfirst Hws Hb Hlf. unfold ReadProcStatusEntry, str_find, strlen.
  rewrite (c_str_id key Hnul). cbn [Nat.leb]. rewrite drop_0.
  rewrite find_at_skip by exact Hfirst. rewrite find_at_prefix, Nat.add_0_r.
  rewrite <- length_app, (app_assoc pre key).
  rewrite find_first_not_of_app, find_first_not_of_at_app by exact Hws.
  cbn [app]. rewrite find_first_not_of_at_hd by exact Hb.
  rewrite (Nat.add_comm (length ws)), <- length_app, (app_assoc _ ws).
  change (b :: value ++ LF :: post) with ((b :: value) ++ LF :: post).
  rewrite find_char_app, find_char_at_app by exact Hlf.
  cbn [find_char_at]. rewrite Ascii.eqb_refl.
  destruct (Nat.leb_spec (length (b :: value) + length ((pre ++ key) ++ ws))
                         (length ((pre ++ key) ++ ws))) as [Hle|_]; [cbn in Hle; lia|].
  replace (length (b :: value) + length ((pre ++ key) ++ ws) - length ((pre ++ key) ++ ws))%nat
    with (length (b :: value)) by lia.
  apply substr_app.
Qed.

(** A key cannot occur where the text has another character than its
    first. *)
Lemma is_prefix_head key c x t :
  head key = Some c -> c <> x -> is_prefix key (x :: t) = false.
Proof.
  destruct key as [|a key]; [discriminate|]. intros [= ->] Hne. cbn.
  destruct (Ascii.eqb_spec c x); [contradiction|reflexivity].
Qed.

Lemma is_prefix_skip key c pre t k :
  head key = Some c -> c ∉ pre -> (k < length pre)%nat ->
  is_prefix key (drop k (pre ++ t)) = false.
Proof.
  intros Hk Hc Hlt. destruct (lookup_lt_is_Some_2 pre k Hlt) as [x Hx].
  rewrite drop_app_le by lia. rewrite (drop_S pre x k Hx). cbn [app].
  apply (is_prefix_head key c); [exact Hk|]. intros ->. apply Hc.
  eapply list_elem_of_lookup_2, Hx.
Qed.

(** ** The state machine of WriteMemCounters *)

Lemma c_str_snoc_nul s : c_str (s ++ [NUL]) = c_str s.
Proof.
  induction s as [|c s IH]; cbn [app c_str]; [reflexivity|].
  destruct (Ascii.eqb c NUL); [reflexivity|]. rewrite IH. reflexivity.
Qed.

Lemma find_char_at_shift c s i :
  find_char_at c s i = (fun j => (j + i)%nat) <$> find_char_at c s 0.
Proof.
  revert i. induction s as [|b s IH]; intros i; cbn [find_char_at]; [reflexivity|].
  destruct (Ascii.eqb b c); [reflexivity|].
  rewrite (IH (S i)), (IH 1%nat).
  destruct (find_char_at c s 0); cbn; [f_equal; lia|reflexivity].
Qed.

(** The three phases of a line. *)
Lemma mem_run_value l k v :
  LF ∉ l -> fold_left mem_step l (mkMemParser k v kValue) = mkMemParser k (v ++ l) kValue.
Proof.
  revert v. induction l as [|c l IH]; intros v; [rewrite app_nil_r; reflexivity|].
  rewrite not_elem_of_cons. intros [Hc Hl]. cbn [fold_left]. unfold mem_step at 2.
  destruct (Ascii.eqb_spec c LF); [congruence|]. cbn [mp_state mp_key mp_value].
  rewrite IH by exact Hl. rewrite <- app_assoc. reflexivity.
Qed.

Lemma mem_run_separator l k v :
  LF ∉ l ->
  fold_left mem_step l (mkMemParser k v kSeparator) =
  match skip_isspace l with
  | [] => mkMemParser k v kSeparator
  | c :: r => mkMemParser k (c :: r) kValue
  end.
Proof.
  induction l as [|c l IH]; [reflexivity|].
  rewrite not_elem_of_cons. intros [Hc Hl]. cbn [fold_left skip_isspace]. unfold mem_step at 2.
  destruct (Ascii.eqb_spec c LF); [congruence|]. cbn [mp_state mp_key mp_value].
  destruct (isspace c); [apply IH, Hl|]. apply mem_run_value, Hl.
Qed.

Lemma mem_run_key l k v :
  LF ∉ l ->
  fold_left mem_step l (mkMemParser k v kKey) =
  match find_char_at COLON l 0 with
  | None => mkMemParser (k ++ l) v kKey
  | Some i => fold_left mem_step (drop (S i) l) (mkMemParser (k ++ take i l) v kSeparator)
  end.
Proof.
  revert k. induction l as [|c l IH]; intros k; [rewrite app_nil_r; reflexivity|].
  rewrite not_elem_of_cons. intros [Hc Hl]. cbn [fold_left find_char_at]. unfold mem_step at 2.
  destruct (Ascii.eqb_spec c LF); [congruence|]. cbn [mp_state mp_key mp_value].
  destruct (Ascii.eqb_spec c COLON) as [->|Hne].
  - cbn. rewrite app_nil_r. reflexivity.
  - rewrite IH by exact Hl. rewrite (find_char_at_shift COLON l 1).
    destruct (find_char_at COLON l 0) as [i|]; cbn [fmap option_fmap option_map].
    + rewrite Nat.add_1_r. cbn [drop take]. rewrite <- app_assoc. reflexivity.
    + rewrite <- app_assoc. reflexivity.
Qed.

Lemma mem_lines_from_nolf st l : LF ∉ l -> mem_lines_from st l = [].
Proof.
  revert st. induction l as [|c l IH]; intros st; [reflexivity|].
  rewrite not_elem_of_cons. intros [Hc Hl]. cbn [mem_lines_from].
  destruct (Ascii.eqb_spec c LF); [congruence|]. apply IH, Hl.
Qed.

Lemma mem_lines_from_line st l rest :
  LF ∉ l ->
  mem_lines_from st (l ++ LF :: rest) =
  mem_line (fold_left mem_step l st) ::
  mem_lines_from (mem_step (fold_left mem_step l st) LF) rest.
Proof.
  revert st. induction l as [|c l IH]; intros st.
  - intros _. cbn. reflexivity.
  - rewrite not_elem_of_cons. intros [Hc Hl]. cbn [app mem_lines_from fold_left].
    destruct (Ascii.eqb_spec c LF); [congruence|]. apply IH, Hl.
Qed.

(** What the parser holds at the end of a line that it entered with an
    empty key. *)
Lemma mem_run_line l v :
  LF ∉ l ->
  let st := fold_left mem_step l (mkMemParser [] v kKey) in
  mp_key st = line_key l /\
  mp_value st = match line_value l with [] => v | w => w end.
Proof.
  intros Hl. cbn zeta. rewrite mem_run_key by exact Hl.
  unfold line_key, line_value, find_char. rewrite drop_0.
  destruct (find_char_at COLON l 0) as [i|]; [|auto].
  rewrite mem_run_separator.
  - destruct (skip_isspace _); auto.
  - intros Hin. apply Hl. rewrite <- (take_drop (S i) l). apply elem_of_app. auto.
Qed.

Lemma complete_lines_line l rest :
  LF ∉ l -> complete_lines (l ++ LF :: rest) = l :: complete_lines rest.
Proof.
  intros Hl. unfold complete_lines. rewrite split_app_delim by exact Hl.
  pose proof (split_nonnil LF rest). cbn [removelast].
  destruct (split LF rest); [contradiction|reflexivity].
Qed.

Lemma complete_lines_nolf l : LF ∉ l -> complete_lines l = [].
Proof. intros Hl. unfold complete_lines. rewrite split_id by exact Hl. reflexivity. Qed.

(** A text is a line without a line feed, or a first line and the rest. *)
Lemma first_line text :
  LF ∉ text \/ exists l rest, text = l ++ LF :: rest /\ LF ∉ l.
Proof.
  induction text as [|c text IH]; [left; apply not_elem_of_nil|].
  destruct (Ascii.eqb_spec c LF) as [->|Hne].
  - right. exists [], text. split; [reflexivity|apply not_elem_of_nil].
  - destruct IH as [Hl|(l & rest & -> & Hl)].
    + left. rewrite not_elem_of_cons. auto.
    + right. exists (c :: l), rest. split; [reflexivity|]. rewrite not_elem_of_cons. auto.
Qed.

Lemma mem_step_LF st : mem_step st LF = mkMemParser [] (mp_value st ++ [NUL]) kKey.
Proof. unfold mem_step. rewrite Ascii.eqb_refl. reflexivity. Qed.

Lemma mem_lines_from_status n text v :
  (length text <= n)%nat ->
  mem_lines_from (mkMemParser [] v kKey) text =
  status_lines_from (c_str v) (complete_lines text).
Proof.
  revert text v. induction n as [|n IH]; intros text v Hn.
  - destruct text; [reflexivity|cbn in Hn; lia].
  - destruct (first_line text) as [Hl|(l & rest & -> & Hl)].
    + rewrite mem_lines_from_nolf, complete_lines_nolf by exact Hl. reflexivity.
    + rewrite mem_lines_from_line, complete_lines_line by exact Hl.
      destruct (mem_run_line l v Hl) as [Hk Hv]. cbn zeta in Hk, Hv.
      cbn [status_lines_from]. rewrite mem_step_LF. unfold mem_line.
      rewrite Hk, Hv, !c_str_snoc_nul.
      assert (c_str match line_value l with [] => v | w => w end =
              c_str match line_value l with [] => c_str v | w => w end) as Hc.
      { destruct (line_value l); [rewrite c_str_idem|]; reflexivity. }
      rewrite <- Hc. f_equal.
      rewrite IH by (rewrite length_app in Hn; cbn in Hn; lia).
      rewrite c_str_snoc_nul. reflexivity.
Qed.

(** The key and the value of a line with a colon. *)
Lemma line_key_colon k t : COLON ∉ k -> line_key (k ++ COLON :: t) = k.
Proof.
  intros Hk. unfold line_key, find_char. rewrite drop_0, find_char_at_app by exact Hk.
  cbn [find_char_at]. rewrite Ascii.eqb_refl, Nat.add_0_r. apply take_app_length.
Qed.

Lemma line_value_colon k t : COLON ∉ k -> line_value (k ++ COLON :: t) = skip_isspace t.
Proof.
  intros Hk. unfold line_value, find_char. rewrite drop_0, find_char_at_app by exact Hk.
  cbn [find_char_at]. rewrite Ascii.eqb_refl, Nat.add_0_r.
  change (k ++ COLON :: t) with (k ++ [COLON] ++ t). rewrite app_assoc.
  rewrite drop_app_length' by (rewrite length_app; cbn; lia). reflexivity.
Qed.

Lemma skip_isspace_app ws t :
  Forall (fun c => isspace c = true) ws -> skip_isspace (ws ++ t) = skip_isspace t.
Proof. induction 1 as [|c ws Hc _ IH]; [reflexivity|]. cbn. rewrite Hc. exact IH. Qed.

Lemma skip_isspace_all ws : Forall (fun c => isspace c = true) ws -> skip_isspace ws = [].
Proof. intros Hws. rewrite <- (app_nil_r ws). apply skip_isspace_app, Hws. Qed.

(** One line, entered between lines with the value [v] left over. *)
Lemma mem_lines_from_entry v l rest :
  LF ∉ l ->
  mem_lines_from (mkMemParser [] v kKey) (l ++ LF :: rest) =
  let w := match line_value l with [] => v | w => w end in
  (c_str (line_key l), c_str w) :: mem_lines_from (mkMemParser [] (w ++ [NUL]) kKey) rest.
Proof.
  intros Hl. rewrite mem_lines_from_line by exact Hl.
  destruct (mem_run_line l v Hl) as [Hk Hv]. cbn zeta in *.
  rewrite mem_step_LF. unfold mem_line. rewrite Hk, Hv, !c_str_snoc_nul. reflexivity.
Qed.

(** * Theorems *)

(** C22. The character-level state machine of [WriteMemCounters] and
    the line-based reading of the file agree: at each line feed the
    machine compares and converts exactly the key before the first
    colon of the line and the value behind the white space that follows
    it, both cut at their first NUL; a line without a value yields the
    value of the line before it. *)
Theorem mem_lines_status_lines text : mem_lines text = status_lines text.
Proof. apply (mem_lines_from_status (length text)). lia. Qed.

(** C36. A line without a value reports the value of the line before
    it: when a line [k1: value] is followed by a line [k2:] that holds
    nothing but white space behind its colon, the state machine of
    [WriteMemCounters] reports [value] for [k1] and again for [k2],
    in whatever state it enters the first line, because the value
    vector is not cleared at a line feed; the counter of [k2] is then
    written with the value of another counter. *)
Theorem mem_lines_stale_value v k1 ws1 b value k2 ws2 rest :
  COLON ∉ k1 -> COLON ∉ k2 -> LF ∉ k1 ++ ws1 ++ value -> LF ∉ k2 ++ ws2 ->
  Forall (fun c => isspace c = true) (ws1 ++ ws2) -> isspace b = false ->
  mem_lines_from (mkMemParser [] v kKey)
    ((k1 ++ COLON :: ws1 ++ b :: value) ++ LF :: (k2 ++ COLON :: ws2) ++ LF :: rest) =
  (c_str k1, c_str (b :: value)) :: (c_str k2, c_str (b :: value)) ::
  mem_lines_from (mkMemParser [] ((b :: value) ++ [NUL; NUL]) kKey) rest.
Proof.
  intros Hk1 Hk2 Hlf1 Hlf2 Hws Hb. apply Forall_app in Hws as [Hws1 Hws2].
  assert (b <> LF) as HbLF by (intros ->; discriminate).
  apply not_elem_of_app in Hlf1 as [Hk1' Hlf1], Hlf2 as [Hk2' Hw2].
  apply not_elem_of_app in Hlf1 as [Hw1 Hv1].
  assert (LF ∉ k1 ++ COLON :: ws1 ++ b :: value) as Hl1.
  { rewrite not_elem_of_app, not_elem_of_cons, not_elem_of_app, not_elem_of_cons.
    repeat split; try assumption; try discriminate. congruence. }
  assert (LF ∉ k2 ++ COLON :: ws2) as Hl2.
  { rewrite not_elem_of_app, not_elem_of_cons. repeat split; try assumption. discriminate. }
  rewrite mem_lines_from_entry by exact Hl1. cbn zeta.
  rewrite mem_lines_from_entry by exact Hl2. cbn zeta.
  rewrite !line_key_colon, !line_value_colon by assumption.
  rewrite skip_isspace_app, (skip_isspace_all ws2) by assumption.
  cbn [skip_isspace]. rewrite Hb, c_str_snoc_nul, <- app_assoc. reflexivity.
Qed.

(** C27. Round trip of a status line: the entry of [key] is read back
    from a file that holds, behind a prefix in which the key does not
    occur, the line printed for the key and a value, provided the key
    has no NUL and the value is not empty, holds no line feed and does
    not start with a space or a tab. *)
Theorem ReadProcStatusEntry_render pre key b value post :
  NUL ∉ key ->
  (forall k, (k < length pre)%nat ->
     is_prefix key (drop k (pre ++ render_entry key (b :: value) ++ post)) = false) ->
  mem_char b [SPACE; TAB] = false -> LF ∉ b :: value ->
  ReadProcStatusEntry (pre ++ render_entry key (b :: value) ++ post) key = b :: value.
Proof.
  unfold render_entry. intros Hnul Hfirst Hb Hlf.
  assert (pre ++ (key ++ [TAB] ++ (b :: value) ++ [LF]) ++ post =
          pre ++ key ++ [TAB] ++ (b :: value) ++ LF :: post) as Heq
    by (rewrite <- !app_assoc; reflexivity).
  rewrite Heq in *. apply ReadProcStatusEntry_line; try assumption.
  repeat constructor.
Qed.

(** What [ReadProcStatusEntry] can return, whatever the file: a
    value without a line feed that does not start with a space or a
    tab; in particular never more than the rest of one line. *)
Theorem ReadProcStatusEntry_shape buf key :
  (LF ∉ ReadProcStatusEntry buf key) /\
  forall b, head (ReadProcStatusEntry buf key) = Some b -> mem_char b [SPACE; TAB] = false.
Proof.
  unfold ReadProcStatusEntry.
  destruct (str_find _ _ _) as [begin|]; [|split; [apply not_elem_of_nil|discriminate]].
  destruct (find_first_not_of _ _ _) as [begin'|] eqn:Hb;
    [|split; [apply not_elem_of_nil|discriminate]].
  destruct (find_char _ _ _) as [end_|] eqn:He; [|split; [apply not_elem_of_nil|discriminate]].
  destruct (Nat.leb_spec end_ begin'); [split; [apply not_elem_of_nil|discriminate]|].
  unfold find_char in He. apply find_char_at_Some in He as (_ & _ & Hnot).
  unfold substr. split; [exact Hnot|].
  apply find_first_not_of_Some in Hb as (c & Hc & Hmem).
  replace (end_ - begin')%nat with (S (end_ - begin' - 1)) by lia.
  rewrite <- (Nat.add_0_r begin'), <- lookup_drop in Hc.
  destruct (drop begin' buf) as [|c' r]; [discriminate|]. cbn in *.
  intros b0 [= <-]. congruence.
Qed.

(** C38. [ReadProcStatusEntry] finds a key anywhere in the file, not
    only at the start of a line: when the name of the process is the
    key followed by a value, the entry of the key is read from the
    [Name:] line, whatever the rest of the file holds, the real line of
    the key included.  The only condition on the key is that its first
    character is none of [Name:] and the tab, as with [Tgid:], [Pid:],
    [PPid:] and [Uid:]. *)
Theorem ReadProcStatusEntry_spoofed key c b value rest :
  NUL ∉ key -> head key = Some c -> c ∉ lit "Name:" ++ [TAB] ->
  mem_char b [SPACE; TAB] = false -> LF ∉ b :: value ->
  ReadProcStatusEntry (render_entry (lit "Name:") (key ++ b :: value) ++ rest) key =
  b :: value.
Proof.
  intros Hnul Hk Hc Hb Hlf. unfold render_entry.
  assert ((lit "Name:" ++ [TAB] ++ (key ++ b :: value) ++ [LF]) ++ rest =
          (lit "Name:" ++ [TAB]) ++ key ++ [] ++ (b :: value) ++ LF :: rest) as ->
    by (rewrite <- !app_assoc; reflexivity).
  apply ReadProcStatusEntry_line; [exact Hnul| |constructor|exact Hb|exact Hlf].
  intros k Hlt. apply (is_prefix_skip key c); assumption.
Qed.


(** ** ReadNamespacedTids *)

(** Writing numeric tokens into the array from slot [it] succeeds
    exactly when they fit, and then fills consecutive slots and leaves
    the others. *)
Lemma write_tids_spec toks it out :
  Forall (fun t => is_Some (CStringToInt32 t)) toks ->
  write_tids toks it out =
  if decide (it + length toks <= length out)%nat
  then inr (take it out ++ omap CStringToInt32 toks ++ drop (it + length toks) out)
  else if decide (toks = []) then inr out else inl FailedCheck.
Proof.
  intros Hnum. revert it out. induction Hnum as [|tok toks [v Hv] _ IH]; intros it out.
  - cbn [write_tids length omap]. rewrite Nat.add_0_r, app_nil_l, take_drop.
    repeat case_decide; congruence.
  - cbn [write_tids length omap list_omap]. rewrite Hv.
    destruct (Nat.ltb_spec it (length out)) as [Hlt|Hge].
    + rewrite IH, length_insert.
      destruct (decide (it + S (length toks) <= length out)%nat) as [Hfit|Hno].
      * rewrite decide_True by lia. f_equal.
        rewrite (take_S_r _ it v) by (apply list_lookup_insert_eq, Hlt).
        rewrite take_insert_ge, drop_insert_lt by lia.
        rewrite <- app_assoc. cbn. do 4 f_equal. lia.
      * rewrite decide_False by lia. destruct toks; [cbn [length] in Hno; lia|].
        rewrite !decide_False by discriminate. reflexivity.
    + rewrite decide_False by lia. rewrite decide_False by discriminate. reflexivity.
Qed.

Lemma map_const_replicate {A B} (b : B) (l : list A) :
  map (fun _ => b) l = replicate (length l) b.
Proof. induction l as [|a l IH]; cbn; [reflexivity|f_equal; exact IH]. Qed.

(** ** The types of what the tree writers read *)

(** Every slot of the namespace array holds an [int32], whatever the
    status file says: the slots are written from [CStringToInt32]. *)
Lemma write_tids_i32 toks it out out' :
  Forall is_i32 out -> write_tids toks it out = inr out' -> Forall is_i32 out'.
Proof.
  revert it out. induction toks as [|tok toks IH]; intros it out Hout; cbn [write_tids].
  - intros [= Heq]. subst. exact Hout.
  - destruct (it <? length out)%nat; [|discriminate].
    destruct (CStringToInt32 tok) as [v|] eqn:E; [|discriminate].
    apply IH, Forall_insert; [exact Hout|]. eapply CStringToInt32_range, E.
Qed.

Lemma ReadNamespacedTids_i32 tid proc_status out out' :
  Forall is_i32 out -> ReadNamespacedTids tid proc_status out = inr out' ->
  Forall is_i32 out'.
Proof.
  intros Hout. unfold ReadNamespacedTids.
  destruct proc_status as [|c0 status]; [intros [= Heq]; subst; exact Hout|].
  destruct (ReadProcStatusEntry (c0 :: status) (lit "NSpid:")) as [|b v] eqn:E;
    [intros [= Heq]; subst; exact Hout|].
  apply write_tids_i32, Forall_fmap, Forall_true. intros x. cbn. unfold is_i32. lia.
Qed.

(** The ids added to a message are those before the first 0. *)
Lemma until_zero_typed arr :
  Forall is_i32 arr -> Forall (fun id => is_i32 id /\ id <> 0) (until_zero arr).
Proof.
  induction 1 as [|x arr Hx _ IH]; cbn [until_zero]; [constructor|].
  destruct (Z.eqb_spec x 0); constructor; auto.
Qed.

(** A [cmdline] entry is written from a C string: it holds no NUL. *)
Lemma cmdline_tokens_no_nul cmdline name :
  Forall (fun tok => NUL ∉ tok) (cmdline_tokens cmdline name).
Proof.
  unfold cmdline_tokens. destruct cmdline as [|c cmdline].
  - constructor; [apply c_str_no_nul|constructor].
  - unfold StringSplitter_buf, splitter_tokens. rewrite Ascii.eqb_refl.
    apply Forall_forall. intros tok [_ Hin]%list_elem_of_filter.
    revert tok Hin. apply Forall_forall, split_no_delim.
Qed.

(** ** The strcmp chain *)

Lemma counter_key_no_nul c : c_str (counter_key c) = counter_key c.
Proof. destruct c; reflexivity. Qed.

(** C28. The bounds check of [ReadNamespacedTids]: for a status file
    with an [NSpid:] line whose fields after the first are numbers, the
    call zeroes the array and stores the fields from its first slot on,
    when there are at most as many as the array has slots; with one
    more it ends in the failed [PERFETTO_CHECK].  Without an [NSpid:]
    line the array is returned untouched. *)
Theorem ReadNamespacedTids_spec tid proc_status out :
  let nspid := ReadProcStatusEntry proc_status (lit "NSpid:") in
  let toks := tail (StringSplitter_str nspid TAB) in
  Forall (fun t => is_Some (CStringToInt32 t)) toks ->
  ReadNamespacedTids tid proc_status out =
  if decide (nspid = []) then inr out
  else if decide (length toks <= length out)%nat
       then inr (omap CStringToInt32 toks ++ replicate (length out - length toks) 0)
       else inl FailedCheck.
Proof.
  cbn zeta. intros Hnum. unfold ReadNamespacedTids.
  destruct proc_status as [|c0 status]; [reflexivity|].
  destruct (ReadProcStatusEntry (c0 :: status) (lit "NSpid:")) as [|b v] eqn:E; [reflexivity|].
  rewrite decide_False by discriminate.
  rewrite write_tids_spec by exact Hnum. rewrite length_map, take_0. cbn [Nat.add app].
  destruct (decide _) as [Hfit|Hno].
  - rewrite map_const_replicate, drop_replicate. reflexivity.
  - destruct (decide _) as [Hnil|]; [|reflexivity]. rewrite Hnil in Hno. cbn in Hno. lia.
Qed.

(** The chain of [strcmp] tests in [WriteMemCounters] is a
    bijection between the eight keys and the eight counters: each key
    selects its own counter, no key is shadowed by an earlier test, and
    a key that selects a counter is, up to its first NUL, the key of
    that counter. *)
Theorem counter_of_key_spec key c :
  counter_of_key key = Some c <-> c_str key = counter_key c.
Proof.
  split.
  - unfold counter_of_key. intros Hf. apply find_some in Hf as [_ Heq].
    apply strcmp_eq_true in Heq. rewrite Heq. apply counter_key_no_nul.
  - intros Heq. unfold counter_of_key, all_counters. cbn [List.find].
    rewrite <- (counter_key_no_nul c) in Heq.
    assert (forall c', strcmp_eq key (counter_key c') = bool_decide (c' = c)) as Hb.
    { intros c'. apply eq_true_iff_eq.
      rewrite strcmp_eq_true, Heq, !counter_key_no_nul, bool_decide_eq_true.
      split; [|intros ->; reflexivity]. destruct c, c'; discriminate || reflexivity. }
    rewrite !Hb. destruct c; reflexivity.
Qed.
