(* ===== verification/ProcessStats.v ===== *)
(** * ProcessStatsDataSource

    The model of [src/traced/probes/ps/process_stats_data_source.cc].
    [State] holds the members of the class together with the parts of
    the world it writes to: the packets handed to the trace writer
    ([trace]), the tasks posted to the task runner ([posted]), the flush
    requests ([flushes]) and the number of boot-clock readings so far
    ([clock_reads]).  Every method is one definition in [M State], named
    as in the source; loop bodies that the source writes inline are
    definitions of their own ([write_counter], [mem_char_step],
    [stats_body], [task_body], [proc_body], [fds_body]).

    The set type of [seen_pids_] and [seen_fds] is a parameter [SetT]
    with an [IntSet] instance, so the handlers rely on the interface of
    [base::FlatSet] only. *)

From Stdlib Require Import ZArith List Ascii String Lia.
From stdpp Require Import base option list gmap.
From S2P Require Import Prelude CxxString FlatSet TraceProto ProcFs StatusParse.

#[local] Open Scope Z_scope.
#[local] Open Scope m_scope.

(** ** Registration *)

(** [ProbesDataSource::Descriptor::Flags]. *)
Inductive DescriptorFlags : Type :=
| kFlagsNone
| kHandlesIncrementalState.

(** [ProbesDataSource::Descriptor]: the name under which the data
    source is registered, its flags, and the function that fills the
    descriptor sent to the service, which may be null. *)
Record Descriptor : Type := mkDescriptor {
  d_name : string;
  d_flags : DescriptorFlags;
  d_fill_descriptor_func : option unit
}.

(** The data source handles incremental state: the service tells it
    through [ClearIncrementalState] when a reader may have lost the
    packets released so far. *)
Definition descriptor : Descriptor :=
  mkDescriptor "linux.process_stats" kHandlesIncrementalState None.

(** ** Configuration *)

Inductive Quirk : Type :=
| QUIRKS_UNSPECIFIED
| DISABLE_INITIAL_DUMP
| DISABLE_ON_DEMAND.

#[export] Instance Quirk_eq_dec : EqDecision Quirk.
Proof. solve_decision. Defined.

(** The decoded [ProcessStatsConfig] proto. *)
Record ProcessStatsConfig : Type := mkProcessStatsConfig {
  cfg_quirks : list Quirk;
  cfg_scan_all_processes_on_start : bool;
  cfg_record_thread_names : bool;
  cfg_proc_stats_poll_ms : Z;
  cfg_proc_stats_cache_ttl_ms : Z;
  cfg_resolve_process_fds : bool
}.

(** The members the constructor derives from the configuration. *)
Record Settings : Type := mkSettings {
  record_thread_names_ : bool;
  dump_all_procs_on_start_ : bool;
  resolve_process_fds_ : bool;
  enable_on_demand_dumps_ : bool;
  poll_period_ms_ : Z;
  process_stats_cache_ttl_ticks_ : Z
}.

(** Lines 94-118 of the constructor.  The configuration fields are
    [uint32]; the division is unsigned. *)
Definition make_settings (cfg : ProcessStatsConfig) : Settings :=
  let enable_on_demand_dumps :=
    fold_left (fun acc quirk =>
                 if bool_decide (quirk = DISABLE_ON_DEMAND) then false else acc)
              (cfg_quirks cfg) true in
  let poll_period_ms := cfg_proc_stats_poll_ms cfg in
  let poll_period_ms :=
    if (0 <? poll_period_ms) && (poll_period_ms <? 100) then 100 else poll_period_ms in
  let process_stats_cache_ttl_ticks :=
    if 0 <? poll_period_ms
    then Z.max (cfg_proc_stats_cache_ttl_ms cfg / poll_period_ms) 1
    else 0 in
  mkSettings (cfg_record_thread_names cfg) (cfg_scan_all_processes_on_start cfg)
             (cfg_resolve_process_fds cfg) enable_on_demand_dumps
             poll_period_ms process_stats_cache_ttl_ticks.

(** A task handed to the task runner: [Tick], immediately ([None]) or
    after a delay in milliseconds. *)
Record PostedTask : Type := mkPostedTask {
  task_delay_ms : option Z
}.

(** The delay [Tick] asks for: what is left of the current period.  The
    remainder is the signed 64-bit [%], its cast and the subtraction are
    in 32 bits. *)
Definition tick_delay (period_ms now_ms : Z) : Z :=
  wrap_u32 (period_ms - wrap_u32 (Z.rem now_ms period_ms)).

(** [++cache_ticks_] and its comparison with the time to live: the new
    counter, and whether the cache is cleared. *)
Definition tick_cache (cache_ticks ttl_ticks : Z) : Z * bool :=
  let ticks := wrap_u32 (cache_ticks + 1) in
  if ticks =? ttl_ticks then (0, true) else (ticks, false).

(** [std::unordered_map::emplace]: inserts unless the key is present. *)
Definition emplace {V} (k : Z) (v : V) (m : gmap Z V) : gmap Z V :=
  match m !! k with
  | Some _ => m
  | None => <[k := v]> m
  end.

Section DataSource.
Context {SetT : Type} `{IntSet SetT}.

(** ** The state *)

Record CachedProcessStats : Type := mkCached {
  c_counters : Counters Z;
  c_oom_score_adj : Z;
  c_seen_fds : SetT
}.

(** A default-constructed cache entry: every counter is the maximum of
    its type, so that the first value read always differs. *)
Definition CachedProcessStats_default : CachedProcessStats :=
  mkCached (counters_all UINT32_MAX) INT32_MAX set_empty.

Record State : Type := mkState {
  settings : Settings;
  cache_ticks_ : Z;
  cur_procfs_scan_start_timestamp_ : Z;
  did_clear_incremental_state_ : bool;
  seen_pids_ : SetT;
  tids_to_pids_ : gmap Z Z;
  skip_stats_for_pids_ : list bool;
  process_stats_cache_ : gmap Z CachedProcessStats;
  cur_packet_ : option TracePacket;
  cur_ps_tree_ : option nat;
  cur_ps_stats_ : option nat;
  cur_ps_stats_process_ : option (nat * nat);
  trace : list TracePacket;
  clock_reads : nat;
  posted : list PostedTask;
  flushes : nat
}.

Definition with_cache_ticks_ (v : Z) (s : State) : State :=
  mkState (settings s) v (cur_procfs_scan_start_timestamp_ s)
    (did_clear_incremental_state_ s) (seen_pids_ s) (tids_to_pids_ s)
    (skip_stats_for_pids_ s) (process_stats_cache_ s) (cur_packet_ s)
    (cur_ps_tree_ s) (cur_ps_stats_ s) (cur_ps_stats_process_ s) (trace s)
    (clock_reads s) (posted s) (flushes s).

Definition with_cur_procfs_scan_start_timestamp_ (v : Z) (s : State) : State :=
  mkState (settings s) (cache_ticks_ s) v (did_clear_incremental_state_ s)
    (seen_pids_ s) (tids_to_pids_ s) (skip_stats_for_pids_ s)
    (process_stats_cache_ s) (cur_packet_ s) (cur_ps_tree_ s)
    (cur_ps_stats_ s) (cur_ps_stats_process_ s) (trace s) (clock_reads s)
    (posted s) (flushes s).

Definition with_did_clear_incremental_state_ (v : bool) (s : State) : State :=
  mkState (settings s) (cache_ticks_ s)
    (cur_procfs_scan_start_timestamp_ s) v (seen_pids_ s) (tids_to_pids_ s)
    (skip_stats_for_pids_ s) (process_stats_cache_ s) (cur_packet_ s)
    (cur_ps_tree_ s) (cur_ps_stats_ s) (cur_ps_stats_process_ s) (trace s)
    (clock_reads s) (posted s) (flushes s).

Definition with_seen_pids_ (v : SetT) (s : State) : State :=
  mkState (settings s) (cache_ticks_ s)
    (cur_procfs_scan_start_timestamp_ s) (did_clear_incremental_state_ s) v
    (tids_to_pids_ s) (skip_stats_for_pids_ s) (process_stats_cache_ s)
    (cur_packet_ s) (cur_ps_tree_ s) (cur_ps_stats_ s)
    (cur_ps_stats_process_ s) (trace s) (clock_reads s) (posted s)
    (flushes s).

Definition with_tids_to_pids_ (v : gmap Z Z) (s : State) : State :=
  mkState (settings s) (cache_ticks_ s)
    (cur_procfs_scan_start_timestamp_ s) (did_clear_incremental_state_ s)
    (seen_pids_ s) v (skip_stats_for_pids_ s) (process_stats_cache_ s)
    (cur_packet_ s) (cur_ps_tree_ s) (cur_ps_stats_ s)
    (cur_ps_stats_process_ s) (trace s) (clock_reads s) (posted s)
    (flushes s).

Definition with_skip_stats_for_pids_ (v : list bool) (s : State) : State :=
  mkState (settings s) (cache_ticks_ s)
    (cur_procfs_scan_start_timestamp_ s) (did_clear_incremental_state_ s)
    (seen_pids_ s) (tids_to_pids_ s) v (process_stats_cache_ s)
    (cur_packet_ s) (cur_ps_tree_ s) (cur_ps_stats_ s)
    (cur_ps_stats_process_ s) (trace s) (clock_reads s) (posted s)
    (flushes s).

Definition with_process_stats_cache_ (v : gmap Z CachedProcessStats) (s : State) : State :=
  mkState (settings s) (cache_ticks_ s)
    (cur_procfs_scan_start_timestamp_ s) (did_clear_incremental_state_ s)
    (seen_pids_ s) (tids_to_pids_ s) (skip_stats_for_pids_ s) v
    (cur_packet_ s) (cur_ps_tree_ s) (cur_ps_stats_ s)
    (cur_ps_stats_process_ s) (trace s) (clock_reads s) (posted s)
    (flushes s).

Definition with_cur_packet_ (v : option TracePacket) (s : State) : State :=
  mkState (settings s) (cache_ticks_ s)
    (cur_procfs_scan_start_timestamp_ s) (did_clear_incremental_state_ s)
    (seen_pids_ s) (tids_to_pids_ s) (skip_stats_for_pids_ s)
    (process_stats_cache_ s) v (cur_ps_tree_ s) (cur_ps_stats_ s)
    (cur_ps_stats_process_ s) (trace s) (clock_reads s) (posted s)
    (flushes s).

Definition with_cur_ps_tree_ (v : option nat) (s : State) : State :=
  mkState (settings s) (cache_ticks_ s)
    (cur_procfs_scan_start_timestamp_ s) (did_clear_incremental_state_ s)
    (seen_pids_ s) (tids_to_pids_ s) (skip_stats_for_pids_ s)
    (process_stats_cache_ s) (cur_packet_ s) v (cur_ps_stats_ s)
    (cur_ps_stats_process_ s) (trace s) (clock_reads s) (posted s)
    (flushes s).

Definition with_cur_ps_stats_ (v : option nat) (s : State) : State :=
  mkState (settings s) (cache_ticks_ s)
    (cur_procfs_scan_start_timestamp_ s) (did_clear_incremental_state_ s)
    (seen_pids_ s) (tids_to_pids_ s) (skip_stats_for_pids_ s)
    (process_stats_cache_ s) (cur_packet_ s) (cur_ps_tree_ s) v
    (cur_ps_stats_process_ s) (trace s) (clock_reads s) (posted s)
    (flushes s).

Definition with_cur_ps_stats_process_ (v : option (nat * nat)) (s : State) : State :=
  mkState (settings s) (cache_ticks_ s)
    (cur_procfs_scan_start_timestamp_ s) (did_clear_incremental_state_ s)
    (seen_pids_ s) (tids_to_pids_ s) (skip_stats_for_pids_ s)
    (process_stats_cache_ s) (cur_packet_ s) (cur_ps_tree_ s)
    (cur_ps_stats_ s) v (trace s) (clock_reads s) (posted s) (flushes s).

Definition with_trace (v : list TracePacket) (s : State) : State :=
  mkState (settings s) (cache_ticks_ s)
    (cur_procfs_scan_start_timestamp_ s) (did_clear_incremental_state_ s)
    (seen_pids_ s) (tids_to_pids_ s) (skip_stats_for_pids_ s)
    (process_stats_cache_ s) (cur_packet_ s) (cur_ps_tree_ s)
    (cur_ps_stats_ s) (cur_ps_stats_process_ s) v (clock_reads s)
    (posted s) (flushes s).

Definition with_clock_reads (v : nat) (s : State) : State :=
  mkState (settings s) (cache_ticks_ s)
    (cur_procfs_scan_start_timestamp_ s) (did_clear_incremental_state_ s)
    (seen_pids_ s) (tids_to_pids_ s) (skip_stats_for_pids_ s)
    (process_stats_cache_ s) (cur_packet_ s) (cur_ps_tree_ s)
    (cur_ps_stats_ s) (cur_ps_stats_process_ s) (trace s) v (posted s)
    (flushes s).

Definition with_posted (v : list PostedTask) (s : State) : State :=
  mkState (settings s) (cache_ticks_ s)
    (cur_procfs_scan_start_timestamp_ s) (did_clear_incremental_state_ s)
    (seen_pids_ s) (tids_to_pids_ s) (skip_stats_for_pids_ s)
    (process_stats_cache_ s) (cur_packet_ s) (cur_ps_tree_ s)
    (cur_ps_stats_ s) (cur_ps_stats_process_ s) (trace s) (clock_reads s) v
    (flushes s).

Definition with_flushes (v : nat) (s : State) : State :=
  mkState (settings s) (cache_ticks_ s)
    (cur_procfs_scan_start_timestamp_ s) (did_clear_incremental_state_ s)
    (seen_pids_ s) (tids_to_pids_ s) (skip_stats_for_pids_ s)
    (process_stats_cache_ s) (cur_packet_ s) (cur_ps_tree_ s)
    (cur_ps_stats_ s) (cur_ps_stats_process_ s) (trace s) (clock_reads s)
    (posted s) v.

(** The state of a freshly constructed data source. *)
Definition init_state (cfg : ProcessStatsConfig) : State :=
  mkState (make_settings cfg) 0 0 false set_empty ∅ [] ∅ None None None None
          [] 0%nat [] 0%nat.

Definition upd_packet (f : TracePacket -> TracePacket) (s : State) : State :=
  with_cur_packet_ (f <$> cur_packet_ s) s.

Definition upd_cache (pid : Z) (f : CachedProcessStats -> CachedProcessStats)
    (s : State) : State :=
  with_process_stats_cache_ (alter f pid (process_stats_cache_ s)) s.

(** The fields of the packet under construction. *)
Definition cur_fields (s : State) : list PacketField :=
  match cur_packet_ s with
  | Some p => fields p
  | None => []
  end.

(** The processes of the stats message the index [i] addresses. *)
Definition stats_at (i : nat) (s : State) : list StatsProcess :=
  match cur_fields s !! i with
  | Some (ProcessStatsField st) => stats_processes st
  | _ => []
  end.

Variable e : Env.

(** ** Clock and packet management *)

(** [base::GetBootTimeNs().count()] cast to [uint64_t]. *)
Definition GetBootTimeNs : M State Z :=
  s <- get ;;
  put (with_clock_reads (S (clock_reads s)) s) ;;
  ret (wrap_u64 (boot_time_ns e (clock_reads s))).

Definition CacheProcFsScanStartTimestamp : M State Z :=
  s <- get ;;
  (if cur_procfs_scan_start_timestamp_ s =? 0 then
     now <- GetBootTimeNs ;;
     modify (with_cur_procfs_scan_start_timestamp_ now)
   else ret tt) ;;
  gets cur_procfs_scan_start_timestamp_.

Definition StartNewPacketIfNeeded : M State unit :=
  s <- get ;;
  match cur_packet_ s with
  | Some _ => ret tt
  | None =>
      modify (with_cur_packet_ (Some new_packet)) ;;
      ts <- CacheProcFsScanStartTimestamp ;;
      modify (upd_packet (set_timestamp ts)) ;;
      s <- get ;;
      if did_clear_incremental_state_ s then
        modify (upd_packet (set_incremental_state_cleared true)) ;;
        modify (with_did_clear_incremental_state_ false)
      else ret tt
  end.

(** [cur_ps_tree_ = cur_packet_->set_process_tree()] *)
Definition set_process_tree : M State nat :=
  s <- get ;;
  let i := length (cur_fields s) in
  put (with_cur_ps_tree_ (Some i)
         (upd_packet (add_field (ProcessTreeField empty_tree)) s)) ;;
  ret i.

(** [cur_ps_stats_ = cur_packet_->set_process_stats()] *)
Definition set_process_stats : M State nat :=
  s <- get ;;
  let i := length (cur_fields s) in
  put (with_cur_ps_stats_ (Some i)
         (upd_packet (add_field (ProcessStatsField empty_stats)) s)) ;;
  ret i.

Definition GetOrCreatePsTree : M State nat :=
  StartNewPacketIfNeeded ;;
  s <- get ;;
  i <- match cur_ps_tree_ s with
       | Some i => ret i
       | None => set_process_tree
       end ;;
  modify (with_cur_ps_stats_ None) ;;
  modify (with_cur_ps_stats_process_ None) ;;
  ret i.

Definition GetOrCreateStats : M State nat :=
  StartNewPacketIfNeeded ;;
  s <- get ;;
  i <- match cur_ps_stats_ s with
       | Some i => ret i
       | None => set_process_stats
       end ;;
  modify (with_cur_ps_tree_ None) ;;
  modify (with_cur_ps_stats_process_ None) ;;
  ret i.

Definition GetOrCreateStatsProcess (pid : Z) : M State (nat * nat) :=
  s <- get ;;
  match cur_ps_stats_process_ s with
  | Some p => ret p
  | None =>
      i <- GetOrCreateStats ;;
      s <- get ;;
      let j := length (stats_at i s) in
      put (with_cur_ps_stats_process_ (Some (i, j))
             (upd_packet (alter_stats (add_stats_process (new_stats_process pid)) i) s)) ;;
      ret (i, j)
  end.

(** [cur_packet_ = TraceWriter::TracePacketHandle{}]: the packet, if
    any, is finalized and belongs to the trace. *)
Definition release_packet (s : State) : State :=
  match cur_packet_ s with
  | Some p => with_cur_packet_ None (with_trace (trace s ++ [p]) s)
  | None => s
  end.

Definition FinalizeCurPacket : M State unit :=
  now <- GetBootTimeNs ;;
  s <- get ;;
  match cur_ps_tree_ s with
  | Some i =>
      modify (upd_packet (alter_tree (set_tree_end now) i)) ;;
      modify (with_cur_ps_tree_ None)
  | None => ret tt
  end ;;
  s <- get ;;
  match cur_ps_stats_ s with
  | Some i =>
      modify (upd_packet (alter_stats (set_stats_end now) i)) ;;
      modify (with_cur_ps_stats_ None)
  | None => ret tt
  end ;;
  modify (with_cur_ps_stats_process_ None) ;;
  modify (with_cur_procfs_scan_start_timestamp_ 0) ;;
  modify release_packet.

(** ** The process tree *)

Definition WriteProcess (pid : Z) (proc_status : bytes) : M State unit :=
  tree <- GetOrCreatePsTree ;;
  let ppid := ToInt (ReadProcStatusEntry proc_status (lit "PPid:")) in
  let uid := ToInt (ReadProcStatusEntry proc_status (lit "Uid:")) in
  nspids <- lift (ReadNamespacedTids pid proc_status TidArray_zero) ;;
  let cmdline :=
    cmdline_tokens (ReadProcPidFile e pid (lit "cmdline"))
                   (ReadProcStatusEntry proc_status (lit "Name:")) in
  modify (upd_packet (alter_tree
    (add_tree_process (mkTreeProcess pid ppid uid (until_zero nspids) cmdline)) tree)) ;;
  modify (fun s => with_seen_pids_ (set_insert pid (seen_pids_ s)) s) ;;
  modify (fun s => with_tids_to_pids_ (emplace pid pid (tids_to_pids_ s)) s).

Definition WriteThread (tid tgid : Z) (optional_name : option bytes)
    (proc_status : bytes) : M State unit :=
  tree <- GetOrCreatePsTree ;;
  nstids <- lift (ReadNamespacedTids tid proc_status TidArray_zero) ;;
  modify (upd_packet (alter_tree
    (add_tree_thread (mkTreeThread tid tgid optional_name (until_zero nstids))) tree)) ;;
  modify (fun s => with_seen_pids_ (set_insert tid (seen_pids_ s)) s) ;;
  modify (fun s => with_tids_to_pids_ (emplace tid tgid (tids_to_pids_ s)) s).

Definition WriteProcessOrThread (pid : Z) : M State unit :=
  CacheProcFsScanStartTimestamp ;;
  let proc_status := ReadProcPidFile e pid (lit "status") in
  match proc_status with
  | [] => ret tt
  | _ =>
      let tgid := ToInt (ReadProcStatusEntry proc_status (lit "Tgid:")) in
      let tid := ToInt (ReadProcStatusEntry proc_status (lit "Pid:")) in
      if (tgid <=? 0) || (tid <=? 0) then ret tt
      else
        s <- get ;;
        (if negb (set_count tgid (seen_pids_ s)) then
           let proc_status_tgid :=
             if tgid =? tid then proc_status
             else ReadProcPidFile e tgid (lit "status") in
           WriteProcess tgid proc_status_tgid
         else ret tt) ;;
        if negb (pid =? tgid) then
          s <- get ;;
          let thread_name :=
            if record_thread_names_ (settings s)
            then ReadProcStatusEntry proc_status (lit "Name:")
            else [] in
          WriteThread pid tgid
            (match thread_name with [] => None | _ => Some (c_str thread_name) end)
            proc_status
        else ret tt
  end.

Definition WriteProcessTree (pids : SetT) : M State unit :=
  foreach (set_elements pids) (fun pid =>
    s <- get ;;
    if set_count pid (seen_pids_ s) || (pid =? 0) then ret tt
    else WriteProcessOrThread pid) ;;
  FinalizeCurPacket.

Definition OnPids (pids : SetT) : M State unit :=
  s <- get ;;
  if negb (enable_on_demand_dumps_ (settings s)) then ret tt
  else WriteProcessTree pids.

Definition OnRenamePids (pids : SetT) : M State unit :=
  s <- get ;;
  if negb (enable_on_demand_dumps_ (settings s)) then ret tt
  else foreach (set_elements pids) (fun pid =>
         modify (fun s => with_seen_pids_ (set_erase pid (seen_pids_ s)) s)).

(** ** File descriptors *)

(** [process_stats_cache_[pid]]: the entry, default-constructed when
    absent. *)
Definition cache_entry (pid : Z) : M State CachedProcessStats :=
  s <- get ;;
  match process_stats_cache_ s !! pid with
  | Some cached => ret cached
  | None =>
      put (with_process_stats_cache_
             (<[pid := CachedProcessStats_default]> (process_stats_cache_ s)) s) ;;
      ret CachedProcessStats_default
  end.

Definition WriteSingleFd (tid fd : Z) : M State unit :=
  s <- get ;;
  let pid := match tids_to_pids_ s !! tid with
             | Some p => p
             | None => tid
             end in
  cached <- cache_entry pid ;;
  if set_count fd (c_seen_fds cached) then ret tt
  else match readlink e pid fd 256 with
       | Some path =>
           p <- GetOrCreateStatsProcess pid ;;
           modify (upd_packet (alter_stats_process
                                 (sp_add_fd (mkFdInfo fd path)) (fst p) (snd p))) ;;
           modify (upd_cache pid (fun c =>
             mkCached (c_counters c) (c_oom_score_adj c) (set_insert fd (c_seen_fds c))))
       | None => ret tt
       end.

Definition WriteFds (pid : Z) : M State unit :=
  s <- get ;;
  if negb (resolve_process_fds_ (settings s)) then ret tt
  else match fd_dir (fs e) pid with
       | None => ret tt
       | Some entries =>
           foreach entries (fun dir_ent =>
             match fd_entry dir_ent with
             | Some fd => WriteSingleFd pid fd
             | None => ret tt
             end)
       end.

(** The body of the loop of [OnFds] over the map: one pid with its
    descriptors. *)
Definition fds_body (pid_fds : Z * SetT) : M State unit :=
  modify (with_cur_ps_stats_process_ None) ;;
  foreach (set_elements (snd pid_fds)) (fun fd => WriteSingleFd (fst pid_fds) fd).

(** The map argument is given as the sequence in which it is iterated. *)
Definition OnFds (fds : list (Z * SetT)) : M State unit :=
  s <- get ;;
  if negb (resolve_process_fds_ (settings s)) then ret tt
  else foreach fds fds_body ;; FinalizeCurPacket.

Definition Flush : M State unit :=
  modify (fun s => with_flushes (S (flushes s)) s).

(** ** Memory counters *)

(** One branch of the [strcmp] chain: report the counter when it differs
    from the cached value. *)
Definition write_counter (pid : Z) (c : Counter) (value : bytes) : M State unit :=
  let counter := ToU32 value in
  cached <- cache_entry pid ;;
  if negb (counter =? get_counter c (c_counters cached)) then
    p <- GetOrCreateStatsProcess pid ;;
    modify (upd_packet (alter_stats_process (sp_set_counter c counter) (fst p) (snd p))) ;;
    modify (upd_cache pid (fun cached =>
      mkCached (set_counter c counter (c_counters cached)) (c_oom_score_adj cached)
               (c_seen_fds cached)))
  else ret tt.

(** The work done at a newline, between the two [push_back('\0')] and
    [key.clear()]. *)
Definition mem_newline (pid : Z) (st : MemParser) (has_mem_counters : bool) : M State bool :=
  match counter_of_key (fst (mem_line st)) with
  | Some c =>
      write_counter pid c (snd (mem_line st)) ;;
      ret (if bool_decide (c = VmSize) then true else has_mem_counters)
  | None => ret has_mem_counters
  end.

(** One iteration of [for (char c : proc_status)]; the loop carries the
    parser and [proc_status_has_mem_counters]. *)
Definition mem_char_step (pid : Z) (acc : MemParser * bool) (c : ascii) :
    M State (MemParser * bool) :=
  has <- (if Ascii.eqb c LF then mem_newline pid (fst acc) (snd acc) else ret (snd acc)) ;;
  ret (mem_step (fst acc) c, has).

Definition WriteMemCounters (pid : Z) (proc_status : bytes) : M State bool :=
  cache_entry pid ;;
  r <- foldM (mem_char_step pid) proc_status (mem_init, false) ;;
  ret (snd r).

(** [std::vector<bool>::resize(n)] *)
Definition resize (n : nat) (v : list bool) : list bool :=
  take n v ++ replicate (n - length v) false.

(** Lines 487-489: grow the vector if needed and set the bit.  The sum
    [pid_u + 1] is computed in 32 bits. *)
Definition mark_skip (pid_u : Z) : M State unit :=
  s <- get ;;
  let v := skip_stats_for_pids_ s in
  let v := if (Z.of_nat (length v) <=? pid_u)
           then resize (Z.to_nat (wrap_u32 (pid_u + 1))) v else v in
  if (pid_u <? Z.of_nat (length v)) then
    put (with_skip_stats_for_pids_ (<[Z.to_nat pid_u := true]> v) s)
  else raise UndefinedBehaviour.

Definition write_oom_score_adj (pid : Z) : M State unit :=
  let oom_score_adj := ReadProcPidFile e pid (lit "oom_score_adj") in
  match oom_score_adj with
  | [] => ret tt
  | _ =>
      cached <- cache_entry pid ;;
      let counter := ToInt oom_score_adj in
      if negb (counter =? c_oom_score_adj cached) then
        p <- GetOrCreateStatsProcess pid ;;
        modify (upd_packet (alter_stats_process (sp_set_oom_score_adj counter)
                                                (fst p) (snd p))) ;;
        modify (upd_cache pid (fun cached =>
          mkCached (c_counters cached) counter (c_seen_fds cached)))
      else ret tt
  end.

(** The body of the loop of [WriteAllProcessStats]; it carries the local
    set [pids]. *)
Definition stats_body (pids : SetT) (pid : Z) : M State SetT :=
  modify (with_cur_ps_stats_process_ None) ;;
  let pid_u := wrap_u32 pid in
  s <- get ;;
  if (if pid_u <? Z.of_nat (length (skip_stats_for_pids_ s))
      then default false (skip_stats_for_pids_ s !! Z.to_nat pid_u)
      else false)
  then ret pids
  else
    let proc_status := ReadProcPidFile e pid (lit "status") in
    match proc_status with
    | [] => ret pids
    | _ =>
        ok <- WriteMemCounters pid proc_status ;;
        if negb ok then mark_skip pid_u ;; ret pids
        else
          write_oom_score_adj pid ;;
          WriteFds pid ;;
          ret (set_insert pid pids)
    end.

Definition WriteAllProcessStats : M State unit :=
  CacheProcFsScanStartTimestamp ;;
  match OpenProcDir e with
  | None => ret tt
  | Some proc_dir =>
      pids <- scan_dir (S (length proc_dir)) proc_dir stats_body set_empty ;;
      FinalizeCurPacket ;;
      WriteProcessTree pids
  end.

(** ** Polling *)

Definition PostTask (t : PostedTask) : M State unit :=
  modify (fun s => with_posted (posted s ++ [t]) s).

(** [Tick] for a live object.  The remainder is the signed 64-bit [%];
    a zero period divides by zero. *)
Definition Tick : M State unit :=
  s <- get ;;
  let period_ms := poll_period_ms_ (settings s) in
  if period_ms =? 0 then raise UndefinedBehaviour
  else
    let delay_ms := tick_delay period_ms (wall_time_ms e) in
    PostTask (mkPostedTask (Some delay_ms)) ;;
    WriteAllProcessStats ;;
    s <- get ;;
    let '(ticks, expired) :=
      tick_cache (cache_ticks_ s) (process_stats_cache_ttl_ticks_ (settings s)) in
    if expired then put (with_process_stats_cache_ ∅ (with_cache_ticks_ ticks s))
    else put (with_cache_ticks_ ticks s).

(** ** Start *)

(** The body of the loop over [/proc/<pid>/task]. *)
Definition task_body (pid : Z) (_ : unit) (tid : Z) : M State unit :=
  if tid =? pid then ret tt
  else
    s <- get ;;
    if record_thread_names_ (settings s) then WriteProcessOrThread tid
    else
      let proc_status := ReadProcPidFile e tid (lit "status") in
      WriteThread tid pid None proc_status.

(** The body of the loop over [/proc]. *)
Definition proc_body (_ : unit) (pid : Z) : M State unit :=
  WriteProcessOrThread pid ;;
  match task_dir (fs e) pid with
  | None => ret tt
  | Some task_dir => scan_dir (S (length task_dir)) task_dir (task_body pid) tt
  end.

Definition WriteAllProcesses : M State unit :=
  CacheProcFsScanStartTimestamp ;;
  match OpenProcDir e with
  | None => ret tt
  | Some proc_dir =>
      scan_dir (S (length proc_dir)) proc_dir proc_body tt ;;
      FinalizeCurPacket ;;
      s <- get ;;
      foreach (set_elements (seen_pids_ s)) WriteFds ;;
      FinalizeCurPacket
  end.

Definition Start : M State unit :=
  s <- get ;;
  (if dump_all_procs_on_start_ (settings s) then WriteAllProcesses else ret tt) ;;
  if negb (poll_period_ms_ (settings s) =? 0) then PostTask (mkPostedTask None)
  else ret tt.

(** ** Incremental state *)

Definition ClearIncrementalState : M State unit :=
  modify (with_seen_pids_ set_empty) ;;
  modify (with_tids_to_pids_ ∅) ;;
  modify (with_skip_stats_for_pids_ []) ;;
  modify (with_cache_ticks_ 0) ;;
  modify (with_process_stats_cache_ ∅) ;;
  modify (with_did_clear_incremental_state_ true).

End DataSource.

Arguments State SetT : clear implicits.
Arguments CachedProcessStats SetT : clear implicits.
