(* ===== verification/PacketCursor.v ===== *)
(** * The packet under construction and the pointers into it

    [ProcessStatsDataSource] builds one [TracePacket] at a time and keeps
    raw pointers to the sub-messages it is writing: [cur_ps_tree_],
    [cur_ps_stats_] and [cur_ps_stats_process_].  A protozero message can
    only be written while it is the last nested message of its parent,
    so a pointer is usable exactly when it addresses the last field of
    the open packet.  This file states that as the invariant
    [cursor_wf] and proves that

    - [StartNewPacketIfNeeded], [GetOrCreatePsTree], [GetOrCreateStats]
      and [GetOrCreateStatsProcess] keep it, leave the tables of the data
      source alone and return a usable pointer;
    - a write through a well-formed pointer lands on the message it
      addresses ([add_tree_process_lands], [alter_stats_process_lands]);
    - [FinalizeCurPacket] leaves the state [quiescent], whatever the
      state it is called in.

    All specifications are stated for [wpf F] with an arbitrary [F], so
    they hold for total and for partial correctness alike. *)

From Stdlib Require Import ZArith List Ascii String Lia.
From stdpp Require Import base option list gmap.
From S2P Require Import Prelude CxxString FlatSet TraceProto ProcFs StatusParse ProcessStats.

#[local] Open Scope Z_scope.
#[local] Open Scope m_scope.

(** [st_simpl] evaluates projections of updated states. *)
Ltac st_simpl :=
  cbn [settings cache_ticks_ cur_procfs_scan_start_timestamp_
       did_clear_incremental_state_ seen_pids_ tids_to_pids_ skip_stats_for_pids_
       process_stats_cache_ cur_packet_ cur_ps_tree_ cur_ps_stats_
       cur_ps_stats_process_ trace clock_reads posted flushes
       with_cache_ticks_ with_cur_procfs_scan_start_timestamp_
       with_did_clear_incremental_state_ with_seen_pids_ with_tids_to_pids_
       with_skip_stats_for_pids_ with_process_stats_cache_ with_cur_packet_
       with_cur_ps_tree_ with_cur_ps_stats_ with_cur_ps_stats_process_
       with_trace with_clock_reads with_posted with_flushes
       fst snd] in *.

(** [open_pkt] names the open packet and evaluates what depends on it. *)
Ltac open_pkt :=
  unfold cur_fields, upd_packet in *; st_simpl;
  repeat match goal with
    | H : is_Some (cur_packet_ _) |- _ => destruct H as [? H]
    end;
  repeat match goal with
    | H : cur_packet_ _ = _ |- _ => rewrite H in *
    end;
  cbn [fmap option_fmap option_map fields add_field alter_field alter_tree
       alter_stats alter_stats_process set_timestamp
       set_incremental_state_cleared new_packet] in *;
  st_simpl.

(** ** Pointers into a list of fields *)

(** What the pointers depend on in a field: its kind and, for a stats
    message, the number of its processes. *)
Inductive Shape : Type := TreeShape | StatsShape (n : nat).

Definition field_shape (x : PacketField) : Shape :=
  match x with
  | ProcessTreeField _ => TreeShape
  | ProcessStatsField st => StatsShape (length (stats_processes st))
  end.

(** The shape of the field the index [i] addresses, when [i] addresses
    the last field of the list. *)
Definition last_shape (i : nat) (l : list PacketField) : option Shape :=
  if decide (S i = length l) then field_shape <$> l !! i else None.

(** At most one of the tree and stats pointers is set, and a set pointer
    addresses the last field, which is of its kind; the process pointer
    [(i, j)] addresses the last process of the stats message at [i]. *)
Definition wf_ptrs (tree stats : option nat) (process : option (nat * nat))
    (l : list PacketField) : Prop :=
  match tree, stats, process with
  | None, None, None => True
  | Some i, None, None => last_shape i l = Some TreeShape
  | None, Some i, None => exists n, last_shape i l = Some (StatsShape n)
  | None, Some i, Some (i', j) => i' = i /\ last_shape i l = Some (StatsShape (S j))
  | _, _, _ => False
  end.

Section CursorDefs.
Context {SetT : Type} `{IntSet SetT}.
Implicit Types (s : State SetT) (e : Env) (p : TracePacket) (F : fault -> Prop).

(** No packet is open and every pointer is null. *)
Definition quiescent s : Prop :=
  cur_packet_ s = None /\ cur_ps_tree_ s = None /\ cur_ps_stats_ s = None /\
  cur_ps_stats_process_ s = None.

(** The pointers into the open packet are well formed. *)
Definition cursor_wf s : Prop :=
  wf_ptrs (cur_ps_tree_ s) (cur_ps_stats_ s) (cur_ps_stats_process_ s) (cur_fields s).

(** The process entries written so far: those of the finalized packets,
    then those of the open packet. *)
Definition emitted s : list TreeProcess :=
  trace_processes (trace s) ++ fields_processes (cur_fields s).

Definition emitted_pids s : list Z := map p_pid (emitted s).

(** What the packet operations leave alone. *)
Definition same_tables s s' : Prop :=
  settings s' = settings s /\ seen_pids_ s' = seen_pids_ s /\
  tids_to_pids_ s' = tids_to_pids_ s /\
  skip_stats_for_pids_ s' = skip_stats_for_pids_ s /\
  process_stats_cache_ s' = process_stats_cache_ s /\
  cache_ticks_ s' = cache_ticks_ s /\ posted s' = posted s /\
  flushes s' = flushes s.

(** The packet under construction and the pointers into it are the
    same. *)
Definition same_cursor s s' : Prop :=
  cur_fields s' = cur_fields s /\ cur_ps_tree_ s' = cur_ps_tree_ s /\
  cur_ps_stats_ s' = cur_ps_stats_ s /\
  cur_ps_stats_process_ s' = cur_ps_stats_process_ s.

(** The stats entry the process pointer addresses. *)
Definition cur_process s : option StatsProcess :=
  match cur_ps_stats_process_ s with
  | Some (i, j) => stats_at i s !! j
  | None => None
  end.

(** What every packet operation promises: the tables and the finalized
    packets are untouched, the pointers stay well formed and no process
    entry appears or disappears. *)
Definition packet_frame s s' : Prop :=
  same_tables s s' /\ trace s' = trace s /\ cursor_wf s' /\
  fields_processes (cur_fields s') = fields_processes (cur_fields s).

End CursorDefs.

(** [cf] drops from the projections and views of the state the updates
    of fields they do not depend on. *)
Ltac cf :=
  repeat match goal with
    | |- context [cur_fields (?f ?v ?s)] =>
        progress change (cur_fields (f v s)) with (cur_fields s)
    | |- context [?proj (upd_packet ?f ?s)] =>
        progress change (proj (upd_packet f s)) with (proj s)
    | |- context [?proj (upd_cache ?k ?f ?s)] =>
        progress change (proj (upd_cache k f s)) with (proj s)
    | |- context [emitted (?f ?v ?s)] =>
        progress change (emitted (f v s)) with (emitted s)
    | H : context [cur_fields (?f ?v ?s)] |- _ =>
        progress change (cur_fields (f v s)) with (cur_fields s) in H
    | H : context [?proj (upd_packet ?f ?s)] |- _ =>
        progress change (proj (upd_packet f s)) with (proj s) in H
    | H : context [?proj (upd_cache ?k ?f ?s)] |- _ =>
        progress change (proj (upd_cache k f s)) with (proj s) in H
    end.

Ltac st_norm := repeat first [progress st_simpl | progress cf].

(** [wp_run] executes a handler symbolically up to the next call that
    has a specification of its own. *)
Ltac wp_run :=
  repeat first [progress wp_simpl | progress st_simpl | progress cf | wp_case].

(** [ptr_simpl] unfolds the relations between states and evaluates
    them. *)
Ltac ptr_simpl :=
  unfold packet_frame, cursor_wf, same_tables, same_cursor, quiescent in *;
  st_norm; cbn [wf_ptrs] in *.

Section Cursor.
Context {SetT : Type} `{IntSet SetT}.
Implicit Types (s : State SetT) (e : Env) (p : TracePacket) (F : fault -> Prop).

(** * Lemmas *)

(** ** Shapes and pointers *)

Lemma last_shape_alter g k i l :
  (forall x, field_shape (g x) = field_shape x) ->
  last_shape i (alter g k l) = last_shape i l.
Proof.
  intros Hg. unfold last_shape. rewrite length_alter.
  destruct (decide _); [|reflexivity].
  destruct (decide (k = i)) as [->|Hne].
  - rewrite list_lookup_alter_eq.
    destruct (l !! i); cbn [fmap option_fmap option_map]; [rewrite Hg|]; reflexivity.
  - rewrite list_lookup_alter_ne by exact Hne. reflexivity.
Qed.

Lemma last_shape_snoc l x : last_shape (length l) (l ++ [x]) = Some (field_shape x).
Proof.
  unfold last_shape. rewrite length_app, lookup_snoc_length. cbn [length].
  destruct (decide _); [reflexivity|lia].
Qed.

Lemma last_shape_inv i l sh :
  last_shape i l = Some sh ->
  exists l0 x, l = l0 ++ [x] /\ i = length l0 /\ field_shape x = sh.
Proof.
  unfold last_shape. destruct (decide _) as [Hlen|]; [|discriminate].
  destruct l as [|y l] using rev_ind; [discriminate|]. clear IHl.
  rewrite length_app in Hlen. cbn in Hlen.
  assert (i = length l) as -> by lia.
  rewrite lookup_snoc_length. intros [= <-]. eauto.
Qed.

Lemma wf_ptrs_alter g k tree stats process l :
  (forall x, field_shape (g x) = field_shape x) ->
  wf_ptrs tree stats process l -> wf_ptrs tree stats process (alter g k l).
Proof.
  intros Hg. unfold wf_ptrs.
  destruct tree, stats, process as [[]|]; rewrite ?last_shape_alter by exact Hg; exact id.
Qed.

Lemma field_shape_on_tree f x : field_shape (on_tree f x) = field_shape x.
Proof. destruct x; reflexivity. Qed.

Lemma field_shape_on_stats f x :
  (forall st, length (stats_processes (f st)) = length (stats_processes st)) ->
  field_shape (on_stats f x) = field_shape x.
Proof. intros Hf. destruct x; cbn; [reflexivity|rewrite Hf; reflexivity]. Qed.

Lemma field_shape_alter_process f j x :
  field_shape (on_stats (alter_process f j) x) = field_shape x.
Proof. apply field_shape_on_stats. intros st. cbn. apply length_alter. Qed.

(** Appending a process to the stats message a pointer addresses. *)
Lemma last_shape_add_process sp i n l :
  last_shape i l = Some (StatsShape n) ->
  last_shape i (alter (on_stats (add_stats_process sp)) i l) = Some (StatsShape (S n)).
Proof.
  intros Hl. destruct (last_shape_inv _ _ _ Hl) as (l0 & x & -> & -> & Hx).
  rewrite alter_last, last_shape_snoc. destruct x; [discriminate|].
  cbn in *. injection Hx as <-. rewrite length_app. cbn. do 2 f_equal. lia.
Qed.

(** ** The view [cur_fields] of the open packet *)

Lemma cur_fields_alter f i s :
  cur_fields (upd_packet (alter_field f i) s) = alter f i (cur_fields s).
Proof. unfold cur_fields, upd_packet. st_simpl. destruct (cur_packet_ s); reflexivity. Qed.

Lemma cur_fields_alter_tree f i s :
  cur_fields (upd_packet (alter_tree f i) s) = alter (on_tree f) i (cur_fields s).
Proof. apply cur_fields_alter. Qed.

Lemma cur_fields_alter_stats f i s :
  cur_fields (upd_packet (alter_stats f i) s) = alter (on_stats f) i (cur_fields s).
Proof. apply cur_fields_alter. Qed.

Lemma cur_fields_add x s :
  is_Some (cur_packet_ s) ->
  cur_fields (upd_packet (add_field x) s) = cur_fields s ++ [x].
Proof. intros Hp. open_pkt. reflexivity. Qed.

Lemma cur_fields_quiescent s : quiescent s -> cur_fields s = [].
Proof. intros (Hp & _). unfold cur_fields. rewrite Hp. reflexivity. Qed.

Lemma quiescent_cursor_wf s : quiescent s -> cursor_wf s.
Proof. intros (_ & Ht & Hs & Hp). unfold cursor_wf. rewrite Ht, Hs, Hp. exact I. Qed.

Lemma same_tables_refl s : same_tables s s.
Proof. unfold same_tables. tauto. Qed.

Lemma same_tables_trans s1 s2 s3 :
  same_tables s1 s2 -> same_tables s2 s3 -> same_tables s1 s3.
Proof. unfold same_tables. intuition congruence. Qed.

Lemma same_cursor_wf s s' : same_cursor s s' -> cursor_wf s -> cursor_wf s'.
Proof.
  intros (Hf & Ht & Hs & Hp).
  unfold cursor_wf. rewrite Hf, Ht, Hs, Hp. exact id.
Qed.

Lemma same_emitted s s' :
  trace s' = trace s -> cur_fields s' = cur_fields s -> emitted s' = emitted s.
Proof. intros Ht Hf. unfold emitted. rewrite Hf, Ht. reflexivity. Qed.

(** ** The clock and the scan timestamp *)

Lemma wp_GetBootTimeNs F e (Q : Z -> State SetT -> Prop) s :
  wpf F (GetBootTimeNs e) Q s <->
  Q (wrap_u64 (boot_time_ns e (clock_reads s))) (with_clock_reads (S (clock_reads s)) s).
Proof. unfold GetBootTimeNs. wp_simpl. reflexivity. Qed.

Lemma wp_CacheProcFsScanStartTimestamp F e (Q : Z -> State SetT -> Prop) s :
  wpf F (CacheProcFsScanStartTimestamp e) Q s <->
  if cur_procfs_scan_start_timestamp_ s =? 0
  then let now := wrap_u64 (boot_time_ns e (clock_reads s)) in
       Q now (with_cur_procfs_scan_start_timestamp_ now
                (with_clock_reads (S (clock_reads s)) s))
  else Q (cur_procfs_scan_start_timestamp_ s) s.
Proof.
  unfold CacheProcFsScanStartTimestamp. wp_simpl.
  destruct (cur_procfs_scan_start_timestamp_ s =? 0);
    wp_simpl; rewrite ?wp_GetBootTimeNs; wp_simpl; reflexivity.
Qed.

(** The timestamp is read from the clock only when none is cached; the
    packet and the tables are not touched. *)
Lemma CacheProcFsScanStartTimestamp_spec F e s :
  wpf F (CacheProcFsScanStartTimestamp e) (fun ts s' =>
    same_tables s s' /\ same_cursor s s' /\ cur_packet_ s' = cur_packet_ s /\
    trace s' = trace s /\
    did_clear_incremental_state_ s' = did_clear_incremental_state_ s /\
    ts = cur_procfs_scan_start_timestamp_ s' /\
    (cur_procfs_scan_start_timestamp_ s <> 0 -> s' = s)) s.
Proof.
  rewrite wp_CacheProcFsScanStartTimestamp.
  destruct (Z.eqb_spec (cur_procfs_scan_start_timestamp_ s) 0);
    cbn zeta; unfold same_tables, same_cursor, cur_fields; st_simpl; tauto.
Qed.

(** ** Opening a packet *)

Lemma StartNewPacketIfNeeded_spec F e s :
  wpf F (StartNewPacketIfNeeded e) (fun _ s' =>
    same_tables s s' /\ same_cursor s s' /\ trace s' = trace s /\
    is_Some (cur_packet_ s')) s.
Proof.
  unfold StartNewPacketIfNeeded. wp_run.
  - unfold same_tables, same_cursor. eauto 20.
  - rewrite wp_CacheProcFsScanStartTimestamp. st_simpl.
    destruct (_ =? 0); cbn zeta; wp_run;
      unfold same_tables, same_cursor; open_pkt; eauto 20.
Qed.

(** ** The message pointers *)

Lemma GetOrCreatePsTree_spec F e s :
  cursor_wf s ->
  wpf F (GetOrCreatePsTree e) (fun i s' =>
    packet_frame s s' /\ cur_ps_tree_ s' = Some i) s.
Proof.
  intros Hwf. unfold GetOrCreatePsTree.
  wp_step StartNewPacketIfNeeded_spec.
  destruct H0 as (Ht & Hc & Htr & Hp). apply (same_cursor_wf _ _ Hc) in Hwf.
  destruct Hc as (Hf & _). unfold set_process_tree.
  wp_run; ptr_simpl; rewrite <- Hf.
  - rewrite Heqo in *.
    destruct (cur_ps_stats_ s'), (cur_ps_stats_process_ s') as [[]|];
      cbn [wf_ptrs] in *; tauto.
  - rewrite cur_fields_add by exact Hp.
    rewrite fields_processes_snoc, app_nil_r, last_shape_snoc. tauto.
Qed.

Lemma GetOrCreateStats_spec F e s :
  cursor_wf s ->
  wpf F (GetOrCreateStats e) (fun i s' =>
    packet_frame s s' /\ cur_ps_stats_ s' = Some i /\
    cur_ps_stats_process_ s' = None) s.
Proof.
  intros Hwf. unfold GetOrCreateStats.
  wp_step StartNewPacketIfNeeded_spec.
  destruct H0 as (Ht & Hc & Htr & Hp). apply (same_cursor_wf _ _ Hc) in Hwf.
  destruct Hc as (Hf & _). unfold set_process_stats.
  wp_run; ptr_simpl; rewrite <- Hf.
  - rewrite Heqo in *.
    destruct (cur_ps_tree_ s'), (cur_ps_stats_process_ s') as [[]|];
      cbn [wf_ptrs] in *; intuition eauto.
  - rewrite cur_fields_add by exact Hp.
    rewrite fields_processes_snoc, app_nil_r, last_shape_snoc. intuition eauto.
Qed.

Lemma packet_frame_refl s : cursor_wf s -> packet_frame s s.
Proof. intros Hwf. ptr_simpl. tauto. Qed.

Lemma packet_frame_trans s1 s2 s3 :
  packet_frame s1 s2 -> packet_frame s2 s3 -> packet_frame s1 s3.
Proof. ptr_simpl. intuition congruence. Qed.

(** The stats message a well-formed pointer addresses. *)
Lemma stats_at_inv i n s :
  last_shape i (cur_fields s) = Some (StatsShape n) ->
  exists l st, cur_fields s = l ++ [ProcessStatsField st] /\ i = length l /\
    stats_at i s = stats_processes st /\ length (stats_processes st) = n.
Proof.
  intros Hl. destruct (last_shape_inv _ _ _ Hl) as (l & x & Hf & -> & Hx).
  destruct x as [|st]; [discriminate|]. injection Hx as <-.
  exists l, st. unfold stats_at. rewrite Hf, lookup_snoc_length. auto.
Qed.

Lemma GetOrCreateStatsProcess_spec F e pid s :
  cursor_wf s ->
  wpf F (GetOrCreateStatsProcess e pid) (fun ij s' =>
    packet_frame s s' /\ cur_ps_stats_process_ s' = Some ij /\
    (cur_ps_stats_process_ s = None -> cur_process s' = Some (new_stats_process pid)) /\
    (cur_ps_stats_process_ s <> None -> s' = s)) s.
Proof.
  intros Hwf. unfold GetOrCreateStatsProcess. wp_run.
  - split; [apply packet_frame_refl, Hwf|]. rewrite Heqo. intuition congruence.
  - wp_step GetOrCreateStats_spec; [exact Hwf|]. wp_run.
    destruct H0 as (Hfr & Hi & Hn). pose proof Hfr as (_ & _ & Hwf' & _).
    unfold cursor_wf in Hwf'. rewrite Hi, Hn in Hwf'.
    destruct (cur_ps_tree_ s') eqn:Ht; [contradiction|]. destruct Hwf' as [n Hl].
    destruct (stats_at_inv _ _ _ Hl) as (l & st & Hf & -> & Hst & Hlen).
    rewrite Hst.
    split; [eapply packet_frame_trans; [exact Hfr|]|].
    + ptr_simpl. rewrite Ht, Hi. cbn [wf_ptrs].
      rewrite cur_fields_alter_stats, fields_processes_on_stats.
      rewrite (last_shape_add_process _ _ _ _ Hl), Hlen. tauto.
    + split; [reflexivity|]. split; [intros _|congruence].
      unfold cur_process, stats_at. st_simpl. cf.
      rewrite cur_fields_alter_stats, Hf, alter_last, lookup_snoc_length. cbn.
      apply lookup_snoc_length.
Qed.

(** ** Writes through the pointers *)

Lemma emitted_eq s s' :
  trace s' = trace s ->
  fields_processes (cur_fields s') = fields_processes (cur_fields s) ->
  emitted s' = emitted s.
Proof. intros Ht Hf. unfold emitted. rewrite Ht, Hf. reflexivity. Qed.

Lemma packet_frame_emitted s s' : packet_frame s s' -> emitted s' = emitted s.
Proof. intros (_ & Ht & _ & Hf). apply emitted_eq; assumption. Qed.

(** A write that keeps the shape and the processes of the field it
    addresses is a frame, wherever the index points. *)
Lemma alter_field_frame g i s :
  (forall x, field_shape (g x) = field_shape x) ->
  (forall x, field_tree_processes (g x) = field_tree_processes x) ->
  cursor_wf s -> packet_frame s (upd_packet (alter_field g i) s).
Proof.
  intros Hshape Hproc Hwf. ptr_simpl. rewrite cur_fields_alter.
  rewrite fields_processes_alter by exact Hproc.
  auto 10 using wf_ptrs_alter.
Qed.

Lemma alter_stats_process_frame f i j s :
  cursor_wf s -> packet_frame s (upd_packet (alter_stats_process f i j) s).
Proof.
  apply alter_field_frame; [apply field_shape_alter_process|intros []; reflexivity].
Qed.

Lemma add_tree_thread_frame th i s :
  cursor_wf s -> packet_frame s (upd_packet (alter_tree (add_tree_thread th) i) s).
Proof.
  apply alter_field_frame; [apply field_shape_on_tree|intros []; reflexivity].
Qed.

(** A well-formed process pointer addresses an entry. *)
Lemma cur_process_Some i j s :
  cursor_wf s -> cur_ps_stats_process_ s = Some (i, j) -> is_Some (cur_process s).
Proof.
  unfold cur_process, cursor_wf. intros Hwf Hp. rewrite Hp in *.
  destruct (cur_ps_tree_ s), (cur_ps_stats_ s); try contradiction.
  destruct Hwf as [-> Hl].
  destruct (stats_at_inv _ _ _ Hl) as (l & st & _ & _ & -> & Hlen).
  apply lookup_lt_is_Some. lia.
Qed.

(** A write through the process pointer lands on the entry it
    addresses. *)
Lemma alter_stats_process_lands f i j sp s :
  cursor_wf s -> cur_ps_stats_process_ s = Some (i, j) -> cur_process s = Some sp ->
  cur_process (upd_packet (alter_stats_process f i j) s) = Some (f sp).
Proof.
  unfold cur_process, cursor_wf. intros Hwf Hp. st_simpl. rewrite Hp in *.
  destruct (cur_ps_tree_ s), (cur_ps_stats_ s); try contradiction.
  destruct Hwf as [-> Hl].
  destruct (stats_at_inv _ _ _ Hl) as (l & st & Hf & -> & Hst & Hlen).
  rewrite Hst. unfold stats_at, alter_stats_process. cf. rewrite Hp.
  rewrite cur_fields_alter_stats, Hf, alter_last, lookup_snoc_length. cbn.
  rewrite list_lookup_alter_eq. intros ->. reflexivity.
Qed.

Lemma cursor_wf_alter_tree f i s :
  cursor_wf s -> cursor_wf (upd_packet (alter_tree f i) s).
Proof.
  intros Hwf. ptr_simpl. rewrite cur_fields_alter_tree.
  apply wf_ptrs_alter; [apply field_shape_on_tree|exact Hwf].
Qed.

(** A process written through the tree pointer is appended to the
    process entries of the packet. *)
Lemma add_tree_process_lands pr i s :
  cursor_wf s -> cur_ps_tree_ s = Some i ->
  fields_processes (cur_fields (upd_packet (alter_tree (add_tree_process pr) i) s))
  = fields_processes (cur_fields s) ++ [pr].
Proof.
  unfold cursor_wf. intros Hwf Hi. rewrite Hi in Hwf.
  destruct (cur_ps_stats_ s), (cur_ps_stats_process_ s); try contradiction.
  destruct (last_shape_inv _ _ _ Hwf) as (l & x & Hf & -> & Hx).
  destruct x as [t|]; [|discriminate].
  rewrite cur_fields_alter_tree, Hf. apply fields_processes_add_process.
Qed.

(** ** Closing the packet *)

Lemma emitted_release s : emitted (release_packet s) = emitted s.
Proof.
  unfold emitted, release_packet, cur_fields.
  destruct (cur_packet_ s) as [p|] eqn:E; st_simpl; rewrite ?E; [|reflexivity].
  rewrite trace_processes_app, trace_processes_one, app_nil_r. reflexivity.
Qed.

Lemma release_packet_quiescent s :
  cur_ps_tree_ s = None -> cur_ps_stats_ s = None -> cur_ps_stats_process_ s = None ->
  quiescent (release_packet s).
Proof.
  unfold quiescent, release_packet. destruct (cur_packet_ s) eqn:E; st_simpl; auto.
Qed.

Lemma same_tables_release s : same_tables s (release_packet s).
Proof. unfold release_packet. destruct (cur_packet_ s); ptr_simpl; tauto. Qed.

Lemma release_packet_flags s :
  cur_procfs_scan_start_timestamp_ (release_packet s) = cur_procfs_scan_start_timestamp_ s /\
  did_clear_incremental_state_ (release_packet s) = did_clear_incremental_state_ s.
Proof. unfold release_packet. destruct (cur_packet_ s); st_simpl; auto. Qed.

Lemma release_packet_none s : cur_packet_ s = None -> release_packet s = s.
Proof. unfold release_packet. intros ->. reflexivity. Qed.

Lemma cur_packet_upd_None g s :
  cur_packet_ s = None -> cur_packet_ (upd_packet g s) = None.
Proof. unfold upd_packet. st_simpl. intros ->. reflexivity. Qed.

Lemma emitted_alter g i s :
  (forall x, field_tree_processes (g x) = field_tree_processes x) ->
  emitted (upd_packet (alter_field g i) s) = emitted s.
Proof.
  intros Hg. apply emitted_eq; [reflexivity|].
  rewrite cur_fields_alter. apply fields_processes_alter, Hg.
Qed.

Lemma emitted_alter_stats f i s : emitted (upd_packet (alter_stats f i) s) = emitted s.
Proof. apply emitted_alter. intros []; reflexivity. Qed.

Lemma emitted_set_tree_end ts i s :
  emitted (upd_packet (alter_tree (set_tree_end ts) i) s) = emitted s.
Proof. apply emitted_alter. intros []; reflexivity. Qed.

(** What [FinalizeCurPacket] leaves behind, whatever the state it is
    called in: no open packet, null pointers and a cleared scan
    timestamp; the open packet, if any, has joined the trace with its
    process entries unchanged. *)
Lemma FinalizeCurPacket_spec F e s :
  wpf F (FinalizeCurPacket e) (fun _ s' =>
    quiescent s' /\ same_tables s s' /\ cur_procfs_scan_start_timestamp_ s' = 0 /\
    emitted s' = emitted s /\
    did_clear_incremental_state_ s' = did_clear_incremental_state_ s /\
    (cur_packet_ s = None -> trace s' = trace s)) s.
Proof.
  unfold FinalizeCurPacket. rewrite wp_bind, wp_GetBootTimeNs. wp_run.
  all: split; [apply release_packet_quiescent; st_norm; auto|].
  all: split; [eapply same_tables_trans; [|apply same_tables_release]; ptr_simpl; tauto|].
  all: rewrite emitted_release, !(proj1 (release_packet_flags _)),
         !(proj2 (release_packet_flags _)); st_norm.
  all: rewrite ?emitted_alter_stats; st_norm; rewrite ?emitted_set_tree_end; st_norm.
  all: do 3 (split; [reflexivity|]); intros Hnone.
  all: rewrite release_packet_none; st_norm;
         repeat (apply cur_packet_upd_None; st_norm); auto.
Qed.

(** The packet [StartNewPacketIfNeeded] opens. *)
Lemma new_packet_stamped F e s :
  cur_packet_ s = None ->
  wpf F (StartNewPacketIfNeeded e) (fun _ s' =>
    cur_packet_ s' =
      Some (mkTracePacket (Some (cur_procfs_scan_start_timestamp_ s'))
                          (did_clear_incremental_state_ s) []) /\
    did_clear_incremental_state_ s' = false /\
    cur_procfs_scan_start_timestamp_ s' =
      (if cur_procfs_scan_start_timestamp_ s =? 0
       then wrap_u64 (boot_time_ns e (clock_reads s))
       else cur_procfs_scan_start_timestamp_ s)) s.
Proof.
  intros Hnone. unfold StartNewPacketIfNeeded. rewrite wp_bind, wp_get, Hnone.
  wp_simpl. rewrite wp_CacheProcFsScanStartTimestamp. st_simpl.
  destruct (cur_procfs_scan_start_timestamp_ s =? 0); cbn zeta; wp_run;
    unfold upd_packet; st_simpl; cbn; auto.
Qed.

(** * Theorems *)

(** C3. [FinalizeCurPacket] always returns and leaves the data source
    quiescent, in whatever state it is called: the packet is released,
    the three message pointers are null and the cached scan timestamp is
    cleared.  The process entries written so far are exactly those
    written before, now all in the trace, and the tables of the data
    source are untouched. *)
Theorem FinalizeCurPacket_quiescent e s :
  wp (FinalizeCurPacket e) (fun _ s' =>
    quiescent s' /\ cur_procfs_scan_start_timestamp_ s' = 0 /\
    emitted s' = trace_processes (trace s') /\ emitted s' = emitted s /\
    same_tables s s') s.
Proof.
  eapply wp_mono; [apply FinalizeCurPacket_spec|]. cbn beta.
  intros _ s' (Hq & Ht & Hts & Hem & _).
  split; [exact Hq|]. split; [exact Hts|]. split; [|split; assumption].
  unfold emitted. rewrite (cur_fields_quiescent _ Hq). apply app_nil_r.
Qed.

(** C12. The pointer returned by [GetOrCreateStatsProcess] is usable:
    from a state with well-formed pointers the call returns, keeps the
    pointers well formed, changes no table and no process entry, and a
    write through the returned pointer lands on the stats entry it
    addresses, which is the freshly added entry for [pid] whenever the
    process pointer was null. *)
Theorem GetOrCreateStatsProcess_usable e pid f s :
  cursor_wf s ->
  wp (GetOrCreateStatsProcess e pid) (fun ij s' =>
    packet_frame s s' /\ cur_ps_stats_process_ s' = Some ij /\
    (exists sp, cur_process s' = Some sp /\
       cur_process (upd_packet (alter_stats_process f (fst ij) (snd ij)) s') = Some (f sp)) /\
    (cur_ps_stats_process_ s = None -> cur_process s' = Some (new_stats_process pid))) s.
Proof.
  intros Hwf. eapply wp_mono; [apply GetOrCreateStatsProcess_spec, Hwf|]. cbn beta.
  intros [i j] s' (Hfr & Hp & Hnew & Hold).
  split; [exact Hfr|]. split; [exact Hp|]. split; [|exact Hnew].
  destruct (cur_process_Some _ _ _ (proj1 (proj2 (proj2 Hfr))) Hp) as [sp Hsp].
  exists sp. split; [exact Hsp|].
  apply alter_stats_process_lands; [apply Hfr|exact Hp|exact Hsp].
Qed.

(** C13. The tree pointer returned by [GetOrCreatePsTree] is usable: a
    process written through it is appended to the process entries of
    the open packet, after those already written, and the pointers stay
    well formed. *)
Theorem GetOrCreatePsTree_usable e pr s :
  cursor_wf s ->
  wp (GetOrCreatePsTree e) (fun i s' =>
    packet_frame s s' /\ cur_ps_tree_ s' = Some i /\
    let s'' := upd_packet (alter_tree (add_tree_process pr) i) s' in
    cursor_wf s'' /\ emitted s'' = emitted s ++ [pr]) s.
Proof.
  intros Hwf. eapply wp_mono; [apply GetOrCreatePsTree_spec, Hwf|]. cbn beta.
  intros i s' (Hfr & Hi). pose proof Hfr as (_ & Htr & Hwf' & Hf).
  split; [exact Hfr|]. split; [exact Hi|]. split; [apply cursor_wf_alter_tree, Hwf'|].
  unfold emitted. cf. rewrite (add_tree_process_lands _ _ _ Hwf' Hi), Hf, Htr.
  apply app_assoc.
Qed.

(** What a new packet carries: when no packet is open,
    [StartNewPacketIfNeeded] opens an empty one stamped with the start
    of the current scan of /proc (read from the boot clock only when no
    scan is in progress), and flags it [incremental_state_cleared]
    exactly when the incremental state was cleared since the last
    packet; the flag is consumed, so only the first packet after a
    clear carries it.  The tables of the data source and the trace are
    untouched. *)
Theorem StartNewPacketIfNeeded_packet e s :
  cur_packet_ s = None ->
  wp (StartNewPacketIfNeeded e) (fun _ s' =>
    cur_packet_ s' =
      Some (mkTracePacket (Some (cur_procfs_scan_start_timestamp_ s'))
                          (did_clear_incremental_state_ s) []) /\
    did_clear_incremental_state_ s' = false /\
    cur_procfs_scan_start_timestamp_ s' =
      (if cur_procfs_scan_start_timestamp_ s =? 0
       then wrap_u64 (boot_time_ns e (clock_reads s))
       else cur_procfs_scan_start_timestamp_ s) /\
    same_tables s s' /\ trace s' = trace s) s.
Proof.
  intros Hnone. eapply wp_mono.
  { apply wp_conj; [apply StartNewPacketIfNeeded_spec|apply (new_packet_stamped _ _ _ Hnone)]. }
  cbn beta. intros _ s' ((Ht & _ & Htr & _) & H1 & H2 & H3). auto 10.
Qed.

End Cursor.
