(* ===== verification/StatsCache.v ===== *)
(** * The cache of process stats

    [process_stats_cache_] holds, per pid, the last value written of
    each counter, of [oom_score_adj], and the descriptors already
    reported.  The writers consult it so that a value is written only
    when it changed. *)

From Stdlib Require Import ZArith List Ascii String Lia.
From stdpp Require Import base option list gmap.
From S2P Require Import Prelude CxxString FlatSet TraceProto ProcFs StatusParse.
From S2P Require Import ProcessStats PacketCursor.

#[local] Open Scope Z_scope.
#[local] Open Scope m_scope.

Section Cache.
Context {SetT : Type} `{IntSet SetT}.
Implicit Types (s : State SetT) (e : Env) (F : fault -> Prop).

(** The cached value of a counter of a pid, if the pid has an entry. *)
Definition cached_counter (pid : Z) (c : Counter) s : option Z :=
  get_counter c <$> (c_counters <$> process_stats_cache_ s !! pid).

(** * Lemmas *)

Lemma wp_cache_entry F pid (Q : CachedProcessStats SetT -> State SetT -> Prop) s :
  wpf F (cache_entry pid) Q s <->
  match process_stats_cache_ s !! pid with
  | Some cached => Q cached s
  | None => Q CachedProcessStats_default
              (with_process_stats_cache_
                 (<[pid := CachedProcessStats_default]> (process_stats_cache_ s)) s)
  end.
Proof. unfold cache_entry. wp_simpl. destruct (_ !! pid); wp_simpl; reflexivity. Qed.

Lemma cached_counter_upd pid c v s cached :
  process_stats_cache_ s !! pid = Some cached ->
  cached_counter pid c
    (upd_cache pid (fun cached => mkCached (set_counter c v (c_counters cached))
                                           (c_oom_score_adj cached) (c_seen_fds cached)) s)
  = Some v.
Proof.
  intros Hc. unfold cached_counter, upd_cache. st_simpl.
  rewrite lookup_alter_eq, Hc. cbn. rewrite get_set_counter_same. reflexivity.
Qed.

(** The part of [write_counter] behind the cache lookup. *)
Lemma write_counter_body F e pid c value cached s :
  cursor_wf s -> process_stats_cache_ s !! pid = Some cached ->
  wpf F (if negb (ToU32 value =? get_counter c (c_counters cached)) then
           p <- GetOrCreateStatsProcess e pid ;;
           modify (upd_packet (alter_stats_process (sp_set_counter c (ToU32 value))
                                                   (fst p) (snd p))) ;;
           modify (upd_cache pid (fun cached =>
             mkCached (set_counter c (ToU32 value) (c_counters cached))
                      (c_oom_score_adj cached) (c_seen_fds cached)))
         else ret tt)
      (fun _ s' =>
         cursor_wf s' /\ cached_counter pid c s' = Some (ToU32 value) /\
         emitted s' = emitted s /\ trace s' = trace s /\
         (ToU32 value = get_counter c (c_counters cached) -> s' = s)) s.
Proof.
  intros Hwf Hc. destruct (Z.eqb_spec (ToU32 value) (get_counter c (c_counters cached)))
    as [Heq|Hne]; cbn [negb].
  - wp_simpl. unfold cached_counter. rewrite Hc. cbn. rewrite Heq. auto.
  - wp_step GetOrCreateStatsProcess_spec; [exact Hwf|]. destruct H0 as (Hfr & _).
    wp_run. destruct a as [i j]. cbn [fst snd].
    pose proof (alter_stats_process_frame (sp_set_counter c (ToU32 value)) i j s'
                  (proj1 (proj2 (proj2 Hfr)))) as Hfr'.
    pose proof (packet_frame_trans _ _ _ Hfr Hfr') as Hfr2.
    split; [apply Hfr2|]. split.
    + apply (cached_counter_upd _ _ _ _ cached). st_norm.
      destruct Hfr as ((_ & _ & _ & _ & -> & _) & _). exact Hc.
    + split; [apply (packet_frame_emitted _ _ Hfr2)|]. split; [apply Hfr2|contradiction].
Qed.

(** After [write_counter] the cache holds the value, and a value that
    is already cached writes nothing. *)
Lemma write_counter_spec F e pid c value s :
  cursor_wf s ->
  wpf F (write_counter e pid c value) (fun _ s' =>
    cursor_wf s' /\ cached_counter pid c s' = Some (ToU32 value) /\
    emitted s' = emitted s /\ trace s' = trace s /\
    (cached_counter pid c s = Some (ToU32 value) -> s' = s)) s.
Proof.
  intros Hwf. unfold write_counter. rewrite wp_bind, wp_cache_entry.
  destruct (process_stats_cache_ s !! pid) as [cached|] eqn:Hc.
  - eapply wp_mono; [apply write_counter_body; eassumption|]. cbn beta.
    intros _ s' (H1 & H2 & H3 & H4 & H5). repeat (split; [assumption|]).
    unfold cached_counter. rewrite Hc. cbn. intros [= Heq]. auto.
  - eapply wp_mono.
    { apply write_counter_body; [exact Hwf|]. st_simpl. apply lookup_insert_eq. }
    cbn beta. intros _ s' (H1 & H2 & H3 & H4 & _). repeat (split; [assumption|]).
    unfold cached_counter. rewrite Hc. discriminate.
Qed.

(** * Theorems *)

(** C29. The cache makes [write_counter] idempotent: from a state with
    well-formed pointers the call returns with the value recorded in the
    cache of the pid, and a second call with the same value returns
    without changing the state at all, so an unchanged counter is
    written to the trace once. *)
Theorem write_counter_idempotent e pid c value s :
  cursor_wf s ->
  wp (write_counter e pid c value) (fun _ s' =>
    cached_counter pid c s' = Some (ToU32 value) /\ emitted s' = emitted s /\
    wp (write_counter e pid c value) (fun _ s'' => s'' = s') s') s.
Proof.
  intros Hwf. eapply wp_mono; [apply write_counter_spec, Hwf|]. cbn beta.
  intros _ s' (Hwf' & Hc & Hem & _). split; [exact Hc|]. split; [exact Hem|].
  eapply wp_mono; [apply write_counter_spec, Hwf'|]. cbn beta.
  intros _ s'' (_ & _ & _ & _ & Hsame). apply Hsame, Hc.
Qed.

End Cache.
