(* ===== verification/Handlers.v ===== *)
(** * The handlers of ProcessStatsDataSource and its runs

    - [TreeInv] is the class of properties of the written process entries
      and of [seen_pids_] that the writers maintain; [fresh_since] (the
      entries written since a given state describe pids that were not
      in [seen_pids_] then, each once) is the instance behind the
      theorem on duplicates, [process_typed] of every entry the one
      behind the typing of the reachable states, and the trivial
      property the one that gives the invariants of arbitrary runs.
    - [good_at] holds while a handler runs, [idle_at] between handlers.
      Each method of the data source is shown to maintain them, the
      writers of stats messages by the structure of their code ([pres]).
    - [handle], [run] and [step] present the data source as a transition
      system over [Event]s; the theorems at the end are about its runs.
    - [Knobs] are the fields only the handlers themselves change;
      [next_knobs] and [run_knobs] compute them from the events alone.
    - [env_ok F] and [ev_ok F] say which faults the environment may
      cause; with [F := any_fault] they always hold and the lemmas give
      partial correctness, with [F := no_fault] they are hypotheses on
      /proc and the lemmas give total correctness. *)

From Stdlib Require Import ZArith List Ascii String Lia.
From stdpp Require Import base option list gmap.
From S2P Require Import Prelude CxxString FlatSet TraceProto ProcFs StatusParse.
From S2P Require Import ProcessStats PacketCursor.

#[local] Open Scope Z_scope.
#[local] Open Scope m_scope.

Section TreeDefs.
Context {SetT : Type} `{IntSet SetT}.
Implicit Types (s : State SetT) (e : Env) (F : fault -> Prop).

(** The types of the fields of a process entry: [pid] is a positive
    [int32], [ppid] and [uid] are [int32], the namespace ids are [int32]
    and none is 0 (the loop over the array stops at the first 0), and a
    [cmdline] entry, written from a C string, holds no NUL. *)
Definition process_typed (pr : TreeProcess) : Prop :=
  0 < p_pid pr < 2 ^ 31 /\ is_i32 (p_ppid pr) /\ is_i32 (p_uid pr) /\
  Forall (fun id => is_i32 id /\ id <> 0) (p_nspid pr) /\
  Forall (fun tok => NUL ∉ tok) (p_cmdline pr).

(** A property [D] of the process entries written so far and of
    [seen_pids_] that the writers maintain: it survives the writing of a
    well-typed entry whose pid is not in the set, which is then
    inserted, and the insertion of any other id. *)
Class TreeInv (D : list TreeProcess -> SetT -> Prop) : Prop := {
  inv_add : forall l seen pr,
    process_typed pr -> set_count (p_pid pr) seen = false -> D l seen ->
    D (l ++ [pr]) (set_insert (p_pid pr) seen);
  inv_seen : forall l seen tid, D l seen -> D l (set_insert tid seen)
}.

(** The entries written since a state in which [old] had been written
    and the set was [seen0]: they describe pids that were not in
    [seen0], each once, and every pid described is in the set, which
    has only grown. *)
Definition fresh_since (old : list TreeProcess) (seen0 : SetT)
    (l : list TreeProcess) (seen : SetT) : Prop :=
  (exists new, l = old ++ new /\ NoDup (map p_pid new) /\
     forall pid, pid ∈ map p_pid new ->
       set_count pid seen0 = false /\ set_count pid seen = true) /\
  forall pid, set_count pid seen0 = true -> set_count pid seen = true.

(** The fields only the handlers themselves change: the settings, the
    tick counter of the cache, the tasks posted and the flushes seen. *)
Record Knobs : Type := mkKnobs {
  k_settings : Settings;
  k_ticks : Z;
  k_posted : list PostedTask;
  k_flushes : nat
}.

Definition knobs s : Knobs :=
  mkKnobs (settings s) (cache_ticks_ s) (posted s) (flushes s).

(** The invariant that holds while a handler runs. *)
Definition good_at (D : list TreeProcess -> SetT -> Prop) (k : Knobs) s : Prop :=
  cursor_wf s /\ D (emitted s) (seen_pids_ s) /\ knobs s = k.

(** The invariant that holds between handlers. *)
Definition idle_at (D : list TreeProcess -> SetT -> Prop) (k : Knobs) s : Prop :=
  quiescent s /\ D (emitted s) (seen_pids_ s) /\ knobs s = k.

(** The process entry [WriteProcess] writes for [pid]. *)
Definition process_entry e (pid : Z) (proc_status : bytes) (nspids : list Z) : TreeProcess :=
  mkTreeProcess pid
    (ToInt (ReadProcStatusEntry proc_status (lit "PPid:")))
    (ToInt (ReadProcStatusEntry proc_status (lit "Uid:")))
    (until_zero nspids)
    (cmdline_tokens (ReadProcPidFile e pid (lit "cmdline"))
                    (ReadProcStatusEntry proc_status (lit "Name:"))).

(** The faults of [ReadNamespacedTids] on the status files of the
    snapshot are accepted by [F]. *)
Definition nstids_ok F e : Prop :=
  forall tid pid f,
    ReadNamespacedTids tid (ReadProcPidFile e pid (lit "status")) TidArray_zero = inl f ->
    F f.

(** The faults the environment can cause are accepted by [F]: those of
    [ReadNamespacedTids], and the overflow of [mark_skip] on a
    directory named -1. *)
Definition env_ok F e : Prop :=
  nstids_ok F e /\
  (F UndefinedBehaviour \/
   forall proc_dir, OpenProcDir e = Some proc_dir -> -1 ∉ numeric_dirs proc_dir).

(** ** The data source as a transition system *)

(** What the data source reacts to: the calls of its public methods. *)
Inductive Event : Type :=
| EvStart
| EvTick
| EvOnPids (pids : SetT)
| EvOnRenamePids (pids : SetT)
| EvOnFds (fds : list (Z * SetT))
| EvFlush
| EvClearIncrementalState.

Definition handle e (ev : Event) : M (State SetT) unit :=
  match ev with
  | EvStart => Start e
  | EvTick => Tick e
  | EvOnPids pids => OnPids e pids
  | EvOnRenamePids pids => OnRenamePids pids
  | EvOnFds fds => OnFds e fds
  | EvFlush => Flush
  | EvClearIncrementalState => ClearIncrementalState
  end.

(** A run: handlers execute one after the other, each to completion and
    each in the environment it finds. *)
Definition run (evs : list (Env * Event)) : M (State SetT) unit :=
  foreach evs (fun x => handle (fst x) (snd x)).

(** The events that never remove an id from [seen_pids_]. *)
Definition keeps_seen (ev : Event) : bool :=
  match ev with
  | EvOnRenamePids _ | EvClearIncrementalState => false
  | _ => true
  end.

(** The faults an event can cause in its environment are accepted by
    [F]; for [Tick] this includes the division by a zero period. *)
Definition ev_ok F (cfg : Settings) (x : Env * Event) : Prop :=
  env_ok F (fst x) /\
  (snd x = EvTick -> F UndefinedBehaviour \/ poll_period_ms_ cfg <> 0).

(** What a handler does to the knobs. *)
Definition next_knobs e (ev : Event) (k : Knobs) : Knobs :=
  match ev with
  | EvStart =>
      if negb (poll_period_ms_ (k_settings k) =? 0)
      then mkKnobs (k_settings k) (k_ticks k) (k_posted k ++ [mkPostedTask None])
                   (k_flushes k)
      else k
  | EvTick =>
      let cfg := k_settings k in
      mkKnobs cfg (fst (tick_cache (k_ticks k) (process_stats_cache_ttl_ticks_ cfg)))
              (k_posted k ++
               [mkPostedTask (Some (tick_delay (poll_period_ms_ cfg) (wall_time_ms e)))])
              (k_flushes k)
  | EvFlush => mkKnobs (k_settings k) (k_ticks k) (k_posted k) (S (k_flushes k))
  | EvClearIncrementalState => mkKnobs (k_settings k) 0 (k_posted k) (k_flushes k)
  | _ => k
  end.

Definition run_knobs (evs : list (Env * Event)) (k : Knobs) : Knobs :=
  fold_left (fun k x => next_knobs (fst x) (snd x) k) evs k.

(** One handler runs to completion in some environment. *)
Inductive step : State SetT -> State SetT -> Prop :=
| step_handle e ev s s' : handle e ev s = Ok tt s' -> step s s'.

Definition reachable (cfg : ProcessStatsConfig) s : Prop :=
  rtc step (init_state cfg) s.

End TreeDefs.

Arguments Event SetT : clear implicits.

Section Tree.
Context {SetT : Type} `{IntSet SetT}.
Context (D : list TreeProcess -> SetT -> Prop) `{!TreeInv D}.
Implicit Types (s : State SetT) (e : Env) (F : fault -> Prop).

Lemma same_tables_knobs s s' : same_tables s s' -> knobs s' = knobs s.
Proof. unfold same_tables, knobs. intros (-> & _ & _ & _ & _ & -> & -> & ->). reflexivity. Qed.

(** What a frame keeps of the invariant. *)
Lemma frame_inv k s s' :
  same_tables s s' -> emitted s' = emitted s ->
  D (emitted s) (seen_pids_ s) /\ knobs s = k ->
  D (emitted s') (seen_pids_ s') /\ knobs s' = k.
Proof.
  intros Ht -> [Hd <-]. rewrite (same_tables_knobs _ _ Ht).
  destruct Ht as (_ & -> & _). auto.
Qed.

Lemma good_frame k s s' : packet_frame s s' -> good_at D k s -> good_at D k s'.
Proof.
  intros Hfr (_ & Hd). split; [apply Hfr|].
  eapply frame_inv; [apply Hfr|apply packet_frame_emitted, Hfr|exact Hd].
Qed.

(** ** WriteProcess and WriteThread *)

Lemma WriteProcess_spec F e pid proc_status s :
  cursor_wf s ->
  (forall f, ReadNamespacedTids pid proc_status TidArray_zero = inl f -> F f) ->
  wpf F (WriteProcess e pid proc_status) (fun _ s' =>
    cursor_wf s' /\ knobs s' = knobs s /\ trace s' = trace s /\
    skip_stats_for_pids_ s' = skip_stats_for_pids_ s /\
    seen_pids_ s' = set_insert pid (seen_pids_ s) /\
    tids_to_pids_ s' = emplace pid pid (tids_to_pids_ s) /\
    exists nspids, ReadNamespacedTids pid proc_status TidArray_zero = inr nspids /\
      emitted s' = emitted s ++ [process_entry e pid proc_status nspids]) s.
Proof.
  intros Hwf HF. unfold WriteProcess.
  wp_step GetOrCreatePsTree_spec; [exact Hwf|]. destruct H0 as (Hfr & Hi).
  wp_run. destruct (ReadNamespacedTids _ _ _) as [f|nspids] eqn:E; [apply HF; reflexivity|].
  wp_run. destruct Hfr as (Ht & Htr & Hwf' & Hf).
  split; [apply cursor_wf_alter_tree, Hwf'|].
  split; [apply (same_tables_knobs _ _ Ht)|]. split; [exact Htr|].
  split; [apply Ht|]. split; [f_equal; apply Ht|]. split; [f_equal; apply Ht|].
  exists nspids. split; [reflexivity|].
  unfold emitted. st_norm. rewrite (add_tree_process_lands _ _ _ Hwf' Hi), Hf, Htr.
  apply app_assoc.
Qed.

Lemma WriteThread_spec F e tid tgid name proc_status s :
  cursor_wf s ->
  (forall f, ReadNamespacedTids tid proc_status TidArray_zero = inl f -> F f) ->
  wpf F (WriteThread e tid tgid name proc_status) (fun _ s' =>
    cursor_wf s' /\ knobs s' = knobs s /\ trace s' = trace s /\
    skip_stats_for_pids_ s' = skip_stats_for_pids_ s /\
    seen_pids_ s' = set_insert tid (seen_pids_ s) /\ emitted s' = emitted s) s.
Proof.
  intros Hwf HF. unfold WriteThread.
  wp_step GetOrCreatePsTree_spec; [exact Hwf|]. destruct H0 as (Hfr & Hi).
  wp_run. destruct (ReadNamespacedTids _ _ _) as [f|nstids] eqn:E; [apply HF; reflexivity|].
  wp_run. pose proof (add_tree_thread_frame (mkTreeThread tid tgid name (until_zero nstids))
                        a s' (proj1 (proj2 (proj2 Hfr)))) as Hfr'.
  pose proof (packet_frame_trans _ _ _ Hfr Hfr') as (Ht & Htr & Hwf' & Hf).
  split; [exact Hwf'|]. split; [apply (same_tables_knobs _ _ Ht)|]. split; [exact Htr|].
  split; [apply Ht|]. split; [f_equal; apply Hfr|]. apply emitted_eq; assumption.
Qed.


(** The entry of a positive pid is well typed, whatever /proc holds. *)
Lemma process_entry_typed e pid proc_status nspids :
  0 < pid < 2 ^ 31 ->
  ReadNamespacedTids pid proc_status TidArray_zero = inr nspids ->
  process_typed (process_entry e pid proc_status nspids).
Proof.
  intros Hpid Hns. unfold process_typed, process_entry, ToInt. cbn.
  split; [exact Hpid|]. split; [apply atoi_range|]. split; [apply atoi_range|].
  split; [|apply cmdline_tokens_no_nul].
  apply until_zero_typed. eapply ReadNamespacedTids_i32; [|exact Hns].
  apply Forall_replicate. unfold is_i32. lia.
Qed.

Lemma WriteProcess_good F e pid proc_status k s :
  good_at D k s -> 0 < pid < 2 ^ 31 -> set_count pid (seen_pids_ s) = false ->
  (forall f, ReadNamespacedTids pid proc_status TidArray_zero = inl f -> F f) ->
  wpf F (WriteProcess e pid proc_status) (fun _ s' => good_at D k s') s.
Proof.
  intros (Hwf & Hd & Hk) Hpid Hnew HF.
  eapply wp_mono; [apply WriteProcess_spec; assumption|]. cbn beta.
  intros _ s' (Hwf' & Hs & _ & _ & Hseen & _ & nspids & Hns & Hem).
  split; [exact Hwf'|]. split; [|congruence].
  rewrite Hem, Hseen. apply (inv_add _ _ (process_entry _ _ _ _)); try assumption.
  apply process_entry_typed; assumption.
Qed.

Lemma WriteThread_good F e tid tgid name proc_status k :
  (forall f, ReadNamespacedTids tid proc_status TidArray_zero = inl f -> F f) ->
  preserves F (good_at D k) (WriteThread e tid tgid name proc_status).
Proof.
  intros HF s (Hwf & Hd & Hk).
  eapply wp_mono; [apply WriteThread_spec; assumption|]. cbn beta.
  intros _ s' (Hwf' & Hs & _ & _ & Hseen & Hem).
  split; [exact Hwf'|]. split; [|congruence].
  rewrite Hem, Hseen. apply inv_seen, Hd.
Qed.

Lemma CacheProcFsScanStartTimestamp_good F e k :
  preserves F (good_at D k) (CacheProcFsScanStartTimestamp e).
Proof.
  intros s (Hwf & Hd & Hk).
  eapply wp_mono; [apply CacheProcFsScanStartTimestamp_spec|]. cbn beta.
  intros _ s' (Ht & Hc & _ & Htr & _).
  split; [eapply same_cursor_wf; eassumption|].
  eapply frame_inv; [exact Ht|apply same_emitted; [exact Htr|apply Hc]|auto].
Qed.

(** ** WriteProcessOrThread *)

(** The guard [tgid <= 0 || tid <= 0]. *)
Lemma ToInt_positive str z :
  (ToInt str <=? 0) || (z <=? 0) = false -> 0 < ToInt str < 2 ^ 31.
Proof.
  intros [Hp _]%orb_false_iff. apply Z.leb_gt in Hp.
  pose proof (atoi_range (c_str str)) as Hr. unfold is_i32, ToInt in *. lia.
Qed.

Lemma WriteProcessOrThread_good F e pid k :
  nstids_ok F e -> preserves F (good_at D k) (WriteProcessOrThread e pid).
Proof.
  intros Hok. unfold WriteProcessOrThread.
  apply preserves_bind; [apply CacheProcFsScanStartTimestamp_good|intros _].
  intros s Hg. wp_run; try exact Hg.
  all: match goal with E : ReadProcPidFile _ _ _ = _ :: _ |- _ => rewrite <- E in * end.
  - eapply wp_mono.
    { apply WriteProcess_good; [exact Hg|eapply ToInt_positive; eassumption
                                |apply negb_true_iff; assumption|].
      destruct (_ =? _); apply Hok. }
    cbn beta. intros _ s1 Hg1. wp_run; [|exact Hg1].
    apply WriteThread_good; [apply Hok|exact Hg1].
  - apply WriteThread_good; [apply Hok|exact Hg].
Qed.

(** ** WriteProcessTree and OnPids *)

Lemma FinalizeCurPacket_idle F e k s :
  good_at D k s -> wpf F (FinalizeCurPacket e) (fun _ s' => idle_at D k s') s.
Proof.
  intros (_ & Hd & Hk). eapply wp_mono; [apply FinalizeCurPacket_spec|]. cbn beta.
  intros _ s' (Hq & Ht & _ & Hem & _).
  split; [exact Hq|]. eapply frame_inv; [exact Ht|exact Hem|auto].
Qed.

Lemma WriteProcessTree_idle F e pids k s :
  nstids_ok F e -> good_at D k s ->
  wpf F (WriteProcessTree e pids) (fun _ s' => idle_at D k s') s.
Proof.
  intros Hok Hg. unfold WriteProcessTree. apply wp_bind.
  eapply wp_mono.
  { apply (preserves_foreach F (good_at D k)); [|exact Hg].
    intros pid. pres. apply WriteProcessOrThread_good, Hok. }
  cbn beta. intros _ s1 Hg1. apply FinalizeCurPacket_idle, Hg1.
Qed.

(** ** The stats messages never disturb the invariant *)

Lemma cache_entry_good F pid k : preserves F (good_at D k) (cache_entry pid).
Proof. intros s Hg. unfold cache_entry. wp_run; exact Hg. Qed.

Lemma GetOrCreateStatsProcess_good F e pid k :
  preserves F (good_at D k) (GetOrCreateStatsProcess e pid).
Proof.
  intros s Hg. eapply wp_mono; [apply GetOrCreateStatsProcess_spec, Hg|]. cbn beta.
  intros ij s' (Hfr & _). eapply good_frame; eassumption.
Qed.

Lemma alter_stats_process_good f i j k s :
  good_at D k s -> good_at D k (upd_packet (alter_stats_process f i j) s).
Proof.
  intros Hg. eapply good_frame; [apply alter_stats_process_frame, Hg|exact Hg].
Qed.

Lemma upd_cache_good pid f k s : good_at D k s -> good_at D k (upd_cache pid f s).
Proof. exact id. Qed.

#[local] Hint Resolve cache_entry_good GetOrCreateStatsProcess_good
  alter_stats_process_good upd_cache_good : pres.

Lemma write_counter_good F e pid c value k :
  preserves F (good_at D k) (write_counter e pid c value).
Proof. unfold write_counter. pres. Qed.

Lemma write_oom_score_adj_good F e pid k :
  preserves F (good_at D k) (write_oom_score_adj e pid).
Proof. unfold write_oom_score_adj. pres. Qed.

Lemma WriteSingleFd_good F e tid fd k :
  preserves F (good_at D k) (WriteSingleFd e tid fd).
Proof. unfold WriteSingleFd. pres. Qed.

#[local] Hint Resolve write_counter_good write_oom_score_adj_good WriteSingleFd_good : pres.

Lemma WriteMemCounters_good F e pid proc_status k :
  preserves F (good_at D k) (WriteMemCounters e pid proc_status).
Proof. unfold WriteMemCounters, mem_char_step, mem_newline. pres. Qed.

Lemma WriteFds_good F e pid k : preserves F (good_at D k) (WriteFds e pid).
Proof. unfold WriteFds. pres. Qed.

(** ** mark_skip *)

Lemma length_resize n v : length (resize n v) = n.
Proof. unfold resize. rewrite length_app, length_take, length_replicate. lia. Qed.

(** The bit of [pid_u] can be set unless [pid_u + 1] wraps to 0. *)
Lemma mark_skip_good F pid_u k :
  F UndefinedBehaviour \/ 0 <= pid_u < UINT32_MAX ->
  preserves F (good_at D k) (mark_skip pid_u).
Proof.
  intros HF s Hg. unfold mark_skip. wp_run; [exact Hg|].
  destruct HF as [HF|Hpid]; [exact HF|]. exfalso.
  apply Z.ltb_ge in Heqb. destruct (Z.leb_spec (Z.of_nat (length (skip_stats_for_pids_ s))) pid_u);
    [|lia].
  rewrite length_resize, wrap_u32_small in Heqb by (unfold is_u32, UINT32_MAX in *; lia).
  lia.
Qed.

(** ** The scans *)

Lemma wrap_u32_pid pid : is_i32 pid -> pid <> -1 -> 0 <= wrap_u32 pid < UINT32_MAX.
Proof.
  unfold is_i32, wrap_u32, UINT32_MAX. intros Hr Hne.
  destruct (Z_lt_le_dec pid 0).
  - replace pid with (pid + 2 ^ 32 + (-1) * 2 ^ 32) by lia.
    rewrite Z.mod_add by lia. rewrite Z.mod_small; lia.
  - rewrite Z.mod_small; lia.
Qed.

(** Forgetting the process pointer, as the loops do before each pid. *)
Lemma reset_process_good k s :
  good_at D k s -> good_at D k (with_cur_ps_stats_process_ None s).
Proof.
  intros (Hwf & Hd). split; [|exact Hd].
  ptr_simpl. destruct (cur_ps_tree_ s), (cur_ps_stats_ s), (cur_ps_stats_process_ s) as [[]|];
    cbn [wf_ptrs] in *; intuition eauto.
Qed.

#[local] Hint Resolve WriteMemCounters_good WriteFds_good reset_process_good : pres.

Lemma stats_body_good F e pids pid k :
  F UndefinedBehaviour \/ (is_i32 pid /\ pid <> -1) ->
  preserves F (good_at D k) (stats_body e pids pid).
Proof.
  intros HF. unfold stats_body. pres.
  apply mark_skip_good. destruct HF as [HF|[Hr Hne]]; [left; exact HF|right].
  apply wrap_u32_pid; assumption.
Qed.

(** ** The handlers *)

Lemma idle_good k s : idle_at D k s -> good_at D k s.
Proof. intros (Hq & Hd). split; [apply quiescent_cursor_wf, Hq|exact Hd]. Qed.

Lemma CacheProcFsScanStartTimestamp_idle F e k :
  preserves F (idle_at D k) (CacheProcFsScanStartTimestamp e).
Proof.
  intros s (Hq & Hd & Hk).
  eapply wp_mono; [apply CacheProcFsScanStartTimestamp_spec|]. cbn beta.
  intros _ s' (Ht & Hc & Hp & Htr & _).
  split; [unfold same_cursor, quiescent in *; intuition congruence|].
  eapply frame_inv; [exact Ht|apply same_emitted; [exact Htr|apply Hc]|auto].
Qed.

Lemma WriteAllProcessStats_idle F e k :
  env_ok F e -> preserves F (idle_at D k) (WriteAllProcessStats e).
Proof.
  intros [Hok Hpid]. unfold WriteAllProcessStats.
  apply preserves_bind; [apply CacheProcFsScanStartTimestamp_idle|intros _].
  destruct (OpenProcDir e) as [proc_dir|] eqn:Hdir; [|apply preserves_ret].
  intros s Hi. apply wp_bind. eapply wp_mono.
  { apply (preserves_scan_dir F (good_at D k)); [|apply idle_good, Hi].
    intros pids pid Hin. apply stats_body_good.
    destruct Hpid as [HF|Hpid]; [left; exact HF|right]. split.
    - eapply Forall_forall; [apply numeric_dirs_i32|exact Hin].
    - intros ->. exact (Hpid _ eq_refl Hin). }
  cbn beta. intros pids s1 Hg1. apply wp_bind.
  eapply wp_mono; [apply FinalizeCurPacket_idle, Hg1|]. cbn beta.
  intros _ s2 Hi2.
  eapply wp_mono; [apply WriteProcessTree_idle; [exact Hok|apply idle_good, Hi2]|].
  auto.
Qed.

(** [Tick] keeps the invariant, and leaves the cache empty when the
    counter reaches the time to live. *)
Lemma Tick_spec F e k s :
  env_ok F e -> F UndefinedBehaviour \/ poll_period_ms_ (k_settings k) <> 0 ->
  idle_at D k s ->
  wpf F (Tick e) (fun _ s' =>
    idle_at D (next_knobs e (EvTick : Event SetT) k) s' /\
    (snd (tick_cache (k_ticks k) (process_stats_cache_ttl_ticks_ (k_settings k))) = true ->
     process_stats_cache_ s' = ∅)) s.
Proof.
  intros Hok Hperiod Hi. unfold Tick, PostTask. wp_run.
  - destruct Hperiod as [HF|Hne]; [exact HF|].
    destruct Hi as (_ & _ & <-). apply Z.eqb_eq in Heqb. contradiction.
  - destruct Hi as (Hq & Hd & <-).
    eapply wp_mono;
      [apply WriteAllProcessStats_idle; [exact Hok|split; [exact Hq|split; [exact Hd|reflexivity]]]|].
    cbn beta. intros _ s1 (Hq1 & Hd1 & Hk1). wp_run. injection Hk1 as Hs Ht Hp Hf.
    cbn [next_knobs knobs k_settings k_ticks k_posted k_flushes]. rewrite Hs, Ht.
    destruct (tick_cache _ _) as [ticks []]; wp_run;
      (split; [|first [discriminate|reflexivity]]);
      (split; [exact Hq1|split; [exact Hd1|]]); unfold knobs; st_simpl; congruence.
Qed.

Lemma Tick_idle F e k s :
  env_ok F e -> F UndefinedBehaviour \/ poll_period_ms_ (k_settings k) <> 0 ->
  idle_at D k s ->
  wpf F (Tick e) (fun _ s' => idle_at D (next_knobs e (EvTick : Event SetT) k) s') s.
Proof.
  intros Hok Hperiod Hi. eapply wp_mono; [apply Tick_spec; eassumption|].
  cbn beta. intros _ s' [Hi' _]. exact Hi'.
Qed.

Lemma task_body_good F e pid tid k :
  nstids_ok F e -> preserves F (good_at D k) (task_body e pid tt tid).
Proof.
  intros Hok. unfold task_body. pres.
  - apply WriteProcessOrThread_good, Hok.
  - apply WriteThread_good, Hok.
Qed.

Lemma proc_body_good F e pid k :
  nstids_ok F e -> preserves F (good_at D k) (proc_body e tt pid).
Proof.
  intros Hok. unfold proc_body.
  apply preserves_bind; [apply WriteProcessOrThread_good, Hok|intros _].
  destruct (task_dir (fs e) pid); [|apply preserves_ret].
  apply preserves_scan_dir. intros [] tid _. apply task_body_good, Hok.
Qed.

Lemma WriteAllProcesses_idle F e k :
  nstids_ok F e -> preserves F (idle_at D k) (WriteAllProcesses e).
Proof.
  intros Hok. unfold WriteAllProcesses.
  apply preserves_bind; [apply CacheProcFsScanStartTimestamp_idle|intros _].
  destruct (OpenProcDir e) as [proc_dir|]; [|apply preserves_ret].
  intros s Hi. apply wp_bind. eapply wp_mono.
  { apply (preserves_scan_dir F (good_at D k)); [|apply idle_good, Hi].
    intros [] pid _. apply proc_body_good, Hok. }
  cbn beta. intros _ s1 Hg1. apply wp_bind.
  eapply wp_mono; [apply FinalizeCurPacket_idle, Hg1|]. cbn beta.
  intros _ s2 Hi2. wp_run. eapply wp_mono.
  { apply (preserves_foreach F (good_at D k)); [|apply idle_good, Hi2].
    intros pid. apply WriteFds_good. }
  cbn beta. intros _ s3 Hg3. apply FinalizeCurPacket_idle, Hg3.
Qed.

Lemma Start_post F e k cfg s :
  cfg = k_settings k -> idle_at D k s ->
  wpf F (if negb (poll_period_ms_ cfg =? 0) then PostTask (mkPostedTask None) else ret tt)
      (fun _ s' => idle_at D (next_knobs e (EvStart : Event SetT) k) s') s.
Proof.
  intros -> (Hq & Hd & <-). unfold PostTask. cbn [next_knobs].
  destruct (negb _); wp_run; (split; [exact Hq|split; [exact Hd|reflexivity]]).
Qed.

Lemma Start_idle F e k s :
  nstids_ok F e -> idle_at D k s ->
  wpf F (Start e) (fun _ s' => idle_at D (next_knobs e (EvStart : Event SetT) k) s') s.
Proof.
  intros Hok Hi. unfold Start. rewrite wp_bind, wp_get.
  assert (settings s = k_settings k) as Hs by (destruct Hi as (_ & _ & <-); reflexivity).
  destruct (dump_all_procs_on_start_ (settings s)); wp_simpl.
  - eapply wp_mono; [apply WriteAllProcesses_idle; [exact Hok|exact Hi]|].
    cbn beta. intros _ s1 Hi1. apply Start_post; assumption.
  - apply Start_post; assumption.
Qed.

Lemma OnPids_idle F e pids k :
  nstids_ok F e -> preserves F (idle_at D k) (OnPids e pids).
Proof.
  intros Hok s Hi. unfold OnPids. wp_run; [exact Hi|].
  apply WriteProcessTree_idle; [exact Hok|apply idle_good, Hi].
Qed.

Lemma OnFds_idle F e fds k : preserves F (idle_at D k) (OnFds e fds).
Proof.
  intros s Hi. unfold OnFds. wp_run; [exact Hi|].
  eapply wp_mono.
  { apply (preserves_foreach F (good_at D k)); [|apply idle_good, Hi].
    intros pid_fds. unfold fds_body. pres. }
  cbn beta. intros _ s1 Hg1. apply FinalizeCurPacket_idle, Hg1.
Qed.

Lemma Flush_idle F e k s :
  idle_at D k s ->
  wpf F Flush (fun _ s' => idle_at D (next_knobs e (EvFlush : Event SetT) k) s') s.
Proof. intros (Hq & Hd & <-). split; [exact Hq|split; [exact Hd|reflexivity]]. Qed.

(** ** Every handler keeps the invariant *)

Lemma next_knobs_settings e (ev : Event SetT) k :
  k_settings (next_knobs e ev k) = k_settings k.
Proof. destruct ev; cbn; try reflexivity. destruct (negb _); reflexivity. Qed.


Lemma handle_idle F e ev k s :
  ev_ok F (k_settings k) (e, ev) -> keeps_seen ev = true -> idle_at D k s ->
  wpf F (handle e ev) (fun _ s' => idle_at D (next_knobs e ev k) s') s.
Proof.
  intros [[Hok Hpid] Htick] Hk Hi. destruct ev; try discriminate; cbn [handle].
  - apply Start_idle; assumption.
  - apply Tick_idle; [split; assumption|apply Htick; reflexivity|exact Hi].
  - apply OnPids_idle; assumption.
  - apply OnFds_idle, Hi.
  - apply Flush_idle, Hi.
Qed.

(** The two handlers that shrink [seen_pids_] keep any property that
    does not depend on it growing. *)
Lemma handle_idle_shrink F e ev k s :
  (forall l seen pid, D l seen -> D l (set_erase pid seen)) ->
  (forall l seen, D l seen -> D l set_empty) ->
  keeps_seen ev = false -> idle_at D k s ->
  wpf F (handle e ev) (fun _ s' => idle_at D (next_knobs e ev k) s') s.
Proof.
  intros Herase Hclear Hk Hi. destruct ev; try discriminate; cbn [handle next_knobs].
  - revert s Hi. change (preserves F (idle_at D k) (OnRenamePids pids)).
    unfold OnRenamePids. pres. destruct H0 as (Hq & Hd & Hcfg).
    split; [exact Hq|]. split; [apply Herase, Hd|exact Hcfg].
  - unfold ClearIncrementalState. destruct Hi as (Hq & Hd & <-). wp_run.
    split; [exact Hq|]. split; [eapply Hclear, Hd|reflexivity].
Qed.

(** A property that does not depend on [seen_pids_] is kept by every
    handler. *)
Lemma handle_steady F e ev k s :
  (forall l seen seen', D l seen -> D l seen') ->
  ev_ok F (k_settings k) (e, ev) -> idle_at D k s ->
  wpf F (handle e ev) (fun _ s' => idle_at D (next_knobs e ev k) s') s.
Proof.
  intros Hany Hok Hi. destruct (keeps_seen ev) eqn:Hk.
  - apply handle_idle; assumption.
  - apply handle_idle_shrink; eauto.
Qed.

Lemma run_idle F evs k s :
  Forall (ev_ok F (k_settings k)) evs ->
  Forall (fun x => keeps_seen (snd x) = true) evs -> idle_at D k s ->
  wpf F (run evs) (fun _ s' => idle_at D (run_knobs evs k) s') s.
Proof.
  revert k s. induction evs as [|[e ev] evs IH]; intros k s Hok Hk Hi; [exact Hi|].
  apply Forall_cons in Hok as [Hok1 Hok], Hk as [Hk1 Hk].
  apply wp_foreach_cons. eapply wp_mono; [apply handle_idle; eassumption|].
  cbn beta. intros _ s1 Hi1. apply IH; [|exact Hk|exact Hi1].
  rewrite next_knobs_settings. exact Hok.
Qed.

End Tree.

Section Run.
Context {SetT : Type} `{IntSet SetT}.
Implicit Types (s : State SetT) (e : Env) (F : fault -> Prop).

#[export] Instance fresh_since_TreeInv old (seen0 : SetT) :
  TreeInv (fresh_since old seen0).
Proof.
  split; unfold fresh_since.
  - intros l seen pr _ Hnew [(new & -> & Hnd & Hin) Hmono]. split.
    + exists (new ++ [pr]). rewrite app_assoc, map_app. cbn [map].
      split; [reflexivity|]. split.
      * apply NoDup_app. split; [exact Hnd|]. split; [|apply NoDup_singleton].
        intros pid Hp ->%list_elem_of_singleton. apply Hin in Hp as [_ Hp]. congruence.
      * intros pid [Hp| ->%list_elem_of_singleton]%elem_of_app; rewrite count_insert.
        -- destruct (Hin _ Hp) as [H0 H1]. rewrite H1, orb_true_r. auto.
        -- rewrite Z.eqb_refl. split; [|reflexivity].
           destruct (set_count (p_pid pr) seen0) eqn:E; [|reflexivity].
           apply Hmono in E. congruence.
    + intros pid Hp. rewrite count_insert, (Hmono _ Hp). apply orb_true_r.
  - intros l seen tid [(new & -> & Hnd & Hin) Hmono]. split.
    + exists new. split; [reflexivity|]. split; [exact Hnd|].
      intros pid Hp. destruct (Hin _ Hp) as [H0 H1].
      rewrite count_insert, H1, orb_true_r. auto.
    + intros pid Hp. rewrite count_insert, (Hmono _ Hp). apply orb_true_r.
Qed.

(** The trivial property, for the invariants that hold of every run. *)
#[export] Instance True_TreeInv : TreeInv (fun (_ : list TreeProcess) (_ : SetT) => True).
Proof. split; auto. Qed.

(** Every entry is well typed. *)
#[export] Instance typed_TreeInv :
  TreeInv (fun l (_ : SetT) => Forall process_typed l).
Proof.
  split; [|auto]. intros l seen pr Hpr _ Hl. apply Forall_app. split; [exact Hl|].
  constructor; [exact Hpr|constructor].
Qed.

Lemma init_idle D cfg :
  D [] set_empty -> idle_at D (knobs (init_state cfg)) (init_state (SetT:=SetT) cfg).
Proof. intros HD. repeat split. exact HD. Qed.

(** Between handlers, the entries written are those of the trace. *)
Lemma quiescent_emitted s : quiescent s -> emitted s = trace_processes (trace s).
Proof.
  intros Hq. unfold emitted. rewrite (cur_fields_quiescent _ Hq). apply app_nil_r.
Qed.

Lemma idle_emitted D cfg s :
  idle_at D cfg s -> emitted s = trace_processes (trace s).
Proof. intros (Hq & _). apply quiescent_emitted, Hq. Qed.

(** ** Runs *)

Lemma handle_quiescent F e ev k s :
  ev_ok F (k_settings k) (e, ev) -> idle_at (fun _ (_ : SetT) => True) k s ->
  wpf F (handle e ev) (fun _ s' =>
    idle_at (fun _ (_ : SetT) => True) (next_knobs e ev k) s') s.
Proof. apply handle_steady; [apply _|auto]. Qed.

Lemma run_quiescent F evs k s :
  Forall (ev_ok F (k_settings k)) evs -> idle_at (fun _ (_ : SetT) => True) k s ->
  wpf F (run evs) (fun _ s' =>
    idle_at (fun _ (_ : SetT) => True) (run_knobs evs k) s') s.
Proof.
  revert k s. induction evs as [|[e ev] evs IH]; intros k s Hok Hi; [exact Hi|].
  apply Forall_cons in Hok as [Hok1 Hok].
  apply wp_foreach_cons. eapply wp_mono; [apply handle_quiescent; eassumption|].
  cbn beta. intros _ s1 Hi1. apply IH; [|exact Hi1].
  rewrite next_knobs_settings. exact Hok.
Qed.

Lemma ev_ok_any cfg (x : Env * Event SetT) : ev_ok any_fault cfg x.
Proof. repeat split; intros; exact I || (left; exact I). Qed.

(** C1. No process is described twice: in a run of handlers from a
    quiescent state that contains neither [OnRenamePids] nor
    [ClearIncrementalState], whatever /proc looks like at each handler
    call and in whatever order the handlers are called, the process
    entries added to the trace describe pids that were not in
    [seen_pids_] at the start, each of them once, and all of them are in
    [seen_pids_] at the end; the run ends with no packet open.  From the
    constructed state this is every entry of the trace; after a rename
    or a clear it is every entry of the new generation. *)
Theorem run_no_duplicate_process evs s s' :
  quiescent s -> Forall (fun x => keeps_seen (snd x) = true) evs ->
  run evs s = Ok tt s' ->
  quiescent s' /\
  exists new, trace_processes (trace s') = trace_processes (trace s) ++ new /\
    NoDup (map p_pid new) /\
    forall pid, pid ∈ map p_pid new ->
      set_count pid (seen_pids_ s) = false /\ set_count pid (seen_pids_ s') = true.
Proof.
  intros Hq Hk Hrun.
  assert (idle_at (fresh_since (emitted s) (seen_pids_ s)) (knobs s) s) as Hi0.
  { split; [exact Hq|]. split; [|reflexivity]. split; [|auto].
    exists []. rewrite app_nil_r. split; [reflexivity|]. split; [constructor|].
    intros pid Hin. inversion Hin. }
  assert (idle_at (fresh_since (emitted s) (seen_pids_ s)) (run_knobs evs (knobs s)) s')
    as Hi.
  { eapply (wp_Ok any_fault (run evs) (fun _ s1 => idle_at _ _ s1)); [|exact Hrun].
    apply run_idle; [apply _| |exact Hk|exact Hi0].
    apply Forall_forall. intros x _. apply ev_ok_any. }
  rewrite <- (idle_emitted _ _ _ Hi), <- (idle_emitted _ _ _ Hi0).
  destruct Hi as (Hq' & [Hnew _] & _). auto.
Qed.

(** C4. Total correctness of a run, and what it does to the knobs: when
    the status files read never overflow the namespace array and are
    well formed, /proc has no directory named -1, and [Tick] is only
    called with a non-zero period, every handler returns, none hits a
    [PERFETTO_CHECK] or undefined behaviour; the run ends with no packet
    open, and the settings, the tick counter, the posted tasks and the
    flush count are those [run_knobs] computes from the events alone. *)
Theorem run_returns cfg evs :
  Forall (ev_ok no_fault (make_settings cfg)) evs ->
  exists s', run evs (init_state (SetT:=SetT) cfg) = Ok tt s' /\
    quiescent s' /\ knobs s' = run_knobs evs (knobs (init_state cfg)).
Proof.
  intros Hok.
  pose proof (run_quiescent no_fault evs (knobs (init_state cfg)) (init_state cfg) Hok
                (init_idle _ cfg I)) as Hwp.
  apply wp_exec in Hwp as ([] & s' & Hrun & Hq & _ & Hk). eauto.
Qed.

(** The invariant of the reachable states, for a property [D] of the
    entries alone and a property [J] of the knobs that every handler
    keeps. *)
Lemma reachable_idle D `{!TreeInv D} (J : Knobs -> Prop) cfg s :
  D [] set_empty -> (forall l seen seen', D l seen -> D l seen') ->
  J (knobs (init_state (SetT:=SetT) cfg)) ->
  (forall e (ev : Event SetT) k,
     k_settings k = make_settings cfg -> J k -> J (next_knobs e ev k)) ->
  reachable cfg s ->
  idle_at D (knobs s) s /\ settings s = make_settings cfg /\ J (knobs s).
Proof.
  intros H0 Hany HJ0 HJ. revert s.
  apply rtc_ind_r; [split; [apply init_idle, H0|split; [reflexivity|exact HJ0]]|].
  intros s1 s2 _ [e ev s1' s2' Hrun] (Hi & Hs & Hj).
  assert (idle_at D (next_knobs e ev (knobs s1')) s2') as Hi2.
  { eapply (wp_Ok any_fault (handle e ev) (fun _ s => idle_at _ _ s)); [|exact Hrun].
    apply handle_steady; [assumption|exact Hany|apply ev_ok_any|exact Hi]. }
  pose proof Hi2 as (_ & _ & Hk). split; [rewrite Hk; exact Hi2|]. split.
  - change (k_settings (knobs s2') = make_settings cfg).
    rewrite Hk, next_knobs_settings. exact Hs.
  - rewrite Hk. apply HJ; assumption.
Qed.

(** A run that returns from a reachable state ends in one. *)
Lemma run_reachable cfg (evs : list (Env * Event SetT)) s s' :
  reachable cfg s -> run evs s = Ok tt s' -> reachable cfg s'.
Proof.
  revert s. induction evs as [|[e ev] evs IH]; intros s Hr Hrun.
  - injection Hrun as <-. exact Hr.
  - unfold run in Hrun. cbn [foreach fst snd] in Hrun. unfold bind in Hrun.
    destruct (handle e ev s) as [[] s1|f] eqn:Hh; [|discriminate Hrun].
    apply (IH s1); [|exact Hrun]. eapply rtc_r; [exact Hr|]. exact (step_handle e ev _ _ Hh).
Qed.

(** What a handler that returns from a reachable state did to the
    knobs. *)
Lemma reachable_step cfg e (ev : Event SetT) s s' :
  reachable cfg s -> handle e ev s = Ok tt s' ->
  settings s = make_settings cfg /\ knobs s' = next_knobs e ev (knobs s).
Proof.
  intros Hr Hrun.
  destruct (reachable_idle (fun _ _ => True) (fun _ => True) cfg s) as (Hi & Hs & _); auto.
  split; [exact Hs|].
  assert (idle_at (fun _ _ => True) (next_knobs e ev (knobs s)) s') as (_ & _ & Hk);
    [|exact Hk].
  eapply (wp_Ok any_fault (handle e ev) (fun _ s1 => idle_at _ _ s1)); [|exact Hrun].
  apply handle_steady; [apply _|auto|apply ev_ok_any|exact Hi].
Qed.

(** [Tick] divides the wall time by the period. *)
Lemma Tick_zero_period e s :
  poll_period_ms_ (settings s) = 0 -> Tick e s = Fault UndefinedBehaviour.
Proof. intros Hp. unfold Tick, bind, get. rewrite Hp. reflexivity. Qed.

(** C2. Between handlers the data source is quiescent: in every state
    reachable from the initial one by handler calls that return, no
    packet is open, the three message pointers are null, and the
    settings are those computed by the constructor. *)
Theorem reachable_quiescent cfg s :
  reachable cfg s -> quiescent s /\ settings s = make_settings cfg.
Proof.
  intros Hr.
  destruct (reachable_idle (fun _ _ => True) (fun _ => True) cfg s) as ((Hq & _) & Hs & _);
    auto.
Qed.

(** C14. [WriteProcess] appends exactly one entry: from a state with
    well-formed pointers, and when the namespace ids of the status file
    can be read, the call returns with the entry of [pid] (its parent,
    uid, namespace ids and command line as read from /proc) appended
    after all entries written before, [pid] inserted in [seen_pids_] and
    mapped to itself in [tids_to_pids_] unless already mapped; the trace
    and the knobs are unchanged. *)
Theorem WriteProcess_appends e pid proc_status nspids s :
  cursor_wf s ->
  ReadNamespacedTids pid proc_status TidArray_zero = inr nspids ->
  wp (WriteProcess e pid proc_status) (fun _ s' =>
    cursor_wf s' /\ emitted s' = emitted s ++ [process_entry e pid proc_status nspids] /\
    seen_pids_ s' = set_insert pid (seen_pids_ s) /\
    tids_to_pids_ s' = emplace pid pid (tids_to_pids_ s) /\
    trace s' = trace s /\ knobs s' = knobs s) s.
Proof.
  intros Hwf Hns. eapply wp_mono.
  { apply WriteProcess_spec; [exact Hwf|]. rewrite Hns. discriminate. }
  cbn beta. intros _ s' (Hwf' & Hk & Htr & _ & Hseen & Htids & nspids' & Hns' & Hem).
  rewrite Hns in Hns'. injection Hns' as <-. auto 10.
Qed.

(** Pids already seen cost nothing: when every requested pid is in
    [seen_pids_] (or is 0), [WriteProcessTree] writes no packet and
    changes neither the trace nor [seen_pids_] nor the settings, the
    tick counter, the posted tasks and the flushes. *)
Theorem WriteProcessTree_skips_seen e pids s :
  quiescent s ->
  (forall pid, In pid (set_elements pids) ->
     set_count pid (seen_pids_ s) = true \/ pid = 0) ->
  wp (WriteProcessTree e pids) (fun _ s' =>
    trace s' = trace s /\ seen_pids_ s' = seen_pids_ s /\ knobs s' = knobs s /\
    quiescent s') s.
Proof.
  intros Hq Hseen. unfold WriteProcessTree. apply wp_bind. eapply wp_mono.
  { apply (wp_foreach_inv no_fault (fun s1 => s1 = s)); [reflexivity|].
    intros pid s0 Hin ->. wp_run; [reflexivity|].
    apply orb_false_iff in Heqb as [Hc Hz]. apply Z.eqb_neq in Hz.
    destruct (Hseen pid Hin); congruence. }
  cbn beta. intros _ s1 ->.
  eapply wp_mono; [apply FinalizeCurPacket_spec|]. cbn beta.
  intros _ s' (Hq' & Ht & _ & _ & _ & Htr).
  split; [apply Htr, Hq|]. split; [apply Ht|]. split; [apply same_tables_knobs, Ht|exact Hq'].
Qed.

(** C37. A scan that cannot open /proc leaves its timestamp behind:
    [WriteAllProcessStats] caches the time of the scan before it opens
    the directory, and returns without a packet, hence without
    [FinalizeCurPacket] clearing the cache, when the directory cannot
    be opened.  The data source is quiescent afterwards and its trace
    and knobs are unchanged, but the packet that is opened next, by
    whatever handler and however much later (the clock of [e']), is
    stamped with the time of the failed scan. *)
Theorem failed_scan_keeps_timestamp e e' s :
  quiescent s -> cur_procfs_scan_start_timestamp_ s = 0 -> OpenProcDir e = None ->
  wrap_u64 (boot_time_ns e (clock_reads s)) <> 0 ->
  wp (WriteAllProcessStats e) (fun _ s1 =>
    quiescent s1 /\ knobs s1 = knobs s /\ trace s1 = trace s /\
    wp (StartNewPacketIfNeeded e') (fun _ s2 =>
      timestamp <$> cur_packet_ s2 = Some (Some (wrap_u64 (boot_time_ns e (clock_reads s)))))
      s1) s.
Proof.
  intros Hq Hts Hdir Hnow. unfold WriteAllProcessStats. rewrite Hdir.
  rewrite wp_bind, wp_CacheProcFsScanStartTimestamp, Hts. cbn zeta. wp_simpl.
  split; [exact Hq|]. split; [reflexivity|]. split; [reflexivity|].
  eapply wp_mono; [apply new_packet_stamped; apply Hq|]. cbn beta.
  intros _ s2 (Hp & _ & Ht). rewrite Hp, Ht. st_simpl.
  destruct (Z.eqb_spec (wrap_u64 (boot_time_ns e (clock_reads s))) 0); [contradiction|].
  reflexivity.
Qed.

(** C40. With a poll period of 0 the data source does not poll, and must
    not: [Start] posts no task, no other handler posts one, so that no
    task is posted in any reachable state; and [Tick], which divides the
    wall time by the period, faults in every reachable state and in
    every environment. *)
Theorem polling_off cfg e s :
  poll_period_ms_ (make_settings cfg) = 0 -> reachable cfg s ->
  posted s = [] /\ Tick e s = Fault UndefinedBehaviour.
Proof.
  intros Hp Hr.
  assert (posted s = [] /\ settings s = make_settings cfg) as [Hposted Hs].
  { revert s Hr. apply rtc_ind_r; [split; reflexivity|].
    intros s1 s2 Hr1 Hstep [Hposted Hs]. destruct Hstep as [e' ev s1 s2 Hrun].
    destruct (reachable_step cfg e' ev s1 s2 Hr1 Hrun) as [_ Hk].
    assert (ev <> EvTick) as Hev.
    { intros ->. cbn [handle] in Hrun. rewrite Tick_zero_period in Hrun by congruence.
      discriminate. }
    pose proof (f_equal k_settings Hk) as Hs2. rewrite next_knobs_settings in Hs2.
    cbn in Hs2. split; [|congruence].
    change (k_posted (knobs s2) = []). rewrite Hk.
    destruct ev; cbn [next_knobs]; try exact Hposted; [|contradiction].
    cbn [knobs k_settings]. rewrite Hs, Hp. exact Hposted. }
  split; [exact Hposted|]. apply Tick_zero_period. congruence.
Qed.

End Run.
