(* ===== verification/TreeView.v ===== *)
(** * The process tree as a function of /proc

    The part of the state that decides which process entries are
    written is small: the entries written so far, [seen_pids_] and
    [skip_stats_for_pids_].  [TreeView] holds the three; [view_delta],
    [view_tree], [view_all_processes] and [view_all_stats] compute what
    [WriteProcessOrThread], [WriteProcessTree], [WriteAllProcesses] and
    [WriteAllProcessStats] do to them from a snapshot of /proc, and
    [abs_handle] what each handler does.  [viewing cfg v] is the
    invariant the lemmas compose: the state has well-formed pointers,
    settings [cfg] and view [v].  The theorems show that every run of the data source
    implements [abs_run], and that [OnRenamePids] erases exactly the ids
    it is given. *)

From Stdlib Require Import ZArith List Ascii String Lia.
From stdpp Require Import base option list gmap.
From S2P Require Import Prelude CxxString FlatSet TraceProto ProcFs StatusParse.
From S2P Require Import ProcessStats PacketCursor Handlers.

#[local] Open Scope Z_scope.
#[local] Open Scope m_scope.

Section Views.
Context {SetT : Type} `{IntSet SetT}.
Implicit Types (s : State SetT) (e : Env) (F : fault -> Prop).

(** The namespace ids read for an entry; the array stays zeroed when
    the read fails. *)
Definition nspids_of (pid : Z) (proc_status : bytes) : list Z :=
  match ReadNamespacedTids pid proc_status TidArray_zero with
  | inr nspids => nspids
  | inl _ => TidArray_zero
  end.

Record TreeView : Type := mkTreeView {
  tv_entries : list TreeProcess;
  tv_seen : SetT;
  tv_skip : list bool
}.

(** The view of a state between handlers, and while a handler runs. *)
Definition tree_view s : TreeView :=
  mkTreeView (trace_processes (trace s)) (seen_pids_ s) (skip_stats_for_pids_ s).

Definition cur_view s : TreeView :=
  mkTreeView (emitted s) (seen_pids_ s) (skip_stats_for_pids_ s).

(** While a handler runs: well-formed pointers, the settings [cfg] and
    the view [v]; between handlers: no packet open. *)
Definition viewing (cfg : Settings) (v : TreeView) s : Prop :=
  cursor_wf s /\ settings s = cfg /\ cur_view s = v.

Definition resting (cfg : Settings) (v : TreeView) s : Prop :=
  quiescent s /\ settings s = cfg /\ tree_view s = v.

(** ** The tree writers *)

Definition view_process e (pid : Z) (proc_status : bytes) (v : TreeView) : TreeView :=
  mkTreeView (tv_entries v ++ [process_entry e pid proc_status (nspids_of pid proc_status)])
             (set_insert pid (tv_seen v)) (tv_skip v).

Definition view_thread (tid : Z) (v : TreeView) : TreeView :=
  mkTreeView (tv_entries v) (set_insert tid (tv_seen v)) (tv_skip v).

(** [WriteProcessOrThread]. *)
Definition view_delta e (v : TreeView) (pid : Z) : TreeView :=
  let proc_status := ReadProcPidFile e pid (lit "status") in
  let tgid := ToInt (ReadProcStatusEntry proc_status (lit "Tgid:")) in
  let tid := ToInt (ReadProcStatusEntry proc_status (lit "Pid:")) in
  if bool_decide (proc_status = []) || (tgid <=? 0) || (tid <=? 0) then v
  else
    let v1 :=
      if set_count tgid (tv_seen v) then v
      else view_process e tgid
             (if tgid =? tid then proc_status else ReadProcPidFile e tgid (lit "status")) v in
    if pid =? tgid then v1 else view_thread pid v1.

(** The loop of [WriteProcessTree]. *)
Definition view_tree_step e (v : TreeView) (pid : Z) : TreeView :=
  if set_count pid (tv_seen v) || (pid =? 0) then v else view_delta e v pid.

Definition view_tree e (pids : list Z) (v : TreeView) : TreeView :=
  fold_left (view_tree_step e) pids v.

(** The loops of [WriteAllProcesses] over /proc/<pid>/task and over
    /proc. *)
Definition view_task e (record_thread_names : bool) (pid : Z) (v : TreeView) (tid : Z) :
    TreeView :=
  if tid =? pid then v
  else if record_thread_names then view_delta e v tid else view_thread tid v.

Definition view_proc e (record_thread_names : bool) (v : TreeView) (pid : Z) : TreeView :=
  let v1 := view_delta e v pid in
  match task_dir (fs e) pid with
  | None => v1
  | Some dirp => fold_left (view_task e record_thread_names pid) (numeric_dirs dirp) v1
  end.

Definition view_all_processes e (record_thread_names : bool) (v : TreeView) : TreeView :=
  match OpenProcDir e with
  | None => v
  | Some proc_dir => fold_left (view_proc e record_thread_names) (numeric_dirs proc_dir) v
  end.

(** ** The scan of [WriteAllProcessStats] *)

(** Whether [WriteMemCounters] reports memory counters: some line of the
    file has the key [VmSize]. *)
Definition is_VmSize (kv : bytes * bytes) : bool :=
  bool_decide (counter_of_key (fst kv) = Some VmSize).

Definition has_mem_counters (proc_status : bytes) : bool :=
  existsb is_VmSize (mem_lines proc_status).

(** One character of the scan of [WriteMemCounters]: the parser and
    [proc_status_has_mem_counters]. *)
Definition mem_acc_step (acc : MemParser * bool) (c : ascii) : MemParser * bool :=
  (mem_step (fst acc) c,
   if Ascii.eqb c LF then is_VmSize (mem_line (fst acc)) || snd acc else snd acc).

Definition skip_bit (skip : list bool) (pid_u : Z) : bool :=
  if pid_u <? Z.of_nat (length skip) then default false (skip !! Z.to_nat pid_u)
  else false.

Definition set_skip (skip : list bool) (pid_u : Z) : list bool :=
  let v := if Z.of_nat (length skip) <=? pid_u
           then resize (Z.to_nat (wrap_u32 (pid_u + 1))) skip else skip in
  <[Z.to_nat pid_u := true]> v.

(** One pid of the scan: the pids to describe afterwards and the skip
    vector. *)
Definition stats_step e (acc : SetT * list bool) (pid : Z) : SetT * list bool :=
  let pid_u := wrap_u32 pid in
  if skip_bit (snd acc) pid_u then acc
  else
    match ReadProcPidFile e pid (lit "status") with
    | [] => acc
    | proc_status =>
        if has_mem_counters proc_status then (set_insert pid (fst acc), snd acc)
        else (fst acc, set_skip (snd acc) pid_u)
    end.

Definition view_all_stats e (v : TreeView) : TreeView :=
  match OpenProcDir e with
  | None => v
  | Some proc_dir =>
      let r := fold_left (stats_step e) (numeric_dirs proc_dir) (set_empty, tv_skip v) in
      view_tree e (set_elements (fst r)) (mkTreeView (tv_entries v) (tv_seen v) (snd r))
  end.

(** ** The handlers *)

Definition erase_all (pids : list Z) (seen : SetT) : SetT :=
  fold_left (fun acc pid => set_erase pid acc) pids seen.

Definition abs_handle (cfg : Settings) e (ev : Event SetT) (v : TreeView) : TreeView :=
  match ev with
  | EvStart =>
      if dump_all_procs_on_start_ cfg
      then view_all_processes e (record_thread_names_ cfg) v else v
  | EvTick => view_all_stats e v
  | EvOnPids pids =>
      if enable_on_demand_dumps_ cfg then view_tree e (set_elements pids) v else v
  | EvOnRenamePids pids =>
      if enable_on_demand_dumps_ cfg
      then mkTreeView (tv_entries v) (erase_all (set_elements pids) (tv_seen v)) (tv_skip v)
      else v
  | EvOnFds _ | EvFlush => v
  | EvClearIncrementalState => mkTreeView (tv_entries v) set_empty []
  end.

Definition abs_run (cfg : Settings) (evs : list (Env * Event SetT)) (v : TreeView) : TreeView :=
  fold_left (fun v x => abs_handle cfg (fst x) (snd x) v) evs v.

(** * Lemmas *)

(** ** Views and frames *)

Lemma viewing_frame cfg v s s' :
  packet_frame s s' -> viewing cfg v s -> viewing cfg v s'.
Proof.
  intros Hfr (_ & Hk & Hv). pose proof (packet_frame_emitted _ _ Hfr) as Hem.
  destruct Hfr as (Ht & _ & Hwf & _). split; [exact Hwf|].
  split; [rewrite (proj1 Ht); exact Hk|].
  rewrite <- Hv. unfold cur_view. rewrite Hem.
  destruct Ht as (_ & -> & _ & -> & _). reflexivity.
Qed.

Lemma viewing_cursor cfg v s s' :
  same_tables s s' -> same_cursor s s' -> trace s' = trace s ->
  viewing cfg v s -> viewing cfg v s'.
Proof.
  intros Ht Hc Htr (Hwf & Hk & Hv). split; [eapply same_cursor_wf; eassumption|].
  split; [rewrite (proj1 Ht); exact Hk|].
  rewrite <- Hv. unfold cur_view. rewrite (same_emitted _ _ Htr (proj1 Hc)).
  destruct Ht as (_ & -> & _ & -> & _). reflexivity.
Qed.

(** Between handlers the two views agree. *)
Lemma cur_view_quiescent s : quiescent s -> cur_view s = tree_view s.
Proof. intros Hq. unfold cur_view. rewrite (quiescent_emitted _ Hq). reflexivity. Qed.

(** ** The tree writers *)

Lemma CacheProcFsScanStartTimestamp_view F e cfg v :
  preserves F (viewing cfg v) (CacheProcFsScanStartTimestamp e).
Proof.
  intros s Hv. eapply wp_mono; [apply CacheProcFsScanStartTimestamp_spec|]. cbn beta.
  intros _ s' (Ht & Hc & _ & Htr & _). eapply viewing_cursor; eassumption.
Qed.

Lemma WriteProcess_view F e pid proc_status cfg v s :
  viewing cfg v s ->
  (forall f, ReadNamespacedTids pid proc_status TidArray_zero = inl f -> F f) ->
  wpf F (WriteProcess e pid proc_status) (fun _ s' =>
    viewing cfg (view_process e pid proc_status v) s') s.
Proof.
  intros (Hwf & Hk & Hv) HF. eapply wp_mono; [apply WriteProcess_spec; assumption|].
  cbn beta. intros _ s' (Hwf' & Hk' & _ & Hskip & Hseen & _ & nspids & Hns & Hem).
  split; [exact Hwf'|]. split; [rewrite <- Hk; exact (f_equal k_settings Hk')|].
  unfold cur_view, view_process, nspids_of. rewrite Hns, Hem, Hseen, Hskip, <- Hv.
  reflexivity.
Qed.

Lemma WriteThread_view F e tid tgid name proc_status cfg v s :
  viewing cfg v s ->
  (forall f, ReadNamespacedTids tid proc_status TidArray_zero = inl f -> F f) ->
  wpf F (WriteThread e tid tgid name proc_status) (fun _ s' =>
    viewing cfg (view_thread tid v) s') s.
Proof.
  intros (Hwf & Hk & Hv) HF. eapply wp_mono; [apply WriteThread_spec; assumption|].
  cbn beta. intros _ s' (Hwf' & Hk' & _ & Hskip & Hseen & Hem).
  split; [exact Hwf'|]. split; [rewrite <- Hk; exact (f_equal k_settings Hk')|].
  unfold cur_view, view_thread. rewrite Hem, Hseen, Hskip, <- Hv. reflexivity.
Qed.

(** The second half of [WriteProcessOrThread]: the thread entry. *)
Lemma thread_part_view F e pid tgid proc_status cfg v s :
  viewing cfg v s ->
  (forall f, ReadNamespacedTids pid proc_status TidArray_zero = inl f -> F f) ->
  wpf F (if negb (pid =? tgid) then
           s <- get ;;
           let thread_name :=
             if record_thread_names_ (settings s)
             then ReadProcStatusEntry proc_status (lit "Name:")
             else [] in
           WriteThread e pid tgid
             (match thread_name with [] => None | _ => Some (c_str thread_name) end)
             proc_status
         else ret tt)
    (fun _ s' => viewing cfg (if pid =? tgid then v else view_thread pid v) s') s.
Proof.
  intros Hv HF. destruct (pid =? tgid); cbn [negb]; [exact Hv|].
  rewrite wp_bind, wp_get. apply WriteThread_view; assumption.
Qed.

Lemma WriteProcessOrThread_view F e pid cfg v s :
  viewing cfg v s -> nstids_ok F e ->
  wpf F (WriteProcessOrThread e pid) (fun _ s' => viewing cfg (view_delta e v pid) s') s.
Proof.
  intros Hv Hok. unfold WriteProcessOrThread, view_delta.
  wp_step CacheProcFsScanStartTimestamp_view; [exact Hv|]. clear s Hv. rename H0 into Hv.
  destruct (ReadProcPidFile e pid (lit "status")) as [|b st] eqn:E; [exact Hv|].
  rewrite <- E. rewrite bool_decide_eq_false_2 by (rewrite E; discriminate). cbn [orb].
  destruct (_ || _) eqn:Hg; [exact Hv|].
  rewrite wp_bind, wp_get, wp_bind.
  replace (seen_pids_ s') with (tv_seen v) by (destruct Hv as (_ & _ & <-); reflexivity).
  destruct (set_count _ (tv_seen v)) eqn:Hc; cbn [negb].
  - rewrite wp_ret. apply thread_part_view; [exact Hv|apply Hok].
  - eapply wp_mono.
    { apply WriteProcess_view; [exact Hv|]. destruct (_ =? _); apply Hok. }
    cbn beta. intros _ s2 Hv2. apply thread_part_view; [exact Hv2|apply Hok].
Qed.

Lemma tree_loop_view F e (pids : list Z) cfg v s :
  viewing cfg v s -> nstids_ok F e ->
  wpf F (foreach pids (fun pid =>
           s <- get ;;
           if set_count pid (seen_pids_ s) || (pid =? 0) then ret tt
           else WriteProcessOrThread e pid))
    (fun _ s' => viewing cfg (view_tree e pids v) s') s.
Proof.
  intros Hv Hok. revert v s Hv. apply wp_foreach_fold.
  intros pid v s _ Hv. rewrite wp_bind, wp_get. unfold view_tree_step.
  replace (seen_pids_ s) with (tv_seen v) by (destruct Hv as (_ & _ & <-); reflexivity).
  destruct (_ || _); [exact Hv|]. apply WriteProcessOrThread_view; assumption.
Qed.

Lemma resting_viewing cfg v s : resting cfg v s -> viewing cfg v s.
Proof.
  intros (Hq & Hs & Hv). split; [apply quiescent_cursor_wf, Hq|].
  split; [exact Hs|]. rewrite (cur_view_quiescent _ Hq). exact Hv.
Qed.

Lemma FinalizeCurPacket_view F e cfg v s :
  viewing cfg v s -> wpf F (FinalizeCurPacket e) (fun _ s' => resting cfg v s') s.
Proof.
  intros (_ & Hk & Hv). eapply wp_mono; [apply FinalizeCurPacket_spec|]. cbn beta.
  intros _ s' (Hq & Ht & _ & Hem & _). split; [exact Hq|].
  split; [rewrite (proj1 Ht); exact Hk|].
  rewrite <- (cur_view_quiescent _ Hq), <- Hv. unfold cur_view. rewrite Hem.
  destruct Ht as (_ & -> & _ & -> & _). reflexivity.
Qed.

Lemma WriteProcessTree_view F e pids cfg v s :
  viewing cfg v s -> nstids_ok F e ->
  wpf F (WriteProcessTree e pids) (fun _ s' =>
    resting cfg (view_tree e (set_elements pids) v) s') s.
Proof.
  intros Hv Hok. unfold WriteProcessTree. apply wp_bind.
  eapply wp_mono; [apply tree_loop_view; eassumption|]. cbn beta.
  intros _ s1 Hv1. apply FinalizeCurPacket_view, Hv1.
Qed.

(** ** The stats writers leave the view alone *)

Lemma cache_entry_view F pid cfg v : preserves F (viewing cfg v) (cache_entry pid).
Proof. intros s Hv. unfold cache_entry. wp_run; exact Hv. Qed.

Lemma GetOrCreateStatsProcess_view F e pid cfg v :
  preserves F (viewing cfg v) (GetOrCreateStatsProcess e pid).
Proof.
  intros s Hv. eapply wp_mono; [apply GetOrCreateStatsProcess_spec, Hv|]. cbn beta.
  intros ij s' (Hfr & _). eapply viewing_frame; eassumption.
Qed.

Lemma alter_stats_process_view f i j cfg v s :
  viewing cfg v s -> viewing cfg v (upd_packet (alter_stats_process f i j) s).
Proof.
  intros Hv. eapply viewing_frame; [apply alter_stats_process_frame, Hv|exact Hv].
Qed.

Lemma upd_cache_view pid f cfg v s : viewing cfg v s -> viewing cfg v (upd_cache pid f s).
Proof. exact id. Qed.

Lemma reset_process_view cfg v s :
  viewing cfg v s -> viewing cfg v (with_cur_ps_stats_process_ None s).
Proof.
  intros (Hwf & Hkv). split; [|exact Hkv].
  apply (reset_process_good (fun _ _ => True) (knobs s) s). repeat split. exact Hwf.
Qed.

#[local] Hint Resolve cache_entry_view GetOrCreateStatsProcess_view
  alter_stats_process_view upd_cache_view reset_process_view : pres.

Lemma write_counter_view F e pid c value cfg v :
  preserves F (viewing cfg v) (write_counter e pid c value).
Proof. unfold write_counter. pres. Qed.

Lemma write_oom_score_adj_view F e pid cfg v :
  preserves F (viewing cfg v) (write_oom_score_adj e pid).
Proof. unfold write_oom_score_adj. pres. Qed.

Lemma WriteSingleFd_view F e tid fd cfg v :
  preserves F (viewing cfg v) (WriteSingleFd e tid fd).
Proof. unfold WriteSingleFd. pres. Qed.

#[local] Hint Resolve write_counter_view write_oom_score_adj_view WriteSingleFd_view : pres.

Lemma WriteFds_view F e pid cfg v : preserves F (viewing cfg v) (WriteFds e pid).
Proof. unfold WriteFds. pres. Qed.

(** ** WriteMemCounters and the skip vector *)

Lemma mem_char_step_view F e pid acc c cfg v s :
  viewing cfg v s ->
  wpf F (mem_char_step e pid acc c) (fun acc' s' =>
    viewing cfg v s' /\ acc' = mem_acc_step acc c) s.
Proof.
  intros Hv. unfold mem_char_step, mem_acc_step, mem_newline, is_VmSize.
  destruct (Ascii.eqb c LF); [|wp_simpl; auto].
  destruct (counter_of_key _) as [c0|]; [|wp_simpl; auto].
  rewrite !wp_bind. eapply wp_mono; [apply write_counter_view, Hv|]. cbn beta.
  intros _ s' Hv'. wp_simpl. split; [exact Hv'|]. do 2 f_equal.
  destruct (bool_decide_reflect (c0 = VmSize)) as [->|Hne].
  - rewrite bool_decide_eq_true_2 by reflexivity. reflexivity.
  - rewrite bool_decide_eq_false_2 by congruence. reflexivity.
Qed.

Lemma fold_mem_acc l st has :
  fold_left mem_acc_step l (st, has) =
  (fold_left mem_step l st, existsb is_VmSize (mem_lines_from st l) || has).
Proof.
  revert st has. induction l as [|c l IH]; intros st has; [reflexivity|].
  cbn [fold_left mem_lines_from]. unfold mem_acc_step at 2. cbn [fst snd]. rewrite IH.
  destruct (Ascii.eqb c LF); cbn [existsb]; [|reflexivity].
  f_equal. destruct (is_VmSize _), (existsb _ _), has; reflexivity.
Qed.

Lemma WriteMemCounters_view F e pid proc_status cfg v s :
  viewing cfg v s ->
  wpf F (WriteMemCounters e pid proc_status) (fun ok s' =>
    viewing cfg v s' /\ ok = has_mem_counters proc_status) s.
Proof.
  intros Hv. unfold WriteMemCounters. apply wp_bind.
  eapply wp_mono; [apply cache_entry_view, Hv|]. cbn beta. intros _ s1 Hv1.
  apply wp_bind. eapply wp_mono.
  { apply (wp_foldM_fold F (fun a a' s' => viewing cfg v s' /\ a = a') mem_acc_step).
    - intros a c a' s0 _ [Hv0 <-]. apply mem_char_step_view, Hv0.
    - split; [exact Hv1|reflexivity]. }
  cbn beta. intros r s2 [Hv2 ->]. wp_simpl. split; [exact Hv2|].
  rewrite fold_mem_acc. cbn [snd]. apply orb_false_r.
Qed.

Lemma mark_skip_view F pid_u cfg v s :
  F UndefinedBehaviour \/ 0 <= pid_u < UINT32_MAX ->
  viewing cfg v s ->
  wpf F (mark_skip pid_u) (fun _ s' =>
    viewing cfg (mkTreeView (tv_entries v) (tv_seen v) (set_skip (tv_skip v) pid_u)) s') s.
Proof.
  intros HF (Hwf & Hs & <-). unfold mark_skip. wp_run.
  - split; [exact Hwf|]. split; [exact Hs|]. reflexivity.
  - destruct HF as [HF|Hpid]; [exact HF|]. exfalso.
    apply Z.ltb_ge in Heqb.
    destruct (Z.leb_spec (Z.of_nat (length (skip_stats_for_pids_ s))) pid_u); [|lia].
    rewrite length_resize, wrap_u32_small in Heqb by (unfold is_u32, UINT32_MAX in *; lia).
    lia.
Qed.

(** One pid of the scan of [WriteAllProcessStats]. *)
Lemma stats_body_view F e pids pid cfg v s :
  F UndefinedBehaviour \/ (is_i32 pid /\ pid <> -1) ->
  viewing cfg v s ->
  wpf F (stats_body e pids pid) (fun pids' s' =>
    pids' = fst (stats_step e (pids, tv_skip v) pid) /\
    viewing cfg (mkTreeView (tv_entries v) (tv_seen v)
                            (snd (stats_step e (pids, tv_skip v) pid))) s') s.
Proof.
  intros HF Hv. unfold stats_body, stats_step, skip_bit. cbn [fst snd].
  rewrite wp_bind, wp_modify, wp_bind, wp_get.
  apply reset_process_view in Hv. set (s1 := with_cur_ps_stats_process_ None s) in *.
  replace (skip_stats_for_pids_ s1) with (tv_skip v) by (destruct Hv as (_ & _ & <-); reflexivity).
  assert (viewing cfg (mkTreeView (tv_entries v) (tv_seen v) (tv_skip v)) s1) as Hv'
    by (destruct v; exact Hv).
  destruct (if _ <? _ then _ else _); [wp_simpl; auto|].
  destruct (ReadProcPidFile e pid (lit "status")) as [|b st] eqn:E; [wp_simpl; auto|].
  rewrite <- E. rewrite wp_bind.
  eapply wp_mono; [apply WriteMemCounters_view, Hv|]. cbn beta. intros ok s2 [Hv2 ->].
  destruct (has_mem_counters _); cbn [negb fst snd].
  - rewrite !wp_bind. eapply wp_mono; [apply write_oom_score_adj_view, Hv2|]. cbn beta.
    intros _ s3 Hv3. rewrite wp_bind. eapply wp_mono; [apply WriteFds_view, Hv3|]. cbn beta.
    intros _ s4 Hv4. wp_simpl. split; [reflexivity|destruct v; exact Hv4].
  - rewrite wp_bind. eapply wp_mono; [apply mark_skip_view; [|exact Hv2]|].
    + destruct HF as [HF|[Hr Hne]]; [left; exact HF|right]. apply wrap_u32_pid; assumption.
    + cbn beta. intros _ s3 Hv3. wp_simpl. split; [reflexivity|exact Hv3].
Qed.

(** The skip vector never grows past [UINT32_MAX] bits: its new
    length is computed in 32 bits. *)
Lemma stats_step_length e (acc : SetT * list bool) pid :
  Z.of_nat (length (snd acc)) <= UINT32_MAX ->
  Z.of_nat (length (snd (stats_step e acc pid))) <= UINT32_MAX.
Proof.
  intros Hlen. unfold stats_step, set_skip.
  destruct (skip_bit _ _); [exact Hlen|].
  destruct (ReadProcPidFile _ _ _); [exact Hlen|].
  destruct (has_mem_counters _); cbn [fst snd]; [exact Hlen|].
  rewrite length_insert. destruct (_ <=? _); [|exact Hlen].
  rewrite length_resize. pose proof (wrap_u32_range (wrap_u32 pid + 1)).
  unfold is_u32, UINT32_MAX in *. lia.
Qed.

(** The tree writers leave the skip vector alone. *)
Lemma view_delta_skip e (v : TreeView) pid : tv_skip (view_delta e v pid) = tv_skip v.
Proof.
  unfold view_delta. cbn zeta. destruct (_ || _); [reflexivity|].
  destruct (set_count _ _), (pid =? _); reflexivity.
Qed.

Lemma view_tree_skip e pids (v : TreeView) : tv_skip (view_tree e pids v) = tv_skip v.
Proof.
  apply (fold_left_preserves (fun v' => tv_skip v' = tv_skip v)); [|reflexivity].
  intros v' pid <-. unfold view_tree_step. destruct (_ || _); [reflexivity|apply view_delta_skip].
Qed.

Lemma view_all_processes_skip e b (v : TreeView) :
  tv_skip (view_all_processes e b v) = tv_skip v.
Proof.
  unfold view_all_processes. destruct (OpenProcDir e); [|reflexivity].
  apply (fold_left_preserves (fun v' => tv_skip v' = tv_skip v)); [|reflexivity].
  intros v' pid <-. unfold view_proc. cbn zeta.
  destruct (task_dir _ _); [|apply view_delta_skip].
  apply (fold_left_preserves (fun v1 => tv_skip v1 = tv_skip v')); [|apply view_delta_skip].
  intros v1 tid <-. unfold view_task. destruct (tid =? pid); [reflexivity|].
  destruct b; [apply view_delta_skip|reflexivity].
Qed.

Lemma abs_handle_skip_length cfg e ev (v : TreeView) :
  Z.of_nat (length (tv_skip v)) <= UINT32_MAX ->
  Z.of_nat (length (tv_skip (abs_handle cfg e ev v))) <= UINT32_MAX.
Proof.
  intros Hlen. destruct ev; cbn [abs_handle]; try exact Hlen.
  - destruct (dump_all_procs_on_start_ cfg); [|exact Hlen].
    rewrite view_all_processes_skip. exact Hlen.
  - unfold view_all_stats. destruct (OpenProcDir e); [|exact Hlen].
    cbn zeta. rewrite view_tree_skip. cbn [tv_skip].
    apply (fold_left_preserves (fun acc => Z.of_nat (length (snd acc)) <= UINT32_MAX));
      [|exact Hlen].
    intros acc pid. apply stats_step_length.
  - destruct (enable_on_demand_dumps_ cfg); [|exact Hlen]. rewrite view_tree_skip. exact Hlen.
  - destruct (enable_on_demand_dumps_ cfg); exact Hlen.
  - cbn. unfold UINT32_MAX. lia.
Qed.

(** For the pid -1, [pid_u + 1] wraps to 0: the vector is resized to
    nothing and the write is out of its bounds. *)
Lemma mark_skip_overflow F s (Q : unit -> State SetT -> Prop) :
  F UndefinedBehaviour ->
  Z.of_nat (length (skip_stats_for_pids_ s)) <= UINT32_MAX ->
  wpf F (mark_skip UINT32_MAX) Q s.
Proof.
  intros HF Hlen. unfold mark_skip. rewrite wp_bind, wp_get.
  destruct (Z.leb_spec (Z.of_nat (length (skip_stats_for_pids_ s))) UINT32_MAX); [|lia].
  cbn zeta. rewrite length_resize. exact HF.
Qed.

Lemma stats_body_overflow F e pids cfg v s (Q : SetT -> State SetT -> Prop) :
  F UndefinedBehaviour -> viewing cfg v s ->
  Z.of_nat (length (tv_skip v)) <= UINT32_MAX ->
  ReadProcPidFile e (-1) (lit "status") <> [] ->
  has_mem_counters (ReadProcPidFile e (-1) (lit "status")) = false ->
  wpf F (stats_body e pids (-1)) Q s.
Proof.
  intros HF Hv Hlen Hst Hmem. unfold stats_body.
  rewrite wp_bind, wp_modify, wp_bind, wp_get.
  apply reset_process_view in Hv. set (s1 := with_cur_ps_stats_process_ None s) in *.
  assert (skip_stats_for_pids_ s1 = tv_skip v) as Hskip
    by (destruct Hv as (_ & _ & <-); reflexivity).
  change (wrap_u32 (-1)) with UINT32_MAX. rewrite Hskip.
  destruct (Z.ltb_spec UINT32_MAX (Z.of_nat (length (tv_skip v)))); [lia|].
  destruct (ReadProcPidFile e (-1) (lit "status")) as [|b st] eqn:E; [contradiction|].
  rewrite wp_bind. eapply wp_mono; [apply WriteMemCounters_view, Hv|]. cbn beta.
  intros ok s2 [Hv2 ->]. rewrite Hmem. cbn [negb]. rewrite wp_bind.
  apply mark_skip_overflow; [exact HF|].
  destruct Hv2 as (_ & _ & <-). exact Hlen.
Qed.

(** ** The handlers *)

Lemma CacheProcFsScanStartTimestamp_resting F e cfg v :
  preserves F (resting cfg v) (CacheProcFsScanStartTimestamp e).
Proof.
  intros s (Hq & Hs & Hv). eapply wp_mono; [apply CacheProcFsScanStartTimestamp_spec|].
  cbn beta. intros _ s' (Ht & Hc & Hp & Htr & _).
  split; [unfold same_cursor, quiescent in *; intuition congruence|].
  split; [rewrite (proj1 Ht); exact Hs|]. rewrite <- Hv. unfold tree_view. rewrite Htr.
  destruct Ht as (_ & -> & _ & -> & _). reflexivity.
Qed.

Lemma WriteAllProcessStats_view F e cfg v s :
  env_ok F e -> resting cfg v s ->
  wpf F (WriteAllProcessStats e) (fun _ s' => resting cfg (view_all_stats e v) s') s.
Proof.
  intros [Hok Hpid] Hr. unfold WriteAllProcessStats, view_all_stats. apply wp_bind.
  eapply wp_mono; [apply CacheProcFsScanStartTimestamp_resting, Hr|]. cbn beta.
  intros _ s1 Hr1. destruct (OpenProcDir e) as [proc_dir|] eqn:Hdir; [|exact Hr1].
  apply wp_bind, wp_scan_dir. eapply wp_mono.
  { apply (wp_foldM_fold F (fun pids acc s' =>
             pids = fst acc /\
             viewing cfg (mkTreeView (tv_entries v) (tv_seen v) (snd acc)) s') (stats_step e))
        with (v := (set_empty, tv_skip v)).
    - intros pids pid [pids0 skip] s0 Hin [-> Hv0]. cbn [fst snd] in *.
      eapply wp_mono; [apply stats_body_view; [|exact Hv0]|intros ? ? [? ?]; split; assumption].
      destruct Hpid as [HF|Hpid]; [left; exact HF|right]. split.
      + eapply Forall_forall; [apply numeric_dirs_i32|exact Hin].
      + intros ->. exact (Hpid _ eq_refl Hin).
    - split; [reflexivity|]. destruct v. apply resting_viewing, Hr1. }
  cbn beta. intros pids s2 [-> Hv2]. apply wp_bind.
  eapply wp_mono; [apply FinalizeCurPacket_view, Hv2|]. cbn beta. intros _ s3 Hr3.
  apply WriteProcessTree_view; [apply resting_viewing, Hr3|exact Hok].
Qed.

Lemma Tick_view F e cfg v s :
  env_ok F e -> F UndefinedBehaviour \/ poll_period_ms_ cfg <> 0 ->
  resting cfg v s ->
  wpf F (Tick e) (fun _ s' => resting cfg (view_all_stats e v) s') s.
Proof.
  intros Hok Hperiod Hr. unfold Tick, PostTask. wp_run.
  - destruct Hperiod as [HF|Hne]; [exact HF|].
    destruct Hr as (_ & <- & _). apply Z.eqb_eq in Heqb. contradiction.
  - eapply wp_mono; [apply WriteAllProcessStats_view; [exact Hok|exact Hr]|].
    cbn beta. intros _ s1 Hr1. wp_run. destruct (tick_cache _ _) as [ticks []]; exact Hr1.
Qed.

Lemma task_body_view F e pid tid cfg v s :
  nstids_ok F e -> viewing cfg v s ->
  wpf F (task_body e pid tt tid) (fun _ s' =>
    viewing cfg (view_task e (record_thread_names_ cfg) pid v tid) s') s.
Proof.
  intros Hok Hv. unfold task_body, view_task. destruct (tid =? pid); [exact Hv|].
  rewrite wp_bind, wp_get. rewrite (proj1 (proj2 Hv)).
  destruct (record_thread_names_ cfg).
  - apply WriteProcessOrThread_view; assumption.
  - apply WriteThread_view; [exact Hv|apply Hok].
Qed.

Lemma proc_body_view F e pid cfg v s :
  nstids_ok F e -> viewing cfg v s ->
  wpf F (proc_body e tt pid) (fun _ s' =>
    viewing cfg (view_proc e (record_thread_names_ cfg) v pid) s') s.
Proof.
  intros Hok Hv. unfold proc_body, view_proc. apply wp_bind.
  eapply wp_mono; [apply WriteProcessOrThread_view; eassumption|]. cbn beta.
  intros _ s1 Hv1. destruct (task_dir (fs e) pid) as [dirp|]; [|exact Hv1].
  apply wp_scan_dir.
  apply (wp_foldM_fold F (fun _ v' s' => viewing cfg v' s')
           (view_task e (record_thread_names_ cfg) pid)); [|exact Hv1].
  intros [] tid v0 s0 _ Hv0. apply task_body_view; assumption.
Qed.

Lemma WriteAllProcesses_view F e cfg v s :
  nstids_ok F e -> resting cfg v s ->
  wpf F (WriteAllProcesses e) (fun _ s' =>
    resting cfg (view_all_processes e (record_thread_names_ cfg) v) s') s.
Proof.
  intros Hok Hr. unfold WriteAllProcesses, view_all_processes. apply wp_bind.
  eapply wp_mono; [apply CacheProcFsScanStartTimestamp_resting, Hr|]. cbn beta.
  intros _ s1 Hr1. destruct (OpenProcDir e) as [proc_dir|]; [|exact Hr1].
  apply wp_bind, wp_scan_dir. eapply wp_mono.
  { apply (wp_foldM_fold F (fun _ v' s' => viewing cfg v' s')
             (view_proc e (record_thread_names_ cfg))); [|apply resting_viewing, Hr1].
    intros [] pid v0 s0 _ Hv0. apply proc_body_view; assumption. }
  cbn beta. intros _ s2 Hv2. apply wp_bind.
  eapply wp_mono; [apply FinalizeCurPacket_view, Hv2|]. cbn beta. intros _ s3 Hr3.
  rewrite wp_bind, wp_get. apply wp_bind. eapply wp_mono.
  { refine (preserves_foreach F _ _ _ _ s3 (resting_viewing _ _ _ Hr3)).
    intros pid. apply WriteFds_view. }
  cbn beta. intros _ s4 Hv4. apply FinalizeCurPacket_view, Hv4.
Qed.

Lemma Start_view F e cfg v s :
  nstids_ok F e -> resting cfg v s ->
  wpf F (Start e) (fun _ s' => resting cfg (abs_handle cfg e EvStart v) s') s.
Proof.
  intros Hok Hr. unfold Start, PostTask. cbn [abs_handle].
  rewrite wp_bind, wp_get, (proj1 (proj2 Hr)), wp_bind.
  destruct (dump_all_procs_on_start_ cfg).
  - eapply wp_mono; [apply WriteAllProcesses_view; eassumption|]. cbn beta.
    intros _ s1 Hr1. destruct (negb _); exact Hr1.
  - rewrite wp_ret. destruct (negb _); exact Hr.
Qed.

Lemma OnPids_view F e pids cfg v s :
  nstids_ok F e -> resting cfg v s ->
  wpf F (OnPids e pids) (fun _ s' => resting cfg (abs_handle cfg e (EvOnPids pids) v) s') s.
Proof.
  intros Hok Hr. unfold OnPids. cbn [abs_handle].
  rewrite wp_bind, wp_get, (proj1 (proj2 Hr)).
  destruct (enable_on_demand_dumps_ cfg); cbn [negb]; [|exact Hr].
  apply WriteProcessTree_view; [apply resting_viewing, Hr|exact Hok].
Qed.

Lemma foreach_erase F (l : list Z) s :
  wpf F (foreach l (fun pid =>
           modify (fun s => with_seen_pids_ (set_erase pid (seen_pids_ s)) s)))
    (fun _ s' => s' = with_seen_pids_ (erase_all l (seen_pids_ s)) s) s.
Proof.
  revert s. induction l as [|y l IH]; intros s; [destruct s; reflexivity|].
  apply wp_foreach_cons. rewrite wp_modify. eapply wp_mono; [apply IH|].
  cbn beta. intros _ s' ->. destruct s; reflexivity.
Qed.

Lemma OnRenamePids_view F e pids cfg v s :
  resting cfg v s ->
  wpf F (OnRenamePids pids) (fun _ s' =>
    resting cfg (abs_handle cfg e (EvOnRenamePids pids) v) s') s.
Proof.
  intros Hr. unfold OnRenamePids. cbn [abs_handle].
  rewrite wp_bind, wp_get, (proj1 (proj2 Hr)).
  destruct (enable_on_demand_dumps_ cfg); cbn [negb]; [|exact Hr].
  eapply wp_mono; [apply foreach_erase|]. cbn beta. intros _ s' ->.
  destruct Hr as (Hq & Hs & <-). split; [exact Hq|]. split; [exact Hs|reflexivity].
Qed.

Lemma OnFds_view F e fds cfg v : preserves F (resting cfg v) (OnFds e fds).
Proof.
  intros s Hr. unfold OnFds. wp_run; [exact Hr|]. eapply wp_mono.
  { refine (preserves_foreach F _ _ _ _ s (resting_viewing _ _ _ Hr)).
    intros pid_fds. unfold fds_body. pres. }
  cbn beta. intros _ s1 Hv1. apply FinalizeCurPacket_view, Hv1.
Qed.

(** Every handler implements [abs_handle]. *)
Lemma handle_view F e ev cfg v s :
  ev_ok F cfg (e, ev) -> resting cfg v s ->
  wpf F (handle e ev) (fun _ s' => resting cfg (abs_handle cfg e ev v) s') s.
Proof.
  intros [[Hok Hpid] Htick] Hr. destruct ev; cbn [handle].
  - apply Start_view; assumption.
  - apply Tick_view; [split; assumption|apply Htick; reflexivity|exact Hr].
  - apply OnPids_view; assumption.
  - apply OnRenamePids_view, Hr.
  - apply OnFds_view, Hr.
  - exact Hr.
  - destruct Hr as (Hq & Hs & <-). split; [exact Hq|]. split; [exact Hs|reflexivity].
Qed.

Lemma run_view F evs cfg v s :
  Forall (ev_ok F cfg) evs -> resting cfg v s ->
  wpf F (run evs) (fun _ s' => resting cfg (abs_run cfg evs v) s') s.
Proof.
  intros Hok. revert v s. apply wp_foreach_fold. intros [e ev] v s Hin Hr.
  apply handle_view; [|exact Hr]. eapply Forall_forall; eassumption.
Qed.

(** Erasing the ids of a list, one after the other. *)
Lemma count_erase_all (l : list Z) (t : SetT) x :
  set_count x (erase_all l t) = set_count x t && negb (bool_decide (x ∈ l)).
Proof.
  revert t. induction l as [|y l IH]; intros t; cbn [erase_all fold_left].
  - rewrite bool_decide_eq_false_2 by apply not_elem_of_nil. symmetry. apply andb_true_r.
  - fold (erase_all l (set_erase y t)). rewrite IH, count_erase.
    destruct (Z.eqb_spec x y) as [->|Hne]; cbn [negb andb].
    + rewrite bool_decide_eq_true_2 by (apply elem_of_cons; left; reflexivity).
      symmetry. apply andb_false_r.
    + f_equal. f_equal. apply bool_decide_ext. rewrite elem_of_cons. intuition congruence.
Qed.

Lemma count_elements (t : SetT) x : bool_decide (x ∈ set_elements t) = set_count x t.
Proof.
  destruct (set_count x t) eqn:E.
  - apply bool_decide_eq_true_2, list_elem_of_In, elements_count, E.
  - apply bool_decide_eq_false_2. rewrite list_elem_of_In, elements_count. congruence.
Qed.

(** Every reachable state is at rest, with a skip vector of fewer than
    2^32 bits. *)
Lemma reachable_resting cfg s :
  reachable cfg s ->
  resting (make_settings cfg) (tree_view s) s /\
  Z.of_nat (length (skip_stats_for_pids_ s)) <= UINT32_MAX.
Proof.
  revert s. apply rtc_ind_r.
  - split; [repeat split|]. cbn. unfold UINT32_MAX. lia.
  - intros s1 s2 _ Hstep [Hr Hlen]. destruct Hstep as [e ev s1 s2 Hrun].
    pose proof (wp_Ok any_fault _ _ _ _ _
                  (handle_view any_fault e ev _ _ s1 (ev_ok_any _ (e, ev)) Hr) Hrun) as Hr2.
    cbn beta in Hr2. pose proof Hr2 as (Hq & Hs & Hv).
    split; [split; [exact Hq|split; [exact Hs|reflexivity]]|].
    change (skip_stats_for_pids_ s2) with (tv_skip (tree_view s2)). rewrite Hv.
    apply abs_handle_skip_length. exact Hlen.
Qed.

(** * Theorems *)

(** C5. The process tree is a function of the events and of /proc:
    from a state between handlers, when the snapshots cause no fault
    (status files that fit the namespace array, no directory named -1,
    [Tick] only with a non-zero period), every run of handlers returns
    between handlers, and the process entries of the trace,
    [seen_pids_] and [skip_stats_for_pids_] are those [abs_run] computes
    from the events and their snapshots alone: [Start] scans /proc and
    the task directories, [Tick] describes the pids whose status has
    memory counters and marks the others to be skipped, [OnPids]
    describes the pids asked for, each pid once per generation and
    never pid 0, [OnRenamePids] and [ClearIncrementalState] forget, and
    [OnFds] and [Flush] leave the three alone. *)
Theorem run_refines evs s :
  quiescent s -> Forall (ev_ok no_fault (settings s)) evs ->
  exists s', run evs s = Ok tt s' /\ quiescent s' /\
    tree_view s' = abs_run (settings s) evs (tree_view s).
Proof.
  intros Hq Hok.
  pose proof (run_view no_fault evs (settings s) (tree_view s) s Hok) as Hwp.
  apply wp_exec in Hwp as ([] & s' & Hrun & Hq' & _ & Hv); [eauto|].
  split; [exact Hq|split; reflexivity].
Qed.

(** C30. [OnRenamePids] erases exactly the ids it is given: the call
    returns from every state and changes only [seen_pids_], from which
    it erases the ids of [pids] one after the other when on-demand
    dumps are enabled; an id is present afterwards if and only if it
    was present before and, when on-demand dumps are enabled, it is not
    one of [pids]; so the next request for a renamed pid writes its
    entry again. *)
Theorem OnRenamePids_erases pids s :
  wp (OnRenamePids pids) (fun _ s' =>
    s' = with_seen_pids_
           (if enable_on_demand_dumps_ (settings s)
            then erase_all (set_elements pids) (seen_pids_ s) else seen_pids_ s) s /\
    forall pid, set_count pid (seen_pids_ s') =
      set_count pid (seen_pids_ s) &&
      negb (enable_on_demand_dumps_ (settings s) && set_count pid pids)) s.
Proof.
  unfold OnRenamePids. rewrite wp_bind, wp_get.
  destruct (enable_on_demand_dumps_ (settings s)); cbn [negb andb].
  - eapply wp_mono; [apply foreach_erase|]. cbn beta. intros _ s' ->.
    split; [reflexivity|]. intros pid.
    change (seen_pids_ (with_seen_pids_ ?t s)) with t.
    rewrite count_erase_all. f_equal. f_equal. apply count_elements.
  - split; [destruct s; reflexivity|]. intros pid. symmetry. apply andb_true_r.
Qed.

(** C39. A directory of /proc named -1 makes [Tick] write out of the
    bounds of [skip_stats_for_pids_]: when the status file of -1 is not
    empty and has no [VmSize] line, [WriteAllProcessStats] marks the
    pid to be skipped, at the index [UINT32_MAX] of a vector it has
    just resized to [pid_u + 1], which is 0 in 32 bits.  This holds in
    every reachable state, whatever else /proc lists and whatever the
    data source has written before. *)
Theorem Tick_minus_one cfg e proc_dir s :
  reachable cfg s -> OpenProcDir e = Some proc_dir -> -1 ∈ numeric_dirs proc_dir ->
  ReadProcPidFile e (-1) (lit "status") <> [] ->
  has_mem_counters (ReadProcPidFile e (-1) (lit "status")) = false ->
  Tick e s = Fault UndefinedBehaviour.
Proof.
  intros Hr Hdir Hin Hst Hmem. destruct (reachable_resting cfg s Hr) as [Hrest Hlen].
  apply wp_fault. unfold Tick, PostTask.
  wp_run; [reflexivity|]. unfold WriteAllProcessStats. rewrite Hdir. apply wp_bind.
  eapply wp_mono; [apply CacheProcFsScanStartTimestamp_resting, Hrest|].
  cbn beta. intros _ s1 Hr1. apply resting_viewing in Hr1.
  apply list_elem_of_split in Hin as (l1 & l2 & Heq).
  rewrite wp_bind. apply wp_scan_dir. rewrite Heq.
  eapply wp_mono with (Q := fun _ _ => False); [|intros ? ? []].
  apply (wp_foldM_stuck _ (fun s' => exists v, viewing (make_settings cfg) v s' /\
                                      Z.of_nat (length (tv_skip v)) <= UINT32_MAX)).
  - intros pids pid s0 Hpid (v & Hv & Hl).
    eapply wp_mono; [apply stats_body_view; [left; reflexivity|exact Hv]|]. cbn beta.
    intros _ s' [_ Hv']. eexists. split; [exact Hv'|]. cbn [tv_skip].
    apply (stats_step_length e (pids, tv_skip v)), Hl.
  - intros pids s0 (v & Hv & Hl). eapply stats_body_overflow; eauto.
  - eexists. split; [exact Hr1|exact Hlen].
Qed.

End Views.
