(* ===== verification/StatsView.v ===== *)
(** * The threads, the stats entries and the cache as a function of /proc

    What [TreeView] leaves out of the trace and of the tables: the
    thread entries, the table [tids_to_pids_], the entries of the
    [process_stats] messages, whether the last of them is still open
    for writing, the cache of values already reported and its tick
    counter.  [StatsView] holds them.  The packet under construction and
    the three pointers into it become a list to which an entry is
    appended ([sv_touch]) and whose last entry is altered ([sv_write]);
    the functions [sv_*] compute, from a snapshot of /proc, what each
    writer and each handler does to the view, and [sv_run] what a run
    does.  The theorem shows that every run of the data source
    implements [sv_run]. *)

From Stdlib Require Import ZArith List Ascii String Lia.
From stdpp Require Import base option list gmap.
From S2P Require Import Prelude CxxString FlatSet TraceProto ProcFs StatusParse.
From S2P Require Import ProcessStats PacketCursor StatsCache Handlers TreeView.

#[local] Open Scope Z_scope.
#[local] Open Scope m_scope.

(** Altering the last element of a list. *)
Definition alter_end {A} (f : A -> A) (l : list A) : list A :=
  alter f (pred (length l)) l.

(** Two folds side by side, the second reading the accumulator of the
    first. *)
Definition along {V W X} (g : V -> X -> V) (h : V -> W -> X -> W)
    (vw : V * W) (x : X) : V * W :=
  (g (fst vw) x, h (fst vw) (snd vw) x).

(** One character of a scan of a status file that folds [g] over its
    lines. *)
Definition mem_fold_step {W} (g : W -> bytes * bytes -> W) (acc : MemParser * W)
    (c : ascii) : MemParser * W :=
  (mem_step (fst acc) c,
   if Ascii.eqb c LF then g (snd acc) (mem_line (fst acc)) else snd acc).

Section Stats.
Context {SetT : Type} `{IntSet SetT}.
Implicit Types (s : State SetT) (e : Env) (F : fault -> Prop).

Definition trace_threads (tr : list TracePacket) : list TreeThread :=
  concat (map packet_tree_threads tr).

Definition trace_stats (tr : list TracePacket) : list StatsProcess :=
  concat (map packet_stats_processes tr).

(** The thread and stats entries written so far: those of the finalized
    packets, then those of the open packet. *)
Definition emitted_threads s : list TreeThread :=
  trace_threads (trace s) ++ fields_threads (cur_fields s).

Definition emitted_stats s : list StatsProcess :=
  trace_stats (trace s) ++ fields_stats (cur_fields s).

Record StatsView : Type := mkStatsView {
  sv_threads : list TreeThread;
  sv_tids : gmap Z Z;
  sv_stats : list StatsProcess;
  sv_open : bool;
  sv_cache : gmap Z (CachedProcessStats SetT);
  sv_ticks : Z
}.

Definition stats_view s : StatsView :=
  mkStatsView (emitted_threads s) (tids_to_pids_ s) (emitted_stats s)
    (match cur_ps_stats_process_ s with Some _ => true | None => false end)
    (process_stats_cache_ s) (cache_ticks_ s).

(** While a handler runs: the tree view and the stats view of the
    state. *)
Definition tracing (cfg : Settings) (v : TreeView) (w : StatsView) s : Prop :=
  viewing cfg v s /\ stats_view s = w.

(** Between handlers. *)
Definition at_rest (cfg : Settings) (v : TreeView) (w : StatsView) s : Prop :=
  resting cfg v s /\ stats_view s = w.

(** ** The entry list *)

(** The pointer to the open entry is reset. *)
Definition sv_close (w : StatsView) : StatsView :=
  mkStatsView (sv_threads w) (sv_tids w) (sv_stats w) false (sv_cache w) (sv_ticks w).

(** [GetOrCreateStatsProcess]: an entry for [pid] is appended unless one
    is open. *)
Definition sv_touch (pid : Z) (w : StatsView) : StatsView :=
  if sv_open w then w
  else mkStatsView (sv_threads w) (sv_tids w) (sv_stats w ++ [new_stats_process pid])
                   true (sv_cache w) (sv_ticks w).

(** A write through the process pointer. *)
Definition sv_write (f : StatsProcess -> StatsProcess) (w : StatsView) : StatsView :=
  mkStatsView (sv_threads w) (sv_tids w) (alter_end f (sv_stats w)) (sv_open w)
              (sv_cache w) (sv_ticks w).

Definition sv_with_cache (c : gmap Z (CachedProcessStats SetT)) (w : StatsView) :
    StatsView :=
  mkStatsView (sv_threads w) (sv_tids w) (sv_stats w) (sv_open w) c (sv_ticks w).

(** [process_stats_cache_[pid]] *)
Definition sv_cache_entry (pid : Z) (w : StatsView) : StatsView :=
  match sv_cache w !! pid with
  | Some _ => w
  | None => sv_with_cache (<[pid := CachedProcessStats_default]> (sv_cache w)) w
  end.

Definition sv_cached (pid : Z) (w : StatsView) : CachedProcessStats SetT :=
  default CachedProcessStats_default (sv_cache w !! pid).

(** A value is reported: written to the entry of [pid] through the
    process pointer and recorded in the cache. *)
Definition sv_report (pid : Z) (f : StatsProcess -> StatsProcess)
    (g : CachedProcessStats SetT -> CachedProcessStats SetT) (w : StatsView) : StatsView :=
  let w1 := sv_write f (sv_touch pid w) in
  sv_with_cache (alter g pid (sv_cache w1)) w1.

(** ** The stats writers *)

(** [write_counter] *)
Definition sv_counter (pid : Z) (c : Counter) (value : bytes) (w : StatsView) : StatsView :=
  let counter := ToU32 value in
  if counter =? get_counter c (c_counters (sv_cached pid w)) then sv_cache_entry pid w
  else sv_report pid (sp_set_counter c counter)
         (fun cached => mkCached (set_counter c counter (c_counters cached))
                                 (c_oom_score_adj cached) (c_seen_fds cached))
         (sv_cache_entry pid w).

(** One line of the status file, and [WriteMemCounters]. *)
Definition sv_mem_line (pid : Z) (w : StatsView) (kv : bytes * bytes) : StatsView :=
  match counter_of_key (fst kv) with
  | Some c => sv_counter pid c (snd kv) w
  | None => w
  end.

Definition sv_mem (pid : Z) (proc_status : bytes) (w : StatsView) : StatsView :=
  fold_left (sv_mem_line pid) (mem_lines proc_status) (sv_cache_entry pid w).

(** [write_oom_score_adj] *)
Definition sv_oom e (pid : Z) (w : StatsView) : StatsView :=
  match ReadProcPidFile e pid (lit "oom_score_adj") with
  | [] => w
  | oom_score_adj =>
      let counter := ToInt oom_score_adj in
      if counter =? c_oom_score_adj (sv_cached pid w) then sv_cache_entry pid w
      else sv_report pid (sp_set_oom_score_adj counter)
             (fun cached => mkCached (c_counters cached) counter (c_seen_fds cached))
             (sv_cache_entry pid w)
  end.

(** [WriteSingleFd] and [WriteFds] *)
Definition sv_single_fd e (tid : Z) (w : StatsView) (fd : Z) : StatsView :=
  let pid := default tid (sv_tids w !! tid) in
  if set_count fd (c_seen_fds (sv_cached pid w)) then sv_cache_entry pid w
  else match readlink e pid fd 256 with
       | Some path =>
           sv_report pid (sp_add_fd (mkFdInfo fd path))
             (fun c => mkCached (c_counters c) (c_oom_score_adj c)
                                (set_insert fd (c_seen_fds c)))
             (sv_cache_entry pid w)
       | None => sv_cache_entry pid w
       end.

Definition sv_fd_entry e (pid : Z) (w : StatsView) (dir_ent : dirent) : StatsView :=
  match fd_entry dir_ent with
  | Some fd => sv_single_fd e pid w fd
  | None => w
  end.

Definition sv_fds (cfg : Settings) e (w : StatsView) (pid : Z) : StatsView :=
  if resolve_process_fds_ cfg then
    match fd_dir (fs e) pid with
    | Some entries => fold_left (sv_fd_entry e pid) entries w
    | None => w
    end
  else w.

(** ** The tree writers *)

(** [WriteProcess] and [WriteThread]: the tree pointer is taken, which
    resets the process pointer. *)
Definition sv_with_tids (m : gmap Z Z) (w : StatsView) : StatsView :=
  mkStatsView (sv_threads w) m (sv_stats w) (sv_open w) (sv_cache w) (sv_ticks w).

Definition sv_emplace (tid pid : Z) (w : StatsView) : StatsView :=
  sv_with_tids (emplace tid pid (sv_tids w)) w.

Definition sv_add_thread (th : TreeThread) (w : StatsView) : StatsView :=
  mkStatsView (sv_threads w ++ [th]) (sv_tids w) (sv_stats w) (sv_open w)
              (sv_cache w) (sv_ticks w).

Definition sv_process (pid : Z) (w : StatsView) : StatsView :=
  sv_emplace pid pid (sv_close w).

Definition sv_thread (th : TreeThread) (w : StatsView) : StatsView :=
  sv_emplace (t_tid th) (t_tgid th) (sv_add_thread th (sv_close w)).

Definition thread_entry (tid tgid : Z) (name : option bytes) (proc_status : bytes) :
    TreeThread :=
  mkTreeThread tid tgid name (until_zero (nspids_of tid proc_status)).

(** The name [WriteProcessOrThread] gives a thread. *)
Definition thread_name (cfg : Settings) (proc_status : bytes) : option bytes :=
  let thread_name :=
    if record_thread_names_ cfg then ReadProcStatusEntry proc_status (lit "Name:")
    else [] in
  match thread_name with
  | [] => None
  | _ => Some (c_str thread_name)
  end.

(** [WriteProcessOrThread], in a state whose tree view is [v]. *)
Definition sv_delta (cfg : Settings) e (v : TreeView) (w : StatsView) (pid : Z) :
    StatsView :=
  let proc_status := ReadProcPidFile e pid (lit "status") in
  let tgid := ToInt (ReadProcStatusEntry proc_status (lit "Tgid:")) in
  let tid := ToInt (ReadProcStatusEntry proc_status (lit "Pid:")) in
  if bool_decide (proc_status = []) || (tgid <=? 0) || (tid <=? 0) then w
  else
    let w1 := if set_count tgid (tv_seen v) then w else sv_process tgid w in
    if pid =? tgid then w1
    else sv_thread (thread_entry pid tgid (thread_name cfg proc_status) proc_status) w1.

Definition sv_tree_step (cfg : Settings) e (v : TreeView) (w : StatsView) (pid : Z) :
    StatsView :=
  if set_count pid (tv_seen v) || (pid =? 0) then w else sv_delta cfg e v w pid.

(** The loop of [WriteProcessTree], on both views. *)
Definition trace_tree (cfg : Settings) e (pids : list Z) (vw : TreeView * StatsView) :
    TreeView * StatsView :=
  fold_left (along (view_tree_step e) (sv_tree_step cfg e)) pids vw.

Definition sv_task (cfg : Settings) e (pid : Z) (v : TreeView) (w : StatsView) (tid : Z) :
    StatsView :=
  if tid =? pid then w
  else if record_thread_names_ cfg then sv_delta cfg e v w tid
  else sv_thread (thread_entry tid pid None (ReadProcPidFile e tid (lit "status"))) w.

Definition trace_proc (cfg : Settings) e (vw : TreeView * StatsView) (pid : Z) :
    TreeView * StatsView :=
  let vw1 := along (view_delta e) (sv_delta cfg e) vw pid in
  match task_dir (fs e) pid with
  | None => vw1
  | Some dirp =>
      fold_left (along (view_task e (record_thread_names_ cfg) pid) (sv_task cfg e pid))
                (numeric_dirs dirp) vw1
  end.

(** [WriteAllProcesses]: the scan of /proc, then the descriptors of
    every pid seen. *)
Definition sv_all_processes (cfg : Settings) e (v : TreeView) (w : StatsView) : StatsView :=
  match OpenProcDir e with
  | None => w
  | Some proc_dir =>
      let vw := fold_left (trace_proc cfg e) (numeric_dirs proc_dir) (v, w) in
      sv_close (fold_left (sv_fds cfg e) (set_elements (tv_seen (fst vw)))
                          (sv_close (snd vw)))
  end.

(** ** The scan of [WriteAllProcessStats] *)

(** One pid of the scan, in a state whose skip vector is [snd acc]. *)
Definition sv_stats_step (cfg : Settings) e (acc : SetT * list bool) (w : StatsView)
    (pid : Z) : StatsView :=
  if skip_bit (snd acc) (wrap_u32 pid) then sv_close w
  else
    match ReadProcPidFile e pid (lit "status") with
    | [] => sv_close w
    | proc_status =>
        let w1 := sv_mem pid proc_status (sv_close w) in
        if has_mem_counters proc_status then sv_fds cfg e (sv_oom e pid w1) pid else w1
    end.

Definition sv_all_stats (cfg : Settings) e (v : TreeView) (w : StatsView) : StatsView :=
  match OpenProcDir e with
  | None => w
  | Some proc_dir =>
      let r := fold_left (along (stats_step e) (sv_stats_step cfg e))
                         (numeric_dirs proc_dir) ((set_empty, tv_skip v), w) in
      sv_close (snd (trace_tree cfg e (set_elements (fst (fst r)))
                       (mkTreeView (tv_entries v) (tv_seen v) (snd (fst r)),
                        sv_close (snd r))))
  end.

(** The end of [Tick]: the cache ages and expires. *)
Definition sv_age (cfg : Settings) (w : StatsView) : StatsView :=
  let r := tick_cache (sv_ticks w) (process_stats_cache_ttl_ticks_ cfg) in
  mkStatsView (sv_threads w) (sv_tids w) (sv_stats w) (sv_open w)
              (if snd r then ∅ else sv_cache w) (fst r).

(** ** The handlers *)

Definition sv_fds_body e (w : StatsView) (pid_fds : Z * SetT) : StatsView :=
  fold_left (sv_single_fd e (fst pid_fds)) (set_elements (snd pid_fds)) (sv_close w).

Definition sv_handle (cfg : Settings) e (ev : Event SetT) (v : TreeView) (w : StatsView) :
    StatsView :=
  match ev with
  | EvStart => if dump_all_procs_on_start_ cfg then sv_all_processes cfg e v w else w
  | EvTick => sv_age cfg (sv_all_stats cfg e v w)
  | EvOnPids pids =>
      if enable_on_demand_dumps_ cfg
      then sv_close (snd (trace_tree cfg e (set_elements pids) (v, w))) else w
  | EvOnFds fds =>
      if resolve_process_fds_ cfg then sv_close (fold_left (sv_fds_body e) fds w) else w
  | EvOnRenamePids _ | EvFlush => w
  | EvClearIncrementalState =>
      mkStatsView (sv_threads w) ∅ (sv_stats w) (sv_open w) ∅ 0
  end.

Definition trace_handle (cfg : Settings) (vw : TreeView * StatsView)
    (x : Env * Event SetT) : TreeView * StatsView :=
  (abs_handle cfg (fst x) (snd x) (fst vw), sv_handle cfg (fst x) (snd x) (fst vw) (snd vw)).

Definition sv_run (cfg : Settings) (evs : list (Env * Event SetT))
    (v : TreeView) (w : StatsView) : StatsView :=
  snd (fold_left (trace_handle cfg) evs (v, w)).

(** At most one entry has been appended to [stats0], and it is the one
    the process pointer addresses. *)
Definition one_entry (stats0 : list StatsProcess) (w : StatsView) : Prop :=
  if sv_open w then exists sp, sv_stats w = stats0 ++ [sp] else sv_stats w = stats0.

(** [sv_norm] pushes [stats_view] through the updates of the state. *)
Ltac sv_norm :=
  repeat match goal with
    | |- context [stats_view (with_cur_ps_stats_process_ None ?x)] =>
        change (stats_view (with_cur_ps_stats_process_ None x)) with (sv_close (stats_view x))
    | |- context [stats_view (with_tids_to_pids_ ?m ?x)] =>
        change (stats_view (with_tids_to_pids_ m x)) with (sv_with_tids m (stats_view x))
    | |- context [stats_view (with_process_stats_cache_ ?c ?x)] =>
        change (stats_view (with_process_stats_cache_ c x))
          with (sv_with_cache c (stats_view x))
    | |- context [stats_view (upd_cache ?pid ?g ?x)] =>
        change (stats_view (upd_cache pid g x))
          with (sv_with_cache (alter g pid (sv_cache (stats_view x))) (stats_view x))
    | |- context [stats_view (?f ?v ?x)] =>
        progress change (stats_view (f v x)) with (stats_view x)
    end.

(** * Lemmas *)

(** ** Lists *)

Lemma alter_end_snoc {A} (f : A -> A) (l : list A) x : alter_end f (l ++ [x]) = l ++ [f x].
Proof.
  unfold alter_end. rewrite length_app. cbn [length].
  replace (pred (length l + 1)) with (length l) by lia. apply alter_last.
Qed.

Lemma fst_fold_along {V W X} (g : V -> X -> V) (h : V -> W -> X -> W) (l : list X) vw :
  fst (fold_left (along g h) l vw) = fold_left g l (fst vw).
Proof. apply fst_fold_left. reflexivity. Qed.

Lemma snd_fold_along {V W X} (P : W -> Prop) (g : V -> X -> V) (h : V -> W -> X -> W)
    (l : list X) vw :
  (forall v w x, P w -> P (h v w x)) -> P (snd vw) -> P (snd (fold_left (along g h) l vw)).
Proof.
  intros Hh. revert vw. induction l as [|x l IH]; intros vw Hvw; [exact Hvw|].
  cbn [fold_left]. apply IH. apply Hh, Hvw.
Qed.

(** ** The entries of the open packet *)

(** A write that keeps the threads and the stats entries of the field
    it addresses keeps the view. *)
Lemma stats_view_alter g i s :
  (forall x, field_tree_threads (g x) = field_tree_threads x) ->
  (forall x, field_stats_processes (g x) = field_stats_processes x) ->
  stats_view (upd_packet (alter_field g i) s) = stats_view s.
Proof.
  intros Ht Hs. unfold stats_view, emitted_threads, emitted_stats. cf.
  rewrite cur_fields_alter. unfold fields_threads, fields_stats.
  rewrite !concat_map_alter by assumption. reflexivity.
Qed.

Lemma stats_view_cursor s s' :
  same_tables s s' -> same_cursor s s' -> trace s' = trace s ->
  stats_view s' = stats_view s.
Proof.
  intros (_ & _ & Ht & _ & Hc & Hk & _) (Hf & _ & _ & Hp) Htr.
  unfold stats_view, emitted_threads, emitted_stats.
  rewrite Ht, Hc, Hk, Hf, Hp, Htr. reflexivity.
Qed.

(** A fresh, empty message adds no entry. *)
Lemma stats_view_add x s :
  is_Some (cur_packet_ s) -> field_tree_threads x = [] -> field_stats_processes x = [] ->
  stats_view (upd_packet (add_field x) s) = stats_view s.
Proof.
  intros Hp Ht Hs. unfold stats_view, emitted_threads, emitted_stats. cf.
  rewrite cur_fields_add by exact Hp. unfold fields_threads, fields_stats.
  rewrite !concat_map_snoc, Ht, Hs, !app_nil_r. reflexivity.
Qed.

Lemma GetOrCreatePsTree_stats F e s :
  wpf F (GetOrCreatePsTree e) (fun _ s' => stats_view s' = sv_close (stats_view s)) s.
Proof.
  unfold GetOrCreatePsTree. wp_step StartNewPacketIfNeeded_spec.
  destruct H0 as (Ht & Hc & Htr & Hp). rewrite <- (stats_view_cursor _ _ Ht Hc Htr).
  unfold set_process_tree. wp_run; [reflexivity|].
  change (sv_close (stats_view (upd_packet (add_field (ProcessTreeField empty_tree)) s')) =
          sv_close (stats_view s')).
  rewrite stats_view_add; auto.
Qed.

Lemma GetOrCreateStats_stats F e s :
  wpf F (GetOrCreateStats e) (fun _ s' => stats_view s' = sv_close (stats_view s)) s.
Proof.
  unfold GetOrCreateStats. wp_step StartNewPacketIfNeeded_spec.
  destruct H0 as (Ht & Hc & Htr & Hp). rewrite <- (stats_view_cursor _ _ Ht Hc Htr).
  unfold set_process_stats. wp_run; [reflexivity|].
  change (sv_close (stats_view (upd_packet (add_field (ProcessStatsField empty_stats)) s')) =
          sv_close (stats_view s')).
  rewrite stats_view_add; auto.
Qed.

(** An entry appended to the stats message a well-formed pointer
    addresses is appended to the entries of the packet. *)
Lemma fields_add_stats_process sp i n l :
  last_shape i l = Some (StatsShape n) ->
  fields_stats (alter (on_stats (add_stats_process sp)) i l) = fields_stats l ++ [sp] /\
  fields_threads (alter (on_stats (add_stats_process sp)) i l) = fields_threads l.
Proof.
  intros Hl. split; [|apply concat_map_alter; intros []; reflexivity].
  destruct (last_shape_inv _ _ _ Hl) as (l0 & x & -> & -> & Hx).
  destruct x as [|st]; [discriminate|]. unfold fields_stats.
  rewrite alter_last, !concat_map_snoc. cbn. apply app_assoc.
Qed.

Lemma GetOrCreateStatsProcess_stats F e pid s :
  cursor_wf s ->
  wpf F (GetOrCreateStatsProcess e pid) (fun ij s' =>
    cursor_wf s' /\ cur_ps_stats_process_ s' = Some ij /\
    stats_view s' = sv_touch pid (stats_view s)) s.
Proof.
  intros Hwf. unfold GetOrCreateStatsProcess. rewrite wp_bind, wp_get.
  destruct (cur_ps_stats_process_ s) as [ij|] eqn:Hp; wp_simpl.
  - split; [exact Hwf|]. split; [exact Hp|]. unfold sv_touch, stats_view. rewrite Hp.
    reflexivity.
  - eapply wp_mono.
    { apply wp_conj; [apply GetOrCreateStats_spec, Hwf|apply (GetOrCreateStats_stats F e s)]. }
    cbn beta. intros i s1 ((Hfr & Hi & Hn) & Hsv). wp_run.
    destruct Hfr as (_ & _ & Hwf1 & _). pose proof Hwf1 as Hwf2.
    unfold cursor_wf in Hwf1. rewrite Hi, Hn in Hwf1.
    destruct (cur_ps_tree_ s1) eqn:Ht; [contradiction|]. destruct Hwf1 as [n Hl].
    destruct (fields_add_stats_process (new_stats_process pid) _ _ _ Hl) as [Hs Hth].
    split; [|split; [reflexivity|]].
    + destruct (stats_at_inv _ _ _ Hl) as (l & st & _ & _ & -> & Hlen).
      ptr_simpl. rewrite Ht, Hi. cbn [wf_ptrs]. split; [reflexivity|].
      rewrite cur_fields_alter_stats, (last_shape_add_process _ _ _ _ Hl), Hlen. reflexivity.
    + unfold sv_touch.
      replace (sv_open (stats_view s)) with false by (unfold stats_view; rewrite Hp; reflexivity).
      replace (stats_view s) with (stats_view s1)
        by (rewrite Hsv; unfold sv_close, stats_view; rewrite Hp; reflexivity).
      unfold stats_view, emitted_threads, emitted_stats. st_norm.
      rewrite cur_fields_alter_stats, Hs, Hth, app_assoc. reflexivity.
Qed.

(** A write through a well-formed process pointer alters the last
    entry of the packet. *)
Lemma fields_alter_stats_process f i j l :
  last_shape i l = Some (StatsShape (S j)) ->
  fields_threads (alter (on_stats (alter_process f j)) i l) = fields_threads l /\
  exists l' sp, fields_stats l = l' ++ [sp] /\
    fields_stats (alter (on_stats (alter_process f j)) i l) = l' ++ [f sp].
Proof.
  intros Hl. split; [apply concat_map_alter; intros []; reflexivity|].
  destruct (last_shape_inv _ _ _ Hl) as (l0 & x & -> & -> & Hx).
  destruct x as [|[sps ts]]; [discriminate|]. cbn in Hx. injection Hx as Hlen.
  destruct sps as [|sp sps _] using rev_ind; [discriminate|].
  rewrite length_app in Hlen. cbn in Hlen. assert (j = length sps) as -> by lia.
  exists (fields_stats l0 ++ sps), sp. unfold fields_stats.
  rewrite alter_last, !concat_map_snoc. cbn. rewrite alter_last, !app_assoc. auto.
Qed.

Lemma alter_stats_process_stats f i j s :
  cursor_wf s -> cur_ps_stats_process_ s = Some (i, j) ->
  stats_view (upd_packet (alter_stats_process f i j) s) = sv_write f (stats_view s).
Proof.
  unfold cursor_wf. intros Hwf Hp. rewrite Hp in Hwf.
  destruct (cur_ps_tree_ s), (cur_ps_stats_ s); try contradiction. destruct Hwf as [-> Hl].
  destruct (fields_alter_stats_process f _ _ _ Hl) as (Hth & l' & sp & Hs & Hs').
  unfold stats_view, sv_write, emitted_threads, emitted_stats. st_norm.
  unfold alter_stats_process. rewrite cur_fields_alter_stats, Hth, Hs', Hs.
  cbn [sv_stats]. rewrite !app_assoc, alter_end_snoc. reflexivity.
Qed.

(** A thread written through a well-formed tree pointer is appended to
    the threads of the packet. *)
Lemma add_tree_thread_stats th i s :
  cursor_wf s -> cur_ps_tree_ s = Some i ->
  stats_view (upd_packet (alter_tree (add_tree_thread th) i) s) =
  sv_add_thread th (stats_view s).
Proof.
  unfold cursor_wf. intros Hwf Hi. rewrite Hi in Hwf.
  destruct (cur_ps_stats_ s), (cur_ps_stats_process_ s) eqn:Hp; try contradiction.
  destruct (last_shape_inv _ _ _ Hwf) as (l & x & Hf & -> & Hx).
  destruct x as [t|]; [|discriminate].
  unfold stats_view, sv_add_thread, emitted_threads, emitted_stats. st_norm.
  rewrite Hp, cur_fields_alter_tree, Hf, alter_last. unfold fields_threads, fields_stats.
  rewrite !concat_map_snoc. cbn. rewrite !app_assoc. reflexivity.
Qed.

(** ** The tree writers *)

Lemma CacheProcFsScanStartTimestamp_trace F e cfg v w :
  preserves F (tracing cfg v w) (CacheProcFsScanStartTimestamp e).
Proof.
  intros s [Hv <-]. apply wp_conj; [apply CacheProcFsScanStartTimestamp_view, Hv|].
  eapply wp_mono; [apply CacheProcFsScanStartTimestamp_spec|]. cbn beta.
  intros _ s' (Ht & Hc & _ & Htr & _). apply stats_view_cursor; assumption.
Qed.

(** What [WriteProcess] does after it has taken the tree pointer. *)
Lemma tree_process_stats pr i t m s :
  stats_view (with_tids_to_pids_ m (with_seen_pids_ t
                (upd_packet (alter_tree (add_tree_process pr) i) s))) =
  sv_with_tids m (stats_view s).
Proof.
  rewrite <- (stats_view_alter (on_tree (add_tree_process pr)) i s) by (intros []; reflexivity).
  reflexivity.
Qed.

Lemma WriteProcess_trace F e pid proc_status cfg v w s :
  tracing cfg v w s ->
  (forall f, ReadNamespacedTids pid proc_status TidArray_zero = inl f -> F f) ->
  wpf F (WriteProcess e pid proc_status) (fun _ s' =>
    tracing cfg (view_process e pid proc_status v) (sv_process pid w) s') s.
Proof.
  intros [Hv <-] HF. apply wp_conj; [apply WriteProcess_view; assumption|].
  unfold WriteProcess. wp_step GetOrCreatePsTree_stats. wp_run.
  destruct (ReadNamespacedTids _ _ _) as [f|nspids] eqn:E; [apply HF; reflexivity|].
  wp_run. rewrite tree_process_stats. change (tids_to_pids_ s') with (sv_tids (stats_view s')).
  rewrite H0. reflexivity.
Qed.

Lemma WriteThread_trace F e tid tgid name proc_status cfg v w s :
  tracing cfg v w s ->
  (forall f, ReadNamespacedTids tid proc_status TidArray_zero = inl f -> F f) ->
  wpf F (WriteThread e tid tgid name proc_status) (fun _ s' =>
    tracing cfg (view_thread tid v) (sv_thread (thread_entry tid tgid name proc_status) w) s') s.
Proof.
  intros [Hv <-] HF. apply wp_conj; [apply WriteThread_view; assumption|].
  unfold WriteThread, thread_entry, nspids_of. apply wp_bind. eapply wp_mono.
  { apply wp_conj; [apply GetOrCreatePsTree_spec, Hv|apply (GetOrCreatePsTree_stats F e s)]. }
  cbn beta. intros i s1 [[Hfr Hi] Hsv]. wp_run.
  destruct (ReadNamespacedTids _ _ _) as [f|nstids] eqn:E; [apply HF; reflexivity|].
  wp_run.
  change (stats_view (with_tids_to_pids_ ?m (with_seen_pids_ ?t ?x)))
    with (sv_with_tids m (stats_view x)).
  rewrite add_tree_thread_stats by (assumption || apply Hfr).
  change (tids_to_pids_ s1) with (sv_tids (stats_view s1)). rewrite Hsv. reflexivity.
Qed.

(** The second half of [WriteProcessOrThread]: the thread entry. *)
Lemma thread_part_trace F e pid tgid proc_status cfg v w s :
  tracing cfg v w s ->
  (forall f, ReadNamespacedTids pid proc_status TidArray_zero = inl f -> F f) ->
  wpf F (if negb (pid =? tgid) then
           s <- get ;;
           let thread_name :=
             if record_thread_names_ (settings s)
             then ReadProcStatusEntry proc_status (lit "Name:")
             else [] in
           WriteThread e pid tgid
             (match thread_name with [] => None | _ => Some (c_str thread_name) end)
             proc_status
         else ret tt)
    (fun _ s' =>
       tracing cfg (if pid =? tgid then v else view_thread pid v)
         (if pid =? tgid then w
          else sv_thread (thread_entry pid tgid (thread_name cfg proc_status) proc_status) w)
         s') s.
Proof.
  intros Ht HF. destruct (pid =? tgid); cbn [negb]; [exact Ht|].
  rewrite wp_bind, wp_get. rewrite (proj1 (proj2 (proj1 Ht))).
  apply WriteThread_trace; assumption.
Qed.

Lemma WriteProcessOrThread_trace F e pid cfg v w s :
  tracing cfg v w s -> nstids_ok F e ->
  wpf F (WriteProcessOrThread e pid) (fun _ s' =>
    tracing cfg (view_delta e v pid) (sv_delta cfg e v w pid) s') s.
Proof.
  intros Ht Hok. unfold WriteProcessOrThread, view_delta, sv_delta.
  wp_step CacheProcFsScanStartTimestamp_trace; [exact Ht|]. clear s Ht. rename H0 into Ht.
  destruct (ReadProcPidFile e pid (lit "status")) as [|b st] eqn:E; [exact Ht|].
  rewrite <- E. rewrite bool_decide_eq_false_2 by (rewrite E; discriminate). cbn [orb].
  destruct (_ || _) eqn:Hg; [exact Ht|].
  rewrite wp_bind, wp_get, wp_bind.
  replace (seen_pids_ s') with (tv_seen v) by (destruct Ht as ((_ & _ & <-) & _); reflexivity).
  destruct (set_count _ (tv_seen v)); cbn [negb].
  - rewrite wp_ret. apply thread_part_trace; [exact Ht|apply Hok].
  - eapply wp_mono.
    { apply WriteProcess_trace; [exact Ht|]. destruct (_ =? _); apply Hok. }
    cbn beta. intros _ s2 Ht2. apply thread_part_trace; [exact Ht2|apply Hok].
Qed.

Lemma tree_loop_trace F e (pids : list Z) cfg v w s :
  tracing cfg v w s -> nstids_ok F e ->
  wpf F (foreach pids (fun pid =>
           s <- get ;;
           if set_count pid (seen_pids_ s) || (pid =? 0) then ret tt
           else WriteProcessOrThread e pid))
    (fun _ s' => let vw := trace_tree cfg e pids (v, w) in tracing cfg (fst vw) (snd vw) s') s.
Proof.
  intros Ht Hok.
  apply (wp_foreach_fold F (fun vw s' => tracing cfg (fst vw) (snd vw) s')
           (along (view_tree_step e) (sv_tree_step cfg e))); [|exact Ht].
  clear v w s Ht. intros pid [v w] s _ Ht. rewrite wp_bind, wp_get.
  unfold along, view_tree_step, sv_tree_step. cbn [fst snd] in *.
  replace (seen_pids_ s) with (tv_seen v) by (destruct Ht as ((_ & _ & <-) & _); reflexivity).
  destruct (_ || _); [exact Ht|]. apply WriteProcessOrThread_trace; assumption.
Qed.

(** ** Closing the packet *)

Lemma stats_view_release s : stats_view (release_packet s) = stats_view s.
Proof.
  unfold stats_view, emitted_threads, emitted_stats, release_packet, cur_fields.
  destruct (cur_packet_ s) as [p|] eqn:E; st_simpl; rewrite ?E; [|reflexivity].
  unfold trace_threads, trace_stats. rewrite !concat_map_snoc, !app_nil_r. reflexivity.
Qed.

Lemma stats_view_set_tree_end ts i s :
  stats_view (upd_packet (alter_tree (set_tree_end ts) i) s) = stats_view s.
Proof. apply stats_view_alter; intros []; reflexivity. Qed.

Lemma stats_view_set_stats_end ts i s :
  stats_view (upd_packet (alter_stats (set_stats_end ts) i) s) = stats_view s.
Proof. apply stats_view_alter; intros []; reflexivity. Qed.

Lemma FinalizeCurPacket_stats F e s :
  wpf F (FinalizeCurPacket e) (fun _ s' => stats_view s' = sv_close (stats_view s)) s.
Proof.
  unfold FinalizeCurPacket. rewrite wp_bind, wp_GetBootTimeNs. wp_run.
  all: rewrite stats_view_release; sv_norm.
  all: rewrite ?stats_view_set_stats_end; sv_norm.
  all: rewrite ?stats_view_set_tree_end; sv_norm; reflexivity.
Qed.

Lemma FinalizeCurPacket_trace F e cfg v w s :
  tracing cfg v w s ->
  wpf F (FinalizeCurPacket e) (fun _ s' => at_rest cfg v (sv_close w) s') s.
Proof.
  intros [Hv <-]. apply wp_conj; [apply FinalizeCurPacket_view, Hv|].
  apply FinalizeCurPacket_stats.
Qed.

Lemma at_rest_tracing cfg v w s : at_rest cfg v w s -> tracing cfg v w s.
Proof. intros [Hr Hw]. split; [apply resting_viewing, Hr|exact Hw]. Qed.

Lemma WriteProcessTree_trace F e pids cfg v w s :
  tracing cfg v w s -> nstids_ok F e ->
  wpf F (WriteProcessTree e pids) (fun _ s' =>
    let vw := trace_tree cfg e (set_elements pids) (v, w) in
    at_rest cfg (fst vw) (sv_close (snd vw)) s') s.
Proof.
  intros Ht Hok. unfold WriteProcessTree. apply wp_bind.
  eapply wp_mono; [apply tree_loop_trace; eassumption|]. cbn beta zeta.
  intros _ s1 Ht1. apply FinalizeCurPacket_trace, Ht1.
Qed.

(** ** The stats writers *)

Lemma cache_entry_trace F pid cfg v w s :
  tracing cfg v w s ->
  wpf F (cache_entry pid) (fun cached s' =>
    cached = sv_cached pid w /\ tracing cfg v (sv_cache_entry pid w) s') s.
Proof.
  intros [Hv <-]. apply wp_cache_entry. unfold sv_cached, sv_cache_entry.
  change (sv_cache (stats_view s)) with (process_stats_cache_ s).
  destruct (process_stats_cache_ s !! pid); (split; [reflexivity|]);
    (split; [|reflexivity]); exact Hv.
Qed.

(** A value is reported. *)
Lemma report_trace F e pid f g cfg v w s :
  tracing cfg v w s ->
  wpf F (p <- GetOrCreateStatsProcess e pid ;;
         modify (upd_packet (alter_stats_process f (fst p) (snd p))) ;;
         modify (upd_cache pid g))
    (fun _ s' => tracing cfg v (sv_report pid f g w) s') s.
Proof.
  intros [Hv <-]. apply wp_bind. eapply wp_mono.
  { apply wp_conj; [apply GetOrCreateStatsProcess_view, Hv|].
    apply GetOrCreateStatsProcess_stats, Hv. }
  cbn beta. intros [i j] s1 (Hv1 & Hwf1 & Hp1 & Hsv1). rewrite wp_bind, !wp_modify.
  split; [apply upd_cache_view, alter_stats_process_view, Hv1|]. cbn [fst snd]. sv_norm.
  rewrite alter_stats_process_stats, Hsv1 by assumption. reflexivity.
Qed.

Lemma write_counter_trace F e pid c value cfg v w s :
  tracing cfg v w s ->
  wpf F (write_counter e pid c value) (fun _ s' =>
    tracing cfg v (sv_counter pid c value w) s') s.
Proof.
  intros Ht. unfold write_counter, sv_counter. rewrite wp_bind.
  eapply wp_mono; [apply cache_entry_trace, Ht|]. cbn beta. intros cached s1 [-> Ht1].
  destruct (_ =? _); cbn [negb]; [exact Ht1|]. apply report_trace, Ht1.
Qed.

Lemma write_oom_score_adj_trace F e pid cfg v w s :
  tracing cfg v w s ->
  wpf F (write_oom_score_adj e pid) (fun _ s' => tracing cfg v (sv_oom e pid w) s') s.
Proof.
  intros Ht. unfold write_oom_score_adj, sv_oom.
  destruct (ReadProcPidFile e pid (lit "oom_score_adj")) as [|b oom]; [exact Ht|].
  rewrite wp_bind. eapply wp_mono; [apply cache_entry_trace, Ht|]. cbn beta.
  intros cached s1 [-> Ht1].
  destruct (_ =? _); cbn [negb]; [exact Ht1|]. apply report_trace, Ht1.
Qed.

Lemma WriteSingleFd_trace F e tid fd cfg v w s :
  tracing cfg v w s ->
  wpf F (WriteSingleFd e tid fd) (fun _ s' => tracing cfg v (sv_single_fd e tid w fd) s') s.
Proof.
  intros Ht. unfold WriteSingleFd, sv_single_fd. rewrite wp_bind, wp_get.
  replace (tids_to_pids_ s) with (sv_tids w) by (destruct Ht as [_ <-]; reflexivity).
  change (match sv_tids w !! tid with Some p => p | None => tid end)
    with (default tid (sv_tids w !! tid)).
  rewrite wp_bind. eapply wp_mono; [apply cache_entry_trace, Ht|]. cbn beta.
  intros cached s1 [-> Ht1]. destruct (set_count _ _); [exact Ht1|].
  destruct (readlink _ _ _ _); [apply report_trace, Ht1|exact Ht1].
Qed.

Lemma WriteFds_trace F e pid cfg v w s :
  tracing cfg v w s ->
  wpf F (WriteFds e pid) (fun _ s' => tracing cfg v (sv_fds cfg e w pid) s') s.
Proof.
  intros Ht. unfold WriteFds, sv_fds. rewrite wp_bind, wp_get.
  rewrite (proj1 (proj2 (proj1 Ht))).
  destruct (resolve_process_fds_ cfg); cbn [negb]; [|exact Ht].
  destruct (fd_dir (fs e) pid) as [entries|]; [|exact Ht].
  revert w s Ht. apply wp_foreach_fold. intros dir_ent w s _ Ht. unfold sv_fd_entry.
  destruct (fd_entry dir_ent); [apply WriteSingleFd_trace, Ht|exact Ht].
Qed.

(** ** WriteMemCounters *)

Lemma fold_mem_lines {W} (g : W -> bytes * bytes -> W) l st w :
  fold_left (mem_fold_step g) l (st, w) =
  (fold_left mem_step l st, fold_left g (mem_lines_from st l) w).
Proof.
  revert st w. induction l as [|c l IH]; intros st w; [reflexivity|].
  cbn [fold_left mem_lines_from]. unfold mem_fold_step at 2. cbn [fst snd]. rewrite IH.
  destruct (Ascii.eqb c LF); reflexivity.
Qed.

Lemma mem_char_step_trace F e pid acc c cfg v w s :
  tracing cfg v w s ->
  wpf F (mem_char_step e pid acc c) (fun acc' s' =>
    let x := mem_fold_step (sv_mem_line pid) (fst acc, w) c in
    fst acc' = fst x /\ tracing cfg v (snd x) s') s.
Proof.
  intros Ht. unfold mem_char_step, mem_newline, mem_fold_step, sv_mem_line. cbn [fst snd].
  destruct (Ascii.eqb c LF); [|wp_simpl; auto].
  destruct (counter_of_key _); [|wp_simpl; auto].
  rewrite !wp_bind. eapply wp_mono; [apply write_counter_trace, Ht|]. cbn beta.
  intros _ s' Ht'. wp_simpl. auto.
Qed.

Lemma WriteMemCounters_trace F e pid proc_status cfg v w s :
  tracing cfg v w s ->
  wpf F (WriteMemCounters e pid proc_status) (fun ok s' =>
    ok = has_mem_counters proc_status /\ tracing cfg v (sv_mem pid proc_status w) s') s.
Proof.
  intros Ht. eapply wp_mono.
  { apply wp_conj with (Q' := fun _ s' => tracing cfg v (sv_mem pid proc_status w) s');
      [apply WriteMemCounters_view, Ht|].
    unfold WriteMemCounters. apply wp_bind.
    eapply wp_mono; [apply cache_entry_trace, Ht|]. cbn beta. intros _ s1 [_ Ht1].
    apply wp_bind. eapply wp_mono.
    { apply (wp_foldM_fold F (fun a x s' => fst a = fst x /\ tracing cfg v (snd x) s')
               (mem_fold_step (sv_mem_line pid)))
        with (v := (mem_init, sv_cache_entry pid w)); [|split; [reflexivity|exact Ht1]].
      intros a c [st w0] s0 _ [Hst Ht0]. cbn [fst snd] in Hst, Ht0. subst st.
      apply mem_char_step_trace, Ht0. }
    cbn beta. intros r s2 [_ Ht2]. wp_simpl. rewrite fold_mem_lines in Ht2. exact Ht2. }
  cbn beta. intros ok s' [[_ ->] Ht']. split; [reflexivity|exact Ht'].
Qed.

(** ** The scan of [WriteAllProcessStats] *)

Lemma mark_skip_stats pid_u s :
  wlp (mark_skip pid_u) (fun _ s' => stats_view s' = stats_view s) s.
Proof. unfold mark_skip. wp_run; [reflexivity|exact I]. Qed.

(** One pid of the scan, for the runs that return. *)
Lemma stats_body_stats e pids pid cfg v w s :
  tracing cfg v w s ->
  wlp (stats_body e pids pid) (fun _ s' =>
    stats_view s' = sv_stats_step cfg e (pids, tv_skip v) w pid) s.
Proof.
  intros Ht. unfold stats_body, sv_stats_step, skip_bit. cbn [snd].
  rewrite wp_bind, wp_modify, wp_bind, wp_get.
  assert (tracing cfg v (sv_close w) (with_cur_ps_stats_process_ None s)) as Ht0
    by (destruct Ht as [Hv <-]; split; [apply reset_process_view, Hv|reflexivity]).
  set (s1 := with_cur_ps_stats_process_ None s) in *.
  replace (skip_stats_for_pids_ s1) with (tv_skip v)
    by (destruct Ht0 as ((_ & _ & <-) & _); reflexivity).
  destruct (if _ <? _ then _ else _); [wp_simpl; apply Ht0|].
  destruct (ReadProcPidFile e pid (lit "status")) as [|b st] eqn:E; [wp_simpl; apply Ht0|].
  rewrite <- E. rewrite wp_bind.
  eapply wp_mono; [apply WriteMemCounters_trace, Ht0|]. cbn beta. intros ok s2 [-> Ht2].
  destruct (has_mem_counters _); cbn [negb].
  - rewrite !wp_bind. eapply wp_mono; [apply write_oom_score_adj_trace, Ht2|]. cbn beta.
    intros _ s3 Ht3. rewrite wp_bind. eapply wp_mono; [apply WriteFds_trace, Ht3|]. cbn beta.
    intros _ s4 Ht4. wp_simpl. apply Ht4.
  - rewrite wp_bind. eapply wp_mono; [apply mark_skip_stats|]. cbn beta.
    intros _ s3 Hs3. wp_simpl. rewrite Hs3. apply Ht2.
Qed.

Lemma stats_body_trace F e pids pid cfg v w s :
  F UndefinedBehaviour \/ (is_i32 pid /\ pid <> -1) ->
  tracing cfg v w s ->
  wpf F (stats_body e pids pid) (fun pids' s' =>
    let acc := stats_step e (pids, tv_skip v) pid in
    pids' = fst acc /\
    tracing cfg (mkTreeView (tv_entries v) (tv_seen v) (snd acc))
      (sv_stats_step cfg e (pids, tv_skip v) w pid) s') s.
Proof.
  intros HF Ht. eapply wp_mono.
  { apply wp_also; [apply stats_body_view; [exact HF|apply Ht]|].
    apply stats_body_stats, Ht. }
  cbn beta. intros pids' s' [[-> Hv] Hw]. repeat split; assumption || apply Hv.
Qed.

Lemma CacheProcFsScanStartTimestamp_at_rest F e cfg v w :
  preserves F (at_rest cfg v w) (CacheProcFsScanStartTimestamp e).
Proof.
  intros s [Hr <-]. apply wp_conj; [apply CacheProcFsScanStartTimestamp_resting, Hr|].
  eapply wp_mono; [apply CacheProcFsScanStartTimestamp_spec|]. cbn beta.
  intros _ s' (Ht & Hc & _ & Htr & _). apply stats_view_cursor; assumption.
Qed.

Lemma WriteAllProcessStats_trace F e cfg v w s :
  env_ok F e -> at_rest cfg v w s ->
  wpf F (WriteAllProcessStats e) (fun _ s' =>
    at_rest cfg (view_all_stats e v) (sv_all_stats cfg e v w) s') s.
Proof.
  intros [Hok Hpid] Hr. unfold WriteAllProcessStats, view_all_stats, sv_all_stats.
  apply wp_bind.
  eapply wp_mono; [apply CacheProcFsScanStartTimestamp_at_rest, Hr|]. cbn beta.
  intros _ s1 Hr1. destruct (OpenProcDir e) as [proc_dir|] eqn:Hdir; [|exact Hr1].
  apply wp_bind, wp_scan_dir. eapply wp_mono.
  { apply (wp_foldM_fold F (fun pids x s' =>
             pids = fst (fst x) /\
             tracing cfg (mkTreeView (tv_entries v) (tv_seen v) (snd (fst x))) (snd x) s')
             (along (stats_step e) (sv_stats_step cfg e)))
        with (v := ((set_empty, tv_skip v), w)).
    - intros pids pid [[pids0 skip] w0] s0 Hin [-> Ht0]. cbn [fst snd] in *.
      eapply wp_mono; [apply stats_body_trace; [|exact Ht0]|intros ? ? [? ?]; split; assumption].
      destruct Hpid as [HF|Hpid]; [left; exact HF|right]. split.
      + eapply Forall_forall; [apply numeric_dirs_i32|exact Hin].
      + intros ->. exact (Hpid _ eq_refl Hin).
    - split; [reflexivity|]. destruct v. apply at_rest_tracing, Hr1. }
  cbn beta. intros pids s2 [-> Ht2]. apply wp_bind.
  eapply wp_mono; [apply FinalizeCurPacket_trace, Ht2|]. cbn beta. intros _ s3 Hr3.
  eapply wp_mono; [apply WriteProcessTree_trace; [apply at_rest_tracing, Hr3|exact Hok]|].
  cbn beta zeta. intros _ s4. unfold trace_tree, view_tree.
  rewrite !fst_fold_along. exact id.
Qed.

Lemma Tick_trace F e cfg v w s :
  env_ok F e -> F UndefinedBehaviour \/ poll_period_ms_ cfg <> 0 ->
  at_rest cfg v w s ->
  wpf F (Tick e) (fun _ s' =>
    at_rest cfg (view_all_stats e v) (sv_age cfg (sv_all_stats cfg e v w)) s') s.
Proof.
  intros Hok Hperiod Hr. unfold Tick, PostTask. wp_run.
  - destruct Hperiod as [HF|Hne]; [exact HF|].
    destruct Hr as ((_ & <- & _) & _). apply Z.eqb_eq in Heqb. contradiction.
  - eapply wp_mono; [apply WriteAllProcessStats_trace; [exact Hok|exact Hr]|].
    cbn beta. intros _ s1 [Hr1 <-]. wp_run. unfold sv_age.
    change (sv_ticks (stats_view s1)) with (cache_ticks_ s1).
    replace (settings s1) with cfg by (symmetry; apply Hr1).
    destruct (tick_cache _ _) as [ticks []]; (split; [exact Hr1|reflexivity]).
Qed.

(** ** The scan of [WriteAllProcesses] *)

Lemma task_body_trace F e pid tid cfg v w s :
  nstids_ok F e -> tracing cfg v w s ->
  wpf F (task_body e pid tt tid) (fun _ s' =>
    tracing cfg (view_task e (record_thread_names_ cfg) pid v tid)
      (sv_task cfg e pid v w tid) s') s.
Proof.
  intros Hok Ht. unfold task_body, view_task, sv_task. destruct (tid =? pid); [exact Ht|].
  rewrite wp_bind, wp_get. rewrite (proj1 (proj2 (proj1 Ht))).
  destruct (record_thread_names_ cfg).
  - apply WriteProcessOrThread_trace; assumption.
  - apply WriteThread_trace; [exact Ht|apply Hok].
Qed.

Lemma proc_body_trace F e pid cfg v w s :
  nstids_ok F e -> tracing cfg v w s ->
  wpf F (proc_body e tt pid) (fun _ s' =>
    let vw := trace_proc cfg e (v, w) pid in tracing cfg (fst vw) (snd vw) s') s.
Proof.
  intros Hok Ht. unfold proc_body, trace_proc. apply wp_bind.
  eapply wp_mono; [apply WriteProcessOrThread_trace; eassumption|]. cbn beta zeta.
  intros _ s1 Ht1. destruct (task_dir (fs e) pid) as [dirp|]; [|exact Ht1].
  apply wp_scan_dir.
  apply (wp_foldM_fold F (fun _ vw s' => tracing cfg (fst vw) (snd vw) s')
           (along (view_task e (record_thread_names_ cfg) pid) (sv_task cfg e pid)));
    [|exact Ht1].
  intros [] tid [v0 w0] s0 _ Ht0. apply task_body_trace; assumption.
Qed.

Lemma fst_trace_proc cfg e vw pid :
  fst (trace_proc cfg e vw pid) = view_proc e (record_thread_names_ cfg) (fst vw) pid.
Proof.
  unfold trace_proc, view_proc. destruct (task_dir (fs e) pid); [|reflexivity].
  apply fst_fold_along.
Qed.

Lemma WriteAllProcesses_trace F e cfg v w s :
  nstids_ok F e -> at_rest cfg v w s ->
  wpf F (WriteAllProcesses e) (fun _ s' =>
    at_rest cfg (view_all_processes e (record_thread_names_ cfg) v)
      (sv_all_processes cfg e v w) s') s.
Proof.
  intros Hok Hr. unfold WriteAllProcesses, view_all_processes, sv_all_processes.
  apply wp_bind.
  eapply wp_mono; [apply CacheProcFsScanStartTimestamp_at_rest, Hr|]. cbn beta.
  intros _ s1 Hr1. destruct (OpenProcDir e) as [proc_dir|]; [|exact Hr1].
  rewrite <- (fst_fold_left _ (trace_proc cfg e) _ (v, w) (fst_trace_proc cfg e)).
  set (vw := fold_left _ _ _). apply wp_bind, wp_scan_dir. eapply wp_mono.
  { apply (wp_foldM_fold F (fun _ vw s' => tracing cfg (fst vw) (snd vw) s')
             (trace_proc cfg e)) with (v := (v, w)); [|apply at_rest_tracing, Hr1].
    intros [] pid [v0 w0] s0 _ Ht0. apply proc_body_trace; assumption. }
  cbn beta. fold vw. intros _ s2 Ht2. apply wp_bind.
  eapply wp_mono; [apply FinalizeCurPacket_trace, Ht2|]. cbn beta. intros _ s3 Hr3.
  rewrite wp_bind, wp_get. apply wp_bind.
  replace (seen_pids_ s3) with (tv_seen (fst vw))
    by (destruct Hr3 as ((_ & _ & <-) & _); reflexivity).
  eapply wp_mono.
  { apply (wp_foreach_fold F (fun w' s' => tracing cfg (fst vw) w' s') (sv_fds cfg e));
      [|apply at_rest_tracing, Hr3].
    intros pid w0 s0 _ Ht0. apply WriteFds_trace, Ht0. }
  cbn beta. intros _ s4 Ht4. apply FinalizeCurPacket_trace, Ht4.
Qed.

(** ** The handlers *)

Lemma Start_trace F e cfg v w s :
  nstids_ok F e -> at_rest cfg v w s ->
  wpf F (Start e) (fun _ s' =>
    at_rest cfg (abs_handle cfg e EvStart v) (sv_handle cfg e EvStart v w) s') s.
Proof.
  intros Hok Hr. unfold Start, PostTask. cbn [abs_handle sv_handle].
  rewrite wp_bind, wp_get, (proj1 (proj2 (proj1 Hr))), wp_bind.
  destruct (dump_all_procs_on_start_ cfg).
  - eapply wp_mono; [apply WriteAllProcesses_trace; eassumption|]. cbn beta.
    intros _ s1 Hr1. destruct (negb _); exact Hr1.
  - rewrite wp_ret. destruct (negb _); exact Hr.
Qed.

Lemma OnPids_trace F e pids cfg v w s :
  nstids_ok F e -> at_rest cfg v w s ->
  wpf F (OnPids e pids) (fun _ s' =>
    at_rest cfg (abs_handle cfg e (EvOnPids pids) v)
      (sv_handle cfg e (EvOnPids pids) v w) s') s.
Proof.
  intros Hok Hr. unfold OnPids. cbn [abs_handle sv_handle].
  rewrite wp_bind, wp_get, (proj1 (proj2 (proj1 Hr))).
  destruct (enable_on_demand_dumps_ cfg); cbn [negb]; [|exact Hr].
  eapply wp_mono; [apply WriteProcessTree_trace; [apply at_rest_tracing, Hr|exact Hok]|].
  cbn beta zeta. intros _ s1. unfold trace_tree, view_tree. rewrite fst_fold_along.
  exact id.
Qed.

Lemma OnRenamePids_trace F e pids cfg v w s :
  at_rest cfg v w s ->
  wpf F (OnRenamePids pids) (fun _ s' =>
    at_rest cfg (abs_handle cfg e (EvOnRenamePids pids) v) w s') s.
Proof.
  intros [Hr <-]. apply wp_conj; [apply OnRenamePids_view, Hr|].
  unfold OnRenamePids. rewrite wp_bind, wp_get.
  destruct (negb _); [reflexivity|].
  eapply wp_mono; [apply foreach_erase|]. cbn beta. intros _ s' ->. reflexivity.
Qed.

Lemma fds_body_trace F e pid_fds cfg v w s :
  tracing cfg v w s ->
  wpf F (fds_body e pid_fds) (fun _ s' => tracing cfg v (sv_fds_body e w pid_fds) s') s.
Proof.
  intros [Hv <-]. unfold fds_body, sv_fds_body. rewrite wp_bind, wp_modify.
  apply (wp_foreach_fold F (fun w' s' => tracing cfg v w' s') (sv_single_fd e (fst pid_fds))).
  - intros fd w0 s0 _ Ht0. apply WriteSingleFd_trace, Ht0.
  - split; [apply reset_process_view, Hv|reflexivity].
Qed.

Lemma OnFds_trace F e fds cfg v w s :
  at_rest cfg v w s ->
  wpf F (OnFds e fds) (fun _ s' => at_rest cfg v (sv_handle cfg e (EvOnFds fds) v w) s') s.
Proof.
  intros Hr. unfold OnFds. cbn [sv_handle].
  rewrite wp_bind, wp_get, (proj1 (proj2 (proj1 Hr))).
  destruct (resolve_process_fds_ cfg); cbn [negb]; [|exact Hr].
  apply wp_bind. eapply wp_mono.
  { apply (wp_foreach_fold F (fun w' s' => tracing cfg v w' s') (sv_fds_body e));
      [|apply at_rest_tracing, Hr].
    intros pid_fds w0 s0 _ Ht0. apply fds_body_trace, Ht0. }
  cbn beta. intros _ s1 Ht1. apply FinalizeCurPacket_trace, Ht1.
Qed.

(** Every handler implements [abs_handle] and [sv_handle]. *)
Lemma handle_trace F e ev cfg v w s :
  ev_ok F cfg (e, ev) -> at_rest cfg v w s ->
  wpf F (handle e ev) (fun _ s' =>
    at_rest cfg (abs_handle cfg e ev v) (sv_handle cfg e ev v w) s') s.
Proof.
  intros [[Hok Hpid] Htick] Hr. destruct ev; cbn [handle].
  - apply Start_trace; assumption.
  - apply Tick_trace; [split; assumption|apply Htick; reflexivity|exact Hr].
  - apply OnPids_trace; assumption.
  - apply OnRenamePids_trace, Hr.
  - apply OnFds_trace, Hr.
  - exact Hr.
  - destruct Hr as [(Hq & Hs & <-) <-]. repeat split; assumption || apply Hq.
Qed.

Lemma run_trace F evs cfg v w s :
  Forall (ev_ok F cfg) evs -> at_rest cfg v w s ->
  wpf F (run evs) (fun _ s' =>
    let vw := fold_left (trace_handle cfg) evs (v, w) in at_rest cfg (fst vw) (snd vw) s') s.
Proof.
  intros Hok Hr.
  apply (wp_foreach_fold F (fun vw s' => at_rest cfg (fst vw) (snd vw) s') (trace_handle cfg));
    [|exact Hr].
  intros [e ev] [v0 w0] s0 Hin Hr0. apply handle_trace; [|exact Hr0].
  eapply Forall_forall; eassumption.
Qed.

(** Between handlers the view shows the trace itself. *)
Lemma stats_view_quiescent s :
  quiescent s ->
  stats_view s = mkStatsView (trace_threads (trace s)) (tids_to_pids_ s)
                   (trace_stats (trace s)) false (process_stats_cache_ s) (cache_ticks_ s).
Proof.
  intros Hq. unfold stats_view, emitted_threads, emitted_stats.
  rewrite (cur_fields_quiescent _ Hq), !app_nil_r. destruct Hq as (_ & _ & _ & ->).
  reflexivity.
Qed.

(** ** One entry for the descriptors of every process *)

Lemma sv_cache_entry_one st pid w : one_entry st w -> one_entry st (sv_cache_entry pid w).
Proof. unfold sv_cache_entry. destruct (_ !! pid); auto. Qed.

Lemma sv_report_one st pid f g w : one_entry st w -> one_entry st (sv_report pid f g w).
Proof.
  unfold one_entry, sv_report, sv_touch. cbn. destruct (sv_open w) eqn:Ho; cbn; rewrite ?Ho.
  - intros [sp ->]. rewrite alter_end_snoc. eauto.
  - intros ->. rewrite alter_end_snoc. eauto.
Qed.

Lemma sv_single_fd_one st e tid w fd :
  one_entry st w -> one_entry st (sv_single_fd e tid w fd).
Proof.
  intros Hw. unfold sv_single_fd. destruct (set_count _ _); [apply sv_cache_entry_one, Hw|].
  destruct (readlink _ _ _ _); [apply sv_report_one|]; apply sv_cache_entry_one, Hw.
Qed.

Lemma sv_fds_one st cfg e w pid : one_entry st w -> one_entry st (sv_fds cfg e w pid).
Proof.
  intros Hw. unfold sv_fds. destruct (resolve_process_fds_ cfg); [|exact Hw].
  destruct (fd_dir _ _) as [entries|]; [|exact Hw].
  revert w Hw. induction entries as [|d entries IH]; intros w Hw; [exact Hw|].
  cbn [fold_left]. apply IH. unfold sv_fd_entry.
  destruct (fd_entry d); [apply sv_single_fd_one|]; exact Hw.
Qed.

(** The writers of the process tree append no stats entry. *)
Lemma sv_delta_stats cfg e v w pid : sv_stats (sv_delta cfg e v w pid) = sv_stats w.
Proof.
  unfold sv_delta. cbn zeta. destruct (_ || _); [reflexivity|].
  destruct (set_count _ _), (pid =? _); reflexivity.
Qed.

Lemma sv_task_stats cfg e pid v w tid : sv_stats (sv_task cfg e pid v w tid) = sv_stats w.
Proof.
  unfold sv_task. destruct (tid =? pid); [reflexivity|].
  destruct (record_thread_names_ cfg); [apply sv_delta_stats|reflexivity].
Qed.

Lemma trace_proc_stats cfg e vw pid :
  sv_stats (snd (trace_proc cfg e vw pid)) = sv_stats (snd vw).
Proof.
  unfold trace_proc. cbn zeta. destruct (task_dir _ _).
  - apply (snd_fold_along (fun w => sv_stats w = sv_stats (snd vw))).
    + intros v w x <-. apply sv_task_stats.
    + apply sv_delta_stats.
  - apply sv_delta_stats.
Qed.

(** [WriteAllProcesses] appends at most one stats entry. *)
Lemma sv_all_processes_one cfg e v w :
  exists l, sv_stats (sv_all_processes cfg e v w) = sv_stats w ++ l /\ (length l <= 1)%nat.
Proof.
  unfold sv_all_processes. destruct (OpenProcDir e) as [proc_dir|];
    [|exists []; rewrite app_nil_r; auto].
  cbn zeta. set (vw := fold_left _ (numeric_dirs proc_dir) _).
  assert (sv_stats (snd vw) = sv_stats w) as Hvw.
  { subst vw. generalize (numeric_dirs proc_dir). intros l.
    change w with (snd (v, w)) at 2. generalize (v, w).
    induction l as [|pid l IH]; intros vw; [reflexivity|].
    cbn [fold_left]. rewrite IH. apply trace_proc_stats. }
  assert (forall pids w1, one_entry (sv_stats w) w1 ->
            one_entry (sv_stats w) (fold_left (sv_fds cfg e) pids w1)) as Hfold.
  { induction pids as [|pid pids IH]; intros w1 Hw1; [exact Hw1|].
    cbn [fold_left]. apply IH, sv_fds_one, Hw1. }
  specialize (Hfold (set_elements (tv_seen (fst vw))) (sv_close (snd vw)) Hvw).
  unfold one_entry in Hfold. cbn [sv_close sv_stats].
  destruct (sv_open _); [destruct Hfold as [sp ->]; exists [sp]|exists []];
    rewrite ?app_nil_r; auto.
Qed.

(** * Theorems *)

(** C6. The threads, the stats entries and the cache are a function of
    the events and of /proc: from a state between handlers, when the
    snapshots cause no fault, every run of handlers returns between
    handlers, and the thread entries and stats entries of the trace,
    [tids_to_pids_], [process_stats_cache_] and [cache_ticks_] are
    those [sv_run] computes from the events and their snapshots alone.
    In it the packet and the three pointers are a list of entries: a
    value that differs from the cached one is written to the last
    entry, after an entry for the pid has been appended unless one is
    open, and is recorded in the cache; an entry is closed at the start
    of each pid of a scan, by every write to the process tree and when
    the packet is finalized. *)
Theorem run_refines_stats evs s :
  quiescent s -> Forall (ev_ok no_fault (settings s)) evs ->
  exists s', run evs s = Ok tt s' /\ quiescent s' /\
    stats_view s' = sv_run (settings s) evs (tree_view s) (stats_view s).
Proof.
  intros Hq Hok.
  pose proof (run_trace no_fault evs (settings s) (tree_view s) (stats_view s) s Hok) as Hwp.
  apply wp_exec in Hwp as ([] & s' & Hrun & (Hq' & _) & Hw); [eauto|].
  split; [|reflexivity]. split; [exact Hq|split; reflexivity].
Qed.

(** C35. On start the descriptors of every process are reported under
    one process: whatever the number of processes in /proc and of
    their open descriptors, [Start] returns having added at most one
    stats entry to the trace.  The loop over [seen_pids_] at the end of
    [WriteAllProcesses] does not reset [cur_ps_stats_process_] between
    pids, as the loops of [WriteAllProcessStats] and [OnFds] do, so
    that every descriptor is written to the entry of the first pid that
    reports one. *)
Theorem Start_stats_one_entry e s :
  quiescent s -> nstids_ok no_fault e ->
  exists s', Start e s = Ok tt s' /\ quiescent s' /\
    exists l, trace_stats (trace s') = trace_stats (trace s) ++ l /\ (length l <= 1)%nat.
Proof.
  intros Hq Hok.
  pose proof (Start_trace no_fault e (settings s) (tree_view s) (stats_view s) s Hok) as Hwp.
  apply wp_exec in Hwp as ([] & s' & Hrun & (Hq' & _) & Hw);
    [|split; [|reflexivity]; split; [exact Hq|split; reflexivity]].
  exists s'. split; [exact Hrun|]. split; [exact Hq'|].
  apply (f_equal sv_stats) in Hw. rewrite (stats_view_quiescent s' Hq') in Hw.
  cbn [sv_stats sv_handle] in Hw. rewrite Hw.
  replace (trace_stats (trace s)) with (sv_stats (stats_view s))
    by (rewrite (stats_view_quiescent s Hq); reflexivity).
  destruct (dump_all_procs_on_start_ _); [apply sv_all_processes_one|].
  exists []. rewrite app_nil_r. auto.
Qed.

End Stats.
