(* ===== verification/Polling.v ===== *)
(** * Polling: the settings, the delay of Tick and the cache clock

    The arithmetic of the constructor ([make_settings]) and of [Tick]
    ([tick_delay], [tick_cache]) on 32-bit unsigned integers, and what
    it implies for the knobs of a run ([run_knobs]). *)

From Stdlib Require Import ZArith List Lia.
From stdpp Require Import base option list gmap.
From S2P Require Import Prelude CxxString FlatSet TraceProto ProcFs StatusParse.
From S2P Require Import ProcessStats PacketCursor Handlers.

#[local] Open Scope Z_scope.

(** The configuration fields are [uint32]. *)
Definition cfg_wf (cfg : ProcessStatsConfig) : Prop :=
  is_u32 (cfg_proc_stats_poll_ms cfg) /\ is_u32 (cfg_proc_stats_cache_ttl_ms cfg).

(** The settings a constructor can produce: polling is off, or the
    period is at least 100 ms and the cache lives at least one tick. *)
Definition settings_wf (st : Settings) : Prop :=
  (poll_period_ms_ st = 0 /\ process_stats_cache_ttl_ticks_ st = 0) \/
  (100 <= poll_period_ms_ st < 2 ^ 32 /\
   1 <= process_stats_cache_ttl_ticks_ st < 2 ^ 32).

(** The tick counter is below the time to live, when polling is on. *)
Definition ticks_wf (k : Knobs) : Prop :=
  0 <= k_ticks k /\
  (poll_period_ms_ (k_settings k) <> 0 ->
   k_ticks k < process_stats_cache_ttl_ticks_ (k_settings k)).

(** The wall-clock time at which the task [Tick] posts is due. *)
Definition next_tick_ms (period_ms now_ms : Z) : Z :=
  now_ms + tick_delay period_ms now_ms.

(** * Lemmas *)

Lemma tick_cache_range ticks ttl :
  0 <= ticks < ttl -> ttl < 2 ^ 32 ->
  0 <= fst (tick_cache ticks ttl) < ttl /\
  (snd (tick_cache ticks ttl) = true <-> ticks + 1 = ttl).
Proof.
  intros Ht Httl. unfold tick_cache.
  rewrite wrap_u32_small by (unfold is_u32; lia).
  destruct (Z.eqb_spec (ticks + 1) ttl); cbn; split; try lia; split; congruence || lia.
Qed.

Lemma next_knobs_ticks_wf {SetT} e (ev : Event SetT) k :
  settings_wf (k_settings k) -> ticks_wf k -> ticks_wf (next_knobs e ev k).
Proof.
  intros Hs [H0 Ht]. destruct ev; cbn [next_knobs]; try (split; assumption).
  - destruct (negb _); split; assumption.
  - unfold ticks_wf. cbn [k_ticks k_settings].
    destruct Hs as [[Hp Httl]|[Hp Httl]].
    + rewrite Httl, Hp. unfold tick_cache.
      destruct (Z.eqb_spec (wrap_u32 (k_ticks k + 1)) 0); cbn; split; try lia.
      pose proof (wrap_u32_range (k_ticks k + 1)) as Hr. unfold is_u32 in Hr. lia.
    + specialize (Ht ltac:(lia)).
      pose proof (tick_cache_range (k_ticks k) _ (conj H0 Ht) (proj2 Httl)). lia.
  - unfold ticks_wf. cbn [k_ticks k_settings]. split; [lia|]. intros Hp.
    destruct Hs as [[Hp' _]|[_ Httl]]; [contradiction|lia].
Qed.

Lemma fold_quirks l acc :
  fold_left (fun acc quirk => if bool_decide (quirk = DISABLE_ON_DEMAND) then false else acc)
            l acc = false <->
  acc = false \/ DISABLE_ON_DEMAND ∈ l.
Proof.
  revert acc. induction l as [|q l IH]; intros acc; cbn [fold_left].
  - split; [auto|intros [|Hin]; [assumption|inversion Hin]].
  - rewrite IH, elem_of_cons. destruct (bool_decide_reflect (q = DISABLE_ON_DEMAND)).
    + split; auto.
    + split; [tauto|intros [|[|]]; auto; congruence].
Qed.

Lemma settings_wf_make cfg : cfg_wf cfg -> settings_wf (make_settings cfg).
Proof.
  intros [Hp Ht]. unfold is_u32 in *. unfold settings_wf, make_settings. cbn.
  set (p := cfg_proc_stats_poll_ms cfg) in *. set (t := cfg_proc_stats_cache_ttl_ms cfg) in *.
  destruct (Z.ltb_spec 0 p), (Z.ltb_spec p 100); cbn.
  - right. change (0 <? 100) with true. cbn. split; [lia|].
    pose proof (Z.div_pos t 100). pose proof (Z.div_le_upper_bound t 100 t). lia.
  - right. destruct (Z.ltb_spec 0 p); [|lia]. split; [lia|].
    pose proof (Z.div_pos t p). pose proof (Z.div_le_upper_bound t p t). nia.
  - left. destruct (Z.ltb_spec 0 p); lia.
  - lia.
Qed.

(** * Theorems *)

(** The constructor's arithmetic: for a configuration of 32-bit
    fields, either polling is off (period 0, and the time to live is
    0), or the period is at least 100 ms, below 2^32, and the cache
    lives at least one tick; a requested period between 1 and 99 ms is
    raised to 100 ms and any other is kept; and on-demand dumps are
    enabled unless the quirk DISABLE_ON_DEMAND is listed. *)
Lemma make_settings_wf cfg :
  cfg_wf cfg ->
  settings_wf (make_settings cfg) /\
  poll_period_ms_ (make_settings cfg) =
    (if (0 <? cfg_proc_stats_poll_ms cfg) && (cfg_proc_stats_poll_ms cfg <? 100)
     then 100 else cfg_proc_stats_poll_ms cfg) /\
  (enable_on_demand_dumps_ (make_settings cfg) = false <->
   DISABLE_ON_DEMAND ∈ cfg_quirks cfg).
Proof.
  intros Hcfg. split; [apply settings_wf_make, Hcfg|]. split; [reflexivity|].
  unfold make_settings. cbn [enable_on_demand_dumps_].
  rewrite fold_quirks. split; [intros [|]; [discriminate|assumption]|auto].
Qed.

(** C34. The delay [Tick] asks for ends the current period: for a
    period of 32 bits that is not 0 and a wall clock that is not
    negative, the delay is at least 1 ms, at most one period, and the
    next tick falls on a multiple of the period. *)
Theorem tick_delay_aligned period_ms now_ms :
  0 < period_ms < 2 ^ 32 -> 0 <= now_ms ->
  1 <= tick_delay period_ms now_ms <= period_ms /\
  next_tick_ms period_ms now_ms mod period_ms = 0.
Proof.
  intros Hp Hn. unfold next_tick_ms, tick_delay.
  rewrite Z.rem_mod_nonneg by lia.
  pose proof (Z.mod_pos_bound now_ms period_ms ltac:(lia)) as Hm.
  rewrite (wrap_u32_small (now_ms mod period_ms)) by (unfold is_u32; lia).
  rewrite wrap_u32_small by (unfold is_u32; lia). split; [lia|].
  rewrite (Z.div_mod now_ms period_ms) at 1 by lia.
  replace (period_ms * (now_ms / period_ms) + now_ms mod period_ms +
           (period_ms - now_ms mod period_ms))
    with ((now_ms / period_ms + 1) * period_ms) by lia.
  apply Z.mod_mul. lia.
Qed.

(** The cache clock of a run: with settings made by the
    constructor from a 32-bit configuration, the tick counter computed
    by [run_knobs] stays below the time to live through any sequence of
    events, so the comparison [++cache_ticks_ == ttl] is never missed
    and the cache is cleared every [ttl] ticks. *)
Lemma run_knobs_ticks_wf {SetT} cfg (evs : list (Env * Event SetT)) k :
  cfg_wf cfg -> k_settings k = make_settings cfg -> ticks_wf k ->
  ticks_wf (run_knobs evs k) /\ k_settings (run_knobs evs k) = make_settings cfg.
Proof.
  intros Hcfg. revert k. induction evs as [|[e ev] evs IH]; intros k Hk Ht; [auto|].
  cbn [run_knobs fold_left]. apply IH.
  - rewrite next_knobs_settings. exact Hk.
  - apply next_knobs_ticks_wf; [rewrite Hk; apply settings_wf_make, Hcfg|exact Ht].
Qed.
