(* ===== verification/TraceShape.v ===== *)
(** * The shape of the trace and the incremental state

    Every packet the data source releases carries a timestamp and
    exactly one message, a process tree or process stats, closed with
    its collection end timestamp; every counter of a stats entry fits
    [uint32], every [oom_score_adj] fits [int32] and every path of a
    descriptor fits the buffer it was read into.  [packet_typed] states
    this of a packet.  The handlers keep it because they write in
    phases: between two calls of [FinalizeCurPacket] only trees, or
    only stats, are written.  [shaped T ph] is the invariant of a
    phase and [rest T] the invariant between handlers, for a property
    [T] of the trace and of the flag the next packet will carry;
    [shaped_rest] is [rest] for the typing of every packet.

    The data source handles incremental state: after
    [ClearIncrementalState] the first packet released, and no other,
    carries [incremental_state_cleared].  [announce] is the flag of the
    packet that is open or will be opened next.  A handler leaves
    [handler_marks] on the trace: the kinds of the packets it can
    release and, for [ClearIncrementalState], the request to announce
    it.  [emits b ks new b'] says that the packets [new] are what the
    marks [ks] allow when the announcement is pending as [b] says, and
    that it is pending afterwards as [b'] says.

    Incremental state is sound when a reader who has only the [epoch],
    the packets from the last announcement on, misses nothing:
    [covered] says that every id of [seen_pids_], which the data source
    will not describe again, is among [epoch_ids], the ids the
    process and thread entries of the epoch describe.  Both invariants
    hold it. *)

From Stdlib Require Import ZArith List Ascii String Lia.
From stdpp Require Import base option list gmap.
From S2P Require Import Prelude CxxString FlatSet TraceProto ProcFs StatusParse.
From S2P Require Import ProcessStats PacketCursor Handlers.

#[local] Open Scope Z_scope.
#[local] Open Scope m_scope.

(** What is being written between two calls of [FinalizeCurPacket]. *)
Inductive Phase : Type := TreePhase | StatsPhase.

(** A timestamp that is set, to a [uint64]. *)
Definition stamped (ts : option Z) : Prop := exists t, ts = Some t /\ is_u64 t.

Definition stats_typed (sp : StatsProcess) : Prop :=
  (forall c v, get_counter c (sp_counters sp) = Some v -> is_u32 v) /\
  (forall v, sp_oom_score_adj sp = Some v -> is_i32 v) /\
  Forall (fun f => (length (fd_path f) <= 256)%nat) (sp_fds sp).

(** A message of a packet; when [closed], its end timestamp is set. *)
Definition field_typed (closed : bool) (x : PacketField) : Prop :=
  match x with
  | ProcessTreeField t => closed = true -> stamped (tree_collection_end_timestamp t)
  | ProcessStatsField st =>
      Forall stats_typed (stats_processes st) /\
      (closed = true -> stamped (stats_collection_end_timestamp st))
  end.

Definition packet_typed (p : TracePacket) : Prop :=
  stamped (timestamp p) /\ exists x, fields p = [x] /\ field_typed true x.

(** The kind of a packet: that of its one message. *)
Definition packet_phase (p : TracePacket) : option Phase :=
  match fields p with
  | [ProcessTreeField _] => Some TreePhase
  | [ProcessStatsField _] => Some StatsPhase
  | _ => None
  end.

(** A packet as a phase releases it: typed, and of the kind of the
    phase. *)
Definition well_sent (p : TracePacket) (ph : Phase) : Prop :=
  packet_typed p /\ packet_phase p = Some ph.

(** What a handler leaves on the trace: a packet of a kind, or the
    request to announce that the incremental state was cleared. *)
Inductive Mark : Type := Sent (ph : Phase) | Cleared.

(** The packets the marks allow.  A packet may be missing: a phase that
    writes nothing releases none.  A packet that is sent carries the
    flag exactly when the announcement is pending, and settles it. *)
Inductive emits : bool -> list Mark -> list TracePacket -> bool -> Prop :=
  | emits_nil b : emits b [] [] b
  | emits_skip b ph ks new b' :
      emits b ks new b' -> emits b (Sent ph :: ks) new b'
  | emits_sent ph ks p new b' :
      well_sent p ph -> emits false ks new b' ->
      emits (incremental_state_cleared p) (Sent ph :: ks) (p :: new) b'
  | emits_cleared b ks new b' :
      emits true ks new b' -> emits b (Cleared :: ks) new b'.

(** The ids a packet describes: the pids of its process entries and
    the tids of its thread entries. *)
Definition field_ids (x : PacketField) : list Z :=
  map p_pid (field_tree_processes x) ++ map t_tid (field_tree_threads x).

Definition packet_ids (p : TracePacket) : list Z :=
  concat (map field_ids (fields p)).

(** The packets a reader of the trace still needs: those from the last
    one that announces that the incremental state was cleared. *)
Definition epoch (tr : list TracePacket) : list TracePacket :=
  fold_left (fun acc p => if incremental_state_cleared p then [p] else acc ++ [p]) tr [].

Definition epoch_ids (tr : list TracePacket) : list Z :=
  concat (map packet_ids (epoch tr)).

(** The kinds of the packets among the marks. *)
Definition sent_kinds (ks : list Mark) : list Phase :=
  omap (fun k => match k with Sent ph => Some ph | Cleared => None end) ks.

(** The message of the open packet is of the kind of the phase, and
    the pointer of that kind addresses it. *)
Definition in_phase (ph : Phase) (x : PacketField) (tree stats : option nat) : Prop :=
  match ph with
  | TreePhase => is_tree x = true /\ tree = Some 0%nat
  | StatsPhase => is_stats x = true /\ stats = Some 0%nat
  end.

Section Shape.
Context {SetT : Type} `{IntSet SetT}.
Implicit Types (s : State SetT) (e : Env).

(** The flag of the packet that is open, or of the one that will be
    opened next. *)
Definition announce s : bool :=
  match cur_packet_ s with
  | Some p => incremental_state_cleared p
  | None => did_clear_incremental_state_ s
  end.

(** The open packet, if any, has a timestamp and one message of the
    kind of the phase, and has taken the announcement over; without a
    packet the pointer of the phase is null, so that the next write
    opens one. *)
Definition open_ok (ph : Phase) s : Prop :=
  match cur_packet_ s with
  | None =>
      match ph with
      | TreePhase => cur_ps_tree_ s = None
      | StatsPhase => cur_ps_stats_ s = None
      end
  | Some p =>
      did_clear_incremental_state_ s = false /\ stamped (timestamp p) /\
      exists x, fields p = [x] /\ field_typed false x /\
                in_phase ph x (cur_ps_tree_ s) (cur_ps_stats_ s)
  end.

(** The ids described to a reader who has only the packets of the
    epoch, the open packet included: none when the next packet is to
    announce a clearing. *)
Definition known s : list Z :=
  match cur_packet_ s with
  | Some p => epoch_ids (trace s ++ [p])
  | None => if did_clear_incremental_state_ s then [] else epoch_ids (trace s)
  end.

(** Every id of [seen_pids_], which will not be described again, is
    described in the epoch. *)
Definition covered s : Prop :=
  forall pid, set_count pid (seen_pids_ s) = true -> pid ∈ known s.

(** The invariant of a phase, for a property [T] of the trace and of
    the flag of the next packet. *)
Definition shaped (T : list TracePacket -> bool -> Prop) (ph : Phase) s : Prop :=
  T (trace s) (announce s) /\ is_u64 (cur_procfs_scan_start_timestamp_ s) /\
  open_ok ph s /\ covered s.

(** The invariant between handlers. *)
Definition rest (T : list TracePacket -> bool -> Prop) s : Prop :=
  T (trace s) (announce s) /\ is_u64 (cur_procfs_scan_start_timestamp_ s) /\
  quiescent s /\ covered s.

Definition shaped_rest s : Prop := rest (fun tr _ => Forall packet_typed tr) s.

(** [T'] holds where [T] holds, and of a trace of which [T] holds with
    one more packet, typed, of the kind [ph] and carrying the flag that
    was due; no flag is due after it. *)
Definition extends (ph : Phase) (T T' : list TracePacket -> bool -> Prop) : Prop :=
  (forall tr b, T tr b -> T' tr b) /\
  (forall tr p, T tr (incremental_state_cleared p) -> well_sent p ph ->
                T' (tr ++ [p]) false).

(** The trace is [tr0] followed by the packets the marks [ks] allow
    when the announcement is pending as [b0] says. *)
Definition released (tr0 : list TracePacket) (b0 : bool) (ks : list Mark)
    (tr : list TracePacket) (b : bool) : Prop :=
  exists new, tr = tr0 ++ new /\ emits b0 ks new b.

(** What a handler leaves on the trace. *)
Definition handler_marks (ev : Event SetT) : list Mark :=
  match ev with
  | EvStart => [Sent TreePhase; Sent StatsPhase]
  | EvTick => [Sent StatsPhase; Sent TreePhase]
  | EvOnPids _ => [Sent TreePhase]
  | EvOnFds _ => [Sent StatsPhase]
  | EvOnRenamePids _ | EvFlush => []
  | EvClearIncrementalState => [Cleared]
  end.

(** What a run leaves on the trace. *)
Definition run_marks (evs : list (Env * Event SetT)) : list Mark :=
  concat (map (fun x => handler_marks (snd x)) evs).

(** * Lemmas *)

(** ** Typed writes *)

Lemma new_stats_process_typed pid : stats_typed (new_stats_process pid).
Proof.
  split; [|split; [discriminate|constructor]].
  intros c v. cbn. rewrite get_counters_all. discriminate.
Qed.

Lemma sp_set_counter_typed c v sp :
  is_u32 v -> stats_typed sp -> stats_typed (sp_set_counter c v sp).
Proof.
  intros Hv (Hc & Ho & Hf). split; [|split; assumption]. intros c' v'. cbn.
  destruct (decide (c = c')) as [->|Hne].
  - rewrite get_set_counter_same. intros [= <-]. exact Hv.
  - rewrite get_set_counter_other by exact Hne. apply Hc.
Qed.

Lemma sp_set_oom_score_adj_typed v sp :
  is_i32 v -> stats_typed sp -> stats_typed (sp_set_oom_score_adj v sp).
Proof.
  intros Hv (Hc & Ho & Hf). split; [exact Hc|]. split; [|exact Hf].
  cbn. intros v' [= <-]. exact Hv.
Qed.

Lemma sp_add_fd_typed fd path sp :
  (length path <= 256)%nat -> stats_typed sp -> stats_typed (sp_add_fd (mkFdInfo fd path) sp).
Proof.
  intros Hp (Hc & Ho & Hf). split; [exact Hc|]. split; [exact Ho|].
  cbn. apply Forall_app. split; [exact Hf|]. constructor; [exact Hp|constructor].
Qed.

Lemma ToU32_range str : is_u32 (ToU32 str).
Proof. apply wrap_u32_range. Qed.

Lemma ToInt_range str : is_i32 (ToInt str).
Proof. apply atoi_range. Qed.

(** ** The epoch *)

Lemma app_subseteq {A} (l1 l1' l2 l2' : list A) :
  l1 ⊆ l1' -> l2 ⊆ l2' -> l1 ++ l2 ⊆ l1' ++ l2'.
Proof.
  intros H1 H2 x. rewrite !elem_of_app.
  intros [Hx|Hx]; [left; apply H1|right; apply H2]; exact Hx.
Qed.

Lemma epoch_ids_snoc tr p :
  epoch_ids (tr ++ [p]) =
  if incremental_state_cleared p then packet_ids p else epoch_ids tr ++ packet_ids p.
Proof.
  unfold epoch_ids, epoch. rewrite fold_left_app. cbn.
  destruct (incremental_state_cleared p); cbn; [apply app_nil_r|].
  rewrite map_app, concat_app. cbn. rewrite app_nil_r. reflexivity.
Qed.

Lemma epoch_ids_last tr p pid : pid ∈ packet_ids p -> pid ∈ epoch_ids (tr ++ [p]).
Proof.
  rewrite epoch_ids_snoc. destruct (incremental_state_cleared p); [auto|].
  intros Hp. apply elem_of_app. right. exact Hp.
Qed.

(** A packet with the same flag that describes at least the same
    ids. *)
Lemma epoch_ids_mono tr p p' :
  incremental_state_cleared p' = incremental_state_cleared p ->
  packet_ids p ⊆ packet_ids p' -> epoch_ids (tr ++ [p]) ⊆ epoch_ids (tr ++ [p']).
Proof.
  intros Hf Hsub. rewrite !epoch_ids_snoc, Hf.
  destruct (incremental_state_cleared p); [exact Hsub|apply app_subseteq; auto].
Qed.

Lemma packet_ids_alter g i p :
  (forall x, field_ids x ⊆ field_ids (g x)) -> packet_ids p ⊆ packet_ids (alter_field g i p).
Proof.
  intros Hg. unfold packet_ids. cbn [fields alter_field]. revert i.
  induction (fields p) as [|x l IH]; intros [|i]; cbn; [reflexivity..| |];
    apply app_subseteq; auto.
Qed.

Lemma packet_ids_add x p : packet_ids p ⊆ packet_ids (add_field x p).
Proof.
  unfold packet_ids. cbn. rewrite map_app, concat_app. apply list_subseteq_app_l. reflexivity.
Qed.

Lemma on_stats_ids f x : field_ids x ⊆ field_ids (on_stats f x).
Proof. destruct x; reflexivity. Qed.

(** A write to the open packet that keeps its flag and the ids it
    describes. *)
Lemma covered_upd_packet f s :
  (forall p, incremental_state_cleared (f p) = incremental_state_cleared p /\
             packet_ids p ⊆ packet_ids (f p)) ->
  covered s -> covered (upd_packet f s).
Proof.
  intros Hf Hc pid Hpid. specialize (Hc pid Hpid). revert Hc.
  unfold known, upd_packet. st_simpl.
  destruct (cur_packet_ s) as [p|]; cbn [fmap option_fmap option_map]; [|auto].
  destruct (Hf p) as [Hflag Hsub]. apply (epoch_ids_mono _ _ _ Hflag Hsub).
Qed.

Lemma covered_alter_field g i s :
  (forall x, field_ids x ⊆ field_ids (g x)) ->
  covered s -> covered (upd_packet (alter_field g i) s).
Proof.
  intros Hg. apply covered_upd_packet. intros p.
  split; [reflexivity|apply packet_ids_alter, Hg].
Qed.

(** [announce_same s]: the state of the goal has the packet flag and
    the pending announcement of [s]. *)
Ltac announce_same s :=
  match goal with
  | |- context [announce ?x] =>
      replace (announce x) with (announce s)
        by (unfold announce, upd_packet; st_norm; destruct (cur_packet_ s); reflexivity)
  end.

Section Writers.
Variable T : list TracePacket -> bool -> Prop.

(** ** The open packet *)

Lemma quiescent_open_ok ph s : quiescent s -> open_ok ph s.
Proof. intros (Hp & Ht & Hs & _). unfold open_ok. rewrite Hp. destruct ph; assumption. Qed.

(** A write to the open packet that keeps its flag keeps the
    announcement. *)
Lemma announce_upd_packet f s :
  (forall p, incremental_state_cleared (f p) = incremental_state_cleared p) ->
  announce (upd_packet f s) = announce s.
Proof.
  intros Hf. unfold announce, upd_packet. st_simpl.
  destruct (cur_packet_ s); cbn; [apply Hf|reflexivity].
Qed.

Lemma announce_quiescent s : quiescent s -> announce s = did_clear_incremental_state_ s.
Proof. intros (Hp & _). unfold announce. rewrite Hp. reflexivity. Qed.

Lemma rest_shaped ph s : rest T s -> shaped T ph s.
Proof.
  intros (Ht & Hts & Hq & Hc). split; [exact Ht|]. split; [exact Hts|].
  split; [apply quiescent_open_ok, Hq|exact Hc].
Qed.

(** A write to the message of the open packet that keeps its kind and
    its type. *)
Lemma alter_field_shaped g i ph s :
  (forall x, field_typed false x -> field_typed false (g x)) ->
  (forall x, is_tree (g x) = is_tree x /\ is_stats (g x) = is_stats x) ->
  (forall x, field_ids x ⊆ field_ids (g x)) ->
  shaped T ph s -> shaped T ph (upd_packet (alter_field g i) s).
Proof.
  intros Hty Hkind Hids (Htr & Hts & Ho & Hc).
  split; [rewrite announce_upd_packet by reflexivity; exact Htr|]. split; [exact Hts|].
  split; [|apply covered_alter_field; assumption].
  unfold open_ok, upd_packet in *. st_simpl.
  destruct (cur_packet_ s) as [p|]; cbn [fmap option_fmap option_map]; [|exact Ho].
  destruct Ho as (Hd & Hst & x & Hf & Hx & Hph). split; [exact Hd|]. split; [exact Hst|].
  cbn [fields alter_field].
  rewrite Hf. destruct i; cbn; [|eauto]. exists (g x). split; [reflexivity|].
  split; [apply Hty, Hx|]. destruct (Hkind x) as [Ht Hs].
  destruct ph; cbn [in_phase] in *; rewrite ?Ht, ?Hs; exact Hph.
Qed.

Lemma alter_tree_shaped f i ph s :
  (forall t, field_ids (ProcessTreeField t) ⊆ field_ids (ProcessTreeField (f t))) ->
  shaped T ph s -> shaped T ph (upd_packet (alter_tree f i) s).
Proof.
  intros Hf. apply alter_field_shaped; intros [t|st]; cbn; auto; [intros _ [=]|apply Hf].
Qed.

Lemma alter_stats_process_shaped f i j ph s :
  (forall sp, stats_typed sp -> stats_typed (f sp)) ->
  shaped T ph s -> shaped T ph (upd_packet (alter_stats_process f i j) s).
Proof.
  intros Hf. apply alter_field_shaped; [| |apply on_stats_ids]; intros [t|st]; cbn; auto.
  intros [Hl _]. split; [|intros [=]]. apply Forall_alter; [exact Hl|].
  intros sp _. apply Hf.
Qed.

(** ** The packet operations *)

Lemma CacheProcFsScanStartTimestamp_shaped F e ph :
  preserves F (shaped T ph) (CacheProcFsScanStartTimestamp e).
Proof.
  intros s (Ht & Hts & Ho). apply wp_CacheProcFsScanStartTimestamp.
  destruct (_ =? 0); cbn zeta; (split; [exact Ht|split; [|exact Ho]]);
    [apply wrap_u64_range|exact Hts].
Qed.

(** An empty packet that is opened with the flag that is due describes
    nothing and leaves no announcement pending. *)
Lemma covered_opened s s' ts :
  cur_packet_ s = None -> seen_pids_ s' = seen_pids_ s -> trace s' = trace s ->
  cur_packet_ s' = Some (mkTracePacket ts (did_clear_incremental_state_ s) []) ->
  covered s -> covered s'.
Proof.
  intros Hp Hseen Htr Hp' Hc pid Hpid. rewrite Hseen in Hpid. specialize (Hc pid Hpid).
  revert Hc. unfold known. rewrite Hp, Hp', Htr, epoch_ids_snoc. cbn.
  destruct (did_clear_incremental_state_ s); [auto|]. rewrite app_nil_r. auto.
Qed.

(** An open packet is kept; otherwise an empty one is opened, stamped
    with the start of the scan, and it takes the announcement over. *)
Lemma StartNewPacketIfNeeded_shape F e s :
  is_u64 (cur_procfs_scan_start_timestamp_ s) ->
  wpf F (StartNewPacketIfNeeded e) (fun _ s' =>
    trace s' = trace s /\ announce s' = announce s /\ (covered s -> covered s') /\
    is_u64 (cur_procfs_scan_start_timestamp_ s') /\
    cur_ps_tree_ s' = cur_ps_tree_ s /\ cur_ps_stats_ s' = cur_ps_stats_ s /\
    match cur_packet_ s with
    | Some p =>
        cur_packet_ s' = Some p /\
        did_clear_incremental_state_ s' = did_clear_incremental_state_ s
    | None =>
        did_clear_incremental_state_ s' = false /\
        exists p, cur_packet_ s' = Some p /\ stamped (timestamp p) /\ fields p = []
    end) s.
Proof.
  intros Hts. unfold StartNewPacketIfNeeded. rewrite wp_bind, wp_get. unfold announce.
  destruct (cur_packet_ s) as [p|] eqn:Hp; wp_simpl; [rewrite Hp; auto 10|].
  rewrite wp_CacheProcFsScanStartTimestamp. st_simpl.
  destruct (_ =? 0); cbn zeta; wp_run; unfold upd_packet; st_simpl; cbn;
    rewrite ?Heqb;
    repeat (split; [solve [reflexivity|exact Hts|apply wrap_u64_range|
                           intros Hc; eapply covered_opened;
                           [exact Hp|reflexivity|reflexivity| |exact Hc];
                           rewrite Heqb; reflexivity]|]);
    eexists; (split; [reflexivity|]); (split; [|reflexivity]); eexists;
    (split; [reflexivity|]); exact Hts || apply wrap_u64_range.
Qed.

Lemma covered_add_field x s : covered s -> covered (upd_packet (add_field x) s).
Proof.
  apply covered_upd_packet. intros p. split; [reflexivity|apply packet_ids_add].
Qed.

(** The pointer returned addresses the one message of the open
    packet. *)
Lemma GetOrCreatePsTree_at F e s :
  shaped T TreePhase s ->
  wpf F (GetOrCreatePsTree e) (fun i s' =>
    shaped T TreePhase s' /\ i = 0%nat /\ is_Some (cur_packet_ s')) s.
Proof.
  intros (Ht & Hts & Ho & Hc). unfold GetOrCreatePsTree, set_process_tree.
  wp_step StartNewPacketIfNeeded_shape; [exact Hts|].
  destruct H0 as (Htr & Han & Hc' & Hts' & Hpt & Hps & Hp). unfold open_ok in Ho.
  wp_run; unfold shaped; st_norm; announce_same s'; rewrite Htr, Han.
  all: destruct (cur_packet_ s) as [p|];
    [destruct Hp as (Hp & Hd)|destruct Hp as (Hd & p & Hp & Hst & Hf)].
  2: congruence.
  2: destruct Ho as (_ & _ & x & _ & _ & _ & Hi); congruence.
  - destruct Ho as (Hd0 & Hst & x & Hf & Hx & Hk & Hi).
    split; [|split; [congruence|rewrite Hp; eauto]]. split; [exact Ht|]. split; [exact Hts'|].
    split; [|exact (Hc' Hc)]. unfold open_ok; st_norm. rewrite Hp, Heqo, Hpt, Hi.
    split; [congruence|]. split; [exact Hst|]. exists x. repeat split; assumption.
  - split; [|unfold upd_packet, cur_fields; st_norm; rewrite Hp; cbn; rewrite Hf; eauto].
    split; [exact Ht|]. split; [exact Hts'|].
    split; [|exact (covered_add_field _ s' (Hc' Hc))].
    unfold open_ok, upd_packet, cur_fields; st_norm. rewrite Hp. cbn. rewrite Hf.
    split; [exact Hd|]. split; [exact Hst|]. exists (ProcessTreeField empty_tree).
    repeat split. discriminate.
Qed.

Lemma GetOrCreatePsTree_shaped F e : preserves F (shaped T TreePhase) (GetOrCreatePsTree e).
Proof.
  intros s Hs. eapply wp_mono; [apply GetOrCreatePsTree_at, Hs|]. cbn beta. intros i s' [Hs' _]. exact Hs'.
Qed.

(** The pointer returned addresses the one message of the open
    packet. *)
Lemma GetOrCreateStats_at F e s :
  shaped T StatsPhase s ->
  wpf F (GetOrCreateStats e) (fun i s' =>
    shaped T StatsPhase s' /\ i = 0%nat /\ is_Some (cur_packet_ s')) s.
Proof.
  intros (Ht & Hts & Ho & Hc). unfold GetOrCreateStats, set_process_stats.
  wp_step StartNewPacketIfNeeded_shape; [exact Hts|].
  destruct H0 as (Htr & Han & Hc' & Hts' & Hpt & Hps & Hp). unfold open_ok in Ho.
  wp_run; unfold shaped; st_norm; announce_same s'; rewrite Htr, Han.
  all: destruct (cur_packet_ s) as [p|];
    [destruct Hp as (Hp & Hd)|destruct Hp as (Hd & p & Hp & Hst & Hf)].
  2: congruence.
  2: destruct Ho as (_ & _ & x & _ & _ & _ & Hi); congruence.
  - destruct Ho as (Hd0 & Hst & x & Hf & Hx & Hk & Hi).
    split; [|split; [congruence|rewrite Hp; eauto]]. split; [exact Ht|]. split; [exact Hts'|].
    split; [|exact (Hc' Hc)]. unfold open_ok; st_norm. rewrite Hp, Heqo, Hps, Hi.
    split; [congruence|]. split; [exact Hst|]. exists x. repeat split; assumption.
  - split; [|unfold upd_packet, cur_fields; st_norm; rewrite Hp; cbn; rewrite Hf; eauto].
    split; [exact Ht|]. split; [exact Hts'|].
    split; [|exact (covered_add_field _ s' (Hc' Hc))].
    unfold open_ok, upd_packet, cur_fields; st_norm. rewrite Hp. cbn. rewrite Hf.
    split; [exact Hd|]. split; [exact Hst|]. exists (ProcessStatsField empty_stats).
    repeat split; [constructor|discriminate].
Qed.

Lemma GetOrCreateStats_shaped F e : preserves F (shaped T StatsPhase) (GetOrCreateStats e).
Proof.
  intros s Hs. eapply wp_mono; [apply GetOrCreateStats_at, Hs|]. cbn beta. intros i s' [Hs' _]. exact Hs'.
Qed.

Lemma add_stats_process_shaped sp i ph s :
  stats_typed sp -> shaped T ph s ->
  shaped T ph (upd_packet (alter_stats (add_stats_process sp) i) s).
Proof.
  intros Hsp. apply alter_field_shaped; [| |apply on_stats_ids]; intros [t|st]; cbn; auto.
  intros [Hl _]. split; [|intros [=]]. apply Forall_app. split; [exact Hl|].
  constructor; [exact Hsp|constructor].
Qed.

Lemma GetOrCreateStatsProcess_shaped F e pid :
  preserves F (shaped T StatsPhase) (GetOrCreateStatsProcess e pid).
Proof.
  intros s Hs. unfold GetOrCreateStatsProcess. rewrite wp_bind, wp_get.
  destruct (cur_ps_stats_process_ s); wp_simpl; [exact Hs|].
  eapply wp_mono; [apply GetOrCreateStats_shaped, Hs|]. cbn beta. intros i s1 Hs1. wp_run.
  apply (add_stats_process_shaped _ i _ s1 (new_stats_process_typed pid) Hs1).
Qed.

(** ** The tree phase *)

#[local] Hint Resolve CacheProcFsScanStartTimestamp_shaped GetOrCreatePsTree_shaped
  GetOrCreateStatsProcess_shaped alter_tree_shaped alter_stats_process_shaped
  sp_set_counter_typed sp_set_oom_score_adj_typed sp_add_fd_typed ToU32_range ToInt_range
  readlink_length : pres.
#[local] Hint Extern 1 (shaped _ _ _) => assumption : pres.

Lemma add_tree_process_ids pr t :
  field_ids (ProcessTreeField t) ⊆ field_ids (ProcessTreeField (add_tree_process pr t)) /\
  p_pid pr ∈ field_ids (ProcessTreeField (add_tree_process pr t)).
Proof.
  unfold field_ids. cbn. rewrite map_app. split.
  - apply app_subseteq; [apply list_subseteq_app_l|]; reflexivity.
  - rewrite !elem_of_app. left. right. left.
Qed.

Lemma add_tree_thread_ids th t :
  field_ids (ProcessTreeField t) ⊆ field_ids (ProcessTreeField (add_tree_thread th t)) /\
  t_tid th ∈ field_ids (ProcessTreeField (add_tree_thread th t)).
Proof.
  unfold field_ids. cbn. rewrite map_app. split.
  - apply app_subseteq; [|apply list_subseteq_app_l]; reflexivity.
  - rewrite !elem_of_app. right. right. left.
Qed.

(** An entry written to the tree of the open packet describes its id,
    which can then enter [seen_pids_]. *)
Lemma describe_shaped f id s :
  (forall t, field_ids (ProcessTreeField t) ⊆ field_ids (ProcessTreeField (f t)) /\
             id ∈ field_ids (ProcessTreeField (f t))) ->
  is_Some (cur_packet_ s) -> shaped T TreePhase s ->
  let s' := upd_packet (alter_tree f 0) s in
  shaped T TreePhase (with_seen_pids_ (set_insert id (seen_pids_ s')) s').
Proof.
  intros Hf [p Hp] Hs. pose proof Hs as (_ & _ & Ho & _).
  destruct (alter_tree_shaped f 0 _ s (fun t => proj1 (Hf t)) Hs) as (Ht & Hts & Ho' & Hc).
  cbn zeta. split; [exact Ht|]. split; [exact Hts|]. split; [exact Ho'|].
  intros pid. cbn [seen_pids_ with_seen_pids_]. rewrite count_insert.
  destruct (Z.eqb_spec pid id) as [->|_]; [intros _|apply Hc].
  unfold known, upd_packet. st_norm. rewrite Hp. cbn. apply epoch_ids_last.
  unfold open_ok in Ho. rewrite Hp in Ho. destruct Ho as (_ & _ & x & Hx & _ & Hk & _).
  unfold packet_ids. cbn. rewrite Hx. destruct x as [t|]; [|discriminate Hk].
  cbn. rewrite app_nil_r. apply Hf.
Qed.

Lemma WriteProcess_shaped e pid proc_status :
  preserves any_fault (shaped T TreePhase) (WriteProcess e pid proc_status).
Proof.
  intros s Hs. unfold WriteProcess. apply wp_bind.
  eapply wp_mono; [apply GetOrCreatePsTree_at, Hs|]. cbn beta. intros i s1 (Hs1 & -> & Hp).
  wp_run. destruct (ReadNamespacedTids _ _ _); [exact I|]. wp_run.
  refine (describe_shaped _ pid s1 (add_tree_process_ids (mkTreeProcess pid _ _ _ _)) Hp Hs1).
Qed.

Lemma WriteThread_shaped e tid tgid name proc_status :
  preserves any_fault (shaped T TreePhase) (WriteThread e tid tgid name proc_status).
Proof.
  intros s Hs. unfold WriteThread. apply wp_bind.
  eapply wp_mono; [apply GetOrCreatePsTree_at, Hs|]. cbn beta. intros i s1 (Hs1 & -> & Hp).
  wp_run. destruct (ReadNamespacedTids _ _ _); [exact I|]. wp_run.
  refine (describe_shaped _ tid s1 (add_tree_thread_ids (mkTreeThread tid _ _ _)) Hp Hs1).
Qed.

#[local] Hint Resolve WriteProcess_shaped WriteThread_shaped : pres.

Lemma WriteProcessOrThread_shaped e pid :
  preserves any_fault (shaped T TreePhase) (WriteProcessOrThread e pid).
Proof. unfold WriteProcessOrThread. pres. Qed.

#[local] Hint Resolve WriteProcessOrThread_shaped : pres.

(** ** The stats phase *)

Lemma cache_entry_shaped pid ph : preserves any_fault (shaped T ph) (cache_entry pid).
Proof. intros s Hs. unfold cache_entry. wp_run; exact Hs. Qed.

Lemma mark_skip_shaped pid_u ph : preserves any_fault (shaped T ph) (mark_skip pid_u).
Proof. intros s Hs. unfold mark_skip. wp_run; [exact Hs|exact I]. Qed.

#[local] Hint Resolve cache_entry_shaped mark_skip_shaped : pres.

Lemma write_counter_shaped e pid c value :
  preserves any_fault (shaped T StatsPhase) (write_counter e pid c value).
Proof. unfold write_counter. pres. Qed.

Lemma write_oom_score_adj_shaped e pid :
  preserves any_fault (shaped T StatsPhase) (write_oom_score_adj e pid).
Proof. unfold write_oom_score_adj. pres. Qed.

(** The path written is the one [readlink] returned, which fits the
    buffer. *)
Lemma WriteSingleFd_shaped e tid fd :
  preserves any_fault (shaped T StatsPhase) (WriteSingleFd e tid fd).
Proof.
  unfold WriteSingleFd. apply preserves_bind; [pres|intros s0]. cbn zeta.
  apply preserves_bind; [pres|intros cached]. destruct (set_count _ _); [pres|].
  destruct (readlink _ _ _ _) as [path|] eqn:E; pres.
Qed.

#[local] Hint Resolve write_counter_shaped write_oom_score_adj_shaped
  WriteSingleFd_shaped : pres.

Lemma WriteMemCounters_shaped e pid proc_status :
  preserves any_fault (shaped T StatsPhase) (WriteMemCounters e pid proc_status).
Proof. unfold WriteMemCounters, mem_char_step, mem_newline. pres. Qed.

Lemma WriteFds_shaped e pid : preserves any_fault (shaped T StatsPhase) (WriteFds e pid).
Proof. unfold WriteFds. pres. Qed.

#[local] Hint Resolve WriteMemCounters_shaped WriteFds_shaped : pres.

Lemma stats_body_shaped e pids pid :
  preserves any_fault (shaped T StatsPhase) (stats_body e pids pid).
Proof. unfold stats_body. pres. Qed.

End Writers.

#[local] Hint Resolve CacheProcFsScanStartTimestamp_shaped GetOrCreatePsTree_shaped
  GetOrCreateStatsProcess_shaped alter_tree_shaped alter_stats_process_shaped
  sp_set_counter_typed sp_set_oom_score_adj_typed sp_add_fd_typed ToU32_range ToInt_range
  readlink_length cache_entry_shaped mark_skip_shaped
  WriteProcess_shaped WriteThread_shaped WriteProcessOrThread_shaped
  write_counter_shaped write_oom_score_adj_shaped WriteSingleFd_shaped
  WriteMemCounters_shaped WriteFds_shaped stats_body_shaped : pres.
#[local] Hint Extern 1 (shaped _ _ _) => assumption : pres.
#[local] Hint Extern 1 (rest _ _) => assumption : pres.

(** ** Closing the packet *)

(** The open packet once its message has been given its end
    timestamp through the pointers.  The pointer of the other kind, if
    set at all, changes nothing. *)
Lemma close_sent now ph p x (tree stats : option nat) :
  is_u64 now -> stamped (timestamp p) -> fields p = [x] -> field_typed false x ->
  in_phase ph x tree stats ->
  let p' := from_option (alter_stats (set_stats_end now)) id stats
              (from_option (alter_tree (set_tree_end now)) id tree p) in
  well_sent p' ph /\ incremental_state_cleared p' = incremental_state_cleared p /\
  packet_ids p' = packet_ids p.
Proof.
  intros Hnow Hst Hf Hx Hph. destruct p as [ts flag fs]. cbn [fields timestamp] in *.
  subst fs. assert (stamped (Some now)) as Hs by (exists now; auto).
  destruct ph, x as [t|st]; destruct Hph as [Hk ->]; try discriminate Hk.
  - destruct stats as [[|i]|]; (split; [|split; reflexivity]); (split; [|reflexivity]);
      (split; [exact Hst|]); eexists; (split; [reflexivity|]); intros _; exact Hs.
  - destruct tree as [[|i]|]; (split; [|split; reflexivity]); (split; [|reflexivity]);
      (split; [exact Hst|]); eexists; (split; [reflexivity|]);
      (split; [apply Hx|intros _; exact Hs]).
Qed.

(** What [covered] depends on. *)
Lemma covered_same s s' :
  cur_packet_ s' = cur_packet_ s ->
  did_clear_incremental_state_ s' = did_clear_incremental_state_ s ->
  trace s' = trace s -> seen_pids_ s' = seen_pids_ s -> covered s -> covered s'.
Proof.
  intros Hp Hd Htr Hseen Hc pid. unfold known. rewrite Hp, Hd, Htr, Hseen. apply Hc.
Qed.

(** Releasing the open packet keeps what is known: no announcement is
    pending while a packet is open. *)
Lemma covered_released s s' p p' :
  cur_packet_ s = Some p -> cur_packet_ s' = None ->
  did_clear_incremental_state_ s' = false -> trace s' = trace s ++ [p'] ->
  seen_pids_ s' = seen_pids_ s ->
  incremental_state_cleared p' = incremental_state_cleared p ->
  packet_ids p' = packet_ids p -> covered s -> covered s'.
Proof.
  intros Hp Hp' Hd Htr Hseen Hflag Hids Hc pid Hpid. rewrite Hseen in Hpid.
  specialize (Hc pid Hpid). revert Hc. unfold known.
  rewrite Hp, Hp', Hd, Htr, !epoch_ids_snoc, Hflag, Hids. auto.
Qed.

Lemma rest_mono (T T' : list TracePacket -> bool -> Prop) s :
  (forall tr b, T tr b -> T' tr b) -> rest T s -> rest T' s.
Proof. intros HT (Ht & Hts). split; [apply HT, Ht|exact Hts]. Qed.

(** The packet released is typed, of the kind of the phase, and carries
    the flag that was due. *)
Lemma FinalizeCurPacket_extends F e T T' ph s :
  extends ph T T' -> shaped T ph s ->
  wpf F (FinalizeCurPacket e) (fun _ s' => T' (trace s') (announce s') /\ covered s') s.
Proof.
  intros [Hw Ha] (Ht & _ & Ho & Hc). unfold FinalizeCurPacket.
  rewrite wp_bind, wp_GetBootTimeNs. unfold open_ok in Ho. unfold announce in *.
  wp_run; unfold release_packet, upd_packet; st_norm.
  all: destruct (cur_packet_ s) as [p|] eqn:Hp; cbn [fmap option_fmap option_map]; st_norm;
    rewrite ?Hp; [|split; [apply Hw, Ht|apply (covered_same s); auto]].
  all: destruct Ho as (Hd & Hst & x & Hf & Hx & Hph).
  all: match type of Hph with
       | in_phase _ _ ?tr ?st =>
           destruct (close_sent _ ph p x tr st
                       (wrap_u64_range (boot_time_ns e (clock_reads s))) Hst Hf Hx Hph)
             as (Hsent & Hflag & Hids)
       end.
  all: split; [rewrite Hd; rewrite <- Hflag in Ht; apply Ha; [exact Ht|exact Hsent]|].
  all: eapply covered_released;
    [exact Hp|reflexivity|exact Hd|reflexivity|reflexivity|exact Hflag|exact Hids|exact Hc].
Qed.

Lemma FinalizeCurPacket_rest F e T T' ph s :
  extends ph T T' -> shaped T ph s ->
  wpf F (FinalizeCurPacket e) (fun _ s' => rest T' s') s.
Proof.
  intros Hext Hs. eapply wp_mono.
  { apply wp_conj; [apply (FinalizeCurPacket_extends F e T T' ph s Hext Hs)|].
    apply FinalizeCurPacket_spec. }
  cbn beta. intros _ s' ((Ht & Hc) & Hq & _ & Hts & _). split; [exact Ht|].
  split; [|split; [exact Hq|exact Hc]]. rewrite Hts. unfold is_u64. lia.
Qed.

(** ** The handlers *)

Lemma CacheProcFsScanStartTimestamp_rest e T :
  preserves any_fault (rest T) (CacheProcFsScanStartTimestamp e).
Proof.
  intros s Hs. pose proof Hs as (_ & _ & Hq & _). eapply wp_mono.
  { apply wp_conj; [apply (CacheProcFsScanStartTimestamp_shaped T any_fault e TreePhase s)|
                    apply CacheProcFsScanStartTimestamp_spec].
    apply rest_shaped, Hs. }
  cbn beta. intros _ s' ((Ht' & Hts' & _ & Hc') & _ & Hc & Hp & _).
  split; [exact Ht'|]. split; [exact Hts'|]. split; [|exact Hc'].
  unfold quiescent, same_cursor in *. intuition congruence.
Qed.

Lemma WriteProcessTree_rest e pids T T' s :
  extends TreePhase T T' -> rest T s ->
  wlp (WriteProcessTree e pids) (fun _ s' => rest T' s') s.
Proof.
  intros Hext Hs. unfold WriteProcessTree. apply wp_bind. eapply wp_mono.
  { refine (preserves_foreach any_fault (shaped T TreePhase) _ _ _ s (rest_shaped _ _ _ Hs)).
    intros pid. pres. }
  cbn beta. intros _ s1 Hs1. apply (FinalizeCurPacket_rest _ _ _ _ _ _ Hext Hs1).
Qed.

Lemma WriteAllProcessStats_rest e T T1 T2 s :
  extends StatsPhase T T1 -> extends TreePhase T1 T2 -> rest T s ->
  wlp (WriteAllProcessStats e) (fun _ s' => rest T2 s') s.
Proof.
  intros H1 H2 Hs. unfold WriteAllProcessStats. apply wp_bind.
  eapply wp_mono; [apply CacheProcFsScanStartTimestamp_rest, Hs|]. cbn beta. intros _ s0 Hs0.
  destruct (OpenProcDir e) as [proc_dir|];
    [|apply (rest_mono T1), (rest_mono T), Hs0; [apply H2|apply H1]].
  apply wp_bind. eapply wp_mono.
  { refine (preserves_scan_dir any_fault (shaped T StatsPhase) _ _ _ _ s0
              (rest_shaped _ _ _ Hs0)).
    intros pids pid _. apply stats_body_shaped. }
  cbn beta. intros pids s1 Hs1. apply wp_bind.
  eapply wp_mono; [apply (FinalizeCurPacket_rest _ _ _ _ _ _ H1 Hs1)|]. cbn beta.
  intros _ s2 Hs2. apply (WriteProcessTree_rest _ _ _ _ _ H2 Hs2).
Qed.

Lemma WriteAllProcesses_rest e T T1 T2 s :
  extends TreePhase T T1 -> extends StatsPhase T1 T2 -> rest T s ->
  wlp (WriteAllProcesses e) (fun _ s' => rest T2 s') s.
Proof.
  intros H1 H2 Hs. unfold WriteAllProcesses. apply wp_bind.
  eapply wp_mono; [apply CacheProcFsScanStartTimestamp_rest, Hs|]. cbn beta. intros _ s0 Hs0.
  destruct (OpenProcDir e) as [proc_dir|];
    [|apply (rest_mono T1), (rest_mono T), Hs0; [apply H2|apply H1]].
  apply wp_bind. eapply wp_mono.
  { refine (preserves_scan_dir any_fault (shaped T TreePhase) _ _ _ _ s0
              (rest_shaped _ _ _ Hs0)).
    intros [] pid _. unfold proc_body.
    apply preserves_bind; [pres|intros _]. destruct (task_dir _ _); [|pres].
    apply preserves_scan_dir. intros [] tid _. unfold task_body. pres. }
  cbn beta. intros _ s1 Hs1. apply wp_bind.
  eapply wp_mono; [apply (FinalizeCurPacket_rest _ _ _ _ _ _ H1 Hs1)|]. cbn beta.
  intros _ s2 Hs2. rewrite wp_bind, wp_get. apply wp_bind. eapply wp_mono.
  { refine (preserves_foreach any_fault (shaped T1 StatsPhase) _ _ _ s2
              (rest_shaped _ _ _ Hs2)).
    intros pid. apply WriteFds_shaped. }
  cbn beta. intros _ s3 Hs3. apply (FinalizeCurPacket_rest _ _ _ _ _ _ H2 Hs3).
Qed.

Lemma OnFds_rest e fds T T' s :
  extends StatsPhase T T' -> rest T s -> wlp (OnFds e fds) (fun _ s' => rest T' s') s.
Proof.
  intros Hext Hs. unfold OnFds. wp_run; [apply (rest_mono T), Hs; apply Hext|].
  eapply wp_mono.
  { refine (preserves_foreach any_fault (shaped T StatsPhase) _ _ _ s (rest_shaped _ _ _ Hs)).
    intros pid_fds. unfold fds_body. pres. }
  cbn beta. intros _ s1 Hs1. apply (FinalizeCurPacket_rest _ _ _ _ _ _ Hext Hs1).
Qed.

(** An id that leaves [seen_pids_] will be described again. *)
Lemma erase_rest T pid s :
  rest T s -> rest T (with_seen_pids_ (set_erase pid (seen_pids_ s)) s).
Proof.
  intros (Ht & Hts & Hq & Hc). do 3 (split; [assumption|]). intros id.
  cbn [seen_pids_ with_seen_pids_]. rewrite count_erase. intros [_ Hid]%andb_prop.
  apply (Hc id Hid).
Qed.

#[local] Hint Resolve erase_rest : pres.

(** ** Families of properties of the trace *)

Section Family.
Variable Tk : list Mark -> list TracePacket -> bool -> Prop.
Hypothesis Tk_sent : forall ks ph, extends ph (Tk ks) (Tk (ks ++ [Sent ph])).
Hypothesis Tk_cleared : forall ks tr b, Tk ks tr b -> Tk (ks ++ [Cleared]) tr true.

Lemma handle_rest e (ev : Event SetT) ks s :
  rest (Tk ks) s ->
  wlp (handle e ev) (fun _ s' => rest (Tk (ks ++ handler_marks ev)) s') s.
Proof.
  intros Hs.
  assert (forall k1 k2, extends k2 (Tk (ks ++ [Sent k1])) (Tk (ks ++ [Sent k1; Sent k2])))
    as H2 by (intros k1 k2; change [Sent k1; Sent k2] with ([Sent k1] ++ [Sent k2]);
              rewrite app_assoc; apply Tk_sent).
  assert (forall k1 k2 s1, rest (Tk ks) s1 -> rest (Tk (ks ++ [Sent k1; Sent k2])) s1)
    as Hskip by (intros k1 k2 s1; apply rest_mono; intros tr b Ht;
                 apply (H2 k1 k2), (Tk_sent ks k1), Ht).
  destruct ev; cbn [handle handler_marks].
  - unfold Start, PostTask. rewrite wp_bind, wp_get, wp_bind. eapply wp_mono.
    { destruct (dump_all_procs_on_start_ _);
        [apply (WriteAllProcesses_rest e _ _ _ s (Tk_sent ks _) (H2 _ _) Hs)|].
      rewrite wp_ret. apply Hskip, Hs. }
    cbn beta. intros _ s1 Hs1. destruct (negb _); wp_simpl; exact Hs1.
  - unfold Tick, PostTask. wp_run; [exact I|].
    eapply wp_mono.
    { apply (WriteAllProcessStats_rest e _ _ _ _ (Tk_sent ks _) (H2 _ _)).
      exact Hs. }
    cbn beta. intros _ s1 Hs1. wp_run.
    destruct (tick_cache _ _) as [ticks []]; exact Hs1.
  - unfold OnPids. wp_run; [apply (rest_mono (Tk ks)), Hs; apply Tk_sent|].
    apply (WriteProcessTree_rest e _ _ _ s (Tk_sent ks _) Hs).
  - rewrite app_nil_r. revert s Hs. change (preserves any_fault (rest (Tk ks)) (OnRenamePids pids)).
    unfold OnRenamePids. pres.
  - apply (OnFds_rest e _ _ _ s (Tk_sent ks _) Hs).
  - rewrite app_nil_r. unfold Flush. wp_run. exact Hs.
  - unfold ClearIncrementalState. wp_run. destruct Hs as (Ht & Hts & Hq & _).
    split; [|split; [exact Hts|split; [exact Hq|]]].
    + unfold announce. st_norm. rewrite (proj1 Hq). apply (Tk_cleared _ _ _ Ht).
    + intros pid. cbn [seen_pids_]. st_norm. rewrite count_empty. discriminate.
Qed.

Lemma run_rest (evs : list (Env * Event SetT)) ks s :
  rest (Tk ks) s -> wlp (run evs) (fun _ s' => rest (Tk (ks ++ run_marks evs)) s') s.
Proof.
  revert ks s. induction evs as [|[e ev] evs IH]; intros ks s Hs.
  - unfold run_marks. cbn. rewrite app_nil_r. exact Hs.
  - apply wp_foreach_cons. eapply wp_mono; [apply handle_rest, Hs|]. cbn beta.
    intros _ s1 Hs1. unfold run_marks. cbn [map concat fst snd]. rewrite app_assoc.
    apply IH, Hs1.
Qed.

End Family.

(** ** The two families *)

Lemma typed_extends ph :
  extends ph (fun tr _ => Forall packet_typed tr) (fun tr _ => Forall packet_typed tr).
Proof.
  split; [auto|]. intros tr p Ht [Hp _]. apply Forall_app. split; [exact Ht|].
  constructor; [exact Hp|constructor].
Qed.

Lemma emits_app b ks1 new1 b1 ks2 new2 b2 :
  emits b ks1 new1 b1 -> emits b1 ks2 new2 b2 -> emits b (ks1 ++ ks2) (new1 ++ new2) b2.
Proof.
  intros H1 H2.
  induction H1; cbn; [exact H2|apply emits_skip|apply emits_sent|apply emits_cleared]; auto.
Qed.

Lemma released_refl tr0 b0 : released tr0 b0 [] tr0 b0.
Proof. exists []. rewrite app_nil_r. split; [reflexivity|constructor]. Qed.

Lemma released_app tr0 b0 ks tr b k new b' :
  released tr0 b0 ks tr b -> emits b k new b' -> released tr0 b0 (ks ++ k) (tr ++ new) b'.
Proof.
  intros (new0 & -> & He) Hk. exists (new0 ++ new).
  split; [symmetry; apply app_assoc|apply (emits_app _ _ _ _ _ _ _ He Hk)].
Qed.

Lemma released_sent tr0 b0 ks ph :
  extends ph (released tr0 b0 ks) (released tr0 b0 (ks ++ [Sent ph])).
Proof.
  split.
  - intros tr b Hr. rewrite <- (app_nil_r tr).
    apply (released_app _ _ _ _ _ _ _ _ Hr). do 2 constructor.
  - intros tr p Hr Hp. apply (released_app _ _ _ _ _ _ _ _ Hr).
    constructor; [exact Hp|constructor].
Qed.

Lemma released_cleared tr0 b0 ks tr b :
  released tr0 b0 ks tr b -> released tr0 b0 (ks ++ [Cleared]) tr true.
Proof.
  intros Hr. rewrite <- (app_nil_r tr). apply (released_app _ _ _ _ _ _ _ _ Hr).
  do 2 constructor.
Qed.

(** What [emits] says of the kinds alone: the packets are typed and
    their kinds are among those of the marks, in their order. *)
Lemma emits_kinds b ks new b' :
  emits b ks new b' ->
  exists ks', sublist ks' (sent_kinds ks) /\ Forall2 well_sent new ks'.
Proof.
  induction 1 as [b|b ph ks new b' _ (ks' & Hsub & Hall)
                 |ph ks p new b' Hp _ (ks' & Hsub & Hall)|b ks new b' _ IH]; cbn.
  - exists []. split; constructor.
  - exists ks'. split; [apply sublist_cons, Hsub|exact Hall].
  - exists (ph :: ks'). split; [apply sublist_skip, Hsub|constructor; assumption].
  - exact IH.
Qed.

(** What [emits] says of the flags when nothing is cleared: only the
    first packet can carry the flag, and it does when the announcement
    was pending. *)
Lemma emits_flags b ks new b' :
  Cleared ∉ ks -> emits b ks new b' ->
  match new with
  | [] => b' = b
  | p :: new' =>
      incremental_state_cleared p = b /\ b' = false /\
      Forall (fun q => incremental_state_cleared q = false) new'
  end.
Proof.
  intros Hc He. induction He as [b|b ph ks new b' _ IH|ph ks p new b' Hp He IH|];
    [reflexivity|apply IH; set_solver| |set_solver].
  split; [reflexivity|]. assert (Cleared ∉ ks) as Hks by set_solver.
  specialize (IH Hks). destruct new as [|q new]; [auto|].
  destruct IH as (Hq & -> & Hall). auto.
Qed.

Lemma handle_shaped e (ev : Event SetT) : preserves any_fault shaped_rest (handle e ev).
Proof.
  intros s Hs. eapply wp_mono; [|intros ? ? Hs'; exact Hs'].
  apply (handle_rest (fun _ tr _ => Forall packet_typed tr) (fun _ => typed_extends)
           (fun _ _ _ Ht => Ht) e ev [] s Hs).
Qed.

(** ** Reachable states *)

(** Every packet of the trace of a reachable state is well typed. *)
Lemma reachable_shaped cfg s : reachable cfg s -> shaped_rest s.
Proof.
  revert s. apply rtc_ind_r.
  - split; [constructor|]. split; [unfold is_u64; cbn; lia|]. split; [repeat split|].
    intros pid. cbn. rewrite count_empty. discriminate.
  - intros s1 s2 _ [e ev s1' s2' Hrun] IH.
    exact (preserves_Ok any_fault shaped_rest _ _ _ _ (handle_shaped e ev) IH Hrun).
Qed.

(** * Theorems *)

(** C8. The packets of a run: from a reachable state, a run of handlers
    that returns has only appended to the trace, and what it appended
    are well-typed packets of the kinds of its handlers, in their
    order, some of which may be missing: [Start] releases at most a
    packet with a process tree and then one with process stats,
    [Tick] at most one with process stats and then one with a process
    tree, [OnPids] at most a process tree, [OnFds] at most process
    stats, and the other handlers none.  The first packet released
    after a [ClearIncrementalState], and no other packet, carries
    [incremental_state_cleared]; the announcement is pending in the
    final state exactly when no packet has followed the last one. *)
Theorem run_emits cfg evs s s' :
  reachable cfg s -> run evs s = Ok tt s' ->
  exists new,
    trace s' = trace s ++ new /\
    emits (did_clear_incremental_state_ s) (run_marks evs) new
          (did_clear_incremental_state_ s').
Proof.
  intros Hr Hrun. destruct (reachable_shaped cfg s Hr) as (_ & Hts & Hq & Hc).
  assert (rest (released (trace s) (announce s) []) s) as Hs
    by (split; [apply released_refl|split; [|split]; assumption]).
  pose proof (wp_Ok any_fault _ _ _ _ _
                (run_rest (released (trace s) (announce s)) (released_sent _ _)
                   (released_cleared _ _) evs [] s Hs) Hrun) as (Hrel & _ & Hq' & _).
  rewrite (announce_quiescent _ Hq) in Hrel. rewrite (announce_quiescent _ Hq') in Hrel.
  exact Hrel.
Qed.

(** C9. The incremental state is sound: in a reachable state every id
    of [seen_pids_], that is every process or thread the data source
    will not describe again, is described by a process or a thread
    entry of a packet of the epoch: the packets from the last one that
    carries [incremental_state_cleared], or the whole trace when none
    does.  No announcement is pending then.  A reader that has lost
    everything before that packet still knows every process the later
    packets refer to without describing it. *)
Theorem seen_described cfg s pid :
  reachable cfg s -> set_count pid (seen_pids_ s) = true ->
  did_clear_incremental_state_ s = false /\ pid ∈ epoch_ids (trace s).
Proof.
  intros Hr Hpid. destruct (reachable_shaped cfg s Hr) as (_ & _ & [Hp _] & Hc).
  specialize (Hc pid Hpid). unfold known in Hc. rewrite Hp in Hc.
  destruct (did_clear_incremental_state_ s); [inversion Hc|auto].
Qed.

End Shape.
