(* ===== verification/Describes.v ===== *)
(** * What a handler describes

    The handlers that write process trees promise to describe what they
    are asked for: [OnPids] the pids of the request, [Start] the
    processes that /proc lists and the threads of their task
    directories, [Tick] the processes whose memory counters it polls.
    [asked] states the request of a handler, [describable] what the
    status file of a process must hold for an entry to be written.  The theorem composes the abstract machine of the tree
    with the invariant of the incremental state: whatever was asked
    for and can be described is described in the epoch once the
    handler has returned, whether it was written by this handler or by
    an earlier one. *)

From Stdlib Require Import ZArith List Ascii String Lia.
From stdpp Require Import base option list gmap.
From S2P Require Import Prelude CxxString FlatSet TraceProto ProcFs StatusParse.
From S2P Require Import ProcessStats PacketCursor Handlers TreeView TraceShape.

#[local] Open Scope Z_scope.
#[local] Open Scope m_scope.

Section Asked.
Context {SetT : Type} `{IntSet SetT}.
Implicit Types (s : State SetT) (e : Env) (v : TreeView (SetT:=SetT)).

(** The status file of [pid] can be read and names a thread group and
    a thread: what [WriteProcessOrThread] needs to write an entry. *)
Definition describable e (pid : Z) : bool :=
  let proc_status := ReadProcPidFile e pid (lit "status") in
  negb (bool_decide (proc_status = [])) &&
  (0 <? ToInt (ReadProcStatusEntry proc_status (lit "Tgid:"))) &&
  (0 <? ToInt (ReadProcStatusEntry proc_status (lit "Pid:"))).

(** The processes [Tick] polls: the numeric entries of /proc that are
    not marked to be skipped and whose status file reports memory
    counters. *)
Definition polled e (skip : list bool) (pid : Z) : Prop :=
  exists proc_dir, OpenProcDir e = Some proc_dir /\ pid ∈ numeric_dirs proc_dir /\
    skip_bit skip (wrap_u32 pid) = false /\
    has_mem_counters (ReadProcPidFile e pid (lit "status")) = true.

(** What a handler called in the state [s] is asked to describe:
    [OnPids] the pids of the request but 0, when on-demand dumps are
    enabled; [Start], when it dumps all processes, the numeric entries
    of /proc and those of their task directories, of which the threads
    are described without reading their status files unless thread
    names are recorded; [Tick] the processes it polls. *)
Definition asked e (ev : Event SetT) s (pid : Z) : Prop :=
  match ev with
  | EvOnPids pids =>
      enable_on_demand_dumps_ (settings s) = true /\ set_count pid pids = true /\ pid <> 0 /\
      describable e pid = true
  | EvStart =>
      dump_all_procs_on_start_ (settings s) = true /\
      exists proc_dir tgid, OpenProcDir e = Some proc_dir /\ tgid ∈ numeric_dirs proc_dir /\
        ((pid = tgid /\ describable e pid = true) \/
         (exists dirp, task_dir (fs e) tgid = Some dirp /\ pid ∈ numeric_dirs dirp /\
            pid <> tgid /\
            (record_thread_names_ (settings s) = false \/ describable e pid = true)))
  | EvTick => polled e (skip_stats_for_pids_ s) pid /\ describable e pid = true
  | _ => False
  end.

Definition seen_in v (pid : Z) : Prop := set_count pid (tv_seen v) = true.

(** * Lemmas *)

Lemma seen_in_thread v tid pid : seen_in v pid -> seen_in (view_thread tid v) pid.
Proof. unfold seen_in. cbn. rewrite count_insert. intros ->. apply orb_true_r. Qed.

Lemma seen_in_process e tgid proc_status v pid :
  seen_in v pid -> seen_in (view_process e tgid proc_status v) pid.
Proof. unfold seen_in. cbn. rewrite count_insert. intros ->. apply orb_true_r. Qed.

Lemma seen_in_delta e v pid' pid : seen_in v pid -> seen_in (view_delta e v pid') pid.
Proof.
  intros Hin. unfold view_delta. cbn zeta. destruct (_ || _); [exact Hin|].
  destruct (set_count _ (tv_seen v)), (pid' =? _);
    auto using seen_in_thread, seen_in_process.
Qed.

(** [WriteProcessOrThread] leaves the id it is called with in
    [seen_pids_] when the id can be described. *)
Lemma view_delta_seen e v pid : describable e pid = true -> seen_in (view_delta e v pid) pid.
Proof.
  unfold describable, view_delta. cbn zeta.
  set (proc_status := ReadProcPidFile e pid (lit "status")).
  set (tgid := ToInt (ReadProcStatusEntry proc_status (lit "Tgid:"))).
  set (tid := ToInt (ReadProcStatusEntry proc_status (lit "Pid:"))).
  intros [[Hst Htg%Z.ltb_lt]%andb_prop Htid%Z.ltb_lt]%andb_prop.
  apply negb_true_iff in Hst. rewrite Hst.
  rewrite (proj2 (Z.leb_gt tgid 0) Htg), (proj2 (Z.leb_gt tid 0) Htid). cbn [orb].
  destruct (pid =? tgid) eqn:Heq.
  - apply Z.eqb_eq in Heq. rewrite Heq.
    destruct (set_count tgid (tv_seen v)) eqn:E; [exact E|].
    unfold seen_in. cbn. rewrite count_insert, Z.eqb_refl. reflexivity.
  - unfold seen_in. cbn. rewrite count_insert, Z.eqb_refl. reflexivity.
Qed.

Lemma seen_in_tree_step e v pid' pid : seen_in v pid -> seen_in (view_tree_step e v pid') pid.
Proof. unfold view_tree_step. destruct (_ || _); [auto|apply seen_in_delta]. Qed.

Lemma view_tree_seen e pids v pid :
  pid ∈ pids -> pid <> 0 -> describable e pid = true -> seen_in (view_tree e pids v) pid.
Proof.
  intros Hin H0 Hd. apply list_elem_of_split in Hin as (l1 & l2 & ->).
  unfold view_tree. rewrite fold_left_app. cbn [fold_left].
  apply fold_left_preserves; [intros; apply seen_in_tree_step; assumption|].
  unfold view_tree_step. destruct (set_count pid _) eqn:E; [exact E|].
  rewrite (proj2 (Z.eqb_neq pid 0) H0). apply view_delta_seen, Hd.
Qed.

Lemma seen_in_task e names tgid v tid pid :
  seen_in v pid -> seen_in (view_task e names tgid v tid) pid.
Proof.
  unfold view_task. destruct (tid =? tgid); [auto|].
  destruct names; [apply seen_in_delta|apply seen_in_thread].
Qed.

Lemma seen_in_proc e names v tgid pid : seen_in v pid -> seen_in (view_proc e names v tgid) pid.
Proof.
  intros Hin. unfold view_proc. apply (seen_in_delta e _ tgid) in Hin.
  destruct (task_dir _ _); [|exact Hin].
  apply fold_left_preserves; [intros; apply seen_in_task; assumption|exact Hin].
Qed.

(** One process of the scan of [WriteAllProcesses]: the process and
    the threads of its task directory. *)
Lemma view_proc_seen e names v tgid pid :
  (pid = tgid /\ describable e pid = true) \/
  (exists dirp, task_dir (fs e) tgid = Some dirp /\ pid ∈ numeric_dirs dirp /\ pid <> tgid /\
     (names = false \/ describable e pid = true)) ->
  seen_in (view_proc e names v tgid) pid.
Proof.
  intros [[-> Hd]|(dirp & Hdir & Hin & Hne & Hn)].
  - unfold view_proc. pose proof (view_delta_seen e v tgid Hd) as Hs.
    destruct (task_dir _ _); [|exact Hs].
    apply fold_left_preserves; [intros; apply seen_in_task; assumption|exact Hs].
  - unfold view_proc. rewrite Hdir. apply list_elem_of_split in Hin as (l1 & l2 & ->).
    rewrite fold_left_app. cbn [fold_left].
    apply fold_left_preserves; [intros; apply seen_in_task; assumption|].
    unfold view_task. rewrite (proj2 (Z.eqb_neq pid tgid) Hne).
    destruct names, Hn as [Hn|Hn]; try discriminate Hn;
      solve [apply view_delta_seen, Hn|unfold seen_in; cbn; rewrite count_insert, Z.eqb_refl;
             reflexivity].
Qed.

(** ** The scan of [Tick] *)

Lemma wrap_u32_inj a b : is_i32 a -> is_i32 b -> wrap_u32 a = wrap_u32 b -> a = b.
Proof.
  unfold is_i32, wrap_u32. intros Ha Hb Heq.
  pose proof (Z.div_mod a (2 ^ 32) ltac:(lia)). pose proof (Z.div_mod b (2 ^ 32) ltac:(lia)).
  lia.
Qed.

(** Marking one pid leaves the bits of the others as they were, or
    clears them. *)
Lemma skip_bit_set_skip skip q p :
  0 <= p -> 0 <= q -> p <> q -> skip_bit (set_skip skip q) p = true -> skip_bit skip p = true.
Proof.
  intros Hp Hq Hne. unfold skip_bit, set_skip. rewrite length_insert.
  assert (Z.to_nat q <> Z.to_nat p) as Hn by lia.
  rewrite (list_lookup_insert_ne _ _ _ _ Hn).
  destruct (_ <=? _); [|auto]. unfold resize.
  destruct (p <? Z.of_nat (length (take _ skip ++ _))); [|discriminate].
  destruct (decide (Z.to_nat p < length (take (Z.to_nat (wrap_u32 (q + 1))) skip))%nat)
    as [Hlt|Hge].
  - rewrite lookup_app_l by exact Hlt. rewrite length_take in Hlt.
    rewrite lookup_take_lt by lia. intros Hb.
    rewrite (proj2 (Z.ltb_lt _ _)) by lia. exact Hb.
  - rewrite lookup_app_r by lia. intros Hb. exfalso.
    destruct (replicate _ false !! _) as [[]|] eqn:E; try discriminate Hb.
    apply lookup_replicate in E as [[=] _].
Qed.

Lemma stats_step_mono e (acc : SetT * list bool) q pid :
  set_count pid (fst acc) = true -> set_count pid (fst (stats_step e acc q)) = true.
Proof.
  intros Hin. unfold stats_step. destruct (skip_bit _ _); [exact Hin|].
  destruct (ReadProcPidFile _ _ _); [exact Hin|]. destruct (has_mem_counters _); [|exact Hin].
  cbn. rewrite count_insert, Hin. apply orb_true_r.
Qed.

(** A process that is polled is among those the scan hands to
    [WriteProcessTree]. *)
Lemma stats_scan_polled e dirs (acc : SetT * list bool) pid :
  Forall is_i32 dirs -> pid ∈ dirs -> skip_bit (snd acc) (wrap_u32 pid) = false ->
  has_mem_counters (ReadProcPidFile e pid (lit "status")) = true ->
  set_count pid (fst (fold_left (stats_step e) dirs acc)) = true.
Proof.
  intros Hi32 Hin Hskip Hmem. revert acc Hskip.
  induction dirs as [|q dirs IH]; intros acc Hskip; [inversion Hin|].
  apply Forall_cons in Hi32 as [Hq Hi32]. cbn [fold_left].
  destruct (decide (pid = q)) as [<-|Hne].
  - apply fold_left_preserves; [intros; apply stats_step_mono; assumption|].
    unfold stats_step. rewrite Hskip.
    destruct (ReadProcPidFile e pid (lit "status")) eqn:E; [discriminate Hmem|].
    rewrite Hmem. cbn. rewrite count_insert, Z.eqb_refl. reflexivity.
  - apply elem_of_cons in Hin as [Heq|Hin]; [contradiction|]. apply IH; [exact Hi32|exact Hin|].
    unfold stats_step. destruct (skip_bit (snd acc) (wrap_u32 q)); [exact Hskip|].
    destruct (ReadProcPidFile e q _) as [|c st]; [exact Hskip|].
    destruct (has_mem_counters (c :: st)); [exact Hskip|]. cbn [snd].
    destruct (skip_bit (set_skip _ _) _) eqn:E; [|reflexivity].
    apply skip_bit_set_skip in E; [congruence|apply wrap_u32_range..|].
    intros Hw. apply Hne. apply wrap_u32_inj; [|exact Hq|exact Hw].
    rewrite Forall_forall in Hi32. apply Hi32, Hin.
Qed.

(** What is asked of a handler is in [seen_pids_] afterwards. *)
Lemma abs_handle_asked e (ev : Event SetT) s pid :
  asked e ev s pid -> seen_in (abs_handle (settings s) e ev (tree_view s)) pid.
Proof.
  destruct ev; cbn [asked abs_handle]; try contradiction.
  - intros (-> & proc_dir & tgid & Hdir & Hin & Hpid). unfold view_all_processes.
    rewrite Hdir. apply list_elem_of_split in Hin as (l1 & l2 & ->).
    rewrite fold_left_app. cbn [fold_left].
    apply fold_left_preserves; [intros; apply seen_in_proc; assumption|].
    apply view_proc_seen, Hpid.
  - intros ((proc_dir & Hdir & Hin & Hskip & Hmem) & Hd). unfold view_all_stats.
    rewrite Hdir. cbn zeta. apply view_tree_seen; [| |exact Hd].
    + apply list_elem_of_In, elements_count.
      apply stats_scan_polled; [apply numeric_dirs_i32|exact Hin|exact Hskip|exact Hmem].
    + pose proof (numeric_dirs_nonzero proc_dir) as Hnz. rewrite Forall_forall in Hnz.
      apply Hnz, Hin.
  - intros (-> & Hin & H0 & Hd). apply view_tree_seen; [|exact H0|exact Hd].
    apply list_elem_of_In, elements_count, Hin.
Qed.

(** * Theorems *)

(** C10. The handlers describe what they are asked for: when a handler
    returns from a reachable state, every id asked of it that can be
    described is in [seen_pids_] and is described by a process or a
    thread entry of a packet of the epoch.  [OnPids] is asked for the
    pids of the request, [Start] for the processes of /proc and the
    threads of their task directories, [Tick] for the processes whose
    memory counters it polls, so that no process has stats in the
    trace and no description.  The entry is in the trace whether this
    handler wrote it or an earlier one did, and it is in a packet that
    a reader who starts at the last packet announcing
    [incremental_state_cleared] has. *)
Theorem handle_describes cfg e (ev : Event SetT) s s' pid :
  reachable cfg s -> handle e ev s = Ok tt s' -> asked e ev s pid ->
  set_count pid (seen_pids_ s') = true /\ pid ∈ epoch_ids (trace s').
Proof.
  intros Hr Hrun Hask. destruct (reachable_resting cfg s Hr) as [Hrest _].
  pose proof Hrest as (_ & Hset & _).
  pose proof (wp_Ok any_fault _ _ _ _ _
                (handle_view any_fault e ev _ _ s (ev_ok_any _ (e, ev)) Hrest) Hrun)
    as (_ & _ & Hv).
  assert (set_count pid (seen_pids_ s') = true) as Hseen.
  { change (seen_pids_ s') with (tv_seen (tree_view s')). rewrite Hv, <- Hset.
    apply abs_handle_asked, Hask. }
  split; [exact Hseen|].
  assert (reachable cfg s') as Hr' by (eapply rtc_r; [exact Hr|exact (step_handle e ev _ _ Hrun)]).
  apply (seen_described cfg s' pid Hr' Hseen).
Qed.

End Asked.
