(* ===== verification/Timestamps.v ===== *)
(** * The timestamps of the packets

    A packet carries the time at which the scan that filled it began,
    read from the boot clock by [CacheProcFsScanStartTimestamp], and
    each of its messages the time at which it was closed, read by
    [FinalizeCurPacket].  When the handlers of a run read one clock
    that never goes back, no message of a packet ends before the
    packet's timestamp ([timely], and [in_order] for a packet that is
    typed) and the timestamps of the packets never decrease along the
    trace.  [timed] is the invariant: the
    packets released so far are timely, their timestamps are sorted
    and none exceeds [next_stamp], the least timestamp the next packet
    can carry, and neither the cached timestamp nor that of the open
    packet lies in the future. *)

From Stdlib Require Import ZArith List Ascii String Lia Sorted.
From stdpp Require Import base option list gmap sorting.
From S2P Require Import Prelude CxxString FlatSet TraceProto ProcFs StatusParse.
From S2P Require Import ProcessStats PacketCursor Handlers TraceShape.

#[local] Open Scope Z_scope.
#[local] Open Scope m_scope.

(** The collection end timestamp of a message. *)
Definition field_end (x : PacketField) : option Z :=
  match x with
  | ProcessTreeField t => tree_collection_end_timestamp t
  | ProcessStatsField st => stats_collection_end_timestamp st
  end.

(** No message of the packet ends before the packet's timestamp. *)
Definition timely (p : TracePacket) : Prop :=
  forall t x te, timestamp p = Some t -> x ∈ fields p -> field_end x = Some te -> t <= te.

(** The packet has a timestamp and one message, closed at a time that
    is not before it. *)
Definition in_order (p : TracePacket) : Prop :=
  exists t x te, timestamp p = Some t /\ fields p = [x] /\ field_end x = Some te /\ t <= te.

(** The timestamps of the packets of a trace, in their order. *)
Definition stamps (tr : list TracePacket) : list Z := omap timestamp tr.

Section Clock.
Context {SetT : Type} `{IntSet SetT}.
Implicit Types (s : State SetT) (e : Env).

(** The boot clock: the value of its [k]-th reading. *)
Variable clock : nat -> Z.
Hypothesis clock_mono : forall i j, (i <= j)%nat -> clock i <= clock j.
Hypothesis clock_u64 : forall k, is_u64 (clock k).

(** The handler call reads the clock. *)
Definition on_clock e : Prop := forall k, boot_time_ns e k = clock k.

(** The least timestamp the next packet released can carry: that of
    the open packet, else the cached start of the scan, else the next
    reading of the clock. *)
Definition next_stamp s : Z :=
  match cur_packet_ s with
  | Some p => default (clock (clock_reads s)) (timestamp p)
  | None =>
      if cur_procfs_scan_start_timestamp_ s =? 0 then clock (clock_reads s)
      else cur_procfs_scan_start_timestamp_ s
  end.

Definition timed s : Prop :=
  Forall timely (trace s) /\
  StronglySorted Z.le (stamps (trace s)) /\
  Forall (fun t => t <= next_stamp s) (stamps (trace s)) /\
  cur_procfs_scan_start_timestamp_ s <= clock (clock_reads s) /\
  forall p, cur_packet_ s = Some p ->
    timely p /\ forall t, timestamp p = Some t -> t <= clock (clock_reads s).

(** * Lemmas *)

Lemma stamps_snoc tr p : stamps (tr ++ [p]) = stamps tr ++ option_list (timestamp p).
Proof. unfold stamps. rewrite omap_app. cbn. destruct (timestamp p); reflexivity. Qed.

Lemma clock_next k : clock k <= clock (S k).
Proof. apply clock_mono. lia. Qed.

Lemma read_clock e k : on_clock e -> wrap_u64 (boot_time_ns e k) = clock k.
Proof. intros ->. apply wrap_u64_small, clock_u64. Qed.

(** The timestamp the next packet can carry is never in the future. *)
Lemma next_stamp_le s : timed s -> next_stamp s <= clock (clock_reads s).
Proof.
  intros (_ & _ & _ & Hc & Hp). unfold next_stamp.
  destruct (cur_packet_ s) as [p|]; [|destruct (_ =? 0); lia].
  destruct (timestamp p) as [t|] eqn:E; cbn; [|lia]. apply (Hp p eq_refl), E.
Qed.

(** [timed] with a later bound on the timestamps released. *)
Lemma timed_intro s s' :
  trace s' = trace s -> next_stamp s <= next_stamp s' ->
  cur_procfs_scan_start_timestamp_ s' <= clock (clock_reads s') ->
  (forall p, cur_packet_ s' = Some p ->
     timely p /\ forall t, timestamp p = Some t -> t <= clock (clock_reads s')) ->
  timed s -> timed s'.
Proof.
  intros Htr Hn Hc Hp (Ht & Hs & Hb & _). rewrite <- Htr in Ht, Hs, Hb.
  do 2 (split; [assumption|]). split; [|split; assumption].
  eapply Forall_impl; [exact Hb|]. cbn. intros. lia.
Qed.

(** ** The clock and the packet *)

Lemma CacheProcFsScanStartTimestamp_timed F e :
  on_clock e -> preserves F timed (CacheProcFsScanStartTimestamp e).
Proof.
  intros He s Hs. apply wp_CacheProcFsScanStartTimestamp.
  destruct (cur_procfs_scan_start_timestamp_ s =? 0) eqn:E; [|exact Hs]. cbn zeta.
  rewrite (read_clock e _ He). pose proof (clock_next (clock_reads s)) as Hn.
  pose proof Hs as (_ & _ & _ & _ & Hp).
  apply (timed_intro s); [reflexivity| | | |exact Hs].
  - unfold next_stamp. st_simpl. destruct (cur_packet_ s) as [p|].
    + destruct (timestamp p); cbv [from_option id]; [lia|exact Hn].
    + rewrite E. destruct (clock (clock_reads s) =? 0); [exact Hn|reflexivity].
  - st_simpl. exact Hn.
  - st_simpl. intros p Hcur. destruct (Hp p Hcur) as [Ht Hle]. split; [exact Ht|].
    intros t Hts. specialize (Hle t Hts). lia.
Qed.

(** A packet without messages is timely. *)
Lemma timely_empty p : fields p = [] -> timely p.
Proof. intros Hf t x te _ Hx. rewrite Hf in Hx. inversion Hx. Qed.

Lemma StartNewPacketIfNeeded_timed F e :
  on_clock e -> preserves F timed (StartNewPacketIfNeeded e).
Proof.
  intros He s Hs. unfold StartNewPacketIfNeeded. rewrite wp_bind, wp_get.
  destruct (cur_packet_ s) as [p|] eqn:Hcur; wp_simpl; [exact Hs|].
  rewrite wp_CacheProcFsScanStartTimestamp. st_simpl.
  pose proof (clock_next (clock_reads s)) as Hn. pose proof Hs as (_ & _ & _ & Hc & _).
  destruct (cur_procfs_scan_start_timestamp_ s =? 0) eqn:E; cbn zeta;
    rewrite ?(read_clock e _ He); wp_run.
  all: apply (timed_intro s); [reflexivity| | | |exact Hs].
  all: unfold next_stamp, upd_packet; st_simpl; rewrite ?Hcur, ?E; cbn;
    try solve [reflexivity|exact Hn|exact Hc].
  all: intros p [= <-]; (split; [apply timely_empty; reflexivity|]);
    cbn; intros t [= <-]; solve [exact Hn|exact Hc].
Qed.

(** ** Writes to the open packet *)

(** A write that keeps the timestamp of the packet and closes no
    message. *)
Lemma timed_upd_packet f s :
  (forall p, timestamp (f p) = timestamp p /\ (timely p -> timely (f p))) ->
  timed s -> timed (upd_packet f s).
Proof.
  intros Hf Hs. pose proof Hs as (_ & _ & _ & Hc & Hp).
  apply (timed_intro s); [reflexivity| |exact Hc| |exact Hs].
  - unfold next_stamp, upd_packet. st_simpl. destruct (cur_packet_ s) as [p|]; cbn; [|lia].
    rewrite (proj1 (Hf p)). lia.
  - unfold upd_packet. st_simpl. intros p' Hcur.
    destruct (cur_packet_ s) as [p|]; [|discriminate Hcur]. injection Hcur as <-.
    destruct (Hp p eq_refl) as [Ht Hle]. destruct (Hf p) as [Hts Hty].
    split; [apply Hty, Ht|]. rewrite Hts. exact Hle.
Qed.

Lemma timely_alter g i p :
  (forall x, field_end (g x) = field_end x) -> timely p -> timely (alter_field g i p).
Proof.
  intros Hg Hp t x te Hts Hx He. cbn in Hts, Hx.
  apply list_elem_of_lookup in Hx as [j Hj]. rewrite list_lookup_alter in Hj.
  destruct (decide (i = j)) as [->|_];
    [|apply (Hp t x te Hts (list_elem_of_lookup_2 _ _ _ Hj) He)].
  destruct (fields p !! j) as [y|] eqn:Ey; cbn in Hj; [|discriminate Hj].
  injection Hj as <-. rewrite Hg in He.
  apply (Hp t y te Hts (list_elem_of_lookup_2 _ _ _ Ey) He).
Qed.

Lemma timed_alter_field g i s :
  (forall x, field_end (g x) = field_end x) -> timed s -> timed (upd_packet (alter_field g i) s).
Proof.
  intros Hg. apply timed_upd_packet. intros p. split; [reflexivity|apply timely_alter, Hg].
Qed.

Lemma timed_alter_tree f i s :
  (forall t, tree_collection_end_timestamp (f t) = tree_collection_end_timestamp t) ->
  timed s -> timed (upd_packet (alter_tree f i) s).
Proof. intros Hf. apply timed_alter_field. intros [t|st]; [apply Hf|reflexivity]. Qed.

Lemma timed_alter_stats f i s :
  (forall st, stats_collection_end_timestamp (f st) = stats_collection_end_timestamp st) ->
  timed s -> timed (upd_packet (alter_stats f i) s).
Proof. intros Hf. apply timed_alter_field. intros [t|st]; [reflexivity|apply Hf]. Qed.

Lemma timed_alter_stats_process f i j s :
  timed s -> timed (upd_packet (alter_stats_process f i j) s).
Proof. apply timed_alter_stats. reflexivity. Qed.

Lemma timed_add_field x s :
  field_end x = None -> timed s -> timed (upd_packet (add_field x) s).
Proof.
  intros Hx. apply timed_upd_packet. intros p. split; [reflexivity|].
  intros Hp t y te Hts Hy He. cbn in Hts, Hy. apply elem_of_app in Hy as [Hy|Hy].
  - apply (Hp t y te Hts Hy He).
  - apply list_elem_of_singleton in Hy as ->. congruence.
Qed.

(** ** The message pointers *)

Lemma set_process_tree_timed F : preserves F timed (set_process_tree (SetT:=SetT)).
Proof.
  intros s Hs. unfold set_process_tree. wp_run.
  apply (timed_add_field (ProcessTreeField empty_tree) s eq_refl Hs).
Qed.

Lemma set_process_stats_timed F : preserves F timed (set_process_stats (SetT:=SetT)).
Proof.
  intros s Hs. unfold set_process_stats. wp_run.
  apply (timed_add_field (ProcessStatsField empty_stats) s eq_refl Hs).
Qed.

#[local] Hint Resolve CacheProcFsScanStartTimestamp_timed StartNewPacketIfNeeded_timed
  set_process_tree_timed set_process_stats_timed timed_alter_tree timed_alter_stats
  timed_alter_stats_process : pres.
#[local] Hint Extern 1 (timed _) => assumption : pres.
#[local] Hint Extern 1 (on_clock _) => assumption : pres.

Lemma GetOrCreatePsTree_timed F e : on_clock e -> preserves F timed (GetOrCreatePsTree e).
Proof. intros He. unfold GetOrCreatePsTree. pres. Qed.

Lemma GetOrCreateStats_timed F e : on_clock e -> preserves F timed (GetOrCreateStats e).
Proof. intros He. unfold GetOrCreateStats. pres. Qed.

Lemma GetOrCreateStatsProcess_timed F e pid :
  on_clock e -> preserves F timed (GetOrCreateStatsProcess e pid).
Proof.
  intros He s Hs. unfold GetOrCreateStatsProcess. rewrite wp_bind, wp_get.
  destruct (cur_ps_stats_process_ s); wp_simpl; [exact Hs|].
  eapply wp_mono; [apply GetOrCreateStats_timed; [exact He|exact Hs]|]. cbn beta.
  intros i s1 Hs1. wp_run.
  exact (timed_alter_stats (add_stats_process (new_stats_process pid)) i s1
           (fun _ => eq_refl) Hs1).
Qed.

(** ** Closing the packet *)

(** Closing messages at a time that is not before the timestamp of the
    packet. *)
Lemma timely_close g i p now :
  (forall x te, field_end (g x) = Some te -> field_end x = Some te \/ te = now) ->
  (forall t, timestamp p = Some t -> t <= now) ->
  timely p -> timely (alter_field g i p).
Proof.
  intros Hg Hnow Hp t x te Hts Hx He. cbn in Hts, Hx.
  apply list_elem_of_lookup in Hx as [j Hj]. rewrite list_lookup_alter in Hj.
  destruct (decide (i = j)) as [->|_];
    [|apply (Hp t x te Hts (list_elem_of_lookup_2 _ _ _ Hj) He)].
  destruct (fields p !! j) as [y|] eqn:Ey; cbn in Hj; [|discriminate Hj].
  injection Hj as <-. destruct (Hg y te He) as [Hy| ->]; [|apply Hnow, Hts].
  apply (Hp t y te Hts (list_elem_of_lookup_2 _ _ _ Ey) Hy).
Qed.

Lemma timely_closed p now (tree stats : option nat) :
  (forall t, timestamp p = Some t -> t <= now) -> timely p ->
  timely (from_option (alter_stats (set_stats_end now)) id stats
            (from_option (alter_tree (set_tree_end now)) id tree p)).
Proof.
  intros Hnow Hp.
  assert (timely (from_option (alter_tree (set_tree_end now)) id tree p)) as Hp1.
  { destruct tree as [i|]; [|exact Hp]. apply (timely_close _ i p now); [|exact Hnow|exact Hp].
    intros [t|st] te; cbn; [intros [= <-]|]; auto. }
  destruct stats as [i|]; [|exact Hp1]. apply (timely_close _ i _ now); [| |exact Hp1].
  - intros [t|st] te; cbn; [|intros [= <-]]; auto.
  - destruct tree; exact Hnow.
Qed.

(** Releasing the packet after a reading of the clock. *)
Lemma timed_released s s' p p' :
  timed s -> cur_packet_ s = Some p -> timestamp p' = timestamp p -> timely p' ->
  trace s' = trace s ++ [p'] -> cur_packet_ s' = None ->
  cur_procfs_scan_start_timestamp_ s' = 0 -> clock_reads s' = S (clock_reads s) ->
  timed s'.
Proof.
  intros Hs Hcur Hts Hty Htr Hcur' Hc' Hn'. pose proof (next_stamp_le s Hs) as Hle.
  destruct Hs as (Ht & Hso & Hb & _ & Hp). destruct (Hp p Hcur) as [_ Hpl].
  pose proof (clock_next (clock_reads s)) as Hn. unfold next_stamp in Hb, Hle.
  rewrite Hcur in Hb, Hle. unfold timed, next_stamp.
  rewrite Htr, Hcur', Hc', Hn', stamps_snoc, Hts. cbn [Z.eqb].
  split; [apply Forall_app; split; [exact Ht|constructor; [exact Hty|constructor]]|].
  split; [|split; [|split; [apply (clock_u64 _)|discriminate]]].
  - apply StronglySorted_app_2; [|exact Hso|destruct (timestamp p); repeat constructor].
    intros t1 t2 H1 H2. rewrite Forall_forall in Hb. specialize (Hb t1 H1).
    destruct (timestamp p) as [t|]; cbn in *; [|inversion H2].
    apply list_elem_of_singleton in H2 as ->. exact Hb.
  - apply Forall_app. split; [eapply Forall_impl; [exact Hb|]; cbn; intros; lia|].
    destruct (timestamp p) as [t|]; cbn; [|constructor].
    constructor; [|constructor]. specialize (Hpl t eq_refl). lia.
Qed.

(** A reading of the clock without an open packet. *)
Lemma timed_idle s s' :
  timed s -> cur_packet_ s = None -> trace s' = trace s -> cur_packet_ s' = None ->
  cur_procfs_scan_start_timestamp_ s' = 0 -> clock_reads s' = S (clock_reads s) ->
  timed s'.
Proof.
  intros Hs Hcur Htr Hcur' Hc' Hn'. pose proof (next_stamp_le s Hs) as Hle.
  pose proof (clock_next (clock_reads s)) as Hn.
  apply (timed_intro s); [exact Htr| | | |exact Hs].
  - unfold next_stamp at 2. rewrite Hcur', Hc', Hn'. cbn. lia.
  - rewrite Hc'. apply (clock_u64 _).
  - rewrite Hcur'. discriminate.
Qed.

Lemma FinalizeCurPacket_timed F e : on_clock e -> preserves F timed (FinalizeCurPacket e).
Proof.
  intros He s Hs. unfold FinalizeCurPacket. rewrite wp_bind, wp_GetBootTimeNs.
  rewrite (read_clock e _ He). pose proof Hs as (_ & _ & _ & _ & Hp).
  wp_run; unfold release_packet, upd_packet; st_norm.
  all: destruct (cur_packet_ s) as [p|] eqn:Hcur; cbn [fmap option_fmap option_map]; st_norm;
    rewrite ?Hcur; [|apply (timed_idle s); auto].
  all: destruct (Hp p eq_refl) as [Hty Hle].
  all: match goal with
       | |- context [alter_stats _ ?i (alter_tree _ ?j _)] =>
           pose proof (timely_closed p _ (Some j) (Some i) Hle Hty) as Hty'
       | |- context [alter_stats _ ?i _] =>
           pose proof (timely_closed p _ None (Some i) Hle Hty) as Hty'
       | |- context [alter_tree _ ?j _] =>
           pose proof (timely_closed p _ (Some j) None Hle Hty) as Hty'
       | _ => pose proof (timely_closed p _ None None Hle Hty) as Hty'
       end.
  all: eapply (timed_released s); [exact Hs|exact Hcur| |exact Hty'|reflexivity..];
    reflexivity.
Qed.

(** ** The writers *)

Section Writers.
Variable e : Env.
Hypothesis He : on_clock e.

#[local] Hint Resolve GetOrCreatePsTree_timed GetOrCreateStatsProcess_timed
  FinalizeCurPacket_timed : pres.

(** [walk] is [pres] with the scans of directories. *)
Ltac walk :=
  repeat first [pres_step | apply preserves_scan_dir; intros ? ? ?]; eauto with pres.

Lemma WriteProcess_timed pid proc_status :
  preserves any_fault timed (WriteProcess e pid proc_status).
Proof. unfold WriteProcess. walk. Qed.

Lemma WriteThread_timed tid tgid name proc_status :
  preserves any_fault timed (WriteThread e tid tgid name proc_status).
Proof. unfold WriteThread. walk. Qed.

#[local] Hint Resolve WriteProcess_timed WriteThread_timed : pres.

Lemma WriteProcessOrThread_timed pid : preserves any_fault timed (WriteProcessOrThread e pid).
Proof. unfold WriteProcessOrThread. walk. Qed.

Lemma cache_entry_timed pid : preserves any_fault timed (cache_entry (SetT:=SetT) pid).
Proof. intros s Hs. unfold cache_entry. wp_run; exact Hs. Qed.

Lemma mark_skip_timed pid_u : preserves any_fault timed (mark_skip (SetT:=SetT) pid_u).
Proof. intros s Hs. unfold mark_skip. wp_run; [exact Hs|exact I]. Qed.

#[local] Hint Resolve WriteProcessOrThread_timed cache_entry_timed mark_skip_timed : pres.

Lemma WriteSingleFd_timed tid fd : preserves any_fault timed (WriteSingleFd e tid fd).
Proof. unfold WriteSingleFd. walk. Qed.

#[local] Hint Resolve WriteSingleFd_timed : pres.

Lemma WriteFds_timed pid : preserves any_fault timed (WriteFds e pid).
Proof. unfold WriteFds. walk. Qed.

#[local] Hint Resolve WriteFds_timed : pres.

Lemma stats_body_timed pids pid : preserves any_fault timed (stats_body e pids pid).
Proof.
  unfold stats_body, WriteMemCounters, mem_char_step, mem_newline, write_counter,
    write_oom_score_adj.
  walk.
Qed.

Lemma WriteProcessTree_timed pids : preserves any_fault timed (WriteProcessTree e pids).
Proof. unfold WriteProcessTree. walk. Qed.

#[local] Hint Resolve stats_body_timed WriteProcessTree_timed : pres.

Lemma WriteAllProcessStats_timed : preserves any_fault timed (WriteAllProcessStats e).
Proof. unfold WriteAllProcessStats. walk. Qed.

Lemma WriteAllProcesses_timed : preserves any_fault timed (WriteAllProcesses e).
Proof. unfold WriteAllProcesses, proc_body, task_body. walk. Qed.

#[local] Hint Resolve WriteAllProcessStats_timed WriteAllProcesses_timed : pres.

Lemma Tick_timed : preserves any_fault timed (Tick e).
Proof.
  intros s Hs. unfold Tick, PostTask. wp_run; [exact I|].
  eapply wp_mono; [apply WriteAllProcessStats_timed; exact Hs|]. cbn beta. intros _ s1 Hs1.
  wp_run. destruct (tick_cache _ _) as [ticks []]; exact Hs1.
Qed.

Lemma handle_timed (ev : Event SetT) : preserves any_fault timed (handle e ev).
Proof.
  destruct ev; cbn [handle]; [|apply Tick_timed|..];
    unfold Start, OnPids, OnRenamePids, OnFds, fds_body, Flush, ClearIncrementalState,
      PostTask; walk.
Qed.

End Writers.

Lemma run_timed (evs : list (Env * Event SetT)) :
  Forall (fun x => on_clock (fst x)) evs -> preserves any_fault timed (run evs).
Proof.
  intros Hon. apply preserves_foreach_elem. intros [e ev] Hin.
  rewrite Forall_forall in Hon. apply handle_timed, (Hon _ Hin).
Qed.

Lemma init_timed cfg : timed (init_state cfg).
Proof.
  split; [constructor|]. split; [constructor|]. split; [constructor|].
  split; [apply (clock_u64 _)|discriminate].
Qed.

(** A typed packet that is timely is in order. *)
Lemma typed_in_order p : packet_typed p -> timely p -> in_order p.
Proof.
  intros ((t & Hts & _) & x & Hf & Hx) Hp.
  assert (exists te, field_end x = Some te) as [te He].
  { destruct x as [tr|st]; cbn in Hx |- *; [|destruct Hx as [_ Hx]];
      destruct (Hx eq_refl) as (te & -> & _); eauto. }
  exists t, x, te. repeat split; try assumption.
  apply (Hp t x te Hts); [rewrite Hf; left|exact He].
Qed.

(** * Theorems *)

(** C11. The timestamps are in order: when the handlers of a run from
    the constructed state read one boot clock that never goes back,
    with readings that fit [uint64], every packet of the trace has a
    timestamp and one message whose collection end timestamp is not
    before it, and the timestamps of the packets never decrease along
    the trace.  This holds although the timestamp of a packet is the
    cached start of a scan, which a scan that failed may have left
    behind: it is never later than the reading that closes the
    packet, and never earlier than the packets released before. *)
Theorem run_timestamps cfg (evs : list (Env * Event SetT)) s' :
  Forall (fun x => on_clock (fst x)) evs -> run evs (init_state cfg) = Ok tt s' ->
  Forall in_order (trace s') /\ StronglySorted Z.le (stamps (trace s')).
Proof.
  intros Hon Hrun.
  destruct (preserves_Ok any_fault timed _ _ _ _ (run_timed evs Hon) (init_timed cfg) Hrun)
    as (Ht & Hso & _).
  split; [|exact Hso].
  assert (reachable cfg s') as Hr by (eapply run_reachable; [apply rtc_refl|exact Hrun]).
  destruct (reachable_shaped cfg s' Hr) as (Hty & _).
  rewrite Forall_forall in *. intros p Hp. apply typed_in_order; auto.
Qed.

End Clock.
