(* ===== verification/Typing.v ===== *)
(** * The types of the reachable states

    The model keeps every machine integer as a [Z] and every message as
    a record of [Z]s and byte strings.  [state_typed] says that what a
    state holds fits the C++ and protobuf types of the fields it
    models, and that every packet of the trace has the shape
    [TraceShape] describes; the theorem shows that the constructor
    establishes it and every handler keeps it. *)

From Stdlib Require Import ZArith List Ascii String Lia.
From stdpp Require Import base option list gmap.
From S2P Require Import Prelude CxxString FlatSet TraceProto ProcFs StatusParse.
From S2P Require Import ProcessStats PacketCursor Handlers Polling TraceShape.

#[local] Open Scope Z_scope.

Section Typed.
Context {SetT : Type} `{IntSet SetT}.

(** The tick counter is a [uint32] below the time to live. *)
Definition ticks_typed (k : Knobs) : Prop := is_u32 (k_ticks k) /\ ticks_wf k.

(** A well-typed state: every packet of the trace is well typed
    ([packet_typed]: a timestamp and one closed message, with typed
    stats entries), every process entry of the trace is well typed
    ([process_typed]), the settings are those a constructor can produce
    (32-bit, with a period of at least 100 ms when polling), and the tick
    counter is a [uint32] that stays below the time to live. *)
Definition state_typed (s : State SetT) : Prop :=
  Forall packet_typed (trace s) /\
  Forall process_typed (trace_processes (trace s)) /\
  settings_wf (settings s) /\ ticks_typed (knobs s).

(** * Lemmas *)

Lemma tick_cache_u32 ticks ttl : is_u32 (fst (tick_cache ticks ttl)).
Proof.
  unfold tick_cache. destruct (_ =? _); cbn [fst]; [unfold is_u32; lia|].
  apply wrap_u32_range.
Qed.

Lemma next_knobs_ticks_typed e (ev : Event SetT) k :
  settings_wf (k_settings k) -> ticks_typed k -> ticks_typed (next_knobs e ev k).
Proof.
  intros Hs [Hu Hw]. split; [|apply next_knobs_ticks_wf; assumption].
  destruct ev; cbn [next_knobs k_ticks]; try exact Hu.
  - destruct (negb _); exact Hu.
  - apply tick_cache_u32.
  - unfold is_u32. lia.
Qed.

(** The invariant of the reachable states behind the theorems on
    them: no packet is open, the entries are well typed, the settings
    are the constructor's and the tick counter is in range. *)
Lemma reachable_inv cfg s :
  cfg_wf cfg -> reachable cfg s ->
  idle_at (fun l (_ : SetT) => Forall process_typed l) (knobs s) s /\
  settings s = make_settings cfg /\ ticks_typed (knobs s).
Proof.
  intros Hcfg.
  apply (reachable_idle (fun l _ => Forall process_typed l) ticks_typed); auto.
  - split; [unfold is_u32; cbn; lia|split; [cbn; lia|]].
    intros Hp. change (0 < process_stats_cache_ttl_ticks_ (make_settings cfg)).
    change (poll_period_ms_ (make_settings cfg) <> 0) in Hp.
    destruct (settings_wf_make cfg Hcfg) as [[Hp' _]|[_ Ht]]; [contradiction|lia].
  - intros e ev k Hk. apply next_knobs_ticks_typed. rewrite Hk. apply settings_wf_make, Hcfg.
Qed.

(** * Theorems *)

(** C7. Every reachable state is well typed: in every state reachable
    from the constructed one by handler calls that return, whatever
    /proc held at each call, every packet of the trace has a [uint64]
    timestamp and exactly one message, a process tree or process
    stats, with its collection end timestamp set; every counter of a
    stats entry is a [uint32], every [oom_score_adj] an [int32] and
    every path of a descriptor has at most 256 bytes; every process
    entry has a positive 32-bit [pid], 32-bit [ppid] and [uid],
    namespace ids that are 32-bit and not 0, and [cmdline] entries
    without NUL; the period is 0 or between 100 and 2^32 - 1, and the
    tick counter is a [uint32] below the time to live when polling is
    on. *)
Theorem reachable_typed cfg s :
  cfg_wf cfg -> reachable cfg s -> state_typed s.
Proof.
  intros Hcfg Hr. destruct (reachable_inv cfg s Hcfg Hr) as (Hi & Hs & Ht).
  unfold state_typed. rewrite <- (idle_emitted _ _ _ Hi). destruct Hi as (_ & Hd & _).
  split; [apply (reachable_shaped cfg s Hr)|]. split; [exact Hd|].
  split; [rewrite Hs; apply settings_wf_make, Hcfg|exact Ht].
Qed.

End Typed.
