(* ===== verification/Expiry.v ===== *)
(** * Expiry of the stats cache

    [Tick] counts the polls and empties [process_stats_cache_] when the
    count reaches the time to live, so that every counter is written
    again even when it has not changed.  [leads_to] states that a run
    gets to a state; the theorem shows that every run with enough ticks
    gets to a state with an empty cache. *)

From Stdlib Require Import ZArith List Ascii String Lia.
From stdpp Require Import base option list gmap.
From S2P Require Import Prelude CxxString FlatSet TraceProto ProcFs StatusParse.
From S2P Require Import ProcessStats PacketCursor Handlers Polling Typing.

#[local] Open Scope Z_scope.

Section CacheExpiry.
Context {SetT : Type} `{IntSet SetT}.
Implicit Types (s : State SetT) (ev : Event SetT) (evs : list (Env * Event SetT)).

(** [leads_to P evs s]: running the handlers of [evs] from [s], each
    returns until one of them returns in a state that satisfies [P]. *)
Inductive leads_to (P : State SetT -> Prop) : list (Env * Event SetT) -> State SetT -> Prop :=
| leads_here x evs s s' :
    handle (fst x) (snd x) s = Ok tt s' -> P s' -> leads_to P (x :: evs) s
| leads_later x evs s s' :
    handle (fst x) (snd x) s = Ok tt s' -> leads_to P evs s' -> leads_to P (x :: evs) s.

(** The cache has just been emptied. *)
Definition cache_dropped s : Prop :=
  process_stats_cache_ s = ∅ /\ cache_ticks_ s = 0.

Definition is_tick ev : bool :=
  match ev with EvTick => true | _ => false end.

(** The number of calls of [Tick] in a run. *)
Definition count_ticks evs : nat :=
  length (filter (fun x => is_tick (snd x) = true) evs).

(** The handler empties the cache: a [Tick] that reaches the time to
    live, or [ClearIncrementalState]. *)
Definition drops ev (k : Knobs) : bool :=
  match ev with
  | EvTick => snd (tick_cache (k_ticks k) (process_stats_cache_ttl_ticks_ (k_settings k)))
  | EvClearIncrementalState => true
  | _ => false
  end.

(** The ticks left before the cache is emptied. *)
Definition ticks_left (k : Knobs) : nat :=
  Z.to_nat (process_stats_cache_ttl_ticks_ (k_settings k) - k_ticks k).

(** * Lemmas *)

Lemma handle_drops F e ev k s :
  ev_ok F (k_settings k) (e, ev) -> idle_at (fun _ (_ : SetT) => True) k s ->
  wpf F (handle e ev) (fun _ s' =>
    idle_at (fun _ (_ : SetT) => True) (next_knobs e ev k) s' /\
    (drops ev k = true -> process_stats_cache_ s' = ∅)) s.
Proof.
  intros Hok Hi.
  destruct ev; cbn [drops];
    try (eapply wp_mono; [apply handle_quiescent; eassumption|];
         cbn beta; intros _ s' Hi'; split; [exact Hi'|discriminate]).
  - destruct Hok as [Henv Htick]. apply Tick_spec; [apply _|exact Henv|auto|exact Hi].
  - cbn [handle next_knobs]. unfold ClearIncrementalState.
    destruct Hi as (Hq & Hd & <-). wp_run.
    split; [split; [exact Hq|split; [exact I|reflexivity]]|reflexivity].
Qed.

Lemma drops_ticks e ev k : drops ev k = true -> k_ticks (next_knobs e ev k) = 0.
Proof.
  destruct ev; cbn [drops next_knobs k_ticks]; try discriminate; [|reflexivity].
  unfold tick_cache. destruct (_ =? _); [reflexivity|discriminate].
Qed.

Lemma count_ticks_cons x evs :
  count_ticks (x :: evs) = ((if is_tick (snd x) then 1 else 0) + count_ticks evs)%nat.
Proof.
  unfold count_ticks. rewrite filter_cons.
  destruct (is_tick (snd x)); case_decide; try congruence; reflexivity.
Qed.

Section PollingOn.
Context (k : Knobs).
Context (Hs : settings_wf (k_settings k)) (Hp : poll_period_ms_ (k_settings k) <> 0).
Context (Ht : ticks_wf k).

Lemma ticks_left_pos : (0 < ticks_left k)%nat.
Proof. destruct Ht as [_ Hlt]. specialize (Hlt Hp). unfold ticks_left. lia. Qed.

(** A handler that does not empty the cache uses up one tick if it is
    [Tick], and none otherwise. *)
Lemma ticks_left_next e ev :
  drops ev k = false ->
  ((if is_tick ev then 1 else 0) + ticks_left (next_knobs e ev k) = ticks_left k)%nat.
Proof.
  intros Hd. unfold ticks_left. rewrite next_knobs_settings.
  destruct ev; cbn [is_tick next_knobs k_ticks drops] in *; try discriminate; try lia.
  - destruct (negb _); cbn [k_ticks]; lia.
  - destruct Hs as [[Hp' _]|[_ Httl]]; [contradiction|]. destruct Ht as [H0 Hlt].
    pose proof (tick_cache_range (k_ticks k) _ (conj H0 (Hlt Hp)) (proj2 Httl)) as [Hr Hx].
    unfold tick_cache in *. rewrite wrap_u32_small in * by (unfold is_u32; lia).
    destruct (_ =? _); [discriminate|]. cbn [fst]. lia.
Qed.

End PollingOn.

(** From a state between handlers in which the tick counter is in
    range, a run whose handlers can return and that holds as many
    [Tick]s as are left gets to an empty cache. *)
Lemma idle_leads_to_dropped cfg evs :
  cfg_wf cfg -> poll_period_ms_ (make_settings cfg) <> 0 ->
  Forall (ev_ok no_fault (make_settings cfg)) evs ->
  forall k s, idle_at (fun _ (_ : SetT) => True) k s ->
    k_settings k = make_settings cfg -> ticks_wf k ->
    (ticks_left k <= count_ticks evs)%nat ->
    leads_to cache_dropped evs s.
Proof.
  intros Hcfg Hp. pose proof (settings_wf_make cfg Hcfg) as Hwf.
  induction 1 as [|[e ev] evs Hok _ IH]; intros k s Hi Hk Ht Hn; rewrite <- Hk in *.
  { pose proof (ticks_left_pos k Hp Ht). change (count_ticks []) with 0%nat in Hn. lia. }
  pose proof (handle_drops no_fault e ev k s Hok Hi) as Hwp.
  apply wp_exec in Hwp as ([] & s' & Hrun & Hi' & Hd).
  rewrite count_ticks_cons in Hn. destruct (drops ev k) eqn:Hdrop.
  - eapply leads_here; [exact Hrun|]. split; [auto|].
    destruct Hi' as (_ & _ & Hk'). change (k_ticks (knobs s') = 0).
    rewrite Hk'. apply drops_ticks, Hdrop.
  - eapply leads_later; [exact Hrun|].
    apply (IH (next_knobs e ev k)); [exact Hi'|apply next_knobs_settings| |].
    + apply next_knobs_ticks_wf; assumption.
    + pose proof (ticks_left_next k Hwf Hp Ht e ev Hdrop). cbn [snd] in Hn. lia.
Qed.

(** * Theorems *)

(** C18. The cache expires: when polling is on, from every reachable
    state, every run of handlers that can return (no fault of /proc)
    and that holds at least as many calls of [Tick] as remain before
    the time to live gets to a state, between two handlers, in which
    [process_stats_cache_] is empty and the tick counter is 0; so no
    cached value outlives [process_stats_cache_ttl_ticks_] polls. *)
Theorem cache_expires cfg evs s :
  cfg_wf cfg -> poll_period_ms_ (make_settings cfg) <> 0 -> reachable cfg s ->
  Forall (ev_ok no_fault (make_settings cfg)) evs ->
  (ticks_left (knobs s) <= count_ticks evs)%nat ->
  leads_to cache_dropped evs s.
Proof.
  intros Hcfg Hp Hr Hok Hn.
  destruct (reachable_inv cfg s Hcfg Hr) as ((Hq & _ & Hk) & Hs & _ & Ht).
  apply (idle_leads_to_dropped cfg evs Hcfg Hp Hok (knobs s)); auto.
  split; [exact Hq|split; [exact I|exact Hk]].
Qed.

End CacheExpiry.
