(* ===== verification/Lifetime.v ===== *)
(** * The data source among its tasks: lifetime and polling

    The handlers of [Handlers] run on a live object, and [Tick] is one
    of them.  In the program [Tick] is a static function bound to a weak
    pointer and handed to the task runner: it runs when the task runner
    decides, possibly after the destructor, and then returns at once.

    A [World] is the object, whether it is still alive, and the tasks
    that have been posted and have not run.  A [Move] is what can
    happen next: a call of a public method, a pending task that runs,
    the destructor.  [wexec] executes a move; [wreachable] are the
    worlds the moves lead to from the constructor.  The theorems show
    that [Tick] runs only when it is safe to, that every call of [Start]
    keeps exactly one task pending for as long as the object lives, and
    that polling ends, without a trace, once the object is destroyed. *)

From Stdlib Require Import ZArith List Ascii String Lia.
From stdpp Require Import base option list gmap.
From S2P Require Import Prelude CxxString FlatSet TraceProto ProcFs StatusParse.
From S2P Require Import ProcessStats PacketCursor Handlers.

#[local] Open Scope Z_scope.
#[local] Open Scope m_scope.

Section World.
Context {SetT : Type} `{IntSet SetT}.
Implicit Types (s : State SetT) (e : Env) (ev : Event SetT).

(** The object, the validity of the weak pointers to it, and the tasks
    of the task runner that are bound to [Tick].  The state of a
    destroyed object stays in the record for what it has written: the
    packets are the trace writer's. *)
Record World : Type := mkWorld {
  w_obj : State SetT;
  w_alive : bool;
  w_pending : list PostedTask
}.

(** The world the constructor leaves. *)
Definition init_world (cfg : ProcessStatsConfig) : World :=
  mkWorld (init_state cfg) true [].

(** What dereferencing a weak pointer gives. *)
Definition GetWeakPtr (w : World) : option (State SetT) :=
  if w_alive w then Some (w_obj w) else None.

(** The destructor: the weak pointers become null.  The tasks stay
    with the task runner. *)
Definition destroy (w : World) : World :=
  mkWorld (w_obj w) false (w_pending w).

(** The tasks a handler has posted: what it appended to [posted]. *)
Definition posts_since s s' : list PostedTask :=
  drop (length (posted s)) (posted s').

Inductive Outcome : Type :=
| Disabled
| Faulted (f : fault)
| Next (w : World).

(** The object runs a handler, and the task runner receives what the
    handler posts. *)
Definition on_object (m : M (State SetT) unit) (thiz : State SetT)
    (pending : list PostedTask) : Outcome :=
  match m thiz with
  | Ok _ s' => Next (mkWorld s' true (pending ++ posts_since thiz s'))
  | Fault f => Faulted f
  end.

(** [Tick(weak_this)]: nothing when the object is gone. *)
Definition TickTask e (w : World) : Outcome :=
  match GetWeakPtr w with
  | None => Next w
  | Some thiz => on_object (Tick e) thiz (w_pending w)
  end.

(** The methods that can be called from outside: all but [Tick]. *)
Definition is_public ev : bool :=
  match ev with EvTick => false | _ => true end.

Inductive Move : Type :=
| MCall (e : Env) (ev : Event SetT)
| MTask (e : Env) (i : nat)
| MDestroy.

(** One move.  A method is called on a live object only; the task
    runner may run any pending task, which leaves its queue. *)
Definition wexec (m : Move) (w : World) : Outcome :=
  match m with
  | MCall e ev =>
      if w_alive w && is_public ev then on_object (handle e ev) (w_obj w) (w_pending w)
      else Disabled
  | MTask e i =>
      match w_pending w !! i with
      | Some _ => TickTask e (mkWorld (w_obj w) (w_alive w) (delete i (w_pending w)))
      | None => Disabled
      end
  | MDestroy => if w_alive w then Next (destroy w) else Disabled
  end.

Fixpoint wrun (ms : list Move) (w : World) : Outcome :=
  match ms with
  | [] => Next w
  | m :: ms' =>
      match wexec m w with
      | Next w' => wrun ms' w'
      | o => o
      end
  end.

Inductive wstep : World -> World -> Prop :=
| wstep_move m w w' : wexec m w = Next w' -> wstep w w'.

Definition wreachable (cfg : ProcessStatsConfig) (w : World) : Prop :=
  rtc wstep (init_world cfg) w.

(** The environment of a move causes no fault but those of [F]. *)
Definition move_ok (F : fault -> Prop) (m : Move) : Prop :=
  match m with
  | MCall e _ | MTask e _ => env_ok F e
  | MDestroy => True
  end.

(** The tasks [Start] posted: those without a delay. *)
Definition immediate (t : PostedTask) : bool :=
  match task_delay_ms t with None => true | Some _ => false end.

Definition starts s : nat := length (List.filter immediate (posted s)).

(** What a handler posts. *)
Definition new_posts e ev (cfg : Settings) : list PostedTask :=
  match ev with
  | EvStart => if negb (poll_period_ms_ cfg =? 0) then [mkPostedTask None] else []
  | EvTick => [mkPostedTask (Some (tick_delay (poll_period_ms_ cfg) (wall_time_ms e)))]
  | _ => []
  end.

(** The invariant of the reachable worlds. *)
Definition chained (cfg : ProcessStatsConfig) (w : World) : Prop :=
  reachable cfg (w_obj w) /\
  (length (w_pending w) <= starts (w_obj w))%nat /\
  (w_alive w = true -> length (w_pending w) = starts (w_obj w)).

(** * Lemmas *)

Lemma next_knobs_posted e ev (k : Knobs) :
  k_posted (next_knobs e ev k) = k_posted k ++ new_posts e ev (k_settings k).
Proof.
  destruct ev; cbn; rewrite ?app_nil_r; try reflexivity.
  destruct (negb _); cbn; rewrite ?app_nil_r; reflexivity.
Qed.

(** A handler that returns from a reachable state: the state it leaves
    is reachable, and it has posted [new_posts]. *)
Lemma reachable_handle cfg e ev s s' :
  reachable cfg s -> handle e ev s = Ok tt s' ->
  reachable cfg s' /\
  posted s' = posted s ++ new_posts e ev (make_settings cfg) /\
  posts_since s s' = new_posts e ev (make_settings cfg).
Proof.
  intros Hr Hrun. destruct (reachable_step cfg e ev s s' Hr Hrun) as [Hs Hk].
  split; [eapply rtc_r; [exact Hr|econstructor; exact Hrun]|].
  assert (posted s' = posted s ++ new_posts e ev (make_settings cfg)) as Hp.
  { change (k_posted (knobs s') = posted s ++ new_posts e ev (make_settings cfg)).
    rewrite Hk, next_knobs_posted. cbn [knobs k_posted k_settings]. rewrite Hs. reflexivity. }
  split; [exact Hp|]. unfold posts_since. rewrite Hp. apply drop_app_length.
Qed.

(** From a reachable state every handler returns, when its environment
    causes no fault and, for [Tick], the period is not 0. *)
Lemma reachable_returns cfg e ev s :
  reachable cfg s -> ev_ok no_fault (make_settings cfg) (e, ev) ->
  exists s', handle e ev s = Ok tt s'.
Proof.
  intros Hr Hok.
  destruct (reachable_idle (fun _ _ => True) (fun _ => True) cfg s) as (Hi & Hs & _); auto.
  assert (wp (handle e ev) (fun _ s' =>
            idle_at (fun _ _ => True) (next_knobs e ev (knobs s)) s') s) as Hwp.
  { apply handle_steady; [apply _|auto| |exact Hi]. cbn [knobs k_settings].
    rewrite Hs. exact Hok. }
  apply wp_exec in Hwp as ([] & s' & Hrun & _). eauto.
Qed.

Lemma starts_posted s s' l :
  posted s' = posted s ++ l ->
  starts s' = (starts s + length (List.filter immediate l))%nat.
Proof. unfold starts. intros ->. rewrite List.filter_app, length_app. reflexivity. Qed.

(** A public method posts immediate tasks only, [Tick] a delayed one. *)
Lemma new_posts_public e ev cfg :
  is_public ev = true ->
  List.filter immediate (new_posts e ev cfg) = new_posts e ev cfg.
Proof.
  destruct ev; try discriminate; intros _; cbn; try reflexivity.
  destruct (negb _); reflexivity.
Qed.

(** An immediate task is posted only if the period is not 0. *)
Lemma new_posts_immediate e ev (cfg : Settings) :
  (0 < length (List.filter immediate (new_posts e ev cfg)))%nat ->
  poll_period_ms_ cfg <> 0.
Proof.
  destruct ev; cbn [new_posts]; try (cbn; lia).
  destruct (Z.eqb_spec (poll_period_ms_ cfg) 0); cbn; [lia|auto].
Qed.

(** [Start] has posted only if the period is not 0. *)
Lemma reachable_started cfg s :
  reachable cfg s -> (0 < starts s)%nat -> poll_period_ms_ (make_settings cfg) <> 0.
Proof.
  intros Hr.
  destruct (reachable_idle (fun _ _ => True)
              (fun k => (0 < length (List.filter immediate (k_posted k)))%nat ->
                        poll_period_ms_ (make_settings cfg) <> 0) cfg s)
    as (_ & _ & HJ); auto.
  - cbn. lia.
  - intros e ev k Hk HJ. rewrite next_knobs_posted, List.filter_app, length_app, Hk.
    intros [H1|H2]%Nat.add_pos_cases; [apply HJ, H1|eapply new_posts_immediate, H2].
Qed.

(** ** The moves *)

Lemma on_object_Next m thiz pending w' :
  on_object m thiz pending = Next w' ->
  exists s', m thiz = Ok tt s' /\ w' = mkWorld s' true (pending ++ posts_since thiz s').
Proof. unfold on_object. destruct (m thiz) as [[] s'|]; [|discriminate]. intros [= <-]. eauto. Qed.

Lemma call_chained cfg e ev w w' :
  chained cfg w -> w_alive w = true -> is_public ev = true ->
  on_object (handle e ev) (w_obj w) (w_pending w) = Next w' -> chained cfg w'.
Proof.
  intros (Hr & Hle & Heq) Ha Hpub Hn.
  apply on_object_Next in Hn as (s' & Hrun & ->).
  destruct (reachable_handle cfg e ev _ _ Hr Hrun) as (Hr' & Hp & Hps).
  assert (length (w_pending w ++ posts_since (w_obj w) s') = starts s') as Hlen.
  { rewrite length_app, Hps, (starts_posted _ _ _ Hp), new_posts_public by exact Hpub.
    rewrite (Heq Ha). reflexivity. }
  split; [exact Hr'|]. cbn [w_obj w_pending w_alive]. split; [lia|auto].
Qed.

Lemma task_chained cfg e i t w w' :
  chained cfg w -> w_pending w !! i = Some t ->
  TickTask e (mkWorld (w_obj w) (w_alive w) (delete i (w_pending w))) = Next w' ->
  chained cfg w'.
Proof.
  intros (Hr & Hle & Heq) Hi. pose proof (lookup_lt_Some _ _ _ Hi) as Hlt.
  pose proof (length_delete (w_pending w) i (mk_is_Some _ _ Hi)) as Hdel.
  unfold TickTask, GetWeakPtr. cbn [w_alive w_obj w_pending].
  destruct (w_alive w) eqn:Ha.
  - intros Hn. apply on_object_Next in Hn as (s' & Hrun & ->).
    destruct (reachable_handle cfg e EvTick _ _ Hr Hrun) as (Hr' & Hp & Hps).
    assert (length (delete i (w_pending w) ++ posts_since (w_obj w) s') = starts s') as Hlen.
    { rewrite length_app, Hps, (starts_posted _ _ _ Hp). cbn. rewrite <- (Heq eq_refl). lia. }
    split; [exact Hr'|]. cbn [w_obj w_pending w_alive]. split; [lia|auto].
  - intros [= <-]. split; [exact Hr|]. cbn [w_obj w_pending w_alive].
    split; [lia|discriminate].
Qed.

Lemma wexec_chained cfg m w w' : chained cfg w -> wexec m w = Next w' -> chained cfg w'.
Proof.
  intros Hc. destruct m as [e ev|e i|]; cbn [wexec].
  - destruct (w_alive w) eqn:Ha; [|discriminate].
    destruct (is_public ev) eqn:Hpub; [|discriminate]. cbn [andb].
    apply call_chained; assumption.
  - destruct (w_pending w !! i) as [t|] eqn:Hi; [|discriminate].
    eapply task_chained; eassumption.
  - destruct (w_alive w) eqn:Ha; [|discriminate]. intros [= <-].
    destruct Hc as (Hr & Hle & Heq). split; [exact Hr|]. split; [exact Hle|discriminate].
Qed.

Lemma wreachable_chained cfg w : wreachable cfg w -> chained cfg w.
Proof.
  revert w. apply rtc_ind_r.
  - split; [apply rtc_refl|]. split; [cbn; lia|reflexivity].
  - intros w1 w2 _ Hstep Hc. destruct Hstep as [m w1 w2 Hm]. eapply wexec_chained; eassumption.
Qed.

(** The worlds a sequence of moves passes through are reachable. *)
Lemma wrun_reachable cfg ms w w' :
  wreachable cfg w -> wrun ms w = Next w' -> wreachable cfg w'.
Proof.
  revert w. induction ms as [|m ms IH]; intros w Hw; cbn [wrun]; [intros [= <-]; exact Hw|].
  destruct (wexec m w) as [|f|w1] eqn:Hm; try discriminate.
  apply IH. eapply rtc_r; [exact Hw|econstructor; exact Hm].
Qed.

(** A pending task means that [Tick] can run. *)
Lemma chained_period cfg w i t :
  chained cfg w -> w_pending w !! i = Some t -> poll_period_ms_ (make_settings cfg) <> 0.
Proof.
  intros (Hr & Hle & _) Hi. apply (reachable_started cfg _ Hr).
  pose proof (lookup_lt_Some _ _ _ Hi). lia.
Qed.

Lemma on_object_returns cfg e ev s pending :
  reachable cfg s -> ev_ok no_fault (make_settings cfg) (e, ev) ->
  exists w', on_object (handle e ev) s pending = Next w'.
Proof.
  intros Hr Hok. destruct (reachable_returns cfg e ev s Hr Hok) as [s' Hrun].
  unfold on_object. rewrite Hrun. eauto.
Qed.

(** * Theorems *)

(** C20. Every call of [Start] keeps exactly one task pending: in every
    world reachable from the constructor by method calls, tasks that
    run and the destructor, the object is in a state the handlers
    reach; as long as it is alive the number of pending tasks is the
    number of tasks [Start] has posted, since every [Tick] that runs
    posts its successor, so that polling neither stops nor multiplies;
    after the destructor the pending tasks only get fewer; and a task
    is pending only if the period is not 0. *)
Theorem polling_chain cfg w :
  wreachable cfg w ->
  reachable cfg (w_obj w) /\
  (length (w_pending w) <= starts (w_obj w))%nat /\
  (w_alive w = true -> length (w_pending w) = starts (w_obj w)) /\
  (w_pending w <> [] -> poll_period_ms_ (settings (w_obj w)) <> 0).
Proof.
  intros Hw. pose proof (wreachable_chained cfg w Hw) as Hc.
  destruct Hc as (Hr & Hle & Heq). repeat (split; [assumption|]).
  intros Hne.
  destruct (reachable_idle (fun _ _ => True) (fun _ => True) cfg (w_obj w)) as (_ & -> & _);
    auto.
  apply (reachable_started cfg _ Hr). destruct (w_pending w); [contradiction|cbn in Hle; lia].
Qed.

(** C19. The data source is safe among its tasks: in every reachable
    world, whatever happens next (a public method is called, a pending
    task runs, before or after the destructor) returns, in an
    environment that causes no fault, and leads to a reachable world.
    In particular [Tick], which divides by the period, runs only as a
    task, and a task is pending only if the period is not 0; and a task
    that runs after the destructor finds its weak pointer null. *)
Theorem world_safe cfg m w :
  wreachable cfg w -> move_ok no_fault m ->
  wexec m w = Disabled \/ exists w', wexec m w = Next w' /\ wreachable cfg w'.
Proof.
  intros Hw Hok. pose proof (wreachable_chained cfg w Hw) as Hc.
  assert (forall w', wexec m w = Next w' -> wreachable cfg w') as Hnext.
  { intros w' Hm. eapply rtc_r; [exact Hw|econstructor; exact Hm]. }
  destruct m as [e ev|e i|]; cbn [wexec move_ok] in *.
  - destruct (w_alive w && is_public ev) eqn:Hb; [right|left; reflexivity].
    apply andb_true_iff in Hb as [_ Hpub].
    destruct (on_object_returns cfg e ev (w_obj w) (w_pending w)) as [w' Hn]; [apply Hc| |eauto].
    split; [exact Hok|]. cbn [snd]. intros ->. discriminate Hpub.
  - destruct (w_pending w !! i) as [t|] eqn:Hi; [right|left; reflexivity].
    unfold TickTask, GetWeakPtr in *. cbn [w_alive w_obj w_pending] in *.
    destruct (w_alive w); [|eauto].
    destruct (on_object_returns cfg e EvTick (w_obj w) (delete i (w_pending w)))
      as [w' Hn]; [apply Hc| |eauto].
    split; [exact Hok|]. intros _. right. eapply chained_period; eassumption.
  - destruct (w_alive w); eauto.
Qed.

(** C21. After the destructor polling ends: from a world whose object
    is destroyed, every sequence of moves consists of pending tasks
    that run and return at once; none changes what the object has
    written, none posts a task, and there are at most as many as were
    pending. *)
Theorem dead_world_halts ms w w' :
  w_alive w = false -> wrun ms w = Next w' ->
  w_obj w' = w_obj w /\ w_alive w' = false /\
  (length ms + length (w_pending w') = length (w_pending w))%nat.
Proof.
  revert w. induction ms as [|m ms IH]; intros w Ha; cbn [wrun].
  - intros [= <-]. auto.
  - destruct m as [e ev|e i|]; cbn [wexec]; rewrite ?Ha; cbn [andb]; try discriminate.
    destruct (w_pending w !! i) as [t|] eqn:Hi; [|discriminate].
    unfold TickTask, GetWeakPtr. cbn [w_alive]. rewrite ?Ha. intros Hrun.
    apply IH in Hrun as (Ho & Ha' & Hlen); [|reflexivity]. cbn [w_obj w_pending] in *.
    pose proof (length_delete (w_pending w) i (mk_is_Some _ _ Hi)) as Hdel.
    pose proof (lookup_lt_Some _ _ _ Hi). repeat split; [exact Ho|exact Ha'|cbn; lia].
Qed.

End World.
