(* ===== verification/SetIdStorage.v ===== *)
(** * SetIdStorage: the column of grouping ids

    [src/trace_processor/db/storage/set_id_storage.h] declares the class:
    a read-only view [values_] of a vector of 32-bit ids, [size], and
    the operations of the [Storage] contract ([Search], [IndexSearch],
    [Sort], [StableSort], [Serialize]).  The bodies of the operations
    are not in the tree; they are modelled here from the specification
    of the column: values are non-decreasing and [value[i] <= i], range
    searches are boundary binary searches, [Eq] narrows its search space
    to start at the position named by the operand, [Ne] answers with a
    bit vector, operands outside the 32-bit domain answer with the whole
    range or with nothing.

    Row positions are [nat], values and operands are [Z].  A search
    result denotes a list of positions ([positions]); the theorems
    relate that list to the linear scan of the range with the predicate
    ([matches]).  [Storage] is the capability contract as a class; the
    partition law is proved for any instance of it. *)

From Stdlib Require Import ZArith List Lia Permutation Sorted.
From stdpp Require Import base option list sorting.
From S2P Require Import Prelude.

#[local] Open Scope Z_scope.

(** ** Data *)

Inductive FilterOp : Type :=
| kEq | kNe | kLt | kLe | kGt | kGe | kIsNull | kIsNotNull.

#[export] Instance FilterOp_eq_dec : EqDecision FilterOp.
Proof. solve_decision. Defined.

(** The operand of a predicate: an integer or null. *)
Inductive SqlValue : Type :=
| Long (v : Z)
| Null.

(** [RowMap::Range]: the half-open span [[r_start, r_end)]. *)
Record Range : Type := mkRange {
  r_start : nat;
  r_end : nat
}.

(** [BitVector]: bit [i] says whether position [i] is in the set. *)
Definition BitVector : Type := list bool.

Inductive RangeOrBitVector : Type :=
| OfRange (r : Range)
| OfBitVector (bv : BitVector).

(** The class: a view of the vector of ids. *)
Record SetIdStorage : Type := mkSetIdStorage {
  values_ : list Z
}.

(** [static_cast<uint32_t>(values_->size())] *)
Definition size (st : SetIdStorage) : Z :=
  wrap_u32 (Z.of_nat (length (values_ st))).

(** The element [i] of the vector. *)
Definition value_at (st : SetIdStorage) (i : nat) : Z := nth i (values_ st) 0.

(** ** The invariant of the column *)

(** Checks [prev <= v <= i] for the value [v] at each position [i],
    [prev] being the value before it. *)
Fixpoint setid_ok_from (i : nat) (prev : Z) (vals : list Z) : bool :=
  match vals with
  | [] => true
  | v :: rest => (prev <=? v) && (v <=? Z.of_nat i) && setid_ok_from (S i) v rest
  end.

Definition setid_ok (st : SetIdStorage) : bool :=
  setid_ok_from 0 0 (values_ st) && (Z.of_nat (length (values_ st)) <? 2 ^ 32).

(** The same as a proposition: the values are non-decreasing, each is
    between 0 and its position, and the positions fit 32 bits. *)
Record valid (st : SetIdStorage) : Prop := mkValid {
  valid_bound : forall i, (i < length (values_ st))%nat ->
                  0 <= value_at st i <= Z.of_nat i;
  valid_mono : forall i j, (i <= j < length (values_ st))%nat ->
                  value_at st i <= value_at st j;
  valid_size : Z.of_nat (length (values_ st)) < 2 ^ 32
}.

(** ** Predicates and what a result denotes *)

Definition compare_op (op : FilterOp) (x t : Z) : bool :=
  match op with
  | kEq => x =? t
  | kNe => negb (x =? t)
  | kLt => x <? t
  | kLe => x <=? t
  | kGt => t <? x
  | kGe => t <=? x
  | kIsNull => false
  | kIsNotNull => true
  end.

(** Whether a value of the column satisfies the predicate.  The column
    has no nulls; a comparison with a null operand holds of nothing. *)
Definition matches (op : FilterOp) (operand : SqlValue) (x : Z) : bool :=
  match op, operand with
  | kIsNull, _ => false
  | kIsNotNull, _ => true
  | _, Null => false
  | _, Long t => compare_op op x t
  end.

Definition range_positions (r : Range) : list nat :=
  seq (r_start r) (r_end r - r_start r).

Definition bv_positions (bv : BitVector) : list nat :=
  List.filter (fun i => nth i bv false) (seq 0 (length bv)).

Definition positions (res : RangeOrBitVector) : list nat :=
  match res with
  | OfRange r => range_positions r
  | OfBitVector bv => bv_positions bv
  end.

(** Two answers are equivalent when they denote the same positions: a
    span and a bit vector can say the same. *)
#[export] Instance res_equiv : Equiv RangeOrBitVector :=
  fun r1 r2 => positions r1 = positions r2.

(** The linear scan a search is measured against. *)
Definition scan (st : SetIdStorage) (op : FilterOp) (operand : SqlValue)
    (l : list nat) : list nat :=
  List.filter (fun i => matches op operand (value_at st i)) l.

(** ** Boundary binary search *)

(** The first position of [[lo, hi)] whose value does not satisfy [p],
    or [hi]: [std::partition_point].  Each round halves the span. *)
Fixpoint partition_point (fuel : nat) (p : Z -> bool) (vals : list Z)
    (lo hi : nat) : nat :=
  match fuel with
  | O => lo
  | S fuel' =>
      if (lo <? hi)%nat then
        let mid := (lo + (hi - lo) / 2)%nat in
        if p (nth mid vals 0) then partition_point fuel' p vals (S mid) hi
        else partition_point fuel' p vals lo mid
      else lo
  end.

(** The reference: the first position from [lo] on whose value does
    not satisfy [p], looking at [n] positions one after the other. *)
Fixpoint linear_point (n : nat) (p : Z -> bool) (vals : list Z) (lo : nat) : nat :=
  match n with
  | O => lo
  | S n' => if p (nth lo vals 0) then linear_point n' p vals (S lo) else lo
  end.

(** Rounds that suffice for a span: one more than the logarithm of its
    length. *)
Definition search_fuel (lo hi : nat) : nat := S (Nat.log2 (hi - lo)).

Definition LowerBound (vals : list Z) (val : Z) (lo hi : nat) : nat :=
  partition_point (search_fuel lo hi) (fun x => x <? val) vals lo hi.

Definition UpperBound (vals : list Z) (val : Z) (lo hi : nat) : nat :=
  partition_point (search_fuel lo hi) (fun x => x <=? val) vals lo hi.

(** The span of [[lo, hi)] on which a comparison with [val] holds, for
    values that are non-decreasing on it. *)
Definition bounds (vals : list Z) (op : FilterOp) (val : Z) (lo hi : nat) : Range :=
  match op with
  | kEq => mkRange (LowerBound vals val lo hi) (UpperBound vals val lo hi)
  | kLt => mkRange lo (LowerBound vals val lo hi)
  | kLe => mkRange lo (UpperBound vals val lo hi)
  | kGe => mkRange (LowerBound vals val lo hi) hi
  | kGt => mkRange (UpperBound vals val lo hi) hi
  | _ => mkRange hi hi
  end.

(** For [Eq] the search starts no lower than position [val]: a value
    is at most its position, so no position below [val] holds [val]. *)
Definition BinarySearchIntrinsic (st : SetIdStorage) (op : FilterOp) (val : Z)
    (search_range : Range) : Range :=
  match op with
  | kEq =>
      let lo := Nat.max (r_start search_range) (Z.to_nat val) in
      if (r_end search_range <=? lo)%nat
      then mkRange (r_end search_range) (r_end search_range)
      else bounds (values_ st) kEq val lo (r_end search_range)
  | _ => bounds (values_ st) op val (r_start search_range) (r_end search_range)
  end.

(** ** Search *)

Inductive SearchValidationResult : Type := kValid | kAllData | kNoData.

(** Null checks hold of nothing or of everything; a null operand
    matches nothing; an operand outside the 32-bit unsigned domain
    decides the comparison for every value at once. *)
Definition ValidateSearchConstraints (op : FilterOp) (operand : SqlValue) :
    SearchValidationResult :=
  match op, operand with
  | kIsNull, _ => kNoData
  | kIsNotNull, _ => kAllData
  | _, Null => kNoData
  | _, Long t =>
      if UINT32_MAX <? t then
        match op with kLe | kLt | kNe => kAllData | _ => kNoData end
      else if t <? 0 then
        match op with kGe | kGt | kNe => kAllData | _ => kNoData end
      else kValid
  end.

Definition operand_value (operand : SqlValue) : Z :=
  match operand with Long t => t | Null => 0 end.

(** The complement of [eq] within [[lo, hi)], as a bit vector of length
    [hi]. *)
Definition ne_bits (lo hi : nat) (eq : Range) : BitVector :=
  replicate lo false ++ replicate (r_start eq - lo) true ++
  replicate (r_end eq - r_start eq) false ++ replicate (hi - r_end eq) true.

(** The answer on a span of a non-decreasing sequence. *)
Definition search_sorted (eq_range : Range -> Range) (vals : list Z) (op : FilterOp)
    (operand : SqlValue) (range : Range) : RangeOrBitVector :=
  match ValidateSearchConstraints op operand with
  | kAllData => OfRange range
  | kNoData => OfRange (mkRange (r_end range) (r_end range))
  | kValid =>
      let val := operand_value operand in
      match op with
      | kNe => OfBitVector (ne_bits (r_start range) (r_end range) (eq_range range))
      | kEq => OfRange (eq_range range)
      | _ => OfRange (bounds vals op val (r_start range) (r_end range))
      end
  end.

Definition Search (st : SetIdStorage) (op : FilterOp) (operand : SqlValue)
    (range : Range) : RangeOrBitVector :=
  search_sorted (BinarySearchIntrinsic st kEq (operand_value operand))
                (values_ st) op operand range.

(** ** IndexSearch *)

(** The values at the supplied positions, in the order supplied. *)
Definition projection (st : SetIdStorage) (indices : list nat) : list Z :=
  map (value_at st) indices.

(** With [sorted] the boundaries are searched in the projection and the
    answer is a span (or bit vector) of places in [indices]; without,
    each place is tested on its own. *)
Definition IndexSearch (st : SetIdStorage) (op : FilterOp) (operand : SqlValue)
    (indices : list nat) (sorted : bool) : RangeOrBitVector :=
  if sorted then
    let vals := projection st indices in
    search_sorted (fun r => bounds vals kEq (operand_value operand) (r_start r) (r_end r))
                  vals op operand (mkRange 0 (length indices))
  else
    OfBitVector (map (fun i => matches op operand (value_at st i)) indices).

(** The row positions an answer of [IndexSearch] names. *)
Definition reported (indices : list nat) (res : RangeOrBitVector) : list nat :=
  map (fun k => nth k indices 0%nat) (positions res).

(** ** Sort and StableSort *)

Definition value_le (st : SetIdStorage) (a b : nat) : Prop :=
  value_at st a <= value_at st b.

#[export] Instance value_le_dec st a b : Decision (value_le st a b).
Proof. unfold value_le. apply _. Defined.

(** [std::sort] with the comparison of values: a merge sort. *)
Definition Sort (st : SetIdStorage) (rows : list nat) : list nat :=
  merge_sort (value_le st) rows.

(** Puts [row] before the first row of [rows] whose value is not
    smaller. *)
Fixpoint insert_row (st : SetIdStorage) (row : nat) (rows : list nat) : list nat :=
  match rows with
  | [] => [row]
  | r :: rest =>
      if value_at st r <? value_at st row then r :: insert_row st row rest
      else row :: r :: rest
  end.

(** [std::stable_sort] with the comparison of values: rows are inserted
    from the last to the first, each before its equals. *)
Definition StableSort (st : SetIdStorage) (rows : list nat) : list nat :=
  foldr (insert_row st) [] rows.

(** The rows of a buffer that hold value [v], in buffer order. *)
Definition rows_with (st : SetIdStorage) (v : Z) (rows : list nat) : list nat :=
  List.filter (fun r => value_at st r =? v) rows.

(** ** Serialize *)

Section Sink.
Context {S : Type}.
(** Appending one value to the sink; [None] is a failure of the sink. *)
Variable append : S -> Z -> option S.

Fixpoint write_all (vals : list Z) (s : S) : option S :=
  match vals with
  | [] => Some s
  | v :: rest =>
      match append s v with
      | Some s' => write_all rest s'
      | None => None
      end
  end.


End Sink.




(** The comparisons whose answer on a non-decreasing sequence is one
    span. *)
Definition ranged (op : FilterOp) : bool :=
  match op with
  | kEq | kLt | kLe | kGt | kGe => true
  | _ => false
  end.

(** ** What the searches rely on and what they find *)

(** The values are non-decreasing on [[lo, hi)]. *)
Definition mono_on (vals : list Z) (lo hi : nat) : Prop :=
  forall i j, (lo <= i <= j)%nat -> (j < hi)%nat -> nth i vals 0 <= nth j vals 0.

(** [p] holds on a prefix of [[lo, hi)]. *)
Definition prefix_on (p : Z -> bool) (vals : list Z) (lo hi : nat) : Prop :=
  forall i j, (lo <= i <= j)%nat -> (j < hi)%nat ->
    p (nth j vals 0) = true -> p (nth i vals 0) = true.

(** [r] is the partition point of [p] on [[lo, hi)]. *)
Definition is_point (p : Z -> bool) (vals : list Z) (lo hi r : nat) : Prop :=
  (lo <= r <= hi)%nat /\
  (forall i, (lo <= i < r)%nat -> p (nth i vals 0) = true) /\
  (forall i, (r <= i < hi)%nat -> p (nth i vals 0) = false).

(** What [search_sorted] needs of the span that [eq_range] computes. *)
Definition eq_range_ok (vals : list Z) (val : Z) (range eq : Range) : Prop :=
  (r_start range <= r_start eq <= r_end eq)%nat /\ (r_end eq <= r_end range)%nat /\
  range_positions eq =
  List.filter (fun i => nth i vals 0 =? val) (range_positions range).

(** ** The capability contract *)

(** What every kind of column offers, and what it promises of a valid
    column: searches answer with the positions a linear scan finds,
    sorts permute the buffer into non-decreasing order of value. *)
Class Storage (T : Type) : Type := {
  st_valid : T -> Prop;
  st_values : T -> list Z;
  st_size : T -> Z;
  st_Search : T -> FilterOp -> SqlValue -> Range -> RangeOrBitVector;
  st_IndexSearch : T -> FilterOp -> SqlValue -> list nat -> bool -> RangeOrBitVector;
  st_Sort : T -> list nat -> list nat;
  st_StableSort : T -> list nat -> list nat;
  st_size_spec : forall t, st_valid t -> st_size t = Z.of_nat (length (st_values t));
  st_Search_spec : forall t op operand range,
    st_valid t -> (r_start range <= r_end range <= length (st_values t))%nat ->
    positions (st_Search t op operand range) =
    List.filter (fun i => matches op operand (nth i (st_values t) 0)) (range_positions range);
  st_IndexSearch_spec : forall t op operand indices,
    st_valid t ->
    reported indices (st_IndexSearch t op operand indices false) =
    List.filter (fun i => matches op operand (nth i (st_values t) 0)) indices;
  st_Sort_spec : forall t rows,
    st_Sort t rows ≡ₚ rows /\
    Sorted Z.le (map (fun r => nth r (st_values t) 0) (st_Sort t rows));
  st_StableSort_spec : forall t rows,
    st_StableSort t rows ≡ₚ rows /\
    Sorted Z.le (map (fun r => nth r (st_values t) 0) (st_StableSort t rows))
}.

(** * Lemmas *)

(** ** Filters over spans of positions *)

Lemma filter_all {A} (f : A -> bool) l :
  (forall x, In x l -> f x = true) -> List.filter f l = l.
Proof.
  induction l as [|a l IH]; cbn; intros Hf; [reflexivity|].
  rewrite (Hf a) by auto. f_equal. apply IH. auto.
Qed.

Lemma filter_none {A} (f : A -> bool) l :
  (forall x, In x l -> f x = false) -> List.filter f l = [].
Proof.
  induction l as [|a l IH]; cbn; intros Hf; [reflexivity|].
  rewrite (Hf a) by auto. apply IH. auto.
Qed.

Lemma seq_split lo mid hi :
  (lo <= mid <= hi)%nat -> seq lo (hi - lo) = seq lo (mid - lo) ++ seq mid (hi - mid).
Proof.
  intros H. replace (hi - lo)%nat with ((mid - lo) + (hi - mid))%nat by lia.
  rewrite seq_app. do 2 f_equal. lia.
Qed.

(** A predicate that holds exactly on a sub-span selects that span. *)
Lemma filter_seq_span (f : nat -> bool) lo hi a b :
  (lo <= a <= b)%nat -> (b <= hi)%nat ->
  (forall i, (lo <= i < hi)%nat -> f i = true <-> (a <= i < b)%nat) ->
  List.filter f (seq lo (hi - lo)) = seq a (b - a).
Proof.
  intros Ha Hb Hf.
  rewrite (seq_split lo a hi), (seq_split a b hi), !List.filter_app by lia.
  rewrite (filter_none f (seq lo _)), (filter_all f (seq a _)), (filter_none f (seq b _)).
  - cbn. apply app_nil_r.
  - intros i Hi%in_seq. apply not_true_is_false. rewrite Hf; lia.
  - intros i Hi%in_seq. apply Hf; lia.
  - intros i Hi%in_seq. apply not_true_is_false. rewrite Hf; lia.
Qed.

Lemma filter_seq_ext (f g : nat -> bool) lo n :
  (forall i, (lo <= i < lo + n)%nat -> f i = g i) ->
  List.filter f (seq lo n) = List.filter g (seq lo n).
Proof. intros H. apply filter_ext_in. intros i Hi%in_seq. apply H, Hi. Qed.

Lemma filter_fmap {A B} (f : B -> bool) (g : A -> B) l :
  List.filter f (map g l) = map g (List.filter (fun x => f (g x)) l).
Proof.
  induction l as [|a l IH]; cbn; [reflexivity|].
  destruct (f (g a)); cbn; rewrite IH; reflexivity.
Qed.

(** Filtering the places of a list by the element they hold and reading
    the elements back is filtering the list. *)
Lemma filter_places {A} (h : A -> bool) d (l : list A) :
  map (fun k => nth k l d) (List.filter (fun k => h (nth k l d)) (seq 0 (length l))) =
  List.filter h l.
Proof.
  induction l as [|a l IH]; [reflexivity|].
  cbn [length seq List.filter nth]. rewrite <- seq_shift, filter_fmap.
  destruct (h a); cbn [map nth]; rewrite map_map; cbn [nth]; rewrite IH; reflexivity.
Qed.



(** ** The invariant *)

Lemma setid_ok_from_spec i prev vals :
  setid_ok_from i prev vals = true <->
  (forall k, (k < length vals)%nat -> prev <= nth k vals 0 <= Z.of_nat (i + k)) /\
  (forall j k, (j <= k < length vals)%nat -> nth j vals 0 <= nth k vals 0).
Proof.
  revert i prev. induction vals as [|v rest IH]; intros i prev; cbn [setid_ok_from length].
  - split; [intros _; split; intros; lia|reflexivity].
  - rewrite !andb_true_iff, IH, Z.leb_le, Z.leb_le. split.
    + intros [[Hp Hv] [Hb Hm]]. split.
      * intros [|k] Hk; cbn [nth]; [lia|]. specialize (Hb k ltac:(lia)). lia.
      * intros [|j] [|k] Hjk; cbn [nth]; try lia.
        -- specialize (Hb k ltac:(lia)). lia.
        -- apply Hm. lia.
    + intros [Hb Hm]. pose proof (Hb 0%nat ltac:(lia)) as H0. cbn [nth] in H0.
      split; [lia|]. split.
      * intros k Hk. pose proof (Hb (S k) ltac:(lia)) as H1.
        pose proof (Hm 0%nat (S k) ltac:(lia)) as H2. cbn [nth] in H1, H2. lia.
      * intros j k Hjk. apply (Hm (S j) (S k)). lia.
Qed.

Lemma setid_ok_valid st : setid_ok st = true <-> valid st.
Proof.
  unfold setid_ok. rewrite andb_true_iff, setid_ok_from_spec, Z.ltb_lt. split.
  - intros [[Hb Hm] Hs]. split; [|exact Hm|exact Hs].
    intros i Hi. specialize (Hb i Hi). unfold value_at. lia.
  - intros [Hb Hm Hs]. split; [split; [|exact Hm]|exact Hs].
    intros k Hk. specialize (Hb k Hk). unfold value_at in Hb. lia.
Qed.

(** Every value, also the default read out of range, is a 32-bit
    unsigned integer, and it is at most its position. *)
Lemma valid_value_range st i : valid st -> 0 <= value_at st i < 2 ^ 32.
Proof.
  intros [Hb _ Hs]. destruct (Nat.lt_ge_cases i (length (values_ st))) as [Hi|Hi].
  - specialize (Hb i Hi). lia.
  - unfold value_at. rewrite nth_overflow by exact Hi. lia.
Qed.

Lemma valid_value_le st i : valid st -> value_at st i <= Z.of_nat i.
Proof.
  intros [Hb _ _]. destruct (Nat.lt_ge_cases i (length (values_ st))) as [Hi|Hi].
  - apply Hb, Hi.
  - unfold value_at. rewrite nth_overflow by exact Hi. lia.
Qed.

Lemma size_valid st : valid st -> size st = Z.of_nat (length (values_ st)).
Proof.
  intros [_ _ Hs]. unfold size. apply wrap_u32_small. unfold is_u32. lia.
Qed.

(** ** Boundary binary search *)

Lemma prefix_on_sub p vals lo hi lo' hi' :
  prefix_on p vals lo hi -> (lo <= lo')%nat -> (hi' <= hi)%nat -> prefix_on p vals lo' hi'.
Proof. intros H Hl Hh i j Hij Hj. apply H; lia. Qed.

Lemma partition_point_spec fuel p vals lo hi :
  (hi - lo < 2 ^ fuel)%nat -> (lo <= hi)%nat -> prefix_on p vals lo hi ->
  is_point p vals lo hi (partition_point fuel p vals lo hi).
Proof.
  revert lo hi. induction fuel as [|fuel IH]; intros lo hi Hf Hle Hp.
  - cbn in *. repeat split; intros; lia.
  - cbn [partition_point]. rewrite Nat.pow_succ_r' in Hf.
    destruct (Nat.ltb_spec lo hi) as [Hlt|Hge]; [|repeat split; intros; lia].
    set (mid := (lo + (hi - lo) / 2)%nat).
    assert (lo <= mid < hi)%nat as Hmid by (subst mid; split; [lia|];
      pose proof (Nat.div_lt (hi - lo) 2); lia).
    assert ((hi - lo) / 2 < 2 ^ fuel)%nat as Hhalf
      by (apply Nat.Div0.div_lt_upper_bound; lia).
    assert (hi - lo <= 2 * ((hi - lo) / 2) + 1)%nat as Hup
      by (pose proof (Nat.div_mod_eq (hi - lo) 2);
          pose proof (Nat.mod_upper_bound (hi - lo) 2); lia).
    destruct (p (nth mid vals 0)) eqn:Hpm.
    + destruct (IH (S mid) hi) as (Hr & Ht & Hfl);
        [subst mid; lia|lia|eapply prefix_on_sub; [exact Hp|lia|lia]|].
      split; [lia|]. split; [|exact Hfl].
      intros i Hi. destruct (Nat.le_gt_cases i mid) as [Him|Him]; [|apply Ht; lia].
      apply (Hp i mid); [lia|lia|exact Hpm].
    + destruct (IH lo mid) as (Hr & Ht & Hfl);
        [subst mid; lia|lia|eapply prefix_on_sub; [exact Hp|lia|lia]|].
      split; [lia|]. split; [exact Ht|].
      intros i Hi. destruct (Nat.lt_ge_cases i mid) as [Him|Him]; [apply Hfl; lia|].
      apply not_true_is_false. intros Hpi. rewrite (Hp mid i) in Hpm; [discriminate|lia|lia|exact Hpi].
Qed.

Lemma is_point_unique p vals lo hi r1 r2 :
  is_point p vals lo hi r1 -> is_point p vals lo hi r2 -> r1 = r2.
Proof.
  intros (H1 & T1 & F1) (H2 & T2 & F2).
  destruct (Nat.lt_trichotomy r1 r2) as [Hlt|[Heq|Hgt]]; [|exact Heq|].
  - specialize (T2 r1 ltac:(lia)). specialize (F1 r1 ltac:(lia)). congruence.
  - specialize (T1 r2 ltac:(lia)). specialize (F2 r2 ltac:(lia)). congruence.
Qed.

Lemma search_fuel_enough lo hi : (hi - lo < 2 ^ search_fuel lo hi)%nat.
Proof.
  unfold search_fuel. destruct (Nat.eq_dec (hi - lo) 0)%nat as [->|Hn].
  - cbn. lia.
  - apply Nat.log2_spec. lia.
Qed.

Lemma LowerBound_point vals val lo hi :
  (lo <= hi)%nat -> mono_on vals lo hi ->
  is_point (fun x => x <? val) vals lo hi (LowerBound vals val lo hi).
Proof.
  intros Hle Hm. apply partition_point_spec; [apply search_fuel_enough|exact Hle|].
  intros i j Hij Hj. rewrite !Z.ltb_lt. specialize (Hm i j Hij Hj). lia.
Qed.

Lemma UpperBound_point vals val lo hi :
  (lo <= hi)%nat -> mono_on vals lo hi ->
  is_point (fun x => x <=? val) vals lo hi (UpperBound vals val lo hi).
Proof.
  intros Hle Hm. apply partition_point_spec; [apply search_fuel_enough|exact Hle|].
  intros i j Hij Hj. rewrite !Z.leb_le. specialize (Hm i j Hij Hj). lia.
Qed.

(** Decides a comparison at position [i] from the two boundaries. *)
Ltac at_point i :=
  repeat match goal with
  | H : forall k, (?a <= k < ?b)%nat -> _ = _ |- _ =>
      let H' := fresh in
      first [ assert (a <= i < b)%nat as H' by lia; specialize (H i H'); clear H'
            | clear H ]
  end;
  rewrite ?Z.ltb_lt, ?Z.ltb_ge, ?Z.leb_le, ?Z.leb_gt, ?Z.eqb_eq in *.

Lemma bounds_order vals val lo hi :
  (lo <= hi)%nat -> mono_on vals lo hi ->
  (lo <= LowerBound vals val lo hi <= UpperBound vals val lo hi)%nat /\
  (UpperBound vals val lo hi <= hi)%nat.
Proof.
  intros Hle Hm.
  destruct (LowerBound_point vals val lo hi Hle Hm) as (Hl & Tl & Fl).
  destruct (UpperBound_point vals val lo hi Hle Hm) as (Hu & Tu & Fu).
  split; [split; [lia|]|lia].
  destruct (Nat.le_gt_cases (LowerBound vals val lo hi) (UpperBound vals val lo hi))
    as [|Hgt]; [assumption|].
  at_point (UpperBound vals val lo hi). lia.
Qed.

Lemma bounds_spec vals op val lo hi :
  (lo <= hi)%nat -> mono_on vals lo hi -> ranged op = true ->
  (lo <= r_start (bounds vals op val lo hi) <= r_end (bounds vals op val lo hi))%nat /\
  (r_end (bounds vals op val lo hi) <= hi)%nat /\
  range_positions (bounds vals op val lo hi) =
  List.filter (fun i => compare_op op (nth i vals 0) val) (seq lo (hi - lo)).
Proof.
  intros Hle Hm Hop.
  destruct (LowerBound_point vals val lo hi Hle Hm) as (Hl & Tl & Fl).
  destruct (UpperBound_point vals val lo hi Hle Hm) as (Hu & Tu & Fu).
  pose proof (bounds_order vals val lo hi Hle Hm) as Ho.
  destruct op; try discriminate; cbn [bounds r_start r_end compare_op];
    (split; [lia|split; [lia|]]); unfold range_positions; cbn [r_start r_end];
    symmetry; apply filter_seq_span; try lia; intros i Hi;
    (destruct (Nat.lt_ge_cases i (LowerBound vals val lo hi));
     destruct (Nat.lt_ge_cases i (UpperBound vals val lo hi)));
    at_point i; lia.
Qed.

Lemma Sorted_mono_on vals : Sorted Z.le vals -> mono_on vals 0 (length vals).
Proof.
  intros Hs%Sorted_StronglySorted; [|intros x y z; apply Z.le_trans].
  induction Hs as [|a l _ IH Hall]; intros i j Hij Hj; cbn in Hj; [lia|].
  destruct i as [|i], j as [|j]; cbn [nth]; try lia.
  - rewrite Forall_forall in Hall. apply Hall, list_elem_of_In, nth_In. lia.
  - apply IH; lia.
Qed.

Lemma valid_mono_on st lo hi :
  valid st -> (hi <= length (values_ st))%nat -> mono_on (values_ st) lo hi.
Proof. intros [_ Hm _] Hh i j Hij Hj. apply (Hm i j). lia. Qed.

(** ** Validation of the operand *)

Lemma validate_all op operand x :
  ValidateSearchConstraints op operand = kAllData -> 0 <= x < 2 ^ 32 ->
  matches op operand x = true.
Proof.
  unfold ValidateSearchConstraints, UINT32_MAX. intros Hv Hx.
  destruct op, operand as [t|]; try discriminate; try reflexivity;
    destruct (Z.ltb_spec (2 ^ 32 - 1) t), (Z.ltb_spec t 0); try discriminate;
    cbn; lia.
Qed.

Lemma validate_none op operand x :
  ValidateSearchConstraints op operand = kNoData -> 0 <= x < 2 ^ 32 ->
  matches op operand x = false.
Proof.
  unfold ValidateSearchConstraints, UINT32_MAX. intros Hv Hx.
  destruct op, operand as [t|]; try discriminate; try reflexivity;
    destruct (Z.ltb_spec (2 ^ 32 - 1) t), (Z.ltb_spec t 0); try discriminate;
    cbn; lia.
Qed.

Lemma validate_valid op operand :
  ValidateSearchConstraints op operand = kValid ->
  0 <= operand_value operand < 2 ^ 32 /\ (ranged op = true \/ op = kNe) /\
  forall x, matches op operand x = compare_op op x (operand_value operand).
Proof.
  unfold ValidateSearchConstraints, UINT32_MAX. intros Hv.
  destruct op, operand as [t|]; try discriminate;
    destruct (Z.ltb_spec (2 ^ 32 - 1) t), (Z.ltb_spec t 0); try discriminate;
    cbn; (split; [lia|]); auto.
Qed.

(** ** Bit vectors *)

Lemma ne_bits_lookup lo hi eq i :
  (lo <= r_start eq <= r_end eq)%nat -> (r_end eq <= hi)%nat ->
  ne_bits lo hi eq !! i = Some true <->
  (lo <= i < r_start eq)%nat \/ (r_end eq <= i < hi)%nat.
Proof.
  intros H1 H2. unfold ne_bits.
  rewrite !lookup_app_Some, !lookup_replicate, !length_replicate.
  split; [intros H; decompose [and or] H; try discriminate; lia|].
  intros [H|H]; [right; split; [lia|]; left; split; [reflexivity|lia]|].
  right. split; [lia|]. right. split; [lia|]. right. split; [lia|].
  split; [reflexivity|lia].
Qed.

Lemma length_ne_bits lo hi eq :
  (lo <= r_start eq <= r_end eq)%nat -> (r_end eq <= hi)%nat ->
  length (ne_bits lo hi eq) = hi.
Proof. intros H1 H2. unfold ne_bits. rewrite !length_app, !length_replicate. lia. Qed.

Lemma nth_true_lookup (bv : list bool) i : nth i bv false = true <-> bv !! i = Some true.
Proof.
  rewrite nth_lookup. destruct (bv !! i) as [[]|]; cbn; split; congruence.
Qed.

(** A bit vector that is clear below [lo] and agrees with [f] from
    there on denotes the positions of the span that satisfy [f]. *)
Lemma bv_positions_span (bv : BitVector) lo (f : nat -> bool) :
  (lo <= length bv)%nat ->
  (forall i, (i < length bv)%nat -> nth i bv false = true <-> (lo <= i)%nat /\ f i = true) ->
  bv_positions bv = List.filter f (seq lo (length bv - lo)).
Proof.
  intros Hlo Hbv. unfold bv_positions.
  rewrite <- (Nat.sub_0_r (length bv)) at 1.
  rewrite (seq_split 0 lo (length bv)), List.filter_app by lia.
  rewrite filter_none; cbn [app].
  - apply filter_seq_ext. intros i Hi. specialize (Hbv i ltac:(lia)).
    destruct (nth i bv false), (f i); try reflexivity.
    + apply proj1 in Hbv. destruct (Hbv eq_refl) as [_ H]. discriminate H.
    + apply Hbv. split; [lia|reflexivity].
  - intros i Hi%in_seq. apply not_true_is_false. rewrite Hbv by lia. lia.
Qed.

Lemma bv_positions_map {A} (g : A -> bool) (l : list A) d :
  bv_positions (map g l) = List.filter (fun k => g (nth k l d)) (seq 0 (length l)).
Proof.
  unfold bv_positions. rewrite length_map. apply filter_seq_ext. intros k Hk.
  rewrite (nth_indep _ false (g d)) by (rewrite length_map; lia). apply map_nth.
Qed.

(** ** Searches *)

Lemma ne_bits_positions vals val range eq :
  eq_range_ok vals val range eq ->
  bv_positions (ne_bits (r_start range) (r_end range) eq) =
  List.filter (fun i => negb (nth i vals 0 =? val)) (range_positions range).
Proof.
  intros (H1 & H2 & Heq).
  rewrite (bv_positions_span _ (r_start range) (fun i => negb (nth i vals 0 =? val)));
    rewrite ?length_ne_bits by lia; [reflexivity|lia|].
  intros i Hi. rewrite nth_true_lookup, ne_bits_lookup by lia.
  assert (In i (range_positions eq) <-> (r_start range <= i < r_end range)%nat /\
          (nth i vals 0 =? val) = true) as Hin.
  { rewrite Heq, filter_In. unfold range_positions. rewrite in_seq. lia. }
  unfold range_positions in Hin at 1. rewrite in_seq in Hin.
  destruct (nth i vals 0 =? val); cbn [negb]; split; intros H; lia.
Qed.

Lemma search_sorted_spec eq_range vals op operand range :
  (r_start range <= r_end range)%nat ->
  mono_on vals (r_start range) (r_end range) ->
  (forall i, 0 <= nth i vals 0 < 2 ^ 32) ->
  (ValidateSearchConstraints op operand = kValid ->
   eq_range_ok vals (operand_value operand) range (eq_range range)) ->
  positions (search_sorted eq_range vals op operand range) =
  List.filter (fun i => matches op operand (nth i vals 0)) (range_positions range).
Proof.
  intros Hle Hm Hr Heq. unfold search_sorted.
  destruct (ValidateSearchConstraints op operand) eqn:Hv.
  - destruct (validate_valid _ _ Hv) as (Ht & Hop & Hmatch). specialize (Heq eq_refl).
    rewrite (filter_ext _ _ (fun i => Hmatch (nth i vals 0))).
    destruct Hop as [Hop| ->]; [|apply ne_bits_positions, Heq].
    destruct op; try discriminate; cbn [positions]; try (apply bounds_spec; assumption).
    apply Heq.
  - cbn [positions]. symmetry. apply filter_all. intros i _. apply validate_all; auto.
  - cbn [positions]. unfold range_positions at 1. cbn [r_start r_end].
    rewrite Nat.sub_diag. symmetry. apply filter_none. intros i _.
    apply validate_none; auto.
Qed.

Lemma BinarySearchIntrinsic_Eq st val range :
  valid st -> (r_start range <= r_end range <= length (values_ st))%nat -> 0 <= val ->
  eq_range_ok (values_ st) val range (BinarySearchIntrinsic st kEq val range).
Proof.
  intros Hv Hr Hval. unfold BinarySearchIntrinsic, eq_range_ok.
  set (lo := Nat.max (r_start range) (Z.to_nat val)).
  assert (forall i, (r_start range <= i < lo)%nat -> (value_at st i =? val) = false) as Hlow.
  { intros i Hi. pose proof (valid_value_le st i Hv). apply Z.eqb_neq. lia. }
  destruct (Nat.leb_spec (r_end range) lo) as [Hend|Hend]; cbn [r_start r_end].
  - split; [lia|]. split; [lia|]. unfold range_positions at 1. cbn [r_start r_end].
    rewrite Nat.sub_diag. symmetry. apply filter_none.
    intros i Hi%in_seq. apply Hlow. lia.
  - destruct (bounds_spec (values_ st) kEq val lo (r_end range)) as (H1 & H2 & H3);
      [lia|apply valid_mono_on; [exact Hv|lia]|reflexivity|].
    split; [lia|]. split; [lia|]. rewrite H3. unfold range_positions.
    rewrite (seq_split (r_start range) lo (r_end range)), List.filter_app by lia.
    rewrite (filter_none _ (seq (r_start range) _)); [reflexivity|].
    intros i Hi%in_seq. apply Hlow. lia.
Qed.

Lemma Search_scan st op operand range :
  valid st -> (r_start range <= r_end range <= length (values_ st))%nat ->
  positions (Search st op operand range) = scan st op operand (range_positions range).
Proof.
  intros Hv Hr. apply search_sorted_spec.
  - lia.
  - apply valid_mono_on; [exact Hv|lia].
  - intros i. apply (valid_value_range st i Hv).
  - intros Hvalid. apply BinarySearchIntrinsic_Eq; [exact Hv|exact Hr|].
    apply validate_valid in Hvalid. lia.
Qed.

Lemma IndexSearch_unsorted_scan st op operand indices :
  reported indices (IndexSearch st op operand indices false) = scan st op operand indices.
Proof.
  unfold reported, IndexSearch, positions.
  rewrite (bv_positions_map (fun i => matches op operand (value_at st i)) indices 0%nat).
  apply (filter_places (fun i => matches op operand (value_at st i))).
Qed.

Lemma nth_projection st indices k :
  (k < length indices)%nat ->
  nth k (projection st indices) 0 = value_at st (nth k indices 0%nat).
Proof.
  intros Hk. unfold projection.
  rewrite (nth_indep _ 0 (value_at st 0%nat)) by (rewrite length_map; lia).
  apply map_nth.
Qed.

Lemma projection_range st indices k :
  valid st -> 0 <= nth k (projection st indices) 0 < 2 ^ 32.
Proof.
  intros Hv. destruct (Nat.lt_ge_cases k (length indices)) as [Hk|Hk].
  - rewrite nth_projection by exact Hk. apply valid_value_range, Hv.
  - rewrite nth_overflow by (unfold projection; rewrite length_map; exact Hk). lia.
Qed.

Lemma IndexSearch_sorted_positions st op operand indices :
  valid st -> Sorted Z.le (projection st indices) ->
  positions (IndexSearch st op operand indices true) =
  positions (IndexSearch st op operand indices false).
Proof.
  intros Hv Hs. unfold IndexSearch.
  apply Sorted_mono_on in Hs. unfold projection in Hs at 2. rewrite length_map in Hs.
  rewrite search_sorted_spec; cbn [r_start r_end positions]; [|lia|exact Hs| |].
  - rewrite (bv_positions_map (fun i => matches op operand (value_at st i)) indices 0%nat).
    unfold range_positions. cbn [r_start r_end]. rewrite Nat.sub_0_r.
    apply filter_seq_ext. intros k Hk. rewrite nth_projection by lia. reflexivity.
  - intros i. apply projection_range, Hv.
  - intros _. apply (bounds_spec _ kEq); [lia|exact Hs|reflexivity].
Qed.

(** ** Equivalence of answers *)

#[export] Instance res_equivalence : Equivalence (≡@{RangeOrBitVector}).
Proof.
  split; unfold equiv, res_equiv; [intros r|intros r1 r2|intros r1 r2 r3]; congruence.
Qed.

#[export] Instance positions_proper : Proper ((≡) ==> (=)) positions.
Proof. intros r1 r2 Hr. exact Hr. Qed.

#[export] Instance reported_proper indices : Proper ((≡) ==> (=)) (reported indices).
Proof. intros r1 r2 Hr. unfold reported. rewrite Hr. reflexivity. Qed.

(** ** Sorting *)

#[export] Instance value_le_total st : Total (value_le st).
Proof. intros a b. unfold value_le. lia. Qed.

#[export] Instance value_le_trans st : Transitive (value_le st).
Proof. intros a b c. unfold value_le. lia. Qed.

Lemma Sorted_projection st rows :
  Sorted (value_le st) rows -> Sorted Z.le (projection st rows).
Proof.
  induction 1 as [|r rows _ IH Hhd]; cbn; constructor; [exact IH|].
  destruct Hhd; cbn; constructor. assumption.
Qed.

Lemma Sort_sorted st rows :
  Sort st rows ≡ₚ rows /\ Sorted Z.le (projection st (Sort st rows)).
Proof.
  split; [apply merge_sort_Permutation|].
  apply Sorted_projection, Sorted_merge_sort, _.
Qed.

Lemma insert_row_Permutation st row rows : insert_row st row rows ≡ₚ row :: rows.
Proof.
  induction rows as [|r rest IH]; cbn; [reflexivity|].
  destruct (value_at st r <? value_at st row); [|reflexivity].
  rewrite IH. apply perm_swap.
Qed.

Lemma insert_row_Sorted st row rows :
  Sorted (value_le st) rows -> Sorted (value_le st) (insert_row st row rows).
Proof.
  induction 1 as [|r rest Hs IH Hhd]; cbn; [repeat constructor|].
  destruct (Z.ltb_spec (value_at st r) (value_at st row)) as [Hlt|Hge].
  - constructor; [exact IH|]. destruct Hhd as [|r' rest' Hr]; cbn.
    + constructor. unfold value_le. lia.
    + destruct (value_at st r' <? value_at st row); constructor;
        [exact Hr|unfold value_le; lia].
  - repeat constructor; [exact Hs|exact Hhd|exact Hge].
Qed.

Lemma rows_with_insert st v row rows :
  rows_with st v (insert_row st row rows) = rows_with st v (row :: rows).
Proof.
  induction rows as [|r rest IH]; [reflexivity|]. cbn [insert_row].
  destruct (Z.ltb_spec (value_at st r) (value_at st row)) as [Hlt|Hge]; [|reflexivity].
  unfold rows_with in *. cbn [List.filter] in *. rewrite IH.
  destruct (Z.eqb_spec (value_at st r) v), (Z.eqb_spec (value_at st row) v);
    try reflexivity. lia.
Qed.

Lemma StableSort_sorted st rows :
  StableSort st rows ≡ₚ rows /\ Sorted Z.le (projection st (StableSort st rows)).
Proof.
  split; [|apply Sorted_projection]; induction rows as [|r rest IH]; cbn;
    try constructor.
  - rewrite insert_row_Permutation. constructor. exact IH.
  - apply insert_row_Sorted, IH.
Qed.

Lemma StableSort_rows_with st v rows :
  rows_with st v (StableSort st rows) = rows_with st v rows.
Proof.
  induction rows as [|r rest IH]; [reflexivity|]. cbn [StableSort foldr].
  rewrite rows_with_insert. unfold rows_with in *. cbn [List.filter].
  fold (StableSort st rest). rewrite IH. reflexivity.
Qed.

(** ** Serialize *)

Lemma write_all_app {S} (append : S -> Z -> option S) l1 l2 s :
  write_all append (l1 ++ l2) s = write_all append l1 s ≫= write_all append l2.
Proof.
  revert s. induction l1 as [|v l1 IH]; intros s; cbn; [reflexivity|].
  destruct (append s v); cbn; [apply IH|reflexivity].
Qed.



Lemma linear_point_spec p vals lo hi :
  (lo <= hi)%nat -> prefix_on p vals lo hi ->
  is_point p vals lo hi (linear_point (hi - lo) p vals lo).
Proof.
  remember (hi - lo)%nat as n eqn:Hn. revert lo Hn.
  induction n as [|n IH]; intros lo Hn Hle Hp; cbn [linear_point].
  - repeat split; intros; lia.
  - destruct (p (nth lo vals 0)) eqn:Hlo.
    + destruct (IH (S lo)) as (Hr & Ht & Hf);
        [lia|lia|eapply prefix_on_sub; [exact Hp|lia|lia]|].
      split; [lia|]. split; [|exact Hf].
      intros i Hi. destruct (Nat.eq_dec i lo) as [->|]; [exact Hlo|apply Ht; lia].
    + split; [lia|]. split; [intros; lia|].
      intros i Hi. apply not_true_is_false. intros Hpi.
      rewrite (Hp lo i) in Hlo; [discriminate|lia|lia|exact Hpi].
Qed.

(** ** SetIdStorage offers the capability *)

#[export, refine] Instance SetIdStorage_Storage : Storage SetIdStorage := {
  st_valid := valid;
  st_values := values_;
  st_size := size;
  st_Search := Search;
  st_IndexSearch := IndexSearch;
  st_Sort := Sort;
  st_StableSort := StableSort
}.
Proof.
  - apply size_valid.
  - intros st op operand range Hv Hr. apply Search_scan; assumption.
  - intros st op operand indices _. apply IndexSearch_unsorted_scan.
  - apply Sort_sorted.
  - apply StableSort_sorted.
Defined.

(** * Theorems *)

(** C15. Range search is the linear scan: on a valid column and a span
    within it, [Search] answers with exactly the positions of the span
    whose value satisfies the predicate, in ascending order, for every
    operator and every operand (null, negative and above 2^32
    included); and the answer is one contiguous span for every operator
    but [Ne]. *)
Theorem Search_correct st op operand range :
  valid st -> (r_start range <= r_end range <= length (values_ st))%nat ->
  positions (Search st op operand range) = scan st op operand (range_positions range) /\
  (op <> kNe -> exists r, Search st op operand range = OfRange r).
Proof.
  intros Hv Hr. split; [apply Search_scan; assumption|].
  intros Hne. unfold Search, search_sorted.
  destruct (ValidateSearchConstraints op operand); [|eauto..].
  destruct op; eauto. contradiction.
Qed.

(** C16. Equality is one block: searching the whole column for [t]
    answers with a span [[b, e)] that holds exactly the positions whose
    value is [t]. *)
Theorem Search_Eq_block st t :
  valid st ->
  exists b e,
    Search st kEq (Long t) (mkRange 0 (length (values_ st))) = OfRange (mkRange b e) /\
    (b <= e <= length (values_ st))%nat /\
    forall i, (b <= i < e)%nat <-> (i < length (values_ st))%nat /\ value_at st i = t.
Proof.
  intros Hv. set (range := mkRange 0 (length (values_ st))).
  pose proof (Search_scan st kEq (Long t) range Hv ltac:(cbn; lia)) as Hs.
  assert (forall b e, Search st kEq (Long t) range = OfRange (mkRange b e) ->
          forall i, (b <= i < b + (e - b))%nat <->
                    (i < length (values_ st))%nat /\ value_at st i = t) as Hmem.
  { intros b e Heq i. rewrite Heq in Hs. cbn [positions] in Hs.
    unfold range_positions in Hs at 1. cbn [r_start r_end] in Hs.
    rewrite <- in_seq, Hs. unfold scan. rewrite filter_In. unfold range_positions.
    cbn [r_start r_end range matches compare_op]. rewrite in_seq, Z.eqb_eq. lia. }
  unfold Search, search_sorted in *.
  destruct (ValidateSearchConstraints kEq (Long t)) eqn:Hval.
  - destruct (BinarySearchIntrinsic_Eq st t range Hv ltac:(cbn; lia)) as (H1 & H2 & _);
      [apply validate_valid in Hval; cbn in Hval; lia|].
    cbn [operand_value] in *. destruct (BinarySearchIntrinsic st kEq t range) as [b e].
    cbn [r_start r_end range] in *. exists b, e. split; [reflexivity|]. split; [lia|].
    intros i. rewrite <- (Hmem b e eq_refl i). lia.
  - unfold ValidateSearchConstraints in Hval. destruct (_ <? t), (t <? 0); discriminate.
  - exists (length (values_ st)), (length (values_ st)). split; [reflexivity|].
    split; [lia|]. intros i. rewrite <- (Hmem _ _ eq_refl i). lia.
Qed.

(** C17. The boundary search is a binary search that agrees with the
    linear one: on a span where the values are non-decreasing, with as
    many rounds as the logarithm of the length of the span plus one,
    or more, [partition_point] finds the first position whose value is
    not below the target, the position the linear scan of the span
    stops at; it never runs out of rounds. *)
Theorem partition_point_linear fuel p vals lo hi :
  (lo <= hi)%nat -> prefix_on p vals lo hi -> (search_fuel lo hi <= fuel)%nat ->
  partition_point fuel p vals lo hi = linear_point (hi - lo) p vals lo /\
  is_point p vals lo hi (partition_point fuel p vals lo hi).
Proof.
  intros Hle Hp Hfuel.
  assert (is_point p vals lo hi (partition_point fuel p vals lo hi)) as Hpt.
  { apply partition_point_spec; [|exact Hle|exact Hp].
    eapply Nat.lt_le_trans; [apply search_fuel_enough|].
    apply Nat.pow_le_mono_r; [lia|exact Hfuel]. }
  split; [|exact Hpt].
  eapply is_point_unique; [exact Hpt|apply linear_point_spec; assumption].
Qed.

(** C31. The narrowing of [Eq] is sound: starting the search at the
    position named by the operand, instead of the start of the span,
    finds the same block as the two boundary searches over the whole
    span, because no value exceeds its position. *)
Theorem BinarySearchIntrinsic_narrowing st val range :
  valid st -> (r_start range <= r_end range <= length (values_ st))%nat -> 0 <= val ->
  range_positions (BinarySearchIntrinsic st kEq val range) =
  range_positions (bounds (values_ st) kEq val (r_start range) (r_end range)).
Proof.
  intros Hv Hr Hval.
  destruct (BinarySearchIntrinsic_Eq st val range Hv Hr Hval) as (_ & _ & ->).
  destruct (bounds_spec (values_ st) kEq val (r_start range) (r_end range))
    as (_ & _ & ->); [lia|apply valid_mono_on; [exact Hv|lia]|reflexivity|].
  reflexivity.
Qed.

(** [Lt] and [Ge] split a span: the positions answered for [Lt t]
    followed by those answered for [Ge t] are the positions of the
    span, each once and in order. *)
Lemma Search_Lt_Ge_split st t range :
  valid st -> (r_start range <= r_end range <= length (values_ st))%nat ->
  positions (Search st kLt (Long t) range) ++ positions (Search st kGe (Long t) range) =
  range_positions range.
Proof.
  intros Hv Hr. rewrite !Search_scan by assumption. unfold scan, range_positions.
  destruct (LowerBound_point (values_ st) t (r_start range) (r_end range))
    as (Hl & Tl & Fl); [lia|apply valid_mono_on; [exact Hv|lia]|].
  set (m := LowerBound (values_ st) t (r_start range) (r_end range)) in *.
  cbn [matches compare_op].
  rewrite (filter_seq_span _ _ _ (r_start range) m), (filter_seq_span _ _ _ m (r_end range));
    [symmetry; apply seq_split; lia|lia|lia| |lia|lia|];
    intros i Hi; unfold value_at; destruct (Nat.lt_ge_cases i m); at_point i; lia.
Qed.


(** C23. The [sorted] hint changes the cost, not the answer: when the
    values at the supplied positions are non-decreasing, the answer of
    the binary search over the list, a span of places, is equivalent to
    the bit vector that the test of each place on its own gives, so
    both report the same positions in the same order. *)
Theorem IndexSearch_sorted_equiv st op operand indices :
  valid st -> Sorted Z.le (projection st indices) ->
  IndexSearch st op operand indices true ≡ IndexSearch st op operand indices false /\
  reported indices (IndexSearch st op operand indices true) = scan st op operand indices.
Proof.
  intros Hv Hs.
  assert (IndexSearch st op operand indices true ≡ IndexSearch st op operand indices false)
    as Heq by (apply IndexSearch_sorted_positions; assumption).
  split; [exact Heq|]. rewrite Heq. apply IndexSearch_unsorted_scan.
Qed.

(** C25. The sorts order the buffer: [Sort] and [StableSort] return
    the rows of the buffer, each as often as before, in non-decreasing
    order of value, and both give the same sequence of values;
    [StableSort] is stable: for every value, the rows that hold it come
    out in the order they went in. *)
Theorem Sort_StableSort_correct st rows :
  Sort st rows ≡ₚ rows /\ Sorted Z.le (projection st (Sort st rows)) /\
  StableSort st rows ≡ₚ rows /\ Sorted Z.le (projection st (StableSort st rows)) /\
  projection st (Sort st rows) = projection st (StableSort st rows) /\
  forall v, rows_with st v (StableSort st rows) = rows_with st v rows.
Proof.
  destruct (Sort_sorted st rows) as [Hp Hs].
  destruct (StableSort_sorted st rows) as [Hp' Hs'].
  repeat (split; [assumption|]). split; [|intros v; apply StableSort_rows_with].
  apply (Sorted_unique Z.le); [exact Hs|exact Hs'|].
  unfold projection. apply Permutation_map. rewrite Hp, Hp'. reflexivity.
Qed.


(** The size and the values fit their type: on a column that
    passes the check [setid_ok], [size] is the number of rows (the cast
    to 32 bits loses nothing), every value lies between 0 and its
    position, hence below 2^32, and the values are non-decreasing. *)
Theorem size_value_bounds st :
  setid_ok st = true ->
  size st = Z.of_nat (length (values_ st)) /\ 0 <= size st < 2 ^ 32 /\
  (forall i, 0 <= value_at st i <= Z.min (Z.of_nat i) UINT32_MAX) /\
  (forall i j, (i <= j < length (values_ st))%nat -> value_at st i <= value_at st j).
Proof.
  intros Hv%setid_ok_valid. rewrite size_valid by exact Hv.
  split; [reflexivity|]. split; [destruct Hv; lia|]. split; [|apply Hv].
  intros i. pose proof (valid_value_range st i Hv). pose proof (valid_value_le st i Hv).
  unfold UINT32_MAX. lia.
Qed.

(** ** Clients of the contract *)

Section Client.
Context {T : Type} `{Storage T}.


End Client.
