(* ===== verification/Timeline.v ===== *)
(** * ProcessThreadTimeline and its unit test

    The second half of [set_id_storage.h] is the parameterised unit test
    of [trace_redaction::ProcessThreadTimeline].  The class itself is
    not in the tree.  The test is translated as it is written: the
    constants, [SliceTestParams], the four test bodies (each appends
    events, sorts, searches and compares the slice found with the
    parameters) and the four lists of parameters.  The bodies are
    written against the class [Timeline], the operations the test
    calls.

    [ProcessThreadTimeline] below is the model of the class that the
    test is run on: a list of events, [Sort] orders it by pid,
    [FindPreviousEvent] finds the latest event of a pid at or before a
    time in the island of that pid, and [Search] follows parents, up to
    [kMaxSearchDepth] of them, to the first that carries a uid. *)

From Stdlib Require Import ZArith List Lia Permutation Sorted.
From stdpp Require Import base option list sorting.
From S2P Require Import Prelude.

#[local] Open Scope Z_scope.

(** ** Events and slices *)

Inductive EventType : Type := kInvalid | kOpen | kClose.

#[export] Instance EventType_eq_dec : EqDecision EventType.
Proof. solve_decision. Defined.

Record TimelineEvent : Type := mkTimelineEvent {
  ev_ts : Z;
  ev_type : EventType;
  ev_pid : Z;
  ev_ppid : Z;
  ev_uid : Z
}.

#[export] Instance TimelineEvent_eq_dec : EqDecision TimelineEvent.
Proof. solve_decision. Defined.

Definition kUnknownPid : Z := 0.
Definition kUnknownUid : Z := 0.

(** [Event::Open(ts, pid, ppid, uid)] *)
Definition Open (ts pid ppid uid : Z) : TimelineEvent :=
  mkTimelineEvent ts kOpen pid ppid uid.

(** [Event::Open(ts, pid, ppid)]: the uid is not known. *)
Definition Open_no_uid (ts pid ppid : Z) : TimelineEvent :=
  mkTimelineEvent ts kOpen pid ppid kUnknownUid.

(** [Event::Close(ts, pid)] *)
Definition Close (ts pid : Z) : TimelineEvent :=
  mkTimelineEvent ts kClose pid kUnknownPid kUnknownUid.

Record Slice : Type := mkSlice {
  slice_pid : Z;
  slice_uid : Z
}.

(** ** What the test calls *)

Class Timeline (T : Type) : Type := {
  tl_new : T;
  tl_Append : TimelineEvent -> T -> T;
  tl_Sort : T -> T;
  tl_Search : T -> Z -> Z -> Slice
}.

(** ** The test *)

Record SliceTestParams : Type := mkSliceTestParams {
  ts : Z;
  pid : Z;
  uid : Z
}.

Definition kTimeA : Z := 0.
Definition kTimeB : Z := 10.
Definition kTimeC : Z := 20.
Definition kTimeD : Z := 30.
Definition kTimeE : Z := 40.
Definition kTimeF : Z := 50.
Definition kTimeG : Z := 60.

Definition kPidA : Z := 1.
Definition kPidB : Z := 2.

Definition kNoPackage : Z := 0.

Definition kUidA : Z := 98.
Definition kUidB : Z := 99.

(** The two [ASSERT_EQ] that end every test body. *)
Definition slice_matches (slice : Slice) (params : SliceTestParams) : bool :=
  (slice_pid slice =? pid params) && (slice_uid slice =? uid params).

Section Test.
Context {T : Type} `{Timeline T}.

Definition PidsEndOnClose (params : SliceTestParams) : bool :=
  let timeline_ := tl_new in
  let timeline_ := tl_Append (Open kTimeB kPidB kPidA kUidA) timeline_ in
  let timeline_ := tl_Append (Close kTimeD kPidB) timeline_ in
  let timeline_ := tl_Sort timeline_ in
  let slice := tl_Search timeline_ (ts params) (pid params) in
  slice_matches slice params.

Definition OpenAfterOpen_FindsUid (params : SliceTestParams) : bool :=
  let timeline_ := tl_new in
  let timeline_ := tl_Append (Open kTimeB kPidB kPidA kUidA) timeline_ in
  let timeline_ := tl_Append (Open kTimeD kPidB kPidA kUidB) timeline_ in
  let timeline_ := tl_Sort timeline_ in
  let slice := tl_Search timeline_ (ts params) (pid params) in
  slice_matches slice params.

Definition OverlappingRanges_FindsUid (params : SliceTestParams) : bool :=
  let timeline_ := tl_new in
  let timeline_ := tl_Append (Open kTimeA kPidA 0 kUidA) timeline_ in
  let timeline_ := tl_Append (Open kTimeC kPidB 0 kUidB) timeline_ in
  let timeline_ := tl_Append (Close kTimeE kPidA) timeline_ in
  let timeline_ := tl_Append (Close kTimeG kPidB) timeline_ in
  let timeline_ := tl_Sort timeline_ in
  let slice := tl_Search timeline_ (ts params) (pid params) in
  slice_matches slice params.

Definition ParentChild_FindsUid (params : SliceTestParams) : bool :=
  let timeline_ := tl_new in
  let timeline_ := tl_Append (Open kTimeA kPidA 0 kUidA) timeline_ in
  let timeline_ := tl_Append (Open_no_uid kTimeC kPidB kPidA) timeline_ in
  let timeline_ := tl_Append (Close kTimeE kPidB) timeline_ in
  let timeline_ := tl_Sort timeline_ in
  let slice := tl_Search timeline_ (ts params) (pid params) in
  slice_matches slice params.

End Test.

(** The four [INSTANTIATE_TEST_SUITE_P]. *)
Definition OpenAndCloseSingle_values : list SliceTestParams :=
  [ mkSliceTestParams kTimeA kPidB kNoPackage;
    mkSliceTestParams kTimeB kPidB kUidA;
    mkSliceTestParams kTimeC kPidB kUidA;
    mkSliceTestParams kTimeD kPidB kNoPackage;
    mkSliceTestParams kTimeE kPidB kNoPackage ].

Definition OpenAfterOpen_values : list SliceTestParams :=
  [ mkSliceTestParams kTimeA kPidB kNoPackage;
    mkSliceTestParams kTimeB kPidB kUidA;
    mkSliceTestParams kTimeC kPidB kUidA;
    mkSliceTestParams kTimeD kPidB kUidB;
    mkSliceTestParams kTimeE kPidB kUidB ].

Definition OverlappingRanges_values : list SliceTestParams :=
  [ mkSliceTestParams kTimeA kPidA kUidA;
    mkSliceTestParams kTimeA kPidB kNoPackage;
    mkSliceTestParams kTimeB kPidA kUidA;
    mkSliceTestParams kTimeB kPidB kNoPackage;
    mkSliceTestParams kTimeC kPidA kUidA;
    mkSliceTestParams kTimeC kPidB kUidB;
    mkSliceTestParams kTimeD kPidA kUidA;
    mkSliceTestParams kTimeD kPidB kUidB;
    mkSliceTestParams kTimeE kPidA kNoPackage;
    mkSliceTestParams kTimeE kPidB kUidB;
    mkSliceTestParams kTimeF kPidA kNoPackage;
    mkSliceTestParams kTimeF kPidB kUidB;
    mkSliceTestParams kTimeG kPidA kNoPackage;
    mkSliceTestParams kTimeG kPidB kNoPackage ].

Definition ParentChild_values : list SliceTestParams :=
  [ mkSliceTestParams kTimeB kPidB kNoPackage;
    mkSliceTestParams kTimeC kPidB kUidA;
    mkSliceTestParams kTimeD kPidB kUidA;
    mkSliceTestParams kTimeE kPidB kNoPackage ].

(** The whole test program: every instance of every suite. *)
Definition RUN_ALL_TESTS (T : Type) `{Timeline T} : bool :=
  forallb PidsEndOnClose OpenAndCloseSingle_values &&
  forallb OpenAfterOpen_FindsUid OpenAfterOpen_values &&
  forallb OverlappingRanges_FindsUid OverlappingRanges_values &&
  forallb ParentChild_FindsUid ParentChild_values.

(** ** The model of the class *)

Record ProcessThreadTimeline : Type := mkTimeline {
  events_ : list TimelineEvent
}.

Definition Timeline_Append (event : TimelineEvent) (tl : ProcessThreadTimeline) :
    ProcessThreadTimeline :=
  mkTimeline (events_ tl ++ [event]).

Definition OrderByPid (l r : TimelineEvent) : Prop := ev_pid l <= ev_pid r.

#[export] Instance OrderByPid_dec l r : Decision (OrderByPid l r).
Proof. unfold OrderByPid. apply _. Defined.

Definition Timeline_Sort (tl : ProcessThreadTimeline) : ProcessThreadTimeline :=
  mkTimeline (merge_sort OrderByPid (events_ tl)).

(** The island of [pid] in a list ordered by pid: what follows the
    events of smaller pids, as long as the pid is [pid]. *)
Fixpoint island_from (pid : Z) (events : list TimelineEvent) : list TimelineEvent :=
  match events with
  | [] => []
  | e :: rest => if ev_pid e =? pid then e :: island_from pid rest else []
  end.

Fixpoint island (pid : Z) (events : list TimelineEvent) : list TimelineEvent :=
  match events with
  | [] => []
  | e :: rest => if ev_pid e <? pid then island pid rest else island_from pid events
  end.

(** One step of the scan of the island: an event after [ts] is ignored,
    a later event replaces the best one so far. *)
Definition better (ts : Z) (best : option TimelineEvent) (at_ : TimelineEvent) :
    option TimelineEvent :=
  if ts <? ev_ts at_ then best
  else match best with
       | None => Some at_
       | Some b => if ev_ts b <? ev_ts at_ then Some at_ else best
       end.

Definition FindPreviousEvent (tl : ProcessThreadTimeline) (ts pid : Z) :
    option TimelineEvent :=
  fold_left (better ts) (island pid (events_ tl)) None.

Definition kMaxSearchDepth : nat := 10.

(** The uid found from an event: none after a close, the event's own
    when it has one, else that of the parent at the same time. *)
Fixpoint search_up (depth : nat) (tl : ProcessThreadTimeline) (ts : Z)
    (event : option TimelineEvent) : Z :=
  match depth with
  | O => kUnknownUid
  | S depth' =>
      match event with
      | None => kUnknownUid
      | Some e =>
          if bool_decide (ev_type e <> kOpen) then kUnknownUid
          else if negb (ev_uid e =? kUnknownUid) then ev_uid e
          else if ev_ppid e =? kUnknownPid then kUnknownUid
          else search_up depth' tl ts (FindPreviousEvent tl ts (ev_ppid e))
      end
  end.

Definition Timeline_Search (tl : ProcessThreadTimeline) (ts pid : Z) : Slice :=
  mkSlice pid (search_up kMaxSearchDepth tl ts (FindPreviousEvent tl ts pid)).

#[export] Instance ProcessThreadTimeline_Timeline : Timeline ProcessThreadTimeline := {
  tl_new := mkTimeline [];
  tl_Append := Timeline_Append;
  tl_Sort := Timeline_Sort;
  tl_Search := Timeline_Search
}.

(** ** The reference: the latest event of a pid at or before a time *)

Definition key (e : TimelineEvent) : Z * Z := (ev_pid e, ev_ts e).

(** [e] is the latest of the events of [pid] at or before [ts]. *)
Definition latest (events : list TimelineEvent) (ts pid : Z) (e : TimelineEvent) : Prop :=
  In e events /\ ev_pid e = pid /\ ev_ts e <= ts /\
  forall e', In e' events -> ev_pid e' = pid -> ev_ts e' <= ts -> ev_ts e' <= ev_ts e.

(** The timeline that holds [events], appended in order and sorted. *)
Definition timeline_of (events : list TimelineEvent) : ProcessThreadTimeline :=
  Timeline_Sort (fold_left (fun tl e => Timeline_Append e tl) events (mkTimeline [])).

(** * Lemmas *)

#[export] Instance OrderByPid_total : Total OrderByPid.
Proof. intros l r. unfold OrderByPid. lia. Qed.

#[export] Instance OrderByPid_trans : Transitive OrderByPid.
Proof. intros a b c. unfold OrderByPid. lia. Qed.

Lemma events_fold_Append events tl :
  events_ (fold_left (fun tl e => Timeline_Append e tl) events tl) = events_ tl ++ events.
Proof.
  revert tl. induction events as [|e events IH]; intros tl; cbn [fold_left].
  - symmetry. apply app_nil_r.
  - rewrite IH. cbn. rewrite <- app_assoc. reflexivity.
Qed.

Lemma events_timeline_of events :
  events_ (timeline_of events) = merge_sort OrderByPid events.
Proof. unfold timeline_of, Timeline_Sort. cbn. rewrite events_fold_Append. reflexivity. Qed.

Lemma timeline_of_Permutation events : events_ (timeline_of events) ≡ₚ events.
Proof. rewrite events_timeline_of. apply merge_sort_Permutation. Qed.

Lemma timeline_of_sorted events : StronglySorted OrderByPid (events_ (timeline_of events)).
Proof. rewrite events_timeline_of. apply StronglySorted_merge_sort; apply _. Qed.

(** ** The island of a pid in a sorted list *)

Lemma island_from_filter pid events :
  StronglySorted OrderByPid events -> Forall (fun e => pid <= ev_pid e) events ->
  island_from pid events = List.filter (fun e => ev_pid e =? pid) events.
Proof.
  induction 1 as [|e rest Hs IH Hall]; intros Hge; [reflexivity|].
  apply Forall_cons in Hge as [He Hge]. cbn [island_from List.filter].
  destruct (Z.eqb_spec (ev_pid e) pid) as [Heq|Hne]; [f_equal; apply IH, Hge|].
  symmetry. clear IH Hge. induction Hall as [|e' rest' He' _ IH']; [reflexivity|].
  cbn [List.filter]. apply StronglySorted_inv in Hs as [Hs _].
  destruct (Z.eqb_spec (ev_pid e') pid); [unfold OrderByPid in He'; lia|apply IH', Hs].
Qed.

Lemma island_filter pid events :
  StronglySorted OrderByPid events ->
  island pid events = List.filter (fun e => ev_pid e =? pid) events.
Proof.
  induction 1 as [|e rest Hs IH Hall]; [reflexivity|]. cbn [island].
  destruct (Z.ltb_spec (ev_pid e) pid) as [Hlt|Hge].
  - cbn [List.filter]. destruct (Z.eqb_spec (ev_pid e) pid); [lia|exact IH].
  - apply island_from_filter; [constructor; assumption|].
    constructor; [exact Hge|]. eapply Forall_impl; [exact Hall|].
    intros e' He'. unfold OrderByPid in He'. lia.
Qed.

(** ** The scan of an island *)

Lemma better_cases ts best a :
  (better ts best a = best /\
   (ts < ev_ts a \/ exists b, best = Some b /\ ev_ts a <= ev_ts b)) \/
  (better ts best a = Some a /\ ev_ts a <= ts /\
   forall b, best = Some b -> ev_ts b < ev_ts a).
Proof.
  unfold better. destruct (Z.ltb_spec ts (ev_ts a)); [left; auto|].
  destruct best as [b|]; [|right; split; [reflexivity|split; [lia|discriminate]]].
  destruct (Z.ltb_spec (ev_ts b) (ev_ts a)).
  - right. split; [reflexivity|]. split; [lia|]. intros ? [= <-]. lia.
  - left. split; [reflexivity|]. right. eauto.
Qed.

Lemma fold_better_spec ts events best :
  let r := fold_left (better ts) events best in
  (r = best \/ exists e, r = Some e /\ In e events /\ ev_ts e <= ts) /\
  (forall b, best = Some b -> exists e, r = Some e /\ ev_ts b <= ev_ts e) /\
  (forall e', In e' events -> ev_ts e' <= ts -> exists e, r = Some e /\ ev_ts e' <= ev_ts e).
Proof.
  revert best. induction events as [|a events IH]; intros best; cbn [fold_left].
  - split; [left; reflexivity|]. split; [intros b ->; eexists; split; [reflexivity|lia]|].
    intros e' [].
  - destruct (IH (better ts best a)) as (Hr & Hb & Hin). clear IH.
    set (r := fold_left (better ts) events (better ts best a)) in *.
    destruct (better_cases ts best a) as [[Heq Hwhy]|(Heq & Hts & Hlt)]; rewrite Heq in *.
    + split; [destruct Hr as [|(e & ? & ? & ?)]; [auto|right; exists e; cbn; auto]|].
      split; [exact Hb|]. intros e' [->|He'] Hle; [|auto].
      destruct Hwhy as [|(b & -> & Hab)]; [lia|].
      destruct (Hb b eq_refl) as (e & ? & ?). exists e. split; [assumption|lia].
    + destruct (Hb a eq_refl) as (ea & Hea & Hle).
      split; [|split].
      * right. destruct Hr as [Hr|(e & ? & ? & ?)]; [|exists e; cbn; auto].
        exists a. cbn. auto.
      * intros b ->. specialize (Hlt b eq_refl). exists ea. split; [exact Hea|lia].
      * intros e' [->|He'] Hle'; [exists ea; auto|auto].
Qed.

(** ** FindPreviousEvent on a sorted timeline *)

Lemma FindPreviousEvent_Some tl ts pid e :
  StronglySorted OrderByPid (events_ tl) ->
  FindPreviousEvent tl ts pid = Some e -> latest (events_ tl) ts pid e.
Proof.
  intros Hs Hf. unfold FindPreviousEvent in Hf. rewrite island_filter in Hf by exact Hs.
  destruct (fold_better_spec ts (List.filter (fun e => ev_pid e =? pid) (events_ tl)) None)
    as (Hr & _ & Hin).
  rewrite Hf in Hr, Hin.
  destruct Hr as [|(e0 & [= <-] & [Hine Hp%Z.eqb_eq]%filter_In & Hts)]; [discriminate|].
  repeat split; auto. intros e' He' Hp' Hts'.
  destruct (Hin e') as (e1 & [= <-] & Hle); [|exact Hts'|exact Hle].
  apply filter_In. split; [exact He'|apply Z.eqb_eq, Hp'].
Qed.

Lemma FindPreviousEvent_None tl ts pid e :
  StronglySorted OrderByPid (events_ tl) ->
  FindPreviousEvent tl ts pid = None -> In e (events_ tl) -> ev_pid e = pid -> ts < ev_ts e.
Proof.
  intros Hs Hf He Hp. unfold FindPreviousEvent in Hf. rewrite island_filter in Hf by exact Hs.
  destruct (fold_better_spec ts (List.filter (fun e => ev_pid e =? pid) (events_ tl)) None)
    as (_ & _ & Hin).
  rewrite Hf in Hin. destruct (Z.lt_ge_cases ts (ev_ts e)) as [|Hle]; [assumption|].
  destruct (Hin e) as (e1 & [=] & _); [|exact Hle].
  apply filter_In. split; [exact He|apply Z.eqb_eq, Hp].
Qed.

Lemma latest_Permutation events events' ts pid e :
  events ≡ₚ events' -> latest events ts pid e -> latest events' ts pid e.
Proof.
  intros Hp (He & Hpid & Hts & Hmax). split; [eapply Permutation_in; eassumption|].
  split; [exact Hpid|]. split; [exact Hts|]. intros e' He'. apply Hmax.
  eapply Permutation_in; [symmetry|]; eassumption.
Qed.

(** Events are told apart by their pid and time. *)
Lemma key_inj events e1 e2 :
  NoDup (map key events) -> In e1 events -> In e2 events -> key e1 = key e2 -> e1 = e2.
Proof.
  induction events as [|a events IH]; cbn [map]; [intros _ []|].
  intros [Ha Hnd]%NoDup_cons [<-|H1] [<-|H2] Hk; auto.
  - exfalso. apply Ha. rewrite Hk. apply list_elem_of_In, in_map, H2.
  - exfalso. apply Ha. rewrite <- Hk. apply list_elem_of_In, in_map, H1.
Qed.

Lemma latest_unique events ts pid e1 e2 :
  NoDup (map key events) -> latest events ts pid e1 -> latest events ts pid e2 -> e1 = e2.
Proof.
  intros Hnd (H1 & Hp1 & Ht1 & Hm1) (H2 & Hp2 & Ht2 & Hm2).
  apply (key_inj events); [assumption..|]. unfold key. f_equal; [congruence|].
  specialize (Hm1 e2 H2 Hp2 Ht2). specialize (Hm2 e1 H1 Hp1 Ht1). lia.
Qed.

Lemma timeline_of_latest events ts pid :
  match FindPreviousEvent (timeline_of events) ts pid with
  | Some e => latest events ts pid e
  | None => forall e, In e events -> ev_pid e = pid -> ts < ev_ts e
  end.
Proof.
  pose proof (timeline_of_sorted events) as Hs.
  pose proof (timeline_of_Permutation events) as Hp.
  destruct (FindPreviousEvent (timeline_of events) ts pid) as [e|] eqn:Hf.
  - eapply latest_Permutation; [exact Hp|]. apply FindPreviousEvent_Some; assumption.
  - intros e He. apply (FindPreviousEvent_None _ _ _ _ Hs Hf).
    eapply Permutation_in; [symmetry; exact Hp|exact He].
Qed.

Lemma FindPreviousEvent_Permutation events events' ts pid :
  events ≡ₚ events' -> NoDup (map key events) ->
  FindPreviousEvent (timeline_of events) ts pid =
  FindPreviousEvent (timeline_of events') ts pid.
Proof.
  intros Hp Hnd.
  pose proof (timeline_of_latest events ts pid) as H1.
  pose proof (timeline_of_latest events' ts pid) as H2.
  destruct (FindPreviousEvent (timeline_of events) ts pid) as [e1|],
           (FindPreviousEvent (timeline_of events') ts pid) as [e2|]; [| | |reflexivity].
  - f_equal. apply (latest_unique events ts pid); [exact Hnd|exact H1|].
    eapply latest_Permutation; [symmetry; exact Hp|exact H2].
  - destruct H1 as (He & Hpid & Hts & _).
    specialize (H2 e1 (Permutation_in _ Hp He) Hpid). lia.
  - destruct H2 as (He & Hpid & Hts & _).
    specialize (H1 e2 (Permutation_in _ (Permutation_sym Hp) He) Hpid). lia.
Qed.

Lemma search_up_ext depth tl tl' ts event :
  (forall pid, FindPreviousEvent tl ts pid = FindPreviousEvent tl' ts pid) ->
  search_up depth tl ts event = search_up depth tl' ts event.
Proof.
  intros Hf. revert event. induction depth as [|depth IH]; intros event; [reflexivity|].
  cbn [search_up]. destruct event as [e|]; [|reflexivity].
  rewrite Hf, IH. reflexivity.
Qed.

(** * Theorems *)

(** The unit test passes: on the model of the class, all 28
    instances of the four parameterised suites find the pid and the
    uid their parameters name. *)
Theorem unit_test_passes : RUN_ALL_TESTS ProcessThreadTimeline = true.
Proof. vm_compute. reflexivity. Qed.

(** C33. The order of [Append] does not matter: when no two events
    share pid and time, timelines built from the same events in any
    order answer every search alike, through all the parents
    followed; for [FindPreviousEvent] finds, in the island of a pid of
    the sorted timeline, the one event of that pid at or before the
    time asked for such that none is later. *)
Theorem Timeline_Search_order_independent events events' ts pid :
  events ≡ₚ events' -> NoDup (map key events) ->
  Timeline_Search (timeline_of events) ts pid = Timeline_Search (timeline_of events') ts pid.
Proof.
  intros Hp Hnd. unfold Timeline_Search.
  rewrite (FindPreviousEvent_Permutation events events' ts pid Hp Hnd).
  rewrite (search_up_ext kMaxSearchDepth (timeline_of events) (timeline_of events') ts);
    [reflexivity|].
  intros pid'. apply FindPreviousEvent_Permutation; assumption.
Qed.
