(* ===== verification/Examples.v ===== *)
(** * A concrete /proc and the runs of the data source on it

    [ex_env] is a snapshot of /proc with two processes, one of which has
    a second thread; [ex_cfg] a configuration that dumps all processes
    on start and polls.  The theorems of the other files are applied to
    them here, and the behaviours that the model brought to light are
    shown on runs that evaluate inside the kernel. *)

From Stdlib Require Import ZArith List Ascii String Lia Permutation Sorted.
From stdpp Require Import base option list gmap.
From S2P Require Import Prelude CxxString FlatSet TraceProto ProcFs StatusParse.
From S2P Require Import ProcessStats PacketCursor StatsCache Handlers Polling.
From S2P Require Import TreeView StatsView TraceShape Describes Timestamps Typing Expiry.
From S2P Require Import Lifetime.
From S2P Require Import SetIdStorage Timeline.

#[local] Open Scope Z_scope.
#[local] Open Scope m_scope.

(** ** A small /proc *)

(** The status file of a task, with the lines the probe reads. *)
Definition ex_status (name tgid pid ppid vmsize : string) : bytes :=
  render_entry (lit "Name:") (lit name) ++
  render_entry (lit "Tgid:") (lit tgid) ++
  render_entry (lit "Pid:") (lit pid) ++
  render_entry (lit "PPid:") (lit ppid) ++
  render_entry (lit "Uid:") (lit "1000") ++
  render_entry (lit "VmSize:") (lit vmsize) ++
  render_entry (lit "VmRSS:") (lit "  50 kB").

Definition ex_dir (t : file_type) (n : string) : dirent := mkDirent t (lit n).

(** Process 1 (init) and process 20 with a second thread 21. *)
Definition ex_file (pid : Z) (f : bytes) : option bytes :=
  if bool_decide (f = lit "status") then
    if pid =? 1 then Some (ex_status "init" "1" "1" "0" " 100 kB")
    else if pid =? 20 then Some (ex_status "app" "20" "20" "1" " 300 kB")
    else if pid =? 21 then Some (ex_status "worker" "20" "21" "1" " 300 kB")
    else None
  else if bool_decide (f = lit "cmdline") then
    if pid =? 1 then Some (lit "/sbin/init" ++ [NUL] ++ lit "-v" ++ [NUL]) else None
  else if bool_decide (f = lit "oom_score_adj") then Some (lit "-1000" ++ [LF])
  else None.

Definition ex_fs : ProcFs :=
  mkProcFs
    (Some [ex_dir DT_DIR "1"; ex_dir DT_REG "cpuinfo"; ex_dir DT_DIR "self";
           ex_dir DT_DIR "20"])
    (fun pid => if pid =? 20 then Some [ex_dir DT_DIR "20"; ex_dir DT_DIR "21"]
                else if pid =? 1 then Some [ex_dir DT_DIR "1"] else None)
    (fun pid => if pid =? 1 then Some [ex_dir DT_LNK "0"; ex_dir DT_LNK "3"]
                else if pid =? 20 then Some [ex_dir DT_LNK "5"] else None)
    ex_file
    (fun pid fd => Some (lit "/dev/null")).

Definition ex_env : Env := mkEnv ex_fs (fun n => 1000 + Z.of_nat n) 123456.

(** Dump on start, resolve descriptors, poll every 50 ms (raised to 100),
    cache for one second. *)
Definition ex_cfg : ProcessStatsConfig := mkProcessStatsConfig [] true true 50 1000 true.

Definition ex_run : list (Env * Event FlatSet) :=
  [(ex_env, EvStart); (ex_env, EvTick);
   (ex_env, EvOnPids (FlatSet_of_list [1; 20; 21]));
   (ex_env, EvFlush); (ex_env, EvTick)].

(** A run that clears the incremental state. *)
Definition ex_cleared_run : list (Env * Event FlatSet) :=
  [(ex_env, EvStart); (ex_env, EvClearIncrementalState);
   (ex_env, EvOnPids (FlatSet_of_list [1])); (ex_env, EvTick)].

(** A run that asks for a thread after the incremental state has been
    cleared. *)
Definition ex_asked_run : list (Env * Event FlatSet) :=
  [(ex_env, EvStart); (ex_env, EvClearIncrementalState);
   (ex_env, EvOnPids (FlatSet_of_list [21]))].

(** The example snapshot with a boot clock that stops after a hundred
    readings, so that every reading fits [uint64]. *)
Definition ex_clock (n : nat) : Z := 1000 + Z.of_nat (Nat.min n 100).

Definition ex_env_clock : Env := mkEnv ex_fs ex_clock 123456.

Definition ex_clock_run : list (Env * Event FlatSet) :=
  [(ex_env_clock, EvStart); (ex_env_clock, EvClearIncrementalState);
   (ex_env_clock, EvTick); (ex_env_clock, EvOnPids (FlatSet_of_list [21]))].

(** The state a run ends in, or the initial state if it faults. *)
Definition final (cfg : ProcessStatsConfig) (evs : list (Env * Event FlatSet)) : State FlatSet :=
  match run evs (init_state cfg) with
  | Ok _ s => s
  | Fault _ => init_state cfg
  end.


(** The world a sequence of moves ends in, or the initial world if a
    move is disabled or faults. *)
Definition wfinal (cfg : ProcessStatsConfig) (ms : list (Move (SetT:=FlatSet))) :
    World (SetT:=FlatSet) :=
  match wrun ms (init_world cfg) with
  | Next w => w
  | _ => init_world cfg
  end.

(** The data source is started, its first task runs, a dump is
    requested and the next task runs. *)
Definition ex_moves : list (Move (SetT:=FlatSet)) :=
  [MCall ex_env EvStart; MTask ex_env 0%nat;
   MCall ex_env (EvOnPids (FlatSet_of_list [1; 20; 21])); MTask ex_env 0%nat].

(** A snapshot in which /proc cannot be opened, with a later clock. *)
Definition ex_env_closed : Env :=
  mkEnv (mkProcFs None (fun _ => None) (fun _ => None) (fun _ _ => None) (fun _ _ => None))
        (fun n => 500 + Z.of_nat n) 123000.

(** A status file whose [VmLck:] line has no value. *)
Definition ex_status_stale : bytes :=
  render_entry (lit "Name:") (lit "app") ++
  render_entry (lit "Tgid:") (lit "20") ++
  render_entry (lit "Pid:") (lit "20") ++
  render_entry (lit "VmSize:") (lit " 300 kB") ++
  lit "VmLck:" ++ [LF].

(** A process that names itself after a key of the file. *)
Definition ex_status_spoof : bytes :=
  render_entry (lit "Name:") (lit "Tgid:1") ++
  render_entry (lit "Tgid:") (lit "4242") ++
  render_entry (lit "Pid:") (lit "4242").

(** /proc with a directory named -1 whose status has no VmSize. *)
Definition ex_env_minus1 : Env :=
  mkEnv (mkProcFs (Some [ex_dir DT_DIR "-1"]) (fun _ => None) (fun _ => None)
           (fun pid f => if bool_decide (f = lit "status")
                         then Some (render_entry (lit "Name:") (lit "x")) else None)
           (fun _ _ => None))
        (fun n => 1000 + Z.of_nat n) 123456.

(** A process whose status file reports [VmRSS] but not [VmSize]. *)
Definition ex_env_no_vmsize : Env :=
  mkEnv (mkProcFs (Some [ex_dir DT_DIR "7"]) (fun _ => None) (fun _ => None)
           (fun pid f => if bool_decide (f = lit "status")
                         then Some (render_entry (lit "Name:") (lit "odd") ++
                                    render_entry (lit "Tgid:") (lit "7") ++
                                    render_entry (lit "Pid:") (lit "7") ++
                                    render_entry (lit "VmRSS:") (lit "  50 kB"))
                         else None)
           (fun _ _ => None))
        (fun n => 1000 + Z.of_nat n) 123456.

(** The descriptors a packet reports, per stats entry. *)
Definition reported_fds (s : State FlatSet) : list (Z * list Z) :=
  map (fun sp => (sp_pid sp, map fd_fd (sp_fds sp)))
      (concat (map packet_stats_processes (trace s))).

(** The counters a packet reports, per stats entry. *)
Definition reported_counters (s : State FlatSet) : list (Z * option Z * option Z) :=
  map (fun sp => (sp_pid sp, vm_size_kb (sp_counters sp), vm_locked_kb (sp_counters sp)))
      (concat (map packet_stats_processes (trace s))).

(** * Lemmas *)

Lemma ex_env_ok (ev : Event FlatSet) : ev_ok no_fault (make_settings ex_cfg) (ex_env, ev).
Proof.
  split; [split|].
  - intros tid pid f. unfold ReadProcPidFile. cbn [fst fs ex_env proc_file ex_fs]. unfold ex_file.
    rewrite bool_decide_eq_true_2 by reflexivity.
    destruct (pid =? 1); [vm_compute; discriminate|].
    destruct (pid =? 20); [vm_compute; discriminate|].
    destruct (pid =? 21); vm_compute; discriminate.
  - right. intros proc_dir [= <-]. apply (bool_decide_unpack _). vm_compute. exact I.
  - intros _. right. vm_compute. discriminate.
Qed.

Lemma ex_run_ok : Forall (ev_ok no_fault (make_settings ex_cfg)) ex_run.
Proof. apply Forall_forall. intros [e ev] Hin. 
  repeat (apply elem_of_cons in Hin as [[= -> ->]|Hin]; [apply ex_env_ok|]). inversion Hin. Qed.

Lemma ex_moves_reachable ms w :
  wrun ms (init_world ex_cfg) = Next w -> wreachable ex_cfg w.
Proof. apply wrun_reachable, rtc_refl. Qed.

(** * Witnesses *)

Lemma run_no_duplicate_process_witness :
  quiescent (final ex_cfg ex_run) /\
  exists new,
    trace_processes (trace (final ex_cfg ex_run)) =
      trace_processes (trace (final ex_cfg [(ex_env, EvStart)])) ++ new /\
    NoDup (map p_pid new) /\
    forall pid, pid ∈ map p_pid new ->
      set_count pid (seen_pids_ (final ex_cfg [(ex_env, EvStart)])) = false /\
      set_count pid (seen_pids_ (final ex_cfg ex_run)) = true.
Proof.
  apply (run_no_duplicate_process (tail ex_run) (final ex_cfg [(ex_env, EvStart)])).
  - vm_compute. repeat split.
  - repeat constructor.
  - vm_compute. reflexivity.
Defined.

Lemma run_returns_witness :
  exists s', run ex_run (init_state ex_cfg) = Ok tt s' /\
    quiescent s' /\ knobs s' = run_knobs ex_run (knobs (init_state ex_cfg)).
Proof. apply (run_returns ex_cfg ex_run), ex_run_ok. Defined.

Lemma reachable_quiescent_witness :
  quiescent (final ex_cfg [(ex_env, EvStart)]) /\
  settings (final ex_cfg [(ex_env, EvStart)]) = make_settings ex_cfg.
Proof.
  apply (reachable_quiescent ex_cfg).
  eapply rtc_l; [|apply rtc_refl].
  apply (step_handle ex_env EvStart). vm_compute. reflexivity.
Defined.

Lemma reachable_typed_witness : state_typed (final ex_cfg [(ex_env, EvStart)]).
Proof.
  apply (reachable_typed ex_cfg).
  - unfold cfg_wf, is_u32. cbn. lia.
  - eapply rtc_l; [|apply rtc_refl].
    apply (step_handle ex_env EvStart). vm_compute. reflexivity.
Defined.

Lemma cache_expires_witness :
  leads_to cache_dropped (replicate 10 (ex_env, EvTick)) (init_state (SetT:=FlatSet) ex_cfg).
Proof.
  apply (cache_expires ex_cfg).
  - unfold cfg_wf, is_u32. cbn. lia.
  - vm_compute. discriminate.
  - apply rtc_refl.
  - apply Forall_forall. intros x [-> _]%elem_of_replicate. apply ex_env_ok.
  - apply Nat.leb_le. vm_compute. reflexivity.
Defined.

Lemma run_refines_witness :
  exists s', run ex_run (init_state ex_cfg) = Ok tt s' /\ quiescent s' /\
    tree_view s' =
      abs_run (settings (init_state (SetT:=FlatSet) ex_cfg)) ex_run
              (tree_view (init_state ex_cfg)).
Proof.
  apply (run_refines ex_run (init_state ex_cfg)); [repeat split|apply ex_run_ok].
Defined.

Lemma run_refines_stats_witness :
  exists s', run ex_run (init_state ex_cfg) = Ok tt s' /\ quiescent s' /\
    stats_view s' =
      sv_run (settings (init_state (SetT:=FlatSet) ex_cfg)) ex_run
             (tree_view (init_state ex_cfg)) (stats_view (init_state ex_cfg)).
Proof.
  apply (run_refines_stats ex_run (init_state ex_cfg)); [repeat split|apply ex_run_ok].
Defined.

Lemma WriteProcess_appends_witness :
  wp (WriteProcess ex_env 1 (ex_status "init" "1" "1" "0" " 100 kB")) (fun _ s' =>
    cursor_wf s' /\
    emitted s' = emitted (init_state (SetT:=FlatSet) ex_cfg) ++
      [process_entry ex_env 1 (ex_status "init" "1" "1" "0" " 100 kB") TidArray_zero] /\
    seen_pids_ s' = set_insert 1 (seen_pids_ (init_state ex_cfg)) /\
    tids_to_pids_ s' = emplace 1 1 (tids_to_pids_ (init_state (SetT:=FlatSet) ex_cfg)) /\
    trace s' = trace (init_state (SetT:=FlatSet) ex_cfg) /\
    knobs s' = knobs (init_state (SetT:=FlatSet) ex_cfg)) (init_state ex_cfg).
Proof.
  apply WriteProcess_appends; [exact I|vm_compute; reflexivity].
Defined.

Lemma WriteProcessTree_skips_seen_witness :
  wp (WriteProcessTree ex_env (FlatSet_of_list [1; 20])) (fun _ s' =>
    trace s' = trace (final ex_cfg [(ex_env, EvStart)]) /\
    seen_pids_ s' = seen_pids_ (final ex_cfg [(ex_env, EvStart)]) /\
    knobs s' = knobs (final ex_cfg [(ex_env, EvStart)]) /\ quiescent s')
    (final ex_cfg [(ex_env, EvStart)]).
Proof.
  apply WriteProcessTree_skips_seen.
  - vm_compute. repeat split.
  - intros pid Hin. vm_compute in Hin. destruct Hin as [<-|[<-|[]]]; left; vm_compute; reflexivity.
Defined.

Lemma GetOrCreateStatsProcess_usable_witness :
  wp (GetOrCreateStatsProcess ex_env 1) (fun ij s' =>
    packet_frame (init_state (SetT:=FlatSet) ex_cfg) s' /\
    cur_ps_stats_process_ s' = Some ij /\
    (exists sp, cur_process s' = Some sp /\
       cur_process (upd_packet (alter_stats_process (sp_set_oom_score_adj 5)
                                                    (fst ij) (snd ij)) s')
       = Some (sp_set_oom_score_adj 5 sp)) /\
    (cur_ps_stats_process_ (init_state (SetT:=FlatSet) ex_cfg) = None ->
     cur_process s' = Some (new_stats_process 1))) (init_state ex_cfg).
Proof. apply GetOrCreateStatsProcess_usable. exact I. Defined.

Lemma GetOrCreatePsTree_usable_witness :
  wp (GetOrCreatePsTree ex_env) (fun i s' =>
    packet_frame (init_state (SetT:=FlatSet) ex_cfg) s' /\ cur_ps_tree_ s' = Some i /\
    let s'' := upd_packet (alter_tree (add_tree_process (mkTreeProcess 7 1 0 [] [])) i) s' in
    cursor_wf s'' /\
    emitted s'' = emitted (init_state (SetT:=FlatSet) ex_cfg) ++ [mkTreeProcess 7 1 0 [] []])
    (init_state ex_cfg).
Proof. apply GetOrCreatePsTree_usable. exact I. Defined.

Lemma make_settings_wf_witness :
  settings_wf (make_settings ex_cfg) /\
  poll_period_ms_ (make_settings ex_cfg) =
    (if (0 <? cfg_proc_stats_poll_ms ex_cfg) && (cfg_proc_stats_poll_ms ex_cfg <? 100)
     then 100 else cfg_proc_stats_poll_ms ex_cfg) /\
  (enable_on_demand_dumps_ (make_settings ex_cfg) = false <->
   DISABLE_ON_DEMAND ∈ cfg_quirks ex_cfg).
Proof. apply make_settings_wf. unfold cfg_wf, is_u32. cbn. lia. Defined.

Lemma tick_delay_aligned_witness :
  1 <= tick_delay 100 123456 <= 100 /\ next_tick_ms 100 123456 mod 100 = 0.
Proof. apply tick_delay_aligned; lia. Defined.

Lemma ReadProcStatusEntry_render_witness :
  ReadProcStatusEntry
    (render_entry (lit "Name:") (lit "init") ++
     render_entry (lit "Tgid:") (lit "1") ++ render_entry (lit "Pid:") (lit "1"))
    (lit "Tgid:") = lit "1".
Proof.
  apply (ReadProcStatusEntry_render (render_entry (lit "Name:") (lit "init")) (lit "Tgid:")
           "1"%char [] (render_entry (lit "Pid:") (lit "1"))).
  - apply (bool_decide_unpack _). vm_compute. exact I.
  - intros k Hk. do 11 (destruct k as [|k]; [vm_compute; reflexivity|]). cbn in Hk. lia.
  - reflexivity.
  - apply (bool_decide_unpack _). vm_compute. exact I.
Defined.

Lemma ReadNamespacedTids_spec_witness :
  ReadNamespacedTids 21 (render_entry (lit "NSpid:") (lit "21" ++ [TAB] ++ lit "1"))
                     TidArray_zero
  = inr (1 :: replicate 7 0).
Proof.
  rewrite ReadNamespacedTids_spec.
  - vm_compute. reflexivity.
  - cbn zeta. set (toks := tail _). vm_compute in (value of toks). subst toks.
    repeat (constructor; [eexists; vm_compute; reflexivity|]). constructor.
Defined.

Lemma write_counter_idempotent_witness :
  wp (write_counter ex_env 1 VmSize (lit "100 kB")) (fun _ s' =>
    cached_counter 1 VmSize s' = Some (ToU32 (lit "100 kB")) /\
    emitted s' = emitted (init_state (SetT:=FlatSet) ex_cfg) /\
    wp (write_counter ex_env 1 VmSize (lit "100 kB")) (fun _ s'' => s'' = s') s')
    (init_state ex_cfg).
Proof. apply write_counter_idempotent. exact I. Defined.

Lemma StartNewPacketIfNeeded_packet_witness :
  wp (StartNewPacketIfNeeded ex_env) (fun _ s' =>
    cur_packet_ s' =
      Some (mkTracePacket (Some (cur_procfs_scan_start_timestamp_ s'))
              (did_clear_incremental_state_ (init_state (SetT:=FlatSet) ex_cfg)) []) /\
    did_clear_incremental_state_ s' = false /\
    cur_procfs_scan_start_timestamp_ s' =
      (if cur_procfs_scan_start_timestamp_ (init_state (SetT:=FlatSet) ex_cfg) =? 0
       then wrap_u64 (boot_time_ns ex_env (clock_reads (init_state (SetT:=FlatSet) ex_cfg)))
       else cur_procfs_scan_start_timestamp_ (init_state (SetT:=FlatSet) ex_cfg)) /\
    same_tables (init_state ex_cfg) s' /\ trace s' = trace (init_state (SetT:=FlatSet) ex_cfg))
    (init_state ex_cfg).
Proof. apply StartNewPacketIfNeeded_packet. reflexivity. Defined.

Lemma Start_stats_one_entry_witness :
  exists s', Start ex_env (init_state (SetT:=FlatSet) ex_cfg) = Ok tt s' /\ quiescent s' /\
    exists l, trace_stats (trace s') =
                trace_stats (trace (init_state (SetT:=FlatSet) ex_cfg)) ++ l /\
              (length l <= 1)%nat.
Proof.
  apply Start_stats_one_entry; [repeat split|exact (proj1 (proj1 (ex_env_ok EvStart)))].
Defined.

Lemma mem_lines_stale_value_witness :
  mem_lines_from (mkMemParser [] [] kKey)
    ((lit "VmSize" ++ COLON :: [TAB; SPACE] ++ "3"%char :: lit "00 kB") ++
     LF :: (lit "VmLck" ++ COLON :: []) ++ LF :: []) =
  (c_str (lit "VmSize"), c_str ("3"%char :: lit "00 kB")) ::
  (c_str (lit "VmLck"), c_str ("3"%char :: lit "00 kB")) ::
  mem_lines_from (mkMemParser [] (("3"%char :: lit "00 kB") ++ [NUL; NUL]) kKey) [].
Proof.
  apply mem_lines_stale_value; apply (bool_decide_unpack _); vm_compute; exact I.
Defined.

Lemma failed_scan_keeps_timestamp_witness :
  wp (WriteAllProcessStats ex_env_closed) (fun _ s1 =>
    quiescent s1 /\ knobs s1 = knobs (init_state (SetT:=FlatSet) ex_cfg) /\
    trace s1 = trace (init_state (SetT:=FlatSet) ex_cfg) /\
    wp (StartNewPacketIfNeeded ex_env) (fun _ s2 =>
      timestamp <$> cur_packet_ s2 =
      Some (Some (wrap_u64 (boot_time_ns ex_env_closed
                              (clock_reads (init_state (SetT:=FlatSet) ex_cfg)))))) s1)
    (init_state ex_cfg).
Proof.
  apply failed_scan_keeps_timestamp;
    [repeat split|reflexivity|reflexivity|vm_compute; discriminate].
Defined.

Lemma ReadProcStatusEntry_spoofed_witness :
  ReadProcStatusEntry ex_status_spoof (lit "Tgid:") = lit "1".
Proof.
  apply (ReadProcStatusEntry_spoofed (lit "Tgid:") "T"%char "1"%char []
           (render_entry (lit "Tgid:") (lit "4242") ++ render_entry (lit "Pid:") (lit "4242")));
    try (apply (bool_decide_unpack _); vm_compute; exact I); reflexivity.
Defined.

Lemma Tick_minus_one_witness :
  Tick ex_env_minus1 (init_state (SetT:=FlatSet) ex_cfg) = Fault UndefinedBehaviour.
Proof.
  apply (Tick_minus_one ex_cfg ex_env_minus1 [ex_dir DT_DIR "-1"]).
  - apply rtc_refl.
  - reflexivity.
  - apply (bool_decide_unpack _). vm_compute. exact I.
  - vm_compute. discriminate.
  - vm_compute. reflexivity.
Defined.

Lemma polling_off_witness :
  posted (final (mkProcessStatsConfig [] true true 0 1000 true) [(ex_env, EvStart)]) = [] /\
  Tick ex_env (final (mkProcessStatsConfig [] true true 0 1000 true) [(ex_env, EvStart)])
  = Fault UndefinedBehaviour.
Proof.
  apply (polling_off (mkProcessStatsConfig [] true true 0 1000 true) ex_env);
    [reflexivity|].
  eapply rtc_l; [|apply rtc_refl].
  apply (step_handle ex_env EvStart). vm_compute. reflexivity.
Defined.

Lemma run_emits_witness :
  exists new,
    trace (final ex_cfg ex_cleared_run) = trace (init_state (SetT:=FlatSet) ex_cfg) ++ new /\
    emits false (run_marks ex_cleared_run) new
      (did_clear_incremental_state_ (final ex_cfg ex_cleared_run)).
Proof.
  apply (run_emits ex_cfg ex_cleared_run (init_state ex_cfg)); [apply rtc_refl|].
  vm_compute. reflexivity.
Defined.

Lemma seen_described_witness :
  did_clear_incremental_state_ (final ex_cfg ex_cleared_run) = false /\
  1 ∈ epoch_ids (trace (final ex_cfg ex_cleared_run)).
Proof.
  apply (seen_described ex_cfg (final ex_cfg ex_cleared_run) 1); [|vm_compute; reflexivity].
  apply (run_reachable ex_cfg ex_cleared_run (init_state ex_cfg)); [apply rtc_refl|].
  vm_compute. reflexivity.
Defined.

Lemma handle_describes_witness :
  set_count 21 (seen_pids_ (final ex_cfg ex_asked_run)) = true /\
  21 ∈ epoch_ids (trace (final ex_cfg ex_asked_run)).
Proof.
  apply (handle_describes ex_cfg ex_env (EvOnPids (FlatSet_of_list [21]))
           (final ex_cfg [(ex_env, EvStart); (ex_env, EvClearIncrementalState)])).
  - apply (run_reachable ex_cfg [(ex_env, EvStart); (ex_env, EvClearIncrementalState)]
             (init_state ex_cfg)); [apply rtc_refl|].
    vm_compute. reflexivity.
  - vm_compute. reflexivity.
  - vm_compute. repeat split. discriminate.
Defined.

(** [Tick] after a clearing describes the two processes it polls, in
    the packet that follows their stats. *)
Example tick_describes_example :
  polled ex_env (skip_stats_for_pids_ (final ex_cfg [(ex_env, EvClearIncrementalState)])) 20 /\
  describable ex_env 20 = true /\
  epoch_ids (trace (final ex_cfg [(ex_env, EvClearIncrementalState); (ex_env, EvTick)])) =
    [1; 20] /\
  map packet_phase
      (trace (final ex_cfg [(ex_env, EvClearIncrementalState); (ex_env, EvTick)])) =
    [Some StatsPhase; Some TreePhase].
Proof.
  split; [|vm_compute; repeat split; reflexivity].
  eexists. split; [reflexivity|]. split; [|vm_compute; split; reflexivity].
  apply (bool_decide_unpack _). vm_compute. exact I.
Qed.

(** Why [Tick] is asked only for the processes that report [VmSize]:
    the counters of a status file are written as its lines are read,
    and the file counts as having memory counters only if a [VmSize]
    line is among them.  A process that reports [VmRSS] alone gets a
    stats entry, is marked to be skipped, and is never described,
    though it could be. *)
Example stats_without_description :
  describable ex_env_no_vmsize 7 = true /\
  map (fun sp => (sp_pid sp, get_counter VmRSS (sp_counters sp)))
      (trace_stats (trace (final ex_cfg [(ex_env_no_vmsize, EvTick)]))) = [(7, Some 50)] /\
  epoch_ids (trace (final ex_cfg [(ex_env_no_vmsize, EvTick)])) = [] /\
  skip_bit (skip_stats_for_pids_ (final ex_cfg [(ex_env_no_vmsize, EvTick)])) 7 = true.
Proof. vm_compute. repeat split; reflexivity. Qed.

Lemma run_timestamps_witness :
  Forall in_order (trace (final ex_cfg ex_clock_run)) /\
  StronglySorted Z.le (stamps (trace (final ex_cfg ex_clock_run))).
Proof.
  apply (run_timestamps ex_clock) with (cfg := ex_cfg) (evs := ex_clock_run).
  - intros i j Hij. unfold ex_clock. lia.
  - intros k. unfold is_u64, ex_clock. lia.
  - repeat constructor.
  - vm_compute. reflexivity.
Defined.

(** The timestamps of that run: each packet is stamped with the first
    reading of its scan. *)
Example timestamps_worked_example :
  stamps (trace (final ex_cfg ex_clock_run)) = [1000; 1002; 1004; 1006; 1008].
Proof. vm_compute. reflexivity. Qed.

Lemma polling_chain_witness :
  reachable ex_cfg (w_obj (wfinal ex_cfg ex_moves)) /\
  (length (w_pending (wfinal ex_cfg ex_moves)) <= starts (w_obj (wfinal ex_cfg ex_moves)))%nat /\
  (w_alive (wfinal ex_cfg ex_moves) = true ->
   length (w_pending (wfinal ex_cfg ex_moves)) = starts (w_obj (wfinal ex_cfg ex_moves))) /\
  (w_pending (wfinal ex_cfg ex_moves) <> [] ->
   poll_period_ms_ (settings (w_obj (wfinal ex_cfg ex_moves))) <> 0).
Proof.
  apply (polling_chain ex_cfg), (ex_moves_reachable ex_moves). vm_compute. reflexivity.
Defined.

Lemma world_safe_witness :
  wexec (MTask ex_env 0%nat) (wfinal ex_cfg ex_moves) = Disabled \/
  exists w', wexec (MTask ex_env 0%nat) (wfinal ex_cfg ex_moves) = Next w' /\
             wreachable ex_cfg w'.
Proof.
  apply (world_safe ex_cfg).
  - apply (ex_moves_reachable ex_moves). vm_compute. reflexivity.
  - exact (proj1 (ex_env_ok EvStart)).
Defined.

Lemma dead_world_halts_witness :
  w_obj (wfinal ex_cfg (ex_moves ++ [MDestroy; MTask ex_env 0%nat])) =
    w_obj (wfinal ex_cfg (ex_moves ++ [MDestroy])) /\
  w_alive (wfinal ex_cfg (ex_moves ++ [MDestroy; MTask ex_env 0%nat])) = false /\
  (1 +
   length (w_pending (wfinal ex_cfg (ex_moves ++ [MDestroy; MTask ex_env 0%nat]))) =
   length (w_pending (wfinal ex_cfg (ex_moves ++ [MDestroy]))))%nat.
Proof.
  apply (dead_world_halts [MTask ex_env 0%nat]); vm_compute; reflexivity.
Defined.

(** * Behaviours the model brought to light *)

(** On start, the descriptors of every process are reported under the
    first process: process 1 has descriptors 0 and 3, process 20 has
    descriptor 5, and the packet attributes all three to pid 1.  The
    loop over [seen_pids_] at the end of [WriteAllProcesses] does not
    reset [cur_ps_stats_process_] between pids, as the loops of
    [WriteAllProcessStats] and [OnFds] do. *)
Example start_fds_under_first_process :
  reported_fds (final ex_cfg [(ex_env, EvStart)]) = [(1, [0; 3; 5])].
Proof. vm_compute. reflexivity. Qed.

(** The same descriptors requested through [OnFds] are attributed to
    their own processes. *)
Example OnFds_fds_per_process :
  reported_fds (final (mkProcessStatsConfig [] false true 50 1000 true)
    [(ex_env, EvOnFds [(1, FlatSet_of_list [0; 3]); (20, FlatSet_of_list [5])])])
  = [(1, [0; 3]); (20, [5])].
Proof. vm_compute. reflexivity. Qed.

(** A line without a value reports the value of the line before it:
    [VmLck:] has no value in [ex_status_stale], and the state machine
    reports the 300 of [VmSize:] for it, because the value vector is not
    cleared at a line feed. *)
Example stale_value_reported :
  status_lines ex_status_stale =
  [(lit "Name", lit "app"); (lit "Tgid", lit "20"); (lit "Pid", lit "20");
   (lit "VmSize", lit "300 kB"); (lit "VmLck", lit "300 kB")] /\
  reported_counters
    (final (mkProcessStatsConfig [] false true 100 1000 false)
       [(mkEnv (mkProcFs (Some [ex_dir DT_DIR "20"]) (fun _ => None) (fun _ => None)
                  (fun pid f => if bool_decide (f = lit "status")
                                then Some ex_status_stale else None)
                  (fun _ _ => None))
               (fun n => 1000 + Z.of_nat n) 123456, EvTick)])
  = [(20, Some 300, Some 300)].
Proof. vm_compute. split; reflexivity. Qed.

(** [ReadProcStatusEntry] finds a key anywhere in the file, not only at
    the start of a line: a process whose name is [Tgid:1] is taken for a
    thread of process 1. *)
Example status_key_in_name :
  ToInt (ReadProcStatusEntry ex_status_spoof (lit "Tgid:")) = 1 /\
  ToInt (ReadProcStatusEntry ex_status_spoof (lit "Pid:")) = 4242.
Proof. vm_compute. split; reflexivity. Qed.

(** A scan that cannot open /proc leaves its timestamp behind: the
    packet written by the next handler carries the time of the failed
    scan (500), not of its own (1000). *)
Example stale_scan_timestamp :
  map timestamp (trace (final ex_cfg
     [(ex_env_closed, EvTick); (ex_env, EvOnPids (FlatSet_of_list [1]))])) = [Some 500] /\
  map timestamp (trace (final ex_cfg
     [(ex_env, EvOnPids (FlatSet_of_list [1]))])) = [Some 1000].
Proof. vm_compute. split; reflexivity. Qed.

(** The packets of the example run: a process tree and the stats of the
    descriptors at [Start], the stats of the counters at the first
    [Tick]; the tree of that [Tick], [OnPids], [Flush] and the second
    [Tick] release nothing, since every process is known and every
    value is in the cache. *)
Example packets_worked_example :
  map packet_phase (trace (final ex_cfg ex_run)) =
    [Some TreePhase; Some StatsPhase; Some StatsPhase] /\
  sent_kinds (run_marks ex_run) =
    [TreePhase; StatsPhase; StatsPhase; TreePhase; TreePhase; StatsPhase; TreePhase] /\
  map timestamp (trace (final ex_cfg ex_run)) = [Some 1000; Some 1002; Some 1004].
Proof. vm_compute. repeat split; reflexivity. Qed.

(** The packets of a run that clears the incremental state after
    [Start]: the process asked for next is described again, in a packet
    that announces the clearing, and the packets after it do not. *)
Example cleared_worked_example :
  map packet_phase (trace (final ex_cfg ex_cleared_run)) =
    [Some TreePhase; Some StatsPhase; Some TreePhase; Some StatsPhase; Some TreePhase] /\
  map incremental_state_cleared (trace (final ex_cfg ex_cleared_run)) =
    [false; false; true; false; false] /\
  did_clear_incremental_state_ (final ex_cfg ex_cleared_run) = false /\
  set_elements (seen_pids_ (final ex_cfg ex_cleared_run)) = [1; 20] /\
  epoch_ids (trace (final ex_cfg ex_cleared_run)) = [1; 20] /\
  length (epoch (trace (final ex_cfg ex_cleared_run))) = 3%nat.
Proof. vm_compute. repeat split; reflexivity. Qed.

(** The example moves leave one task pending, the successor of the
    second [Tick]; after the destructor it runs without effect, and
    then nothing can happen: no task is left and no method can be
    called. *)
Example world_worked_example :
  map task_delay_ms (w_pending (wfinal ex_cfg ex_moves)) = [Some 44] /\
  wrun [MDestroy; MTask ex_env 0%nat] (wfinal ex_cfg ex_moves) =
    Next (mkWorld (w_obj (wfinal ex_cfg ex_moves)) false []) /\
  wexec (MCall ex_env EvStart) (mkWorld (w_obj (wfinal ex_cfg ex_moves)) false []) = Disabled.
Proof. vm_compute. repeat split; reflexivity. Qed.

(** What the example run writes, computed by the abstract machine: the
    entries of processes 1 and 20, with threads and processes 1, 20 and
    21 seen and nothing to skip. *)
Example abs_run_worked_example :
  let v := abs_run (make_settings ex_cfg) ex_run (mkTreeView [] (set_empty (T:=FlatSet)) []) in
  map (fun pr => (p_pid pr, p_ppid pr, p_uid pr)) (tv_entries v) = [(1, 0, 1000); (20, 1, 1000)] /\
  set_elements (tv_seen v) = [1; 20; 21] /\ tv_skip v = [].
Proof. vm_compute. repeat split; reflexivity. Qed.

(** The threads and the stats of the example run, computed by the
    abstract machine: one thread entry; at [Start] one stats entry, for
    pid 1, which holds the descriptors of every process; at the first
    [Tick] an entry for each process with its counters; nothing at the
    second [Tick], when every value is in the cache. *)
Example sv_run_worked_example :
  let w := sv_run (make_settings ex_cfg) ex_run
             (mkTreeView [] (set_empty (T:=FlatSet)) []) (mkStatsView [] ∅ [] false ∅ 0) in
  map (fun th => (t_tid th, t_tgid th, t_name th)) (sv_threads w) =
    [(21, 20, Some (lit "worker"))] /\
  map (fun sp => (sp_pid sp, vm_size_kb (sp_counters sp), sp_oom_score_adj sp,
                  map fd_fd (sp_fds sp))) (sv_stats w) =
    [(1, None, None, [0; 3; 5]); (1, Some 100, Some (-1000), []);
     (20, Some 300, Some (-1000), [])] /\
  map_to_list (sv_tids w) = [(21, 20); (20, 20); (1, 1)] /\ sv_ticks w = 2.
Proof. vm_compute. repeat split; reflexivity. Qed.

(** A thread whose group leader has no status file (the process went
    away between the two reads) still gets a process entry for the
    group, with parent 0, uid 0 and an empty name: the second status
    file is not checked for emptiness as the first is. *)
Example vanished_leader_entry :
  map (fun pr => (p_pid pr, p_ppid pr, p_uid pr, p_cmdline pr))
      (tv_entries (view_delta
              (mkEnv (mkProcFs None (fun _ => None) (fun _ => None)
                        (fun pid f => if (pid =? 21) && bool_decide (f = lit "status")
                                      then Some (ex_status "worker" "20" "21" "1" " 300 kB")
                                      else None)
                        (fun _ _ => None))
                     (fun n => 1000 + Z.of_nat n) 123456)
              (mkTreeView [] (set_empty (T:=FlatSet)) []) 21))
  = [(20, 0, 0, [[]])].
Proof. vm_compute. reflexivity. Qed.

(** * The grouping-id column of the specification *)

(** The column [0,0,1,1,1,4]: sets start at rows 0, 2 and 5. *)
Definition ex_col : SetIdStorage := mkSetIdStorage [0; 0; 1; 1; 1; 4].

Lemma ex_col_valid : valid ex_col.
Proof. apply setid_ok_valid. reflexivity. Qed.

Lemma Search_correct_witness :
  positions (Search ex_col kEq (Long 1) (mkRange 0 6)) =
    scan ex_col kEq (Long 1) (range_positions (mkRange 0 6)) /\
  (kEq <> kNe -> exists r, Search ex_col kEq (Long 1) (mkRange 0 6) = OfRange r).
Proof. apply Search_correct; [apply ex_col_valid|cbn; lia]. Defined.

Lemma Search_Eq_block_witness :
  exists b e,
    Search ex_col kEq (Long 1) (mkRange 0 (length (values_ ex_col))) = OfRange (mkRange b e) /\
    (b <= e <= length (values_ ex_col))%nat /\
    forall i, (b <= i < e)%nat <-> (i < length (values_ ex_col))%nat /\ value_at ex_col i = 1.
Proof. apply Search_Eq_block, ex_col_valid. Defined.

Lemma partition_point_linear_witness :
  partition_point 3 (fun x => x <? 1) (values_ ex_col) 0 6 =
    linear_point (6 - 0) (fun x => x <? 1) (values_ ex_col) 0 /\
  is_point (fun x => x <? 1) (values_ ex_col) 0 6
    (partition_point 3 (fun x => x <? 1) (values_ ex_col) 0 6).
Proof.
  apply partition_point_linear; [lia| |vm_compute; lia].
  intros i j Hij Hj. rewrite !Z.ltb_lt.
  pose proof (valid_mono ex_col ex_col_valid i j ltac:(cbn; lia)) as Hm.
  unfold value_at in Hm. lia.
Defined.

Lemma BinarySearchIntrinsic_narrowing_witness :
  range_positions (BinarySearchIntrinsic ex_col kEq 4 (mkRange 1 6)) =
  range_positions (bounds (values_ ex_col) kEq 4 1 6).
Proof.
  apply (BinarySearchIntrinsic_narrowing ex_col 4 (mkRange 1 6));
    [apply ex_col_valid|cbn; lia|lia].
Defined.


Lemma IndexSearch_sorted_equiv_witness :
  IndexSearch ex_col kGe (Long 1) [1; 3; 2; 5]%nat true ≡
    IndexSearch ex_col kGe (Long 1) [1; 3; 2; 5]%nat false /\
  reported [1; 3; 2; 5]%nat (IndexSearch ex_col kGe (Long 1) [1; 3; 2; 5]%nat true) =
    scan ex_col kGe (Long 1) [1; 3; 2; 5]%nat.
Proof.
  apply IndexSearch_sorted_equiv; [apply ex_col_valid|].
  cbn. repeat constructor; lia.
Defined.

Lemma size_value_bounds_witness :
  size ex_col = Z.of_nat (length (values_ ex_col)) /\ 0 <= size ex_col < 2 ^ 32 /\
  (forall i, 0 <= value_at ex_col i <= Z.min (Z.of_nat i) UINT32_MAX) /\
  (forall i j, (i <= j < length (values_ ex_col))%nat -> value_at ex_col i <= value_at ex_col j).
Proof. apply size_value_bounds. reflexivity. Defined.


(** The worked example of the specification, evaluated: on the
    column [0,0,1,1,1,4], [Eq 1] over all rows is the span [[2,5)],
    [Ge 4] is [[5,6)], [Lt 0] is empty, [Ne 1] is rows 0, 1 and 5, and
    the subset search for [Eq 1] over the rows in descending order
    reports rows 4, 3 and 2; sorting the rows in descending order gives
    them back in ascending order of value, equal values in the order
    they had. *)
Example SetIdStorage_worked_example :
  Search ex_col kEq (Long 1) (mkRange 0 6) = OfRange (mkRange 2 5) /\
  Search ex_col kGe (Long 4) (mkRange 0 6) = OfRange (mkRange 5 6) /\
  positions (Search ex_col kLt (Long 0) (mkRange 0 6)) = [] /\
  positions (Search ex_col kNe (Long 1) (mkRange 0 6)) = [0; 1; 5]%nat /\
  reported [5; 4; 3; 2; 1; 0]%nat
    (IndexSearch ex_col kEq (Long 1) [5; 4; 3; 2; 1; 0]%nat false) = [4; 3; 2]%nat /\
  StableSort ex_col [5; 4; 3; 2; 1; 0]%nat = [1; 0; 4; 3; 2; 5]%nat /\
  projection ex_col (Sort ex_col [5; 4; 3; 2; 1; 0]%nat) = [0; 0; 1; 1; 1; 4].
Proof. vm_compute. repeat split. Qed.

(** * The timeline of the redaction test *)

Lemma Timeline_Search_order_independent_witness :
  Timeline_Search
    (timeline_of [Open kTimeA kPidA 0 kUidA; Open_no_uid kTimeC kPidB kPidA;
                  Close kTimeE kPidB]) kTimeD kPidB =
  Timeline_Search
    (timeline_of (rev [Open kTimeA kPidA 0 kUidA; Open_no_uid kTimeC kPidB kPidA;
                       Close kTimeE kPidB])) kTimeD kPidB.
Proof.
  apply Timeline_Search_order_independent; [apply Permutation_rev|].
  refine (bool_decide_unpack (NoDup _) _). vm_compute. exact I.
Defined.

(** Two events of one pid at the same time: the answer depends on the
    order in which they were appended. *)
Example same_time_depends_on_order :
  Timeline_Search (timeline_of [Open kTimeB kPidB 0 kUidA; Close kTimeB kPidB]) kTimeB kPidB =
    mkSlice kPidB kUidA /\
  Timeline_Search (timeline_of [Close kTimeB kPidB; Open kTimeB kPidB 0 kUidA]) kTimeB kPidB =
    mkSlice kPidB kNoPackage.
Proof. vm_compute. split; reflexivity. Qed.

(** Two processes that name each other as parent and have no uid: the
    search gives up after [kMaxSearchDepth] parents. *)
Example parent_cycle_terminates :
  Timeline_Search
    (timeline_of [Open_no_uid kTimeA kPidA kPidB; Open_no_uid kTimeA kPidB kPidA])
    kTimeC kPidA = mkSlice kPidA kNoPackage.
Proof. vm_compute. reflexivity. Qed.
